(* ===== verification/_CoqProject ===== *)
-Q . S2P
Prelude.v
Decimal.v
Itoa.v
Types.v
Doubles.v
Ieee754.v
DiyFp.v
Dtoa.v
Grisu.v
Rounding.v
DoubleValid.v
DtoaRoundtrip.v
Strtod.v
StringBuffer.v
Encodings.v
Value.v
Handler.v
Document.v
Reader.v
ReaderLogic.v
ReaderTotal.v
IterativeParser.v
DocumentParse.v
Writer.v
WriterCorrect.v
ReaderRoundtrip.v
WorkerQueue.v
EnqueueRace.v
Calendar.v
Processed.v
BucketRace.v
Routing.v
Payload.v
Processing.v
Service.v
PostHandler.v
PostRace.v
QueueRace.v
System.v
Profiler.v
SummaryHandler.v
Drain.v
Config.v
Regex.v
Multimap.v
HttpString.v
Uri.v
HttpRequest.v
HttpResponse.v
HttpSession.v
SocketWrites.v
HttpService.v
Endpoint.v
Connections.v
EndToEnd.v
