(* ===== verification/Prelude.v ===== *)
(** * Verification of the payments service (rinha-backend-2025)

    The program is [src/src/main.cpp]: an HTTP service that accepts payments,
    queues them, forwards each to one of two payment processors, books what a
    processor accepted in buckets of one second, and reports the totals of a
    time window.  It talks to its clients and to a second instance in JSON with
    the vendored library [src/include/rapidjson], whose code runs in every
    summary, and over HTTP with the vendored framework [src/restbed], whose code
    runs in every request; both are modelled here as well.  Everything is a shallow embedding:
    an operation is a function on explicit state with the result type
    [outcome], which keeps returned values, C++ exceptions and undefined
    behaviour apart ([AssertionFailed] is a violated [RAPIDJSON_ASSERT]).

    ** The service (src/src/main.cpp)

    - Types.v: [ProcessorResult], [Payment], [RawPayment], [Summary].
    - WorkerQueue.v: the ring buffer of a worker, [enqueue] and [fetch_next]
      with their 64-bit counters, refined to a first-in first-out list; what a
      full buffer does.  EnqueueRace.v: two concurrent [enqueue] calls as
      interleaved memory accesses.  QueueRace.v: [enqueue] beside [fetch_next].
    - Calendar.v: the calendar functions of C, [parse_timestamp_ms] and the
      [requestedAt] text, inverse to each other.
    - Processed.v: the two vectors of buckets, [store_processed] and [query]
      with its signed and unsigned index arithmetic, related to an abstract log
      of payments ([represents]); the window of a query, its borders and its
      totality.  BucketRace.v: bookings in one bucket by several threads, and a
      query's copy of a bucket meanwhile.
    - Routing.v: the processor labels, URLs, timings and down flags,
      [handle_response], [update_time], [evaluate_switch], [trigger_switch] as
      a transition system with its invariant.
    - Payload.v: [create_processor_payload] with the thread's timestamp cache.
    - Processing.v: [send_to_processor] and [process_payment] over libcurl and
      the clocks (class [World]).
    - Service.v: [process], [worker_loop], the fallback pool and
      [post_payment_handler]; PostHandler.v: the handler's theorems;
      PostRace.v: two handlers at once; System.v:
      requests, workers and pool threads interleaved ([run]), no payment lost
      or booked twice; Drain.v: a worker empties its queue while the processors
      answer.
    - Config.v: the constructor, [atoi], [atof] and the destructor's flag.
    - Profiler.v: the profiler's maps and its report.
    - SummaryHandler.v: [payments_summary_handler], [call_other_instance] and
      [service_health], from the query to the bytes sent, and the composition
      of two instances.

    - Endpoint.v: the handlers of the four routes over a session, and [main]'s
      resources, settings and calls of [publish] and [start].  Connections.v: the
      program seen from a connection, from bytes that arrive to bytes that are
      sent.  EndToEnd.v: requests, workers, the pool and a summary composed.

    ** The HTTP framework (src/restbed/source/corvusoft/restbed)

    - Regex.v, Multimap.v: [std::regex] with backtracking, and the ordered maps
      of the standard library; they translate the language, not the program.
    - HttpString.v: string.cpp and common.hpp.  Uri.v: uri.cpp, percent
      encoding and its inverse, and what the URI of a request means.
    - HttpRequest.v: request.cpp and the parsing of a head in
      detail/service_impl.cpp; [read_request_cases] says what is read from any
      stream.  HttpResponse.v: settings.cpp, response.cpp, [transmit], http.cpp
      and detail/http_impl.cpp.
    - HttpSession.v: session.cpp and detail/session_impl.cpp; a handler is a
      function on a [Context] (session, connection, state of the program) that
      ends in an [exchange].  SocketWrites.v: the queue of pending writes of
      detail/ipc_socket_impl.cpp as a transition system.
    - HttpService.v: resource.cpp, rule.cpp, service.cpp,
      detail/rule_engine_impl.hpp and the routing of detail/service_impl.cpp,
      up to [serve], the rounds of one connection.

    ** The JSON library (src/include/rapidjson)

    - Decimal.v, Itoa.v: decimal notation, and internal/itoa.h against it.
    - Doubles.v, Ieee754.v, DiyFp.v, Dtoa.v, Grisu.v, Rounding.v,
      DoubleValid.v, DtoaRoundtrip.v: doubles as [SpecFloat] numbers, their bit fields
      (ieee754.h), DiyFp arithmetic and cached powers (diyfp.h), Grisu2 and
      [dtoa] (dtoa.h), and the proof that what is printed lies in the rounding
      interval, so that a correctly rounding reader returns the same double.
    - Strtod.v: the parser's own conversion (strtod.h, pow10.h), exact on short
      numbers.
    - StringBuffer.v: internal/stack.h and stringbuffer.h, refined to a list of
      bytes.  Encodings.v: string streams (stream.h) and UTF-8 (encodings.h).
    - Value.v, Handler.v, Document.v: values, the events of [Accept], and the
      document that is built from events (document.h).
    - Writer.v, WriterCorrect.v: writer.h, and the text it produces
      ([json_text]).
    - Reader.v: the recursive and the iterative parser (reader.h).
      ReaderLogic.v, ReaderTotal.v: rules for its parsing functions, and that
      each returns and fails no assertion.  IterativeParser.v: the two parsers
      agree.  DocumentParse.v: [Document::Parse].  ReaderRoundtrip.v: parsing
      what was printed, and the text whose exponent overflows.

    [Handler] (Handler.v), [OutputStream] (Encodings.v), [World]
    (Processing.v) and [Transport] (HttpSession.v) are the interfaces between
    them, as type classes: the writer and the document are handlers, the parser
    is proved against any handler, and connections against any transport that
    keeps the laws of asio's reads ([Chunks] is one).

    ** What the theorems show

    - The whole way: [posted_payments_reported], from the bytes of the posts to
      the bytes of the summary; [deployment_reported], the same for two instances
      of which one asks the other.  [constructed_service] gives their start.
    - Payments: [payments_conserved], [worker_drains], [ring_refines_fifo],
      [round_robin], [process_payment_outcome], [payload_amount],
      [store_processed_refines], [query_counts_window], [timestamp_roundtrip].
    - Routing between the processors: [routing_invariant],
      [evaluate_switch_decision], [failover_on_500],
      [disabled_fallback_never_used].
    - Summaries: [summary_merges_instances] composes the query, the writer, the
      transfer and the parser of two instances; [service_health_total].
    - Threads: [spsc_linearizable] (one producer and one consumer of a queue
      need no lock as long as a slot is written before it is read),
      [enqueue_interleavings], [concurrent_posts] and [concurrent_bookings] (what
      every schedule of two requests, and of any number of bookings, may leave
      behind).
    - HTTP: [payments_framed] (any number of payments sent at once reach the
      queues body by body), [connection_refines_system] (each is a step of
      System.v), [summary_request_answered],
      [internal_request_answered], [dispatch_table], [bad_heads_refused],
      [writes_in_order], [writes_end], [response_roundtrip],
      [request_roundtrip].
    - JSON: [writer_prints_json], [parse_print_roundtrip],
      [document_parse_total], [iterative_agrees], [dtoa_roundtrip],
      [document_clones], [utf8_roundtrip], [stringbuffer_refines_list],
      [itoa_prints_decimal], [number_accessors], [mul_branches_agree],
      [double_view].
    - Limits and defects, stated as they are: [unsized_payment],
      [duplicate_paths], [replace_diverges], [early_fetch_loses_payment], [torn_copy],
      [enqueue_full_overwrites], [raw_payment_roundtrip],
      [secondary_422_is_retried], [query_before_start_returns_all],
      [query_lower_bound_exclusive], [store_after_capacity_undefined],
      [down_processor_promoted], [down_flag_is_last_500],
      [summary_not_finite_truncated], [long_fraction_overflows].

    ** Bounds and fuel

    Integers are [Z] with the wrap-around of their width written out.  Loops
    that are not structural carry fuel: the query loop runs at most
    [PROCESSED_CAPACITY] times ([query_total]); the parser's loops and its
    recursion get the length of the remaining text, which
    [document_parse_total] and [iterative_agrees] show to be enough; the loops
    of Grisu2 have constant fuel covered by [dtoa_roundtrip].  A line of a
    head takes at least one character, so that the loops over lines get the
    length of the stream; [String::replace] gets one round per character, which
    [replace_loop_char] shows to be enough where the program uses it and
    [replace_diverges] shows to be too little for ever elsewhere.  A connection
    is served for a number of rounds ([serve]).  The regular expressions cover
    the constructs the sources use, and matching is total; the depth of
    libstdc++'s recursion is not limited.  Texts are below
    2^31 bytes where the parser is concerned, and below 214748000 where it is to
    return for certain: from 214748056 fraction digits on an exponent can
    overflow an [int] ([long_fraction_overflows]).  The parser's theorems are for
    the flags of [modelled_flags] without encoding validation.  Single strings below 2^29 and
    written documents below 2^60, so that the library's 32- and 64-bit sizes do
    not overflow.  Doubles are evaluated operation by operation in round to
    nearest, without contraction to fused operations.

    ** Not modelled

    libcurl, asio, [getenv], the clocks and the operating system are
    parameters: what they return is an argument, with the documented behaviour
    a theorem needs as a named hypothesis.  Of [main], printing, the files of
    the socket, the cool down and libcurl's global state are I/O.  Of restbed:
    TCP, SSL and web sockets, listening, signals, scheduling, logging, timeouts
    of a connection, the session manager (the default one only calls back) and
    the client's connections; in HttpSession.v a write ends without an error
    (SocketWrites.v has the errors), and the program sets no error handlers,
    rules, filters or authentication.  src/restbed-docker is a copy of
    src/restbed.  Of rapidjson:
    in-situ parsing, numbers as strings, full precision conversion,
    [IterativeParseNext], other encodings, the SIMD specialisations (not
    compiled in), memory layout and allocators, and the headers the program
    does not use.  The rocksdb headers are not used at all.  Threads interleave
    at the grain of whole handlers and iterations in System.v, Drain.v and
    EndToEnd.v, and at the grain of memory accesses in EnqueueRace.v,
    QueueRace.v, PostRace.v and BucketRace.v: these say what the coarser grain
    leaves out, for a memory that is sequentially consistent and slots that are
    copied in one access; the routing and the thread handles are not taken
    apart further. *)
From stdpp Require Export base list gmap strings.
From Stdlib Require Export ZArith Lia.

#[export] Set Default Goal Selector "!".

(** ** Machine integers

    Every C++ integer is a [Z] kept in its range by the wrap-around written
    out at the operation: [u64 z] is the conversion of [z] to [uint64_t] (and
    to [size_t], 64 bits wide here), [i64 z] the conversion to [int64_t]. *)
Declare Scope cpp_scope.
Delimit Scope cpp_scope with cpp.
Open Scope Z_scope.

Definition u8 (z : Z) : Z := z mod 2 ^ 8.
Definition u32 (z : Z) : Z := z mod 2 ^ 32.
Definition u64 (z : Z) : Z := z mod 2 ^ 64.
Definition i32 (z : Z) : Z := (z + 2 ^ 31) mod 2 ^ 32 - 2 ^ 31.
Definition i64 (z : Z) : Z := (z + 2 ^ 63) mod 2 ^ 64 - 2 ^ 63.

Definition is_u64 (z : Z) : Prop := 0 <= z < 2 ^ 64.
Definition is_u32 (z : Z) : Prop := 0 <= z < 2 ^ 32.

(** ** Outcomes

    A fallible C++ computation returns, throws, or runs into undefined
    behaviour; the constructors name the source of the latter. *)
Inductive cpp_exception := InvalidArgument | StdOutOfRange | LengthError.
Inductive undefined_behaviour :=
  | OutOfBounds | DivisionByZero | PopBackOnEmpty | AssertionFailed | SignedOverflow | FuelExhausted.

Inductive outcome (A : Type) : Type :=
  | Ret (a : A)
  | Throw (e : cpp_exception)
  | Undefined (u : undefined_behaviour).
Arguments Ret {A} a.
Arguments Throw {A} e.
Arguments Undefined {A} u.

#[export] Instance cpp_exception_eq_dec : EqDecision cpp_exception.
Proof. solve_decision. Defined.
#[export] Instance undefined_behaviour_eq_dec : EqDecision undefined_behaviour.
Proof. solve_decision. Defined.
#[export] Instance outcome_eq_dec {A} `{EqDecision A} : EqDecision (outcome A).
Proof. solve_decision. Defined.

Definition bind {A B} (m : outcome A) (k : A -> outcome B) : outcome B :=
  match m with
  | Ret a => k a
  | Throw e => Throw e
  | Undefined u => Undefined u
  end.

Notation "'let*' x ':=' m 'in' k" := (bind m (fun x => k))
  (at level 10, x pattern, m at level 100, k at level 200)
  : cpp_scope.
Open Scope cpp_scope.

(** ** Bytes and strings

    A C++ [char] or [uint8_t] is its code, a [std::string] or a byte buffer
    the list of its codes; [str] turns a literal into such a list. *)
Definition str (s : string) : list Z :=
  (fun a => Z.of_N (Ascii.N_of_ascii a)) <$> String.list_ascii_of_string s.

(** A literal with single quotes for the double quotes of JSON text. *)
Definition jstr (s : string) : list Z := (fun c => if c =? 39 then 34 else c) <$> str s.

Definition bytes_eqb (a b : list Z) : bool := bool_decide (a = b).

(** ** Containers indexed by machine integers *)
Definition lookupZ {A} (l : list A) (i : Z) : outcome A :=
  if (i <? 0)%Z then Undefined OutOfBounds
  else match l !! Z.to_nat i with
       | Some a => Ret a
       | None => Undefined OutOfBounds
       end.

Definition storeZ {A} (l : list A) (i : Z) (a : A) : outcome (list A) :=
  if (0 <=? i)%Z && (i <? Z.of_nat (length l))%Z
  then Ret (<[Z.to_nat i := a]> l)
  else Undefined OutOfBounds.

Definition sizeZ {A} (l : list A) : Z := Z.of_nat (length l).

(** ** Automation *)
Create HintDb cpp.
Create Rewrite HintDb cpp.

Lemma sizeZ_nil {A} : sizeZ (@nil A) = 0.
Proof. done. Qed.

Lemma sizeZ_cons {A} (x : A) l : sizeZ (x :: l) = sizeZ l + 1.
Proof. unfold sizeZ. cbn [length]. lia. Qed.

Lemma sizeZ_app {A} (l l' : list A) : sizeZ (l ++ l') = sizeZ l + sizeZ l'.
Proof. unfold sizeZ. rewrite length_app. lia. Qed.

Lemma u64_range z : 0 <= u64 z < 2 ^ 64.
Proof. apply Z.mod_pos_bound; lia. Qed.

Lemma u64_small z : 0 <= z < 2 ^ 64 -> u64 z = z.
Proof. apply Z.mod_small. Qed.

Lemma i64_small z : - 2 ^ 63 <= z < 2 ^ 63 -> i64 z = z.
Proof. intros. unfold i64. rewrite Z.mod_small; lia. Qed.

Lemma i64_range z : - 2 ^ 63 <= i64 z < 2 ^ 63.
Proof. unfold i64. pose proof (Z.mod_pos_bound (z + 2 ^ 63) (2 ^ 64)). lia. Qed.

#[export] Hint Resolve u64_range i64_range : cpp.

Lemma bind_Ret {A B} (m : outcome A) (k : A -> outcome B) b :
  bind m k = Ret b -> exists a, m = Ret a /\ k a = Ret b.
Proof. destruct m; simpl; try discriminate. eauto. Qed.

(** The result of an [int] operation, whose overflow is undefined. *)
Definition int_result (z : Z) : outcome Z :=
  if (- 2 ^ 31 <=? z) && (z <? 2 ^ 31) then Ret z else Undefined SignedOverflow.

Lemma int_result_fits z : - 2 ^ 31 <= z < 2 ^ 31 -> int_result z = Ret z.
Proof. intros Hz. unfold int_result. by replace ((- 2 ^ 31 <=? z) && (z <? 2 ^ 31)) with true by lia. Qed.

(** Closed decidable goals by evaluation. *)
Ltac by_decide := apply (bool_decide_unpack _); vm_compute; exact I.

(** [lia] with quotients and remainders by constants. *)
Ltac lia_div := Z.div_mod_to_equations; lia.

Ltac inv_outcome :=
  repeat match goal with
  | H : Ret _ = Ret _ |- _ => injection H as H
  | H : Ret _ = Throw _ |- _ => discriminate H
  | H : Ret _ = Undefined _ |- _ => discriminate H
  | H : Throw _ = Ret _ |- _ => discriminate H
  | H : Undefined _ = Ret _ |- _ => discriminate H
  | H : bind _ _ = Ret _ |- _ => apply bind_Ret in H as (? & ? & ?)
  end.

Lemma lookupZ_Ret {A} (l : list A) i a :
  lookupZ l i = Ret a <-> 0 <= i /\ l !! Z.to_nat i = Some a.
Proof.
  unfold lookupZ. destruct (Z.ltb_spec i 0).
  - split; [discriminate | lia].
  - destruct (l !! Z.to_nat i); split; intros Hx; destruct_and?; simplify_eq; auto with lia.
Qed.

Lemma lookupZ_total {A} (l : list A) i :
  0 <= i < sizeZ l -> exists a, lookupZ l i = Ret a.
Proof.
  unfold sizeZ. intros Hi.
  destruct (lookup_lt_is_Some_2 l (Z.to_nat i)) as [a Ha]; [lia|].
  exists a. apply lookupZ_Ret. auto with lia.
Qed.

Lemma storeZ_Ret {A} (l : list A) i a l' :
  storeZ l i a = Ret l' <-> 0 <= i < sizeZ l /\ l' = <[Z.to_nat i := a]> l.
Proof.
  unfold storeZ, sizeZ. case_match eqn:E.
  - apply andb_true_iff in E. split; [intros; inv_outcome; split; [lia | congruence]|].
    intros [_ ->]; done.
  - apply andb_false_iff in E. split; [discriminate | lia].
Qed.

Lemma storeZ_total {A} (l : list A) i a :
  0 <= i < sizeZ l -> storeZ l i a = Ret (<[Z.to_nat i := a]> l).
Proof. intros. apply storeZ_Ret. auto. Qed.

(** A property of finitely many integers by evaluation. *)
Lemma forallb_seqZ (P : Z -> bool) a n :
  forallb P (seqZ a n) = true -> forall k, a <= k < a + n -> P k = true.
Proof.
  rewrite forallb_forall. intros H k Hk. apply H. by apply list_elem_of_In, elem_of_seqZ.
Qed.
