(* ===== verification/Decimal.v ===== *)
(** * Decimal notation of non-negative integers

    The reference decimal printer and reader the components are compared
    with: [printf]'s and [std::to_string]'s digits, the zero padding of
    [%0nd], and the value of a run of digits. *)
From S2P Require Import Prelude.

(** ** Digits *)
Definition isdigit (c : Z) : bool := (48 <=? c) && (c <=? 57).

(** C's [isspace] in the "C" locale. *)
Definition isspace (c : Z) : bool := (c =? 32) || ((9 <=? c) && (c <=? 13)).

(** C's [tolower] and [toupper] in the "C" locale. *)
Definition to_lower (c : Z) : Z := if (65 <=? c) && (c <=? 90) then c + 32 else c.
Definition to_upper (c : Z) : Z := if (97 <=? c) && (c <=? 122) then c - 32 else c.

(** The longest prefix whose characters satisfy [p], and the rest. *)
Fixpoint span (p : Z -> bool) (s : list Z) : list Z * list Z :=
  match s with
  | c :: s' => if p c then let '(a, b) := span p s' in (c :: a, b) else ([], s)
  | [] => ([], [])
  end.

Definition stops (p : Z -> bool) (s : list Z) : Prop :=
  match s with c :: _ => p c = false | [] => True end.

Fixpoint dec_fuel (fuel : nat) (n : Z) : list Z :=
  match fuel with
  | O => []
  | S fuel => if n <? 10 then [48 + n] else dec_fuel fuel (n / 10) ++ [48 + n mod 10]
  end.

(** The decimal digits of [n >= 0], no leading zero; a number has at most as
    many decimal digits as binary ones. *)
Definition dec (n : Z) : list Z := dec_fuel (S (Z.to_nat (Z.log2 n))) n.

(** The value of a run of digits, most significant first. *)
Definition dec_value (l : list Z) : Z := fold_left (fun acc c => 10 * acc + (c - 48)) l 0.

(** [%0<width>d] on a non-negative argument. *)
Definition pad0 (width : nat) (n : Z) : list Z :=
  replicate (width - length (dec n)) 48 ++ dec n.

(** [%i] and [std::to_string] of a signed number. *)
Definition put_long (z : Z) : list Z := if z <? 0 then 45 :: dec (- z) else dec z.

(** [n / d] rounded to the nearest integer, ties to even. *)
Definition half_even (n d : Z) : Z :=
  let q := n / d in
  let r := n mod d in
  if 2 * r <? d then q else if d <? 2 * r then q + 1 else if Z.even q then q else q + 1.

Definition is_digits (l : list Z) : Prop := Forall (fun c => 48 <= c <= 57) l.

(** ** Facts *)
Lemma span_app p l s : Forall (fun c => p c = true) l -> stops p s -> span p (l ++ s) = (l, s).
Proof.
  intros Hl Hs. induction Hl as [|c l Hc _ IH]; cbn [app].
  - destruct s as [|c s]; [done|]. cbn [span]. cbn [stops] in Hs. by rewrite Hs.
  - cbn [span]. by rewrite Hc, IH.
Qed.

Lemma span_prefix p a b :
  Forall (fun c => p c = true) a -> span p (a ++ b) = (a ++ (span p b).1, (span p b).2).
Proof.
  induction 1 as [|c a Hc _ IH]; cbn [app]; [by destruct span|]. cbn [span]. by rewrite Hc, IH.
Qed.

Lemma span_spec p s :
  s = (span p s).1 ++ (span p s).2 /\ Forall (fun c => p c = true) (span p s).1 /\ stops p (span p s).2.
Proof.
  induction s as [|c s IH]; [by repeat constructor|]. cbn [span]. destruct (p c) eqn:Hc; [|by repeat constructor].
  destruct (span p s) as [a b]. cbn [fst snd] in *. destruct IH as (-> & Ha & Hb). by repeat constructor.
Qed.

Lemma dec_value_snoc l c : dec_value (l ++ [c]) = 10 * dec_value l + (c - 48).
Proof. unfold dec_value. by rewrite fold_left_app. Qed.

Lemma dec_value_app l l' :
  dec_value (l ++ l') = dec_value l * 10 ^ Z.of_nat (length l') + dec_value l'.
Proof.
  induction l' as [|c l' IH] using rev_ind.
  - rewrite app_nil_r. simpl. unfold dec_value at 3. simpl. lia.
  - rewrite app_assoc, !dec_value_snoc, IH, length_app, Nat2Z.inj_add.
    rewrite Z.pow_add_r by lia. change (10 ^ Z.of_nat (length [c])) with 10. lia.
Qed.

Lemma dec_value_zeros k : dec_value (replicate k 48) = 0.
Proof.
  induction k as [|k IH]; [done|].
  rewrite replicate_S_end, dec_value_snoc, IH. lia.
Qed.

Lemma is_digits_app l l' : is_digits (l ++ l') <-> is_digits l /\ is_digits l'.
Proof. apply Forall_app. Qed.

Lemma is_digits_one c : is_digits [c] <-> 48 <= c <= 57.
Proof. unfold is_digits. by rewrite Forall_singleton. Qed.

Lemma isdigit_true c : isdigit c = true <-> 48 <= c <= 57.
Proof. unfold isdigit. lia. Qed.

Lemma dec_value_bound l : is_digits l -> 0 <= dec_value l < 10 ^ Z.of_nat (length l).
Proof.
  induction l as [|c l IH] using rev_ind; intros Hd.
  - unfold dec_value. simpl. lia.
  - apply is_digits_app in Hd as [Hl Hc]. apply is_digits_one in Hc.
    specialize (IH Hl).
    rewrite dec_value_snoc, length_app, Nat2Z.inj_add, Z.pow_add_r by lia.
    change (10 ^ Z.of_nat (length [c])) with 10. lia.
Qed.

(** Enough fuel gives all the digits. *)
Lemma dec_fuel_value fuel n : 0 <= n < 2 ^ Z.of_nat fuel -> dec_value (dec_fuel fuel n) = n.
Proof.
  revert n. induction fuel as [|fuel IH]; intros n Hn; [simpl in *; unfold dec_value; simpl; lia|].
  cbn [dec_fuel]. destruct (Z.ltb_spec n 10).
  - unfold dec_value. simpl. lia.
  - rewrite dec_value_snoc, IH; [pose proof (Z.div_mod n 10); lia|].
    rewrite Nat2Z.inj_succ, Z.pow_succ_r in Hn by lia.
    split; [apply Z.div_pos; lia | apply Z.div_lt_upper_bound; lia].
Qed.

Lemma dec_fuel_digits fuel n : 0 <= n -> is_digits (dec_fuel fuel n).
Proof.
  revert n. induction fuel as [|fuel IH]; intros n Hn; [constructor|].
  cbn [dec_fuel]. pose proof (Z.mod_pos_bound n 10).
  destruct (Z.ltb_spec n 10); [constructor; [lia | constructor]|].
  apply is_digits_app. split; [apply IH; apply Z.div_pos; lia|].
  constructor; [lia | constructor].
Qed.

Lemma log2_fuel n : 0 <= n -> 0 <= n < 2 ^ Z.of_nat (S (Z.to_nat (Z.log2 n))).
Proof.
  intros Hn. split; [done|]. rewrite Nat2Z.inj_succ, Z2Nat.id by apply Z.log2_nonneg.
  destruct (decide (n = 0)) as [-> | Hnz]; [done|]. apply Z.log2_spec. lia.
Qed.

Lemma dec_value_dec n : 0 <= n -> dec_value (dec n) = n.
Proof. intros. by apply dec_fuel_value, log2_fuel. Qed.

Lemma dec_digits n : 0 <= n -> is_digits (dec n).
Proof. apply dec_fuel_digits. Qed.

Lemma dec_fuel_step fuel fuel' n :
  0 <= n < 2 ^ Z.of_nat fuel -> n < 2 ^ Z.of_nat fuel' -> dec_fuel fuel n <> [] ->
  dec_fuel fuel' n <> [] -> dec_fuel fuel n = dec_fuel fuel' n.
Proof.
  revert fuel' n. induction fuel as [|fuel IH]; intros [|fuel'] n Hn Hn' H1 H2; [done..|].
  cbn [dec_fuel] in *. destruct (Z.ltb_spec n 10); [done|]. f_equal.
  rewrite !Nat2Z.inj_succ, !Z.pow_succ_r in * by lia.
  assert (Hq : 1 <= n / 10) by (apply Z.div_le_lower_bound; lia).
  assert (Hlt : n / 10 < 2 ^ Z.of_nat fuel) by (apply Z.div_lt_upper_bound; lia).
  assert (Hlt' : n / 10 < 2 ^ Z.of_nat fuel') by (apply Z.div_lt_upper_bound; lia).
  apply IH; [lia | lia | |]; intros Hnil.
  - pose proof (dec_fuel_value fuel (n / 10)) as Hv. rewrite Hnil in Hv.
    unfold dec_value in Hv. simpl in Hv. lia.
  - pose proof (dec_fuel_value fuel' (n / 10)) as Hv. rewrite Hnil in Hv.
    unfold dec_value in Hv. simpl in Hv. lia.
Qed.

Lemma dec_small n : 0 <= n < 10 -> dec n = [48 + n].
Proof. intros. unfold dec. cbn [dec_fuel]. by replace (n <? 10) with true by lia. Qed.

Lemma dec_step n : 10 <= n -> dec n = dec (n / 10) ++ [48 + n mod 10].
Proof.
  intros Hn. unfold dec at 1. cbn [dec_fuel]. replace (n <? 10) with false by lia. f_equal.
  assert (Hq : 1 <= n / 10) by (apply Z.div_le_lower_bound; lia).
  pose proof (log2_fuel n ltac:(lia)) as Hf.
  rewrite Nat2Z.inj_succ, Z.pow_succ_r in Hf by lia.
  assert (Hlt : n / 10 < 2 ^ Z.of_nat (Z.to_nat (Z.log2 n))) by (apply Z.div_lt_upper_bound; lia).
  apply dec_fuel_step; [lia | apply log2_fuel; lia | |]; intros Hnil.
  - pose proof (dec_fuel_value _ _ (conj (ltac:(lia) : 0 <= n / 10) Hlt)) as Hv.
    rewrite Hnil in Hv. unfold dec_value in Hv. simpl in Hv. lia.
  - pose proof (dec_value_dec (n / 10) ltac:(lia)) as Hv. unfold dec in Hv.
    rewrite Hnil in Hv. unfold dec_value in Hv. simpl in Hv. lia.
Qed.

Lemma dec_length_upper w n :
  0 <= n -> (0 < w)%nat -> n < 10 ^ Z.of_nat w -> (length (dec n) <= w)%nat.
Proof.
  revert n. induction w as [|w IH]; intros n Hn Hw Hlt; [lia|].
  destruct (decide (n < 10)); [rewrite dec_small by lia; simpl; lia|].
  rewrite dec_step, length_app by lia. simpl.
  rewrite Nat2Z.inj_succ, Z.pow_succ_r in Hlt by lia.
  destruct w as [|w]; [simpl in Hlt; lia|].
  enough (length (dec (n / 10)) <= S w)%nat by lia. apply IH; [apply Z.div_pos; lia | lia|].
  apply Z.div_lt_upper_bound; lia.
Qed.

(** A run of digits with no leading zero. *)
Definition canonical (l : list Z) : Prop :=
  is_digits l /\ match l with [] => False | [_] => True | c :: _ => c <> 48 end.

Lemma canonical_prefix l c c' : canonical (l ++ [c; c']) -> canonical (l ++ [c]) /\ 48 <= c' <= 57.
Proof.
  unfold canonical. rewrite !is_digits_app. unfold is_digits.
  rewrite !Forall_cons. intros [[? (?&?&?)] Hh].
  destruct l as [|d [|d' l]]; simpl in *; auto.
Qed.

Lemma canonical_nonzero l c : canonical (l ++ [c]) -> l <> [] -> 1 <= dec_value l.
Proof.
  intros [Hd Hh] Hl. apply is_digits_app in Hd as [Hd _]. destruct l as [|d l]; [done|].
  apply Forall_cons in Hd as [Hd0 Hd]. assert (d <> 48) by (by destruct l).
  change (d :: l) with ([d] ++ l). rewrite dec_value_app.
  pose proof (dec_value_bound l Hd). unfold dec_value at 1. simpl.
  nia.
Qed.

(** [dec] is the only such notation of a number. *)
Lemma dec_unique l : canonical l -> dec (dec_value l) = l.
Proof.
  induction l as [|c l IH] using rev_ind; intros Hc; [by destruct Hc|].
  assert (Hd := proj1 Hc). apply is_digits_app in Hd as [Hl Hcd]. apply is_digits_one in Hcd.
  rewrite dec_value_snoc. destruct (decide (l = [])) as [->|Hne].
  - change (dec_value []) with 0. rewrite dec_small by lia. simpl. f_equal. lia.
  - pose proof (canonical_nonzero l c Hc Hne). rewrite dec_step by lia.
    replace ((10 * dec_value l + (c - 48)) / 10) with (dec_value l)
      by (apply (Z.div_unique _ _ _ (c - 48)); lia).
    replace ((10 * dec_value l + (c - 48)) mod 10) with (c - 48)
      by (apply (Z.mod_unique _ _ (dec_value l)); lia).
    f_equal; [|f_equal; lia]. apply IH.
    destruct l as [|a l] using rev_ind; [done|]. rewrite <- app_assoc in Hc. simpl in Hc.
    by apply canonical_prefix in Hc as [??].
Qed.

(** Appending digits to a positive number's notation. *)
Lemma dec_app a l :
  1 <= a -> is_digits l -> dec (a * 10 ^ Z.of_nat (length l) + dec_value l) = dec a ++ l.
Proof.
  intros Ha. induction l as [|c l IH] using rev_ind; intros Hd.
  - simpl. rewrite app_nil_r. f_equal. unfold dec_value. simpl. lia.
  - apply is_digits_app in Hd as [Hl Hc]. apply is_digits_one in Hc.
    rewrite dec_value_snoc, length_app, Nat2Z.inj_add, Z.pow_add_r by lia.
    change (10 ^ Z.of_nat (length [c])) with 10.
    set (m := a * 10 ^ Z.of_nat (length l) + dec_value l) in *.
    pose proof (dec_value_bound l Hl).
    assert (1 <= m) by nia.
    replace (a * (10 ^ Z.of_nat (length l) * 10) + (10 * dec_value l + (c - 48)))
      with (10 * m + (c - 48)) by (unfold m; ring).
    rewrite dec_step by lia. rewrite app_assoc, <- IH by done.
    f_equal; [f_equal; symmetry; apply (Z.div_unique _ _ _ (c - 48)); lia|].
    f_equal. rewrite <- (Z.mod_unique _ _ m (c - 48)); lia.
Qed.

Lemma pad0_digits w n : 0 <= n -> is_digits (pad0 w n).
Proof.
  intros. apply is_digits_app. split; [|by apply dec_digits].
  apply Forall_replicate. lia.
Qed.

Lemma pad0_value w n : 0 <= n -> dec_value (pad0 w n) = n.
Proof.
  intros. unfold pad0. rewrite dec_value_app, dec_value_zeros, dec_value_dec by done. lia.
Qed.

Lemma pad0_length w n :
  0 <= n -> (0 < w)%nat -> n < 10 ^ Z.of_nat w -> length (pad0 w n) = w.
Proof.
  intros. unfold pad0. rewrite length_app, length_replicate.
  pose proof (dec_length_upper w n). lia.
Qed.

#[export] Hint Resolve dec_digits pad0_digits : cpp.
#[export] Hint Rewrite dec_value_dec pad0_value using lia : cpp.

Lemma dec_head n : 0 <= n -> match dec n with [] => False | c :: _ => n = 0 \/ c <> 48 end.
Proof.
  intros Hn. generalize Hn. revert n Hn.
  apply (Z_lt_induction (fun n => 0 <= n -> match dec n with [] => False | c :: _ => n = 0 \/ c <> 48 end)).
  intros n IH Hn. destruct (Z.lt_ge_cases n 10); [rewrite dec_small by lia; lia|].
  rewrite dec_step by lia. assert (1 <= n / 10 < n) by (Z.div_mod_to_equations; lia).
  specialize (IH (n / 10) ltac:(lia) ltac:(lia)). destruct (dec (n / 10)); [done|]. cbn [app].
  destruct IH; [lia | by right].
Qed.

Lemma dec_canonical n : 0 <= n -> canonical (dec n).
Proof.
  intros Hn. split; [by apply dec_digits|]. pose proof (dec_head n Hn) as Hhead.
  destruct (Z.eq_dec n 0) as [->|Hn0]; [done|].
  destruct (dec n) as [|c [|c' l]]; [done | done |]. by destruct Hhead.
Qed.
