(* ===== verification/Itoa.v ===== *)
(** * rapidjson's integer printing: src/include/rapidjson/internal/itoa.h

    The four [*toa] functions write decimal digits through a pointer they
    advance; the definitions return the bytes written, in order.  Every digit
    is read from the table [cDigitsLut], a read past its end being undefined. *)
From S2P Require Import Prelude Decimal.

(** ** The table *)
Definition GetDigitsLut : list Z := concat (str <$> [
  "00010203040506070809";
  "10111213141516171819";
  "20212223242526272829";
  "30313233343536373839";
  "40414243444546474849";
  "50515253545556575859";
  "60616263646566676869";
  "70717273747576777879";
  "80818283848586878889";
  "90919293949596979899"])%string.

(** [*buffer++ = cDigitsLut[i]] for every index in order, each behind its
    [if]; [true] where the source has none. *)
Fixpoint digits (writes : list (bool * Z)) : outcome (list Z) :=
  match writes with
  | [] => Ret []
  | (false, _) :: writes => digits writes
  | (true, i) :: writes =>
      let* c := lookupZ GetDigitsLut i in
      let* rest := digits writes in
      Ret (c :: rest)
  end.

(** ** The functions *)
Definition u32toa (value : Z) : outcome (list Z) :=
  if value <? 10000 then
    let d1 := Z.shiftl (value / 100) 1 in
    let d2 := Z.shiftl (value mod 100) 1 in
    digits [(1000 <=? value, d1); (100 <=? value, d1 + 1); (10 <=? value, d2); (true, d2 + 1)]
  else if value <? 100000000 then
    let b := value / 10000 in
    let c := value mod 10000 in
    let d1 := Z.shiftl (b / 100) 1 in
    let d2 := Z.shiftl (b mod 100) 1 in
    let d3 := Z.shiftl (c / 100) 1 in
    let d4 := Z.shiftl (c mod 100) 1 in
    digits [(10000000 <=? value, d1); (1000000 <=? value, d1 + 1);
            (100000 <=? value, d2); (true, d2 + 1);
            (true, d3); (true, d3 + 1); (true, d4); (true, d4 + 1)]
  else
    let a := value / 100000000 in
    let value := value mod 100000000 in
    let* lead :=
      if 10 <=? a then
        let i := Z.shiftl a 1 in digits [(true, i); (true, i + 1)]
      else Ret [48 + a] in
    let b := value / 10000 in
    let c := value mod 10000 in
    let d1 := Z.shiftl (b / 100) 1 in
    let d2 := Z.shiftl (b mod 100) 1 in
    let d3 := Z.shiftl (c / 100) 1 in
    let d4 := Z.shiftl (c mod 100) 1 in
    let* rest := digits [(true, d1); (true, d1 + 1); (true, d2); (true, d2 + 1);
                         (true, d3); (true, d3 + 1); (true, d4); (true, d4 + 1)] in
    Ret (lead ++ rest).

(** [~u + 1] is taken at the width of [u]. *)
Definition i32toa (value : Z) : outcome (list Z) :=
  let u := u32 value in
  if value <? 0 then
    let u := u32 (u32 (Z.lnot u) + 1) in
    let* ds := u32toa u in Ret (45 :: ds)
  else u32toa u.

Definition u64toa (value : Z) : outcome (list Z) :=
  let kTen8 := 100000000 in
  let kTen9 := kTen8 * 10 in
  let kTen10 := kTen8 * 100 in
  let kTen11 := kTen8 * 1000 in
  let kTen12 := kTen8 * 10000 in
  let kTen13 := kTen8 * 100000 in
  let kTen14 := kTen8 * 1000000 in
  let kTen15 := kTen8 * 10000000 in
  let kTen16 := kTen8 * kTen8 in
  if value <? kTen8 then
    let v := u32 value in
    if v <? 10000 then
      let d1 := Z.shiftl (v / 100) 1 in
      let d2 := Z.shiftl (v mod 100) 1 in
      digits [(1000 <=? v, d1); (100 <=? v, d1 + 1); (10 <=? v, d2); (true, d2 + 1)]
    else
      let b := v / 10000 in
      let c := v mod 10000 in
      let d1 := Z.shiftl (b / 100) 1 in
      let d2 := Z.shiftl (b mod 100) 1 in
      let d3 := Z.shiftl (c / 100) 1 in
      let d4 := Z.shiftl (c mod 100) 1 in
      digits [(10000000 <=? value, d1); (1000000 <=? value, d1 + 1);
              (100000 <=? value, d2); (true, d2 + 1);
              (true, d3); (true, d3 + 1); (true, d4); (true, d4 + 1)]
  else if value <? kTen16 then
    let v0 := u32 (value / kTen8) in
    let v1 := u32 (value mod kTen8) in
    let b0 := v0 / 10000 in
    let c0 := v0 mod 10000 in
    let d1 := Z.shiftl (b0 / 100) 1 in
    let d2 := Z.shiftl (b0 mod 100) 1 in
    let d3 := Z.shiftl (c0 / 100) 1 in
    let d4 := Z.shiftl (c0 mod 100) 1 in
    let b1 := v1 / 10000 in
    let c1 := v1 mod 10000 in
    let d5 := Z.shiftl (b1 / 100) 1 in
    let d6 := Z.shiftl (b1 mod 100) 1 in
    let d7 := Z.shiftl (c1 / 100) 1 in
    let d8 := Z.shiftl (c1 mod 100) 1 in
    digits [(kTen15 <=? value, d1); (kTen14 <=? value, d1 + 1);
            (kTen13 <=? value, d2); (kTen12 <=? value, d2 + 1);
            (kTen11 <=? value, d3); (kTen10 <=? value, d3 + 1);
            (kTen9 <=? value, d4); (true, d4 + 1);
            (true, d5); (true, d5 + 1); (true, d6); (true, d6 + 1);
            (true, d7); (true, d7 + 1); (true, d8); (true, d8 + 1)]
  else
    let a := u32 (value / kTen16) in
    let value := value mod kTen16 in
    let* lead :=
      if a <? 10 then Ret [48 + a]
      else if a <? 100 then
        let i := Z.shiftl a 1 in digits [(true, i); (true, i + 1)]
      else if a <? 1000 then
        let i := Z.shiftl (a mod 100) 1 in
        let* rest := digits [(true, i); (true, i + 1)] in
        Ret ((48 + a / 100) :: rest)
      else
        let i := Z.shiftl (a / 100) 1 in
        let j := Z.shiftl (a mod 100) 1 in
        digits [(true, i); (true, i + 1); (true, j); (true, j + 1)] in
    let v0 := u32 (value / kTen8) in
    let v1 := u32 (value mod kTen8) in
    let b0 := v0 / 10000 in
    let c0 := v0 mod 10000 in
    let d1 := Z.shiftl (b0 / 100) 1 in
    let d2 := Z.shiftl (b0 mod 100) 1 in
    let d3 := Z.shiftl (c0 / 100) 1 in
    let d4 := Z.shiftl (c0 mod 100) 1 in
    let b1 := v1 / 10000 in
    let c1 := v1 mod 10000 in
    let d5 := Z.shiftl (b1 / 100) 1 in
    let d6 := Z.shiftl (b1 mod 100) 1 in
    let d7 := Z.shiftl (c1 / 100) 1 in
    let d8 := Z.shiftl (c1 mod 100) 1 in
    let* rest := digits [(true, d1); (true, d1 + 1); (true, d2); (true, d2 + 1);
                         (true, d3); (true, d3 + 1); (true, d4); (true, d4 + 1);
                         (true, d5); (true, d5 + 1); (true, d6); (true, d6 + 1);
                         (true, d7); (true, d7 + 1); (true, d8); (true, d8 + 1)] in
    Ret (lead ++ rest).

Definition i64toa (value : Z) : outcome (list Z) :=
  let u := u64 value in
  if value <? 0 then
    let u := u64 (u64 (Z.lnot u) + 1) in
    let* ds := u64toa u in Ret (45 :: ds)
  else u64toa u.

(** ** Reading the table *)
Lemma lut_pair k :
  0 <= k < 100 ->
  lookupZ GetDigitsLut (Z.shiftl k 1) = Ret (48 + k / 10) /\
  lookupZ GetDigitsLut (Z.shiftl k 1 + 1) = Ret (48 + k mod 10).
Proof.
  intros Hk.
  assert (Hall : forallb (fun k =>
      match lookupZ GetDigitsLut (Z.shiftl k 1), lookupZ GetDigitsLut (Z.shiftl k 1 + 1) with
      | Ret a, Ret b => (a =? 48 + k / 10) && (b =? 48 + k mod 10)
      | _, _ => false
      end) (seqZ 0 100) = true) by (vm_compute; reflexivity).
  rewrite forallb_forall in Hall. specialize (Hall k).
  rewrite <- list_elem_of_In, elem_of_seqZ in Hall. specialize (Hall ltac:(lia)).
  destruct (lookupZ _ _); [|done..]. destruct (lookupZ _ _); [|done..].
  apply andb_true_iff in Hall as [Ha Hb]. split; f_equal; lia.
Qed.

(** The two digits of a number below 100, and where the table has them. *)
Lemma lut_two k :
  0 <= k < 100 -> exists x y, 0 <= x < 10 /\ 0 <= y < 10 /\ k = 10 * x + y /\
  lookupZ GetDigitsLut (Z.shiftl k 1) = Ret (48 + x) /\
  lookupZ GetDigitsLut (Z.shiftl k 1 + 1) = Ret (48 + y).
Proof.
  intros Hk. exists (k / 10), (k mod 10). pose proof (Z.div_mod k 10 ltac:(lia)).
  pose proof (Z.mod_pos_bound k 10 ltac:(lia)). split_and!; [lia..| |]; by apply lut_pair.
Qed.

Lemma digits_skip i ws : digits ((false, i) :: ws) = digits ws.
Proof. reflexivity. Qed.

Lemma digits_put i c ws l :
  lookupZ GetDigitsLut i = Ret c -> digits ws = Ret l -> digits ((true, i) :: ws) = Ret (c :: l).
Proof. intros H1 H2. cbn [digits]. by rewrite H1, H2. Qed.

(** Splits a number below 10000 or 10^8 into the table's pairs of digits. *)
Ltac split_pair k :=
  let x := fresh "x" in let y := fresh "y" in
  let H1 := fresh "Hx" in let H2 := fresh "Hy" in let He := fresh "He" in
  let L1 := fresh "L1" in let L2 := fresh "L2" in
  destruct (lut_two k) as (x & y & H1 & H2 & He & L1 & L2); [lia|].

Ltac split_four c :=
  let q := fresh "q" in let r := fresh "r" in
  pose proof (Z.div_mod c 100 ltac:(lia)); pose proof (Z.mod_pos_bound c 100 ltac:(lia));
  assert (0 <= c / 100 < 100) by lia;
  split_pair (c / 100); split_pair (c mod 100).

Ltac split_eight v :=
  pose proof (Z.div_mod v 10000 ltac:(lia)); pose proof (Z.mod_pos_bound v 10000 ltac:(lia));
  assert (0 <= v / 10000 < 10000) by lia;
  split_four (v / 10000); split_four (v mod 10000).

(** Runs the writes of a list whose indices [split_pair] has read. *)
Ltac run_digits :=
  repeat (rewrite digits_skip || (eapply digits_put; [eassumption|])); reflexivity.


Lemma canonical_dec l n : canonical l -> dec_value l = n -> l = dec n.
Proof. intros Hc <-. by rewrite dec_unique. Qed.

Lemma digits_app ws ws' :
  digits (ws ++ ws') = let* l := digits ws in let* l' := digits ws' in Ret (l ++ l').
Proof.
  induction ws as [|[[] i] ws IH]; cbn [app digits]; [|rewrite IH|done].
  - by destruct (digits ws').
  - destruct (lookupZ _ i); cbn [bind]; [|done..].
    destruct (digits ws); cbn [bind]; [|done..]. by destruct (digits ws').
Qed.

Ltac solve_canonical :=
  apply canonical_dec;
  [ split; [repeat (apply Forall_cons; split; [lia|]); apply Forall_nil, I | simpl; first [exact I | lia]]
  | unfold dec_value; simpl; lia ].

(** At most four digits, without leading zeros. *)
Lemma four_dec v :
  0 <= v < 10000 ->
  digits [(1000 <=? v, Z.shiftl (v / 100) 1); (100 <=? v, Z.shiftl (v / 100) 1 + 1);
          (10 <=? v, Z.shiftl (v mod 100) 1); (true, Z.shiftl (v mod 100) 1 + 1)] = Ret (dec v).
Proof.
  intros Hv. split_four v.
  destruct (Z.leb_spec 1000 v), (Z.leb_spec 100 v), (Z.leb_spec 10 v); try lia;
    (etransitivity; [run_digits|]); f_equal; solve_canonical.
Qed.

(** Five to eight digits; the guards of the source are below the first four. *)
Lemma eight_dec v :
  10000 <= v < 100000000 ->
  digits [(10000000 <=? v, Z.shiftl (v / 10000 / 100) 1);
          (1000000 <=? v, Z.shiftl (v / 10000 / 100) 1 + 1);
          (100000 <=? v, Z.shiftl ((v / 10000) mod 100) 1);
          (true, Z.shiftl ((v / 10000) mod 100) 1 + 1);
          (true, Z.shiftl (v mod 10000 / 100) 1); (true, Z.shiftl (v mod 10000 / 100) 1 + 1);
          (true, Z.shiftl ((v mod 10000) mod 100) 1);
          (true, Z.shiftl ((v mod 10000) mod 100) 1 + 1)] = Ret (dec v).
Proof.
  intros Hv. split_eight v.
  destruct (Z.leb_spec 10000000 v), (Z.leb_spec 1000000 v), (Z.leb_spec 100000 v); try lia;
    (etransitivity; [run_digits|]); f_equal; solve_canonical.
Qed.

(** Eight digits with leading zeros. *)
Definition eight (v : Z) : list (bool * Z) :=
  [(true, Z.shiftl (v / 10000 / 100) 1); (true, Z.shiftl (v / 10000 / 100) 1 + 1);
   (true, Z.shiftl ((v / 10000) mod 100) 1); (true, Z.shiftl ((v / 10000) mod 100) 1 + 1);
   (true, Z.shiftl (v mod 10000 / 100) 1); (true, Z.shiftl (v mod 10000 / 100) 1 + 1);
   (true, Z.shiftl ((v mod 10000) mod 100) 1); (true, Z.shiftl ((v mod 10000) mod 100) 1 + 1)].

Lemma eight_fixed v :
  0 <= v < 100000000 ->
  exists l, digits (eight v) = Ret l /\ is_digits l /\ length l = 8%nat /\ dec_value l = v.
Proof.
  intros Hv. split_eight v. eexists. split; [unfold eight; run_digits|].
  split_and!; [repeat (apply Forall_cons; split; [lia|]); apply Forall_nil, I | done |].
  unfold dec_value. simpl. lia.
Qed.

(** The digits of [value / 10^8] behind the guards on [value]. *)
Lemma lead_dec value v0 :
  v0 = value / 100000000 -> 1 <= v0 < 100000000 ->
  digits [(1000000000000000 <=? value, Z.shiftl (v0 / 10000 / 100) 1);
          (100000000000000 <=? value, Z.shiftl (v0 / 10000 / 100) 1 + 1);
          (10000000000000 <=? value, Z.shiftl ((v0 / 10000) mod 100) 1);
          (1000000000000 <=? value, Z.shiftl ((v0 / 10000) mod 100) 1 + 1);
          (100000000000 <=? value, Z.shiftl (v0 mod 10000 / 100) 1);
          (10000000000 <=? value, Z.shiftl (v0 mod 10000 / 100) 1 + 1);
          (1000000000 <=? value, Z.shiftl ((v0 mod 10000) mod 100) 1);
          (true, Z.shiftl ((v0 mod 10000) mod 100) 1 + 1)] = Ret (dec v0).
Proof.
  intros Hv0 Hr. pose proof (Z.div_mod value 100000000 ltac:(lia)).
  pose proof (Z.mod_pos_bound value 100000000 ltac:(lia)). split_eight v0.
  destruct (Z.leb_spec 1000000000000000 value), (Z.leb_spec 100000000000000 value),
    (Z.leb_spec 10000000000000 value), (Z.leb_spec 1000000000000 value),
    (Z.leb_spec 100000000000 value), (Z.leb_spec 10000000000 value),
    (Z.leb_spec 1000000000 value); try lia;
    (etransitivity; [run_digits|]); f_equal; solve_canonical.
Qed.

Lemma pair_dec a :
  10 <= a < 100 -> digits [(true, Z.shiftl a 1); (true, Z.shiftl a 1 + 1)] = Ret (dec a).
Proof. intros. split_pair a. etransitivity; [run_digits|]. f_equal. solve_canonical. Qed.

(** What [u64toa] writes for [value / 10^16], at most 1844. *)
Lemma lead64_dec a :
  1 <= a < 10000 ->
  (if a <? 10 then Ret [48 + a]
   else if a <? 100 then digits [(true, Z.shiftl a 1); (true, Z.shiftl a 1 + 1)]
   else if a <? 1000 then
     let* rest := digits [(true, Z.shiftl (a mod 100) 1); (true, Z.shiftl (a mod 100) 1 + 1)] in
     Ret ((48 + a / 100) :: rest)
   else digits [(true, Z.shiftl (a / 100) 1); (true, Z.shiftl (a / 100) 1 + 1);
                (true, Z.shiftl (a mod 100) 1); (true, Z.shiftl (a mod 100) 1 + 1)]) = Ret (dec a).
Proof.
  intros Ha. destruct (Z.ltb_spec a 10); [by rewrite dec_small by lia|].
  destruct (Z.ltb_spec a 100); [apply pair_dec; lia|].
  split_four a. destruct (Z.ltb_spec a 1000).
  - erewrite digits_put; [|eassumption|run_digits]. cbn [bind]. f_equal. solve_canonical.
  - etransitivity; [run_digits|]. f_equal. solve_canonical.
Qed.

(** Two's complement negation, as the source computes it. *)
Lemma neg32 v : - 2 ^ 31 <= v < 0 -> u32 (u32 (Z.lnot (u32 v)) + 1) = - v.
Proof.
  intros. unfold u32, Z.lnot, Z.pred.
  rewrite Z.add_mod_idemp_l by lia.
  replace (- (v mod 2 ^ 32) + -1 + 1) with (- (v mod 2 ^ 32)) by lia.
  rewrite <- (Z.mod_unique v (2 ^ 32) (-1) (v + 2 ^ 32)) by lia.
  symmetry. apply (Z.mod_unique _ _ (-1)); lia.
Qed.

Lemma neg64 v : - 2 ^ 63 <= v < 0 -> u64 (u64 (Z.lnot (u64 v)) + 1) = - v.
Proof.
  intros. unfold u64, Z.lnot, Z.pred.
  rewrite Z.add_mod_idemp_l by lia.
  replace (- (v mod 2 ^ 64) + -1 + 1) with (- (v mod 2 ^ 64)) by lia.
  rewrite <- (Z.mod_unique v (2 ^ 64) (-1) (v + 2 ^ 64)) by lia.
  symmetry. apply (Z.mod_unique _ _ (-1)); lia.
Qed.

(** ** Correctness *)
Lemma u32toa_dec value : 0 <= value < 2 ^ 32 -> u32toa value = Ret (dec value).
Proof.
  intros Hv. unfold u32toa. destruct (Z.ltb_spec value 10000); [apply four_dec; lia|].
  destruct (Z.ltb_spec value 100000000); [apply eight_dec; lia|].
  set (a := value / 100000000). set (v := value mod 100000000). cbv zeta.
  pose proof (Z.div_mod value 100000000 ltac:(lia)) as Hdm. fold a v in Hdm.
  pose proof (Z.mod_pos_bound value 100000000 ltac:(lia)) as Hv1. fold v in Hv1.
  destruct (eight_fixed v Hv1) as (l & Hl & Hd & Hlen & Hval).
  assert (Hlead : (if 10 <=? a then digits [(true, Z.shiftl a 1); (true, Z.shiftl a 1 + 1)]
                   else Ret [48 + a]) = Ret (dec a)).
  { destruct (Z.leb_spec 10 a); [apply pair_dec; lia | by rewrite dec_small by lia]. }
  rewrite Hlead. cbn [bind]. unfold eight in Hl. rewrite Hl. cbn [bind].
  rewrite <- dec_app by (done || lia). rewrite Hlen, Hval. f_equal. f_equal. lia.
Qed.

Lemma u64toa_dec value : 0 <= value < 2 ^ 64 -> u64toa value = Ret (dec value).
Proof.
  intros Hv. unfold u64toa.
  change (100000000 * 100000000) with 10000000000000000. cbv zeta.
  destruct (Z.ltb_spec value 100000000).
  { unfold u32. rewrite (Z.mod_small value) by lia.
    destruct (Z.ltb_spec value 10000); [apply four_dec; lia | apply eight_dec; lia]. }
  pose proof (Z.div_mod value 100000000 ltac:(lia)).
  pose proof (Z.mod_pos_bound value 100000000 ltac:(lia)).
  destruct (Z.ltb_spec value 10000000000000000).
  - unfold u32. rewrite !(Z.mod_small (_ / _) (2 ^ 32)), !(Z.mod_small (_ mod _) (2 ^ 32)) by lia.
    set (v0 := value / 100000000) in *. set (v1 := value mod 100000000) in *.
    destruct (eight_fixed v1) as (l & Hl & Hd & Hlen & Hval); [lia|].
    etransitivity; [exact (digits_app [_; _; _; _; _; _; _; _] (eight v1))|].
    rewrite lead_dec by (done || lia). rewrite Hl. cbn [bind].
    rewrite <- dec_app by (done || lia). rewrite Hlen, Hval. f_equal. f_equal. lia.
  - clear H0 H1. pose proof (Z.div_mod value 10000000000000000 ltac:(lia)).
    pose proof (Z.mod_pos_bound value 10000000000000000 ltac:(lia)).
    unfold u32. rewrite !(Z.mod_small (value / _) (2 ^ 32)) by lia.
    set (a := value / 10000000000000000) in *. set (v := value mod 10000000000000000) in *.
    pose proof (Z.div_mod v 100000000 ltac:(lia)).
    pose proof (Z.mod_pos_bound v 100000000 ltac:(lia)).
    rewrite !(Z.mod_small (v / _) (2 ^ 32)), !(Z.mod_small (v mod _) (2 ^ 32)) by lia.
    rewrite lead64_dec by lia. cbn [bind].
    set (v0 := v / 100000000) in *. set (v1 := v mod 100000000) in *.
    destruct (eight_fixed v0) as (l0 & Hl0 & Hd0 & Hlen0 & Hval0); [lia|].
    destruct (eight_fixed v1) as (l1 & Hl1 & Hd1 & Hlen1 & Hval1); [lia|].
    assert (Happ : digits (eight v0 ++ eight v1) = Ret (l0 ++ l1)) by (by rewrite digits_app, Hl0, Hl1).
    unfold eight in Happ. cbn [app] in Happ. rewrite Happ. cbn [bind].
    rewrite <- dec_app; [|lia|by apply is_digits_app].
    rewrite dec_value_app, length_app, Hlen0, Hlen1, Hval0, Hval1.
    f_equal. f_equal. change (10 ^ Z.of_nat (8 + 8)) with (10 ^ 16).
    change (10 ^ Z.of_nat 8) with (10 ^ 8). lia.
Qed.

Lemma i32toa_dec v :
  - 2 ^ 31 <= v < 2 ^ 31 -> i32toa v = Ret (if v <? 0 then 45 :: dec (- v) else dec v).
Proof.
  intros Hv. unfold i32toa. destruct (Z.ltb_spec v 0).
  - rewrite neg32 by lia. by rewrite u32toa_dec by lia.
  - unfold u32. by rewrite Z.mod_small, u32toa_dec by lia.
Qed.

Lemma i64toa_dec v :
  - 2 ^ 63 <= v < 2 ^ 63 -> i64toa v = Ret (if v <? 0 then 45 :: dec (- v) else dec v).
Proof.
  intros Hv. unfold i64toa. destruct (Z.ltb_spec v 0).
  - rewrite neg64 by lia. by rewrite u64toa_dec by lia.
  - unfold u64. by rewrite Z.mod_small, u64toa_dec by lia.
Qed.

(** C39. The four printers write exactly the decimal notation of their
    argument, for every value of its type: [u32toa] and [u64toa] the digits
    without leading zeros, [i32toa] and [i64toa] with a minus sign before the
    absolute value, the smallest values included; no read leaves the table. *)
Theorem itoa_prints_decimal :
  (forall v, 0 <= v < 2 ^ 32 -> u32toa v = Ret (dec v)) /\
  (forall v, 0 <= v < 2 ^ 64 -> u64toa v = Ret (dec v)) /\
  (forall v, - 2 ^ 31 <= v < 2 ^ 31 ->
     i32toa v = Ret (if v <? 0 then 45 :: dec (- v) else dec v)) /\
  (forall v, - 2 ^ 63 <= v < 2 ^ 63 ->
     i64toa v = Ret (if v <? 0 then 45 :: dec (- v) else dec v)).
Proof. split_and!; [exact u32toa_dec | exact u64toa_dec | exact i32toa_dec | exact i64toa_dec]. Qed.

Lemma itoa_prints_decimal_witness :
  u64toa (2 ^ 64 - 1) = Ret (str "18446744073709551615") /\
  i64toa (- 2 ^ 63) = Ret (str "-9223372036854775808").
Proof.
  destruct itoa_prints_decimal as (_ & H64 & _ & Hi64). split.
  - rewrite H64 by lia. reflexivity.
  - rewrite Hi64 by lia. reflexivity.
Defined.
