(* ===== verification/Types.v ===== *)
(** * The data types of src/src/main.cpp

    The enumeration and the plain structs every component of the service
    shares: [ProcessorResult], [Payment], [RawPayment], [Summary] and
    [SummaryPair].  A [double] is an IEEE 754 binary64 number, represented by
    the standard library's [spec_float] at precision 53 and maximal exponent
    1024. *)
From S2P Require Import Prelude.
From Stdlib Require Import SpecFloat.

Abbreviation double := spec_float.

(** [enum class ProcessorResult] *)
Inductive ProcessorResult := Default | Fallback | Discard | TryAgain.

#[export] Instance ProcessorResult_eq_dec : EqDecision ProcessorResult.
Proof. solve_decision. Defined.

#[export] Instance ProcessorResult_inhabited : Inhabited ProcessorResult := populate Default.

(** [struct Payment] *)
Record Payment := mkPayment { correlationId : list Z; amount : double }.

(** [struct RawPayment]: [data] is an array of exactly [raw_capacity] bytes. *)
Definition raw_capacity : nat := 70.

Record RawPayment := mkRaw { data : list Z; size : Z }.

#[export] Instance RawPayment_eq_dec : EqDecision RawPayment.
Proof. solve_decision. Defined.

(** The value-initialised [RawPayment r;]. *)
Definition raw_empty : RawPayment := mkRaw (replicate raw_capacity 0) 0.

#[export] Instance RawPayment_inhabited : Inhabited RawPayment := populate raw_empty.

(** [struct Summary] and [struct SummaryPair], with their default member
    initialisers [0] and [0.0]. *)
Record Summary := mkSummary { totalRequests : Z; totalAmount : double }.
Record SummaryPair := mkSummaryPair { def : Summary; fb : Summary }.

Definition summary_zero : Summary := mkSummary 0 (S754_zero false).
Definition pair_zero : SummaryPair := mkSummaryPair summary_zero summary_zero.
