(* ===== verification/Doubles.v ===== *)
(** * The double type: IEEE 754 binary64

    Arithmetic is the standard library's executable specification of IEEE 754
    ([SpecFloat], round to nearest even) at precision 53 and maximal exponent
    1024; a NaN carries no payload.  The file adds the conversions the service
    uses: an integer to a double, and [std::stod], that is, C's [strtod]
    (correctly rounded) with the two exceptions [std::stod] throws. *)
From S2P Require Import Prelude Decimal Types.
From Stdlib Require Import SpecFloat.

(** ** Arithmetic *)
Definition dprec : Z := 53.
Definition demax : Z := 1024.

Definition dadd : double -> double -> double := SFadd dprec demax.
Definition dsub : double -> double -> double := SFsub dprec demax.
Definition dmul : double -> double -> double := SFmul dprec demax.
Definition ddiv : double -> double -> double := SFdiv dprec demax.
Definition deqb : double -> double -> bool := SFeqb.
Definition dltb : double -> double -> bool := SFltb.
Definition dleb : double -> double -> bool := SFleb.
Definition dzero : double := S754_zero false.

(** A value of the type is a canonical binary64 number. *)
Definition is_double (d : double) : Prop := valid_binary dprec demax d = true.

Definition double_of_Z (z : Z) : double := binary_normalize dprec demax z 0 false.

Definition is_finite (d : double) : bool :=
  match d with S754_zero _ | S754_finite _ _ _ => true | _ => false end.

(** ** Decimal and hexadecimal text to the nearest double *)
Definition is_subnormal_or_zero (d : double) : bool :=
  match d with
  | S754_zero _ => true
  | S754_finite _ m _ => Zpos (digits2_pos m) <? dprec
  | _ => false
  end.

(** [|d| = num / den] *)
Definition has_magnitude (d : double) (num den : Z) : bool :=
  match d with
  | S754_zero _ => num =? 0
  | S754_finite _ m e =>
      if 0 <=? e then Zpos m * 2 ^ e * den =? num else Zpos m * den =? num * 2 ^ (- e)
  | _ => false
  end.

Definition is_infinite (d : double) : bool :=
  match d with S754_infinity _ => true | _ => false end.

(** The double nearest to [num / den], for positive [num] and [den]. *)
Definition round_quotient (neg : bool) (num den : Z) : double :=
  let '(q, e, l) := SFdiv_core_binary dprec demax num 0 den 0 in
  binary_round_aux dprec demax neg q e l.

(** The rounded value, and whether [errno] is set to [ERANGE]: overflow, or an
    inexact result that is zero or subnormal. *)
Definition round_erange (neg : bool) (num den : Z) : double * bool :=
  let d := round_quotient neg num den in
  (d, is_infinite d || (is_subnormal_or_zero d && negb (has_magnitude d num den))).

(** [m * base^e] for [base] 2 or 10, with magnitudes far out of range decided
    without computing the power. *)
Definition scale_round (neg : bool) (base m e : Z) : double * bool :=
  if m =? 0 then (S754_zero neg, false)
  else if 1100 <? e then (S754_infinity neg, true)
  else if e <? - (1100 + 4 * Z.of_nat (length (dec m))) then (S754_zero neg, true)
  else if 0 <=? e then round_erange neg (m * base ^ e) 1
  else round_erange neg m (base ^ (- e)).

(** ** strtod *)
(** Drops [pre] from the front of [s], ignoring case. *)
Fixpoint strip_prefix (pre s : list Z) : option (list Z) :=
  match pre, s with
  | [], _ => Some s
  | p :: pre, c :: s => if to_lower c =? p then strip_prefix pre s else None
  | _ :: _, [] => None
  end.

Definition hex_digit (c : Z) : option Z :=
  let c := to_lower c in
  if isdigit c then Some (c - 48)
  else if (97 <=? c) && (c <=? 102) then Some (c - 87) else None.

Definition is_hex (c : Z) : bool := match hex_digit c with Some _ => true | None => false end.

Definition hex_value (l : list Z) : Z :=
  fold_left (fun acc c => 16 * acc + default 0 (hex_digit c)) l 0.

(** The optional exponent introduced by [mark]; it counts only with a digit. *)
Definition read_exponent (mark : Z) (s : list Z) : Z :=
  match s with
  | c :: s' =>
      if to_lower c =? mark then
        let '(neg, s'') := match s' with
                           | 45 :: t => (true, t)
                           | 43 :: t => (false, t)
                           | _ => (false, s')
                           end in
        let '(ds, _) := span isdigit s'' in
        if neg : bool then - dec_value ds else dec_value ds
      else 0
  | [] => 0
  end.

(** Integer and fraction digits around an optional point. *)
Definition read_mantissa (p : Z -> bool) (s : list Z) : list Z * list Z * list Z :=
  let '(ip, s) := span p s in
  match s with
  | 46 :: s' => let '(fp, rest) := span p s' in
                match ip, fp with [], [] => ([], [], s) | _, _ => (ip, fp, rest) end
  | _ => (ip, [], s)
  end.

Definition strtod_decimal (neg : bool) (s : list Z) : option (double * bool) :=
  let '(ip, fp, rest) := read_mantissa isdigit s in
  match ip, fp with
  | [], [] => None
  | _, _ => Some (scale_round neg 10 (dec_value (ip ++ fp))
                    (read_exponent 101 rest - Z.of_nat (length fp)))
  end.

Definition strtod_hex (neg : bool) (s : list Z) : option (double * bool) :=
  let '(ip, fp, rest) := read_mantissa is_hex s in
  match ip, fp with
  | [], [] => None
  | _, _ => Some (scale_round neg 2 (hex_value (ip ++ fp))
                    (read_exponent 112 rest - 4 * Z.of_nat (length fp)))
  end.

(** The converted value with the [ERANGE] flag, or [None] when no conversion
    was performed. *)
Definition strtod (s : list Z) : option (double * bool) :=
  let '(_, s) := span isspace s in
  let '(neg, s) := match s with
                   | 45 :: t => (true, t)
                   | 43 :: t => (false, t)
                   | _ => (false, s)
                   end in
  match strip_prefix (str "inf") s with
  | Some _ => Some (S754_infinity neg, false)
  | None =>
    match strip_prefix (str "nan") s with
    | Some _ => Some (S754_nan, false)
    | None =>
      match strip_prefix (str "0x") s with
      | Some h => match strtod_hex neg h with
                  | Some r => Some r
                  | None => strtod_decimal neg s
                  end
      | None => strtod_decimal neg s
      end
    end
  end.

(** [std::stod] *)
Definition stod (s : list Z) : outcome double :=
  match strtod s with
  | None => Throw InvalidArgument
  | Some (_, true) => Throw StdOutOfRange
  | Some (d, false) => Ret d
  end.

Example stod_19_9 : stod (str "19.90") = Ret (S754_finite false 0x13E66666666666 (-48)).
Proof. vm_compute. reflexivity. Qed.

Example stod_tenth : stod (str " 1e-1}") = Ret (S754_finite false 0x1999999999999A (-56)).
Proof. vm_compute. reflexivity. Qed.

Example stod_quoted : stod (str "abc") = Throw InvalidArgument.
Proof. vm_compute. reflexivity. Qed.

Example stod_huge : stod (str "1e400") = Throw StdOutOfRange.
Proof. vm_compute. reflexivity. Qed.

Example stod_hex : stod (str "0x1.8p1") = Ret (double_of_Z 3).
Proof. vm_compute. reflexivity. Qed.

(** ** Facts on comparison and addition *)
Lemma dadd_zero_l d : d <> S754_zero true -> dadd dzero d = d.
Proof. destruct d as [[]|[]| |]; done. Qed.

Lemma deqb_zero d : deqb d dzero = match d with S754_zero _ => true | _ => false end.
Proof. by destruct d as [[]|[]| |[]]. Qed.
