(* ===== verification/Ieee754.v ===== *)
(** * The binary64 layout: src/include/rapidjson/internal/ieee754.h

    [class Double] views a [double] as the 64-bit integer [u_] of a union.
    The union is the pair of conversions [bits_of_double]/[double_of_bits];
    the members are functions of [u_].  A NaN is read back as the quiet NaN of
    payload 0: the [double] type of the development has one NaN. *)
From S2P Require Import Prelude Types Doubles.
From Stdlib Require Import SpecFloat.

(** ** The union *)
Definition bits_of_double (d : double) : Z :=
  match d with
  | S754_zero s => if s then 2 ^ 63 else 0
  | S754_infinity s => (if s then 2 ^ 63 else 0) + 2047 * 2 ^ 52
  | S754_nan => 2047 * 2 ^ 52 + 2 ^ 51
  | S754_finite s m e =>
      (if s then 2 ^ 63 else 0) +
      (if 2 ^ 52 <=? Zpos m then (e + 1075) * 2 ^ 52 + (Zpos m - 2 ^ 52) else Zpos m)
  end.

Definition double_of_bits (u : Z) : double :=
  let s := 0 <? u / 2 ^ 63 in
  let be := u / 2 ^ 52 mod 2 ^ 11 in
  let m := u mod 2 ^ 52 in
  if be =? 2047 then if m =? 0 then S754_infinity s else S754_nan
  else if be =? 0 then
    match m with Zpos p => S754_finite s p (-1074) | _ => S754_zero s end
  else
    match 2 ^ 52 + m with Zpos p => S754_finite s p (be - 1075) | _ => S754_nan end.

(** ** Constants and members of the class *)
Module Double.
Definition kSignificandSize : Z := 52.
Definition kExponentBias : Z := 0x3FF.
Definition kDenormalExponent : Z := 1 - kExponentBias.
Definition kSignMask : Z := 0x8000000000000000.
Definition kExponentMask : Z := 0x7FF0000000000000.
Definition kSignificandMask : Z := 0x000FFFFFFFFFFFFF.
Definition kHiddenBit : Z := 0x0010000000000000.

Definition Sign (u_ : Z) : bool := negb (Z.land u_ kSignMask =? 0).
Definition Significand (u_ : Z) : Z := Z.land u_ kSignificandMask.

(** The subtraction is done in [uint64_t] and converted to [int]. *)
Definition Exponent (u_ : Z) : Z :=
  i32 (u64 (Z.shiftr (Z.land u_ kExponentMask) kSignificandSize - kExponentBias)).

Definition IsNan (u_ : Z) : bool :=
  (Z.land u_ kExponentMask =? kExponentMask) && negb (Significand u_ =? 0).
Definition IsInf (u_ : Z) : bool :=
  (Z.land u_ kExponentMask =? kExponentMask) && (Significand u_ =? 0).
Definition IsNanOrInf (u_ : Z) : bool := Z.land u_ kExponentMask =? kExponentMask.
Definition IsNormal (u_ : Z) : bool :=
  negb (Z.land u_ kExponentMask =? 0) || (Significand u_ =? 0).
Definition IsZero (u_ : Z) : bool :=
  Z.land u_ (Z.lor kExponentMask kSignificandMask) =? 0.

Definition IntegerSignificand (u_ : Z) : Z :=
  if IsNormal u_ then Z.lor (Significand u_) kHiddenBit else Significand u_.
Definition IntegerExponent (u_ : Z) : Z :=
  (if IsNormal u_ then Exponent u_ else kDenormalExponent) - kSignificandSize.
Definition ToBias (u_ : Z) : Z :=
  if negb (Z.land u_ kSignMask =? 0) then u64 (u64 (Z.lnot u_) + 1) else Z.lor u_ kSignMask.

(** Asserts that the sign is clear. *)
Definition NextPositiveDouble (u_ : Z) : option double :=
  if Sign u_ then None else Some (double_of_bits (u64 (u_ + 1))).

Definition EffectiveSignificandSize (order : Z) : Z :=
  if -1021 <=? order then 53
  else if order <=? -1074 then 0
  else order + 1074.
End Double.

(** ** Fields of a word *)
Lemma land_field a n k :
  0 <= n -> 0 <= k -> Z.land a (Z.shiftl (Z.ones k) n) = (a / 2 ^ n) mod 2 ^ k * 2 ^ n.
Proof.
  intros Hn Hk. rewrite <- Z.shiftl_mul_pow2, <- Z.shiftr_div_pow2, <- Z.land_ones by done.
  apply Z.bits_inj'. intros i Hi. rewrite Z.land_spec, !Z.shiftl_spec, Z.land_spec by done.
  destruct (Z.ltb_spec i n).
  - rewrite (Z.testbit_neg_r (Z.ones k)) by lia. by rewrite !andb_false_r.
  - rewrite Z.shiftr_spec by lia. by replace (i - n + n) with i by lia.
Qed.

(** A word by its three fields. *)
Definition word (s be m : Z) : Z := s * 2 ^ 63 + be * 2 ^ 52 + m.

Section Fields.
Context (s be m : Z) (Hs : 0 <= s <= 1) (Hbe : 0 <= be < 2048) (Hm : 0 <= m < 2 ^ 52).

Lemma word_div52 : word s be m / 2 ^ 52 = s * 2 ^ 11 + be.
Proof using Hs Hbe Hm. unfold word. symmetry. apply (Z.div_unique _ _ _ m); lia. Qed.

Lemma word_significand : Double.Significand (word s be m) = m.
Proof using Hs Hbe Hm.
    unfold Double.Significand. change Double.kSignificandMask with (Z.ones 52).
    rewrite Z.land_ones by lia. symmetry. unfold word.
    apply (Z.mod_unique _ _ (s * 2 ^ 11 + be)); lia.
Qed.

Lemma word_exponent_field : Z.land (word s be m) Double.kExponentMask = be * 2 ^ 52.
Proof using Hs Hbe Hm.
    change Double.kExponentMask with (Z.shiftl (Z.ones 11) 52).
    rewrite land_field, word_div52 by lia. f_equal. symmetry.
    apply (Z.mod_unique _ _ s); lia.
Qed.

Lemma word_sign : Double.Sign (word s be m) = (s =? 1).
Proof using Hs Hbe Hm.
    unfold Double.Sign. change Double.kSignMask with (Z.shiftl (Z.ones 1) 63).
    rewrite land_field by lia.
    assert (word s be m / 2 ^ 63 = s) as ->
      by (symmetry; unfold word; apply (Z.div_unique _ _ _ (be * 2 ^ 52 + m)); lia).
    assert (s = 0 \/ s = 1) as [-> | ->] by lia; done.
Qed.

Lemma word_exponent : Double.Exponent (word s be m) = be - 1023.
Proof using Hs Hbe Hm.
    unfold Double.Exponent, Double.kSignificandSize, Double.kExponentBias.
    rewrite word_exponent_field, Z.shiftr_div_pow2, Z.div_mul by lia.
    unfold i32, u64. destruct (Z.leb_spec 1023 be).
    - rewrite (Z.mod_small (be - 1023)) by lia. rewrite Z.mod_small by lia. lia.
    - rewrite <- (Z.mod_unique (be - 1023) (2 ^ 64) (-1) (be - 1023 + 2 ^ 64)) by lia.
      rewrite <- (Z.mod_unique _ (2 ^ 32) (2 ^ 32) (be - 1023 + 2 ^ 31)) by lia. lia.
Qed.
End Fields.

(** ** Canonical doubles *)
Lemma digits2_pos_bounds p : 2 ^ (Zpos (digits2_pos p) - 1) <= Zpos p < 2 ^ Zpos (digits2_pos p).
Proof.
  induction p as [p IH|p IH|]; cbn [digits2_pos]; [| |done];
    rewrite Pos2Z.inj_succ; unfold Z.succ;
    replace (Zpos (digits2_pos p) + 1 - 1) with (Zpos (digits2_pos p) - 1 + 1) by lia;
    rewrite !Z.pow_add_r by lia; lia.
Qed.

(** The finite numbers of the format: 53-bit mantissas, or smaller ones at the
    least exponent. *)
Lemma is_double_finite s m e :
  is_double (S754_finite s m e) <->
  (2 ^ 52 <= Zpos m < 2 ^ 53 /\ -1074 <= e <= 971) \/ (Zpos m < 2 ^ 52 /\ e = -1074).
Proof.
  unfold is_double, valid_binary, bounded, canonical_mantissa, fexp, emin, dprec, demax.
  rewrite andb_true_iff, Z.eqb_eq, Z.leb_le. pose proof (digits2_pos_bounds m) as Hd.
  set (k := Zpos (digits2_pos m)) in *. assert (1 <= k) by lia.
  destruct (Z.lt_trichotomy k 53) as [Hk | [-> | Hk]].
  - assert (2 ^ k <= 2 ^ 52) by (apply Z.pow_le_mono_r; lia). lia.
  - replace (2 ^ (53 - 1)) with (2 ^ 52) in Hd by done. lia.
  - assert (2 ^ 53 <= 2 ^ (k - 1)) by (apply Z.pow_le_mono_r; lia). lia.
Qed.

Definition sign_bit (d : double) : bool :=
  match d with S754_zero s | S754_infinity s | S754_finite s _ _ => s | S754_nan => false end.

Lemma bits_of_finite s m e :
  is_double (S754_finite s m e) ->
  exists be f, bits_of_double (S754_finite s m e) = word (Z.b2z s) be f /\
    0 <= be < 2047 /\ 0 <= f < 2 ^ 52 /\
    ((be = e + 1075 /\ 0 < be /\ f = Zpos m - 2 ^ 52) \/ (be = 0 /\ e = -1074 /\ f = Zpos m)).
Proof.
  intros [(Hm & He) | (Hm & ->)]%is_double_finite; unfold bits_of_double.
  - replace (2 ^ 52 <=? Zpos m) with true by lia.
    exists (e + 1075), (Zpos m - 2 ^ 52). unfold word. split_and!; try lia. destruct s; simpl Z.b2z; lia.
  - replace (2 ^ 52 <=? Zpos m) with false by lia.
    exists 0, (Zpos m). unfold word. split_and!; try lia. destruct s; simpl Z.b2z; lia.
Qed.

Lemma b2z_range s : 0 <= Z.b2z s <= 1.
Proof. destruct s; simpl; lia. Qed.
#[export] Hint Resolve b2z_range : cpp.

Lemma word_double s be f :
  0 <= be < 2048 -> 0 <= f < 2 ^ 52 ->
  double_of_bits (word (Z.b2z s) be f) =
  if be =? 2047 then if f =? 0 then S754_infinity s else S754_nan
  else if be =? 0 then match f with Zpos p => S754_finite s p (-1074) | _ => S754_zero s end
  else match 2 ^ 52 + f with Zpos p => S754_finite s p (be - 1075) | _ => S754_nan end.
Proof.
  intros Hbe Hf. unfold double_of_bits.
  assert (word (Z.b2z s) be f / 2 ^ 63 = Z.b2z s) as ->.
  { symmetry. unfold word. apply (Z.div_unique _ _ _ (be * 2 ^ 52 + f)); lia. }
  pose proof (b2z_range s). rewrite word_div52 by done.
  replace ((Z.b2z s * 2 ^ 11 + be) mod 2 ^ 11) with be by (apply (Z.mod_unique _ _ (Z.b2z s)); lia).
  replace (word (Z.b2z s) be f mod 2 ^ 52) with f
    by (apply (Z.mod_unique _ _ (Z.b2z s * 2 ^ 11 + be)); unfold word; lia).
  destruct s; done.
Qed.

Lemma double_bits_roundtrip d : is_double d -> double_of_bits (bits_of_double d) = d.
Proof.
  intros Hd. destruct d as [[]|[]| |s m e]; [done..|].
  destruct (bits_of_finite s m e Hd) as (be & f & -> & Hbe & Hf & Hcase).
  rewrite word_double by lia. replace (be =? 2047) with false by lia.
  destruct Hcase as [(-> & ? & ->) | (-> & -> & ->)]; [|done].
  replace (e + 1075 =? 0) with false by lia.
  replace (2 ^ 52 + (Zpos m - 2 ^ 52)) with (Zpos m) by lia.
  by replace (e + 1075 - 1075) with e by lia.
Qed.

Lemma finite_not_nan d : is_double d -> is_finite d = true -> Double.IsNanOrInf (bits_of_double d) = false.
Proof.
  intros Hd Hf. destruct d as [[]| | |s m e]; [done..|].
  destruct (bits_of_finite s m e Hd) as (be & f & -> & Hbe & Hf' & _).
  unfold Double.IsNanOrInf. rewrite word_exponent_field by (apply b2z_range || lia).
  apply Z.eqb_neq. unfold Double.kExponentMask. lia.
Qed.

(** The union is a faithful view: every double is read back from its
    bits, and for a finite non-zero one the members of [Double] give its sign,
    mantissa and exponent, so that [|d|] is [IntegerSignificand] times two to
    the [IntegerExponent]. *)
Theorem double_view (d : double) :
  is_double d ->
  double_of_bits (bits_of_double d) = d /\
  Double.IsZero (bits_of_double d) = match d with S754_zero _ => true | _ => false end /\
  Double.IsNanOrInf (bits_of_double d) = negb (is_finite d) /\
  Double.Sign (bits_of_double d) = sign_bit d /\
  match d with
  | S754_finite _ m e => Double.IntegerSignificand (bits_of_double d) = Zpos m /\
                         Double.IntegerExponent (bits_of_double d) = e
  | _ => True
  end.
Proof.
  intros Hd. split; [by apply double_bits_roundtrip|].
  destruct d as [[]|[]| |s m e]; [by split_and!..|].
  destruct (bits_of_finite s m e Hd) as (be & f & -> & Hbe & Hf & Hcase).
  pose proof (b2z_range s) as Hs.
  assert (HE := word_exponent_field (Z.b2z s) be f Hs ltac:(lia) Hf).
  assert (HS := word_significand (Z.b2z s) be f Hs ltac:(lia) Hf).
  split_and!.
  - unfold Double.IsZero. rewrite Z.land_lor_distr_r, HE. fold (Double.Significand (word (Z.b2z s) be f)).
    rewrite HS. apply Z.eqb_neq. intros [? ?]%Z.lor_eq_0_iff. lia.
  - unfold Double.IsNanOrInf. rewrite HE. apply Z.eqb_neq. unfold Double.kExponentMask. lia.
  - rewrite word_sign by (done || lia). by destruct s.
  - unfold Double.IntegerSignificand, Double.IsNormal. rewrite HE, HS.
    destruct Hcase as [(Hbe' & ? & ->) | (-> & -> & ->)].
    + replace (be * 2 ^ 52 =? 0) with false by lia. cbn [negb orb].
      change Double.kHiddenBit with (Z.shiftl 1 52).
      assert (Z.land (Zpos m - 2 ^ 52) (Z.shiftl 1 52) = 0) as Hl.
      { change (Z.shiftl 1 52) with (Z.shiftl (Z.ones 1) 52). rewrite land_field by lia.
        rewrite (Z.div_small (Zpos m - 2 ^ 52)) by lia. done. }
      rewrite <- Z.lxor_lor, <- Z.add_nocarry_lxor by done. change (Z.shiftl 1 52) with (2 ^ 52). lia.
    + done.
  - unfold Double.IntegerExponent, Double.IsNormal. rewrite HE, HS, word_exponent by (done || lia).
    unfold Double.kDenormalExponent, Double.kSignificandSize, Double.kExponentBias.
    destruct Hcase as [(Hbe' & ? & ->) | (-> & -> & ->)].
    + replace (be * 2 ^ 52 =? 0) with false by lia. cbn [negb orb]. lia.
    + done.
Qed.

Lemma double_view_witness :
  is_double (S754_finite true 1 (-1074)) /\
  Double.IntegerSignificand (bits_of_double (S754_finite true 1 (-1074))) = 1.
Proof.
  assert (H : is_double (S754_finite true 1 (-1074))) by reflexivity.
  split; [exact H|]. apply (double_view _ H).
Defined.
