(* ===== verification/DiyFp.v ===== *)
(** * Floating point with a 64-bit significand: src/include/rapidjson/internal/diyfp.h

    [DiyFp] is [f * 2^e] with [f] a [uint64_t]; the cached powers of ten; and
    clzll.h.  The product is the branch of [operator*] for x86-64 GCC; the
    portable branch is [mul_portable], equal to it. *)
From S2P Require Import Prelude Decimal Types Doubles Ieee754.
From Stdlib Require Import SpecFloat.

(** ** Counting leading zeros (clzll.h, the compiler's builtin)

    Asserts that [x] is not 0. *)
Definition clzll (x : Z) : outcome Z :=
  if x =? 0 then Undefined AssertionFailed else Ret (63 - Z.log2 x).

(** ** The structure *)
Module DiyFp.
Record t := mk { f : Z; e : Z }.

Definition kDiySignificandSize : Z := 64.
Definition kDpSignificandSize : Z := 52.
Definition kDpExponentBias : Z := 0x3FF + kDpSignificandSize.
Definition kDpMaxExponent : Z := 0x7FF - kDpExponentBias.
Definition kDpMinExponent : Z := - kDpExponentBias.
Definition kDpDenormalExponent : Z := - kDpExponentBias + 1.
Definition kDpExponentMask : Z := 0x7FF0000000000000.
Definition kDpSignificandMask : Z := 0x000FFFFFFFFFFFFF.
Definition kDpHiddenBit : Z := 0x0010000000000000.

(** [explicit DiyFp(double d)] *)
Definition of_double (d : double) : t :=
  let u := bits_of_double d in
  let biased_e := Z.shiftr (Z.land u kDpExponentMask) kDpSignificandSize in
  let significand := Z.land u kDpSignificandMask in
  if negb (biased_e =? 0) then mk (significand + kDpHiddenBit) (biased_e - kDpExponentBias)
  else mk significand (kDpMinExponent + 1).

(** [operator-] *)
Definition sub (x rhs : t) : t := mk (u64 (x.(f) - rhs.(f))) x.(e).

(** [operator*] with the 128-bit product *)
Definition mul (x rhs : t) : t :=
  let p := x.(f) * rhs.(f) in
  let h := u64 (Z.shiftr p 64) in
  let l := u64 p in
  let h := if negb (Z.land l (Z.shiftl 1 63) =? 0) then u64 (h + 1) else h in
  mk h (x.(e) + rhs.(e) + 64).

(** [operator*] without it *)
Definition mul_portable (x rhs : t) : t :=
  let M32 := 0xFFFFFFFF in
  let a := Z.shiftr x.(f) 32 in
  let b := Z.land x.(f) M32 in
  let c := Z.shiftr rhs.(f) 32 in
  let d := Z.land rhs.(f) M32 in
  let ac := u64 (a * c) in
  let bc := u64 (b * c) in
  let ad := u64 (a * d) in
  let bd := u64 (b * d) in
  let tmp := u64 (u64 (Z.shiftr bd 32 + Z.land ad M32) + Z.land bc M32) in
  let tmp := u64 (tmp + Z.shiftl 1 31) in
  mk (u64 (u64 (u64 (ac + Z.shiftr ad 32) + Z.shiftr bc 32) + Z.shiftr tmp 32))
     (x.(e) + rhs.(e) + 64).

Definition Normalize (x : t) : outcome t :=
  let* s := clzll x.(f) in
  Ret (mk (u64 (Z.shiftl x.(f) s)) (x.(e) - s)).

(** The loop [while (!(res.f & (kDpHiddenBit << 1)))]; it shifts at most 54
    times before the bit is reached or [f] is zero for good. *)
Fixpoint normalize_boundary_loop (fuel : nat) (res : t) : outcome t :=
  if negb (Z.land res.(f) (Z.shiftl kDpHiddenBit 1) =? 0) then Ret res
  else match fuel with
       | O => Undefined FuelExhausted
       | S fuel => normalize_boundary_loop fuel (mk (u64 (Z.shiftl res.(f) 1)) (res.(e) - 1))
       end.

Definition NormalizeBoundary (x : t) : outcome t :=
  let* res := normalize_boundary_loop 54 x in
  let k := kDiySignificandSize - kDpSignificandSize - 2 in
  Ret (mk (u64 (Z.shiftl res.(f) k)) (res.(e) - k)).

(** The results are [( *minus, *plus )]. *)
Definition NormalizedBoundaries (x : t) : outcome (t * t) :=
  let* pl := NormalizeBoundary (mk (u64 (u64 (Z.shiftl x.(f) 1) + 1)) (x.(e) - 1)) in
  let mi := if x.(f) =? kDpHiddenBit then mk (u64 (u64 (Z.shiftl x.(f) 2) - 1)) (x.(e) - 2)
            else mk (u64 (u64 (Z.shiftl x.(f) 1) - 1)) (x.(e) - 1) in
  let mi := mk (u64 (Z.shiftl mi.(f) (mi.(e) - pl.(e)))) pl.(e) in
  Ret (mi, pl).

(** The assertion on [f] is the first test. *)
Definition ToDouble (x : t) : outcome double :=
  if negb (x.(f) <=? kDpHiddenBit + kDpSignificandMask) then Undefined AssertionFailed
  else if x.(e) <? kDpDenormalExponent then Ret dzero
  else if kDpMaxExponent <=? x.(e) then Ret (S754_infinity false)
  else
    let be := if (x.(e) =? kDpDenormalExponent) && (Z.land x.(f) kDpHiddenBit =? 0) then 0
              else u64 (x.(e) + kDpExponentBias) in
    Ret (double_of_bits
           (Z.lor (Z.land x.(f) kDpSignificandMask) (u64 (Z.shiftl be kDpSignificandSize)))).
End DiyFp.

(** ** Cached powers *)
Definition kCachedPowers_F : list Z := [
   0xfa8fd5a0081c0288; 0xbaaee17fa23ebf76; 0x8b16fb203055ac76; 0xcf42894a5dce35ea;
   0x9a6bb0aa55653b2d; 0xe61acf033d1a45df; 0xab70fe17c79ac6ca; 0xff77b1fcbebcdc4f;
   0xbe5691ef416bd60c; 0x8dd01fad907ffc3c; 0xd3515c2831559a83; 0x9d71ac8fada6c9b5;
   0xea9c227723ee8bcb; 0xaecc49914078536d; 0x823c12795db6ce57; 0xc21094364dfb5637;
   0x9096ea6f3848984f; 0xd77485cb25823ac7; 0xa086cfcd97bf97f4; 0xef340a98172aace5;
   0xb23867fb2a35b28e; 0x84c8d4dfd2c63f3b; 0xc5dd44271ad3cdba; 0x936b9fcebb25c996;
   0xdbac6c247d62a584; 0xa3ab66580d5fdaf6; 0xf3e2f893dec3f126; 0xb5b5ada8aaff80b8;
   0x87625f056c7c4a8b; 0xc9bcff6034c13053; 0x964e858c91ba2655; 0xdff9772470297ebd;
   0xa6dfbd9fb8e5b88f; 0xf8a95fcf88747d94; 0xb94470938fa89bcf; 0x8a08f0f8bf0f156b;
   0xcdb02555653131b6; 0x993fe2c6d07b7fac; 0xe45c10c42a2b3b06; 0xaa242499697392d3;
   0xfd87b5f28300ca0e; 0xbce5086492111aeb; 0x8cbccc096f5088cc; 0xd1b71758e219652c;
   0x9c40000000000000; 0xe8d4a51000000000; 0xad78ebc5ac620000; 0x813f3978f8940984;
   0xc097ce7bc90715b3; 0x8f7e32ce7bea5c70; 0xd5d238a4abe98068; 0x9f4f2726179a2245;
   0xed63a231d4c4fb27; 0xb0de65388cc8ada8; 0x83c7088e1aab65db; 0xc45d1df942711d9a;
   0x924d692ca61be758; 0xda01ee641a708dea; 0xa26da3999aef774a; 0xf209787bb47d6b85;
   0xb454e4a179dd1877; 0x865b86925b9bc5c2; 0xc83553c5c8965d3d; 0x952ab45cfa97a0b3;
   0xde469fbd99a05fe3; 0xa59bc234db398c25; 0xf6c69a72a3989f5c; 0xb7dcbf5354e9bece;
   0x88fcf317f22241e2; 0xcc20ce9bd35c78a5; 0x98165af37b2153df; 0xe2a0b5dc971f303a;
   0xa8d9d1535ce3b396; 0xfb9b7cd9a4a7443c; 0xbb764c4ca7a44410; 0x8bab8eefb6409c1a;
   0xd01fef10a657842c; 0x9b10a4e5e9913129; 0xe7109bfba19c0c9d; 0xac2820d9623bf429;
   0x80444b5e7aa7cf85; 0xbf21e44003acdd2d; 0x8e679c2f5e44ff8f; 0xd433179d9c8cb841;
   0x9e19db92b4e31ba9; 0xeb96bf6ebadf77d9; 0xaf87023b9bf0ee6b].

Definition kCachedPowers_E : list Z := [
   -1220; -1193; -1166; -1140; -1113; -1087; -1060; -1034; -1007; -980;
   -954; -927; -901; -874; -847; -821; -794; -768; -741; -715;
   -688; -661; -635; -608; -582; -555; -529; -502; -475; -449;
   -422; -396; -369; -343; -316; -289; -263; -236; -210; -183;
   -157; -130; -103; -77; -50; -24; 3; 30; 56; 83;
   109; 136; 162; 189; 216; 242; 269; 295; 322; 348;
   375; 402; 428; 455; 481; 508; 534; 561; 588; 614;
   641; 667; 694; 720; 747; 774; 800; 827; 853; 880;
   907; 933; 960; 986; 1013; 1039; 1066].

Definition GetCachedPowerByIndex (index : Z) : outcome DiyFp.t :=
  let* f := lookupZ kCachedPowers_F index in
  let* e := lookupZ kCachedPowers_E index in
  Ret (DiyFp.mk f e).

(** [static_cast<int>] of a double: towards zero. *)
Definition int_of_double (d : double) : Z :=
  match d with
  | S754_finite s m e =>
      let v := if 0 <=? e then Zpos m * 2 ^ e else Zpos m / 2 ^ (- e) in
      if s then - v else v
  | _ => 0
  end.

(** The literal 0.30102999566398114. *)
Definition log10_2 : double := S754_finite false 0x134413509f79fe (-54).

(** The result is the power and [*K]. *)
Definition GetCachedPower (e : Z) : outcome (DiyFp.t * Z) :=
  let dk := dadd (dmul (double_of_Z (-61 - e)) log10_2) (double_of_Z 347) in
  let k := int_of_double dk in
  let k := if dltb dzero (dsub dk (double_of_Z k)) then k + 1 else k in
  let index := u32 (Z.shiftr k 3 + 1) in
  let K := - (-348 + i32 (u32 (Z.shiftl index 3))) in
  let* c := GetCachedPowerByIndex index in
  Ret (c, K).

(** Asserts [exp >= -348]. *)
Definition GetCachedPower10 (exp : Z) : outcome (DiyFp.t * Z) :=
  if exp <? -348 then Undefined AssertionFailed
  else
    let index := u32 (exp + 348) / 8 in
    let* c := GetCachedPowerByIndex index in
    Ret (c, -348 + index * 8).

(** ** The product *)
Definition is_word (z : Z) : Prop := 0 <= z < 2 ^ 64.

(** Both branches of [operator*] round the 128-bit product to its upper half. *)
Definition rounded_product (x y : Z) : Z := (x * y + 2 ^ 63) / 2 ^ 64.

Lemma rounded_product_word x y : is_word x -> is_word y -> is_word (rounded_product x y).
Proof.
  unfold is_word, rounded_product. intros Hx Hy. split; [apply Z.div_pos; nia|].
  apply Z.div_lt_upper_bound; nia.
Qed.

Lemma high_bit l : is_word l -> (Z.land l (Z.shiftl 1 63) =? 0) = (l <? 2 ^ 63).
Proof.
  unfold is_word. intros Hl. change (Z.shiftl 1 63) with (Z.shiftl (Z.ones 1) 63).
  rewrite land_field by lia. destruct (Z.ltb_spec l (2 ^ 63)).
  - rewrite Z.div_small by lia. done.
  - replace (l / 2 ^ 63) with 1 by (apply (Z.div_unique _ _ _ (l - 2 ^ 63)); lia). done.
Qed.

Lemma mul_rounded x y :
  is_word x.(DiyFp.f) -> is_word y.(DiyFp.f) ->
  DiyFp.mul x y = DiyFp.mk (rounded_product x.(DiyFp.f) y.(DiyFp.f)) (x.(DiyFp.e) + y.(DiyFp.e) + 64).
Proof.
  destruct x as [a ea], y as [b eb]. cbn [DiyFp.f DiyFp.e]. intros Ha Hb. unfold DiyFp.mul.
  cbn [DiyFp.f DiyFp.e]. f_equal.
  pose proof (rounded_product_word a b Ha Hb) as Hw. unfold is_word, rounded_product in *.
  rewrite Z.shiftr_div_pow2 by lia. rewrite high_bit by (apply u64_range).
  pose proof (Z.div_mod (a * b) (2 ^ 64) ltac:(lia)) as Hdm.
  pose proof (Z.mod_pos_bound (a * b) (2 ^ 64) ltac:(lia)) as Hmod.
  assert (0 <= a * b / 2 ^ 64 < 2 ^ 64) by (split; [apply Z.div_pos | apply Z.div_lt_upper_bound]; nia).
  rewrite (u64_small (a * b / 2 ^ 64)) by lia. unfold u64 at 1.
  destruct (Z.ltb_spec ((a * b) mod 2 ^ 64) (2 ^ 63)); cbn [negb].
  - apply (Z.div_unique _ _ _ ((a * b) mod 2 ^ 64 + 2 ^ 63)); lia.
  - assert (Hq : a * b / 2 ^ 64 + 1 = (a * b + 2 ^ 63) / 2 ^ 64)
      by (apply (Z.div_unique _ _ _ ((a * b) mod 2 ^ 64 - 2 ^ 63)); lia).
    rewrite <- Hq in Hw |- *. by apply u64_small.
Qed.

Lemma land_M32 x : Z.land x 0xFFFFFFFF = x mod 2 ^ 32.
Proof. change 0xFFFFFFFF with (Z.ones 32). by rewrite Z.land_ones. Qed.

(** Both branches of [operator*] compute the same: the 128-bit product
    rounded to its upper 64 bits, half upwards; no intermediate sum overflows. *)
Theorem mul_branches_agree (x y : DiyFp.t) :
  is_word x.(DiyFp.f) -> is_word y.(DiyFp.f) ->
  DiyFp.mul_portable x y = DiyFp.mul x y /\
  (DiyFp.mul x y).(DiyFp.f) = rounded_product x.(DiyFp.f) y.(DiyFp.f).
Proof.
  intros Hx Hy. rewrite mul_rounded by done. split; [|done].
  pose proof (rounded_product_word _ _ Hx Hy) as Hw.
  destruct x as [x ex], y as [y ey]. unfold DiyFp.mul_portable. cbn [DiyFp.f DiyFp.e] in *.
  f_equal. rewrite !land_M32, !Z.shiftr_div_pow2 by lia. unfold is_word in *.
  pose proof (Z.div_mod x (2 ^ 32) ltac:(lia)) as Ex. pose proof (Z.mod_pos_bound x (2 ^ 32) ltac:(lia)).
  pose proof (Z.div_mod y (2 ^ 32) ltac:(lia)) as Ey. pose proof (Z.mod_pos_bound y (2 ^ 32) ltac:(lia)).
  set (a := x / 2 ^ 32) in *. set (b := x mod 2 ^ 32) in *.
  set (c := y / 2 ^ 32) in *. set (d := y mod 2 ^ 32) in *.
  assert (0 <= a < 2 ^ 32) by lia. assert (0 <= c < 2 ^ 32) by lia.
  rewrite !(u64_small (_ * _)) by nia.
  pose proof (Z.div_mod (a * d) (2 ^ 32) ltac:(lia)). pose proof (Z.mod_pos_bound (a * d) (2 ^ 32) ltac:(lia)).
  pose proof (Z.div_mod (b * c) (2 ^ 32) ltac:(lia)). pose proof (Z.mod_pos_bound (b * c) (2 ^ 32) ltac:(lia)).
  pose proof (Z.div_mod (b * d) (2 ^ 32) ltac:(lia)). pose proof (Z.mod_pos_bound (b * d) (2 ^ 32) ltac:(lia)).
  assert (0 <= b * d / 2 ^ 32 < 2 ^ 32) by (split; [apply Z.div_pos | apply Z.div_lt_upper_bound]; nia).
  change (Z.shiftl 1 31) with (2 ^ 31).
  rewrite (u64_small (b * d / 2 ^ 32 + _)) by lia. rewrite (u64_small (_ + (b * c) mod 2 ^ 32)) by lia.
  rewrite (u64_small (_ + 2 ^ 31)) by lia.
  set (tmp := b * d / 2 ^ 32 + (a * d) mod 2 ^ 32 + (b * c) mod 2 ^ 32 + 2 ^ 31) in *.
  pose proof (Z.div_mod tmp (2 ^ 32) ltac:(lia)). pose proof (Z.mod_pos_bound tmp (2 ^ 32) ltac:(lia)).
  assert (Hq : a * c + a * d / 2 ^ 32 + b * c / 2 ^ 32 + tmp / 2 ^ 32 = rounded_product x y).
  { apply (Z.div_unique _ _ _ (tmp mod 2 ^ 32 * 2 ^ 32 + (b * d) mod 2 ^ 32)); [lia|].
    rewrite Ex, Ey. unfold tmp in *. nia. }
  assert (0 <= a * c) by nia. assert (0 <= a * d / 2 ^ 32) by (apply Z.div_pos; nia).
  assert (0 <= b * c / 2 ^ 32) by (apply Z.div_pos; nia).
  assert (0 <= tmp / 2 ^ 32) by (apply Z.div_pos; lia).
  rewrite (u64_small (a * c + _)), (u64_small (_ + b * c / 2 ^ 32)), u64_small by lia. exact Hq.
Qed.

Lemma mul_branches_agree_witness :
  DiyFp.mul_portable (DiyFp.mk (2 ^ 64 - 1) 3) (DiyFp.mk (2 ^ 64 - 1) 4)
  = DiyFp.mul (DiyFp.mk (2 ^ 64 - 1) 3) (DiyFp.mk (2 ^ 64 - 1) 4).
Proof. apply mul_branches_agree; unfold is_word; simpl; lia. Defined.

(** ** The cached powers *)

(** [F * 2^E] and [10^p] differ by at most half a unit of [F]; both sides
    scaled to integers. *)
Definition near_power (F E p : Z) : bool :=
  2 * Z.abs (F * 2 ^ Z.max 0 E * 10 ^ Z.max 0 (- p) - 10 ^ Z.max 0 p * 2 ^ Z.max 0 (- E))
  <=? 2 ^ Z.max 0 E * 10 ^ Z.max 0 (- p).

Definition cached_ok (index : Z) : bool :=
  match GetCachedPowerByIndex index with
  | Ret c => (2 ^ 63 <=? c.(DiyFp.f)) && (c.(DiyFp.f) <? 2 ^ 64) &&
             near_power c.(DiyFp.f) c.(DiyFp.e) (-348 + 8 * index)
  | _ => false
  end.

Lemma cached_all index : 0 <= index < 87 -> cached_ok index = true.
Proof.
  intros Hi. apply (forallb_seqZ cached_ok 0 87); [vm_compute; reflexivity | lia].
Qed.

(** What Grisu2 needs of the power chosen for the exponent [e] of a normalised
    significand: the product's exponent is between -60 and -34 and its integer
    part has at most nine digits. *)
Definition cached_fits (e : Z) : bool :=
  match GetCachedPower e with
  | Ret (c, K) =>
      let alpha := e + c.(DiyFp.e) + 64 in
      let index := (348 - K) / 8 in
      (0 <=? index) && (index <? 87) && (348 - K =? 8 * index) &&
      match GetCachedPowerByIndex index with
      | Ret c' => (c.(DiyFp.f) =? c'.(DiyFp.f)) && (c.(DiyFp.e) =? c'.(DiyFp.e))
      | _ => false
      end &&
      (-60 <=? alpha) && (alpha <=? -34) && (c.(DiyFp.f) <? 10 ^ 9 * 2 ^ (- alpha) - 2)
  | _ => false
  end.

Lemma cached_fits_all e : -1137 <= e <= 960 -> cached_fits e = true.
Proof.
  intros He. apply (forallb_seqZ cached_fits (-1137) 2098); [vm_compute; reflexivity | lia].
Qed.

(** ** Doubles as [DiyFp]s, and their rounding boundaries *)
Lemma of_double_finite m e :
  is_double (S754_finite false m e) ->
  DiyFp.of_double (S754_finite false m e) = DiyFp.mk (Zpos m) e.
Proof.
  intros Hd. destruct (bits_of_finite _ _ _ Hd) as (be & f & Hb & Hbe & Hf & Hcase).
  unfold DiyFp.of_double. rewrite Hb. change (Z.b2z false) with 0.
  assert (HE := word_exponent_field 0 be f ltac:(lia) ltac:(lia) Hf).
  assert (HS := word_significand 0 be f ltac:(lia) ltac:(lia) Hf).
  change DiyFp.kDpExponentMask with Double.kExponentMask. rewrite HE.
  change (Z.land (word 0 be f) DiyFp.kDpSignificandMask) with (Double.Significand (word 0 be f)).
  rewrite HS. unfold DiyFp.kDpSignificandSize. rewrite Z.shiftr_div_pow2, Z.div_mul by lia.
  unfold DiyFp.kDpHiddenBit, DiyFp.kDpExponentBias, DiyFp.kDpMinExponent, DiyFp.kDpExponentBias,
    DiyFp.kDpSignificandSize.
  destruct Hcase as [(-> & ? & ->) | (-> & -> & ->)]; [|done].
  replace (e + 1075 =? 0) with false by lia. cbn [negb]. f_equal; lia.
Qed.

Lemma bit53 x : 0 <= x < 2 ^ 54 -> (Z.land x (Z.shiftl DiyFp.kDpHiddenBit 1) =? 0) = (x <? 2 ^ 53).
Proof.
  intros Hx. change (Z.shiftl DiyFp.kDpHiddenBit 1) with (Z.shiftl (Z.ones 1) 53).
  rewrite land_field by lia. destruct (Z.ltb_spec x (2 ^ 53)).
  - rewrite Z.div_small by lia. done.
  - replace (x / 2 ^ 53) with 1 by (apply (Z.div_unique _ _ _ (x - 2 ^ 53)); lia). done.
Qed.

Lemma normalize_loop_shifts fuel x e :
  0 < x < 2 ^ 54 -> 2 ^ 53 <= x * 2 ^ Z.of_nat fuel ->
  exists s, 0 <= s <= Z.of_nat fuel /\ 2 ^ 53 <= x * 2 ^ s < 2 ^ 54 /\
  DiyFp.normalize_boundary_loop fuel (DiyFp.mk x e) = Ret (DiyFp.mk (x * 2 ^ s) (e - s)).
Proof.
  revert x e. induction fuel as [|fuel IH]; intros x e Hx Hf;
    cbn [DiyFp.normalize_boundary_loop DiyFp.f DiyFp.e]; rewrite bit53 by lia;
    destruct (Z.ltb_spec x (2 ^ 53)); cbn [negb]; try (simpl in Hf; lia);
    try (exists 0; split_and!; try lia; do 2 f_equal; lia).
  rewrite Z.shiftl_mul_pow2, u64_small by lia.
  rewrite Nat2Z.inj_succ, Z.pow_succ_r in Hf by lia.
  destruct (IH (x * 2 ^ 1) (e - 1)) as (s & Hs & Hb & ->); [lia | nia |].
  exists (s + 1). rewrite Z.pow_add_r, (Z.mul_comm (2 ^ s)), Z.mul_assoc by lia.
  split_and!; try lia. do 2 f_equal. lia.
Qed.

(** The shift that brings [2m + 1] to 54 bits brings [2m] there too. *)
Lemma even_shift m s :
  0 <= s <= 54 -> 0 < m < 2 ^ 53 -> 2 ^ 53 <= (2 * m + 1) * 2 ^ s < 2 ^ 54 ->
  s <= 52 /\ 2 ^ 53 <= 2 * m * 2 ^ s /\ Z.log2 m = 52 - s.
Proof.
  intros Hs Hm Hb.
  assert (Hs52 : s <= 52).
  { destruct (Z.le_gt_cases s 52); [done|]. assert (2 ^ 53 <= 2 ^ s) by (apply Z.pow_le_mono_r; lia). nia. }
  assert (H53 : 2 ^ 53 = 2 * 2 ^ (52 - s) * 2 ^ s)
    by (rewrite <- Z.mul_assoc, <- Z.pow_add_r by lia; replace (52 - s + s) with 52 by lia; done).
  assert (0 < 2 ^ s) by (apply Z.pow_pos_nonneg; lia).
  assert (2 * 2 ^ (52 - s) <= 2 * m + 1) by nia.
  assert (Hlow : 2 ^ (52 - s) <= m) by lia.
  split_and!; [done | nia |]. apply Z.log2_unique; [lia|]. split; [done|].
  replace (Z.succ (52 - s)) with (52 - s + 1) by lia. rewrite Z.pow_add_r by lia. nia.
Qed.

(** The exact boundaries, all at the exponent [e - 1 - t]: the number is
    [2m * 2^t], its upper boundary [(2m+1) * 2^t], its lower one [lower_gap]
    below, half as far when the significand is the smallest of its binade. *)
Definition lower_gap (m t : Z) : Z := if m =? 2 ^ 52 then 2 ^ 9 else 2 ^ t.

Lemma boundaries_exact m e :
  0 < m < 2 ^ 53 ->
  exists t, 10 <= t <= 62 /\ (m = 2 ^ 52 -> t = 10) /\ 2 ^ 63 <= 2 * m * 2 ^ t /\
  (2 * m + 1) * 2 ^ t < 2 ^ 64 /\
  DiyFp.NormalizedBoundaries (DiyFp.mk m e) =
    Ret (DiyFp.mk (2 * m * 2 ^ t - lower_gap m t) (e - 1 - t), DiyFp.mk ((2 * m + 1) * 2 ^ t) (e - 1 - t)) /\
  DiyFp.Normalize (DiyFp.mk m e) = Ret (DiyFp.mk (2 * m * 2 ^ t) (e - 1 - t)).
Proof.
  intros Hm. unfold DiyFp.NormalizedBoundaries, DiyFp.NormalizeBoundary, DiyFp.Normalize, clzll, lower_gap.
  cbn [DiyFp.f DiyFp.e]. replace (m =? 0) with false by lia. cbn [bind].
  rewrite (Z.shiftl_mul_pow2 m 1), (Z.mul_comm m (2 ^ 1)) by lia. change (2 ^ 1) with 2.
  rewrite (u64_small (2 * m)), (u64_small (2 * m + 1)), (u64_small (2 * m - 1)) by lia.
  destruct (normalize_loop_shifts 54 (2 * m + 1) (e - 1)) as (s & Hs & Hb & ->); [lia | nia |].
  destruct (even_shift m s ltac:(lia) Hm Hb) as (Hs52 & Hlow & Hlog).
  assert (0 < 2 ^ s) by (apply Z.pow_pos_nonneg; lia).
  assert (H10 : m = 2 ^ 52 -> s = 0) by (intros ->; change (Z.log2 (2 ^ 52)) with 52 in Hlog; lia).
  exists (s + 10). rewrite (Z.pow_add_r 2 s 10) by lia. change (2 ^ 10) with 1024.
  change (DiyFp.kDiySignificandSize - DiyFp.kDpSignificandSize - 2) with 10.
  cbn [bind DiyFp.f DiyFp.e]. split_and!; [lia.. | |].
  - unfold DiyFp.kDpHiddenBit. change 0x0010000000000000 with (2 ^ 52).
    rewrite (Z.shiftl_mul_pow2 _ 10), (u64_small (_ * 2 ^ 10)) by lia.
    do 2 f_equal; [|f_equal; lia]. destruct (Z.eqb_spec m (2 ^ 52)) as [Hm52|]; cbn [DiyFp.f DiyFp.e].
    + specialize (H10 Hm52). subst m s. cbn -[Z.sub Z.add Z.shiftl u64].
      replace (e - 2 - (e - 1 - 0 - 10)) with 9 by lia. rewrite !Z.shiftl_mul_pow2 by lia.
      f_equal; first [lia | by vm_compute].
    + replace (e - 1 - (e - 1 - s - 10)) with (s + 10) by lia.
      rewrite Z.shiftl_mul_pow2, (Z.pow_add_r 2 s 10) by lia. change (2 ^ 10) with 1024.
      rewrite u64_small by nia. f_equal; lia.
  - rewrite Hlog, Z.shiftl_mul_pow2 by lia. replace (63 - (52 - s)) with (s + 11) by lia.
    rewrite Z.pow_add_r by lia. change (2 ^ 11) with 2048. rewrite u64_small by nia.
    f_equal. f_equal; lia.
Qed.
