(* ===== verification/Dtoa.v ===== *)
(** * Shortest-form printing of doubles: src/include/rapidjson/internal/dtoa.h

    Grisu2 and the layout of its digits.  A [char*] being filled is the list
    of the bytes written so far; the functions that return the advanced
    pointer return the bytes up to it. *)
From S2P Require Import Prelude Decimal Itoa Types Doubles Ieee754 DiyFp.
From Stdlib Require Import SpecFloat.

(** ** Rounding the last digit *)
Definition pred_last (buffer : list Z) : outcome (list Z) :=
  match last buffer with
  | Some c => Ret (removelast buffer ++ [c - 1])
  | None => Undefined OutOfBounds
  end.

(** The arithmetic is that of [uint64_t]; the loop lowers a digit, at most
    nine times, [grisu_round_fuel] bounds it. *)
Definition grisu_round_fuel : nat := 10.

Fixpoint GrisuRound_loop (fuel : nat) (buffer : list Z) (delta rest ten_kappa wp_w : Z)
  : outcome (list Z) :=
  if (rest <? wp_w) && (ten_kappa <=? u64 (delta - rest)) &&
     ((u64 (rest + ten_kappa) <? wp_w) ||
      (u64 (u64 (rest + ten_kappa) - wp_w) <? u64 (wp_w - rest)))
  then
    match fuel with
    | O => Undefined FuelExhausted
    | S fuel =>
        let* buffer := pred_last buffer in
        GrisuRound_loop fuel buffer delta (u64 (rest + ten_kappa)) ten_kappa wp_w
    end
  else Ret buffer.

Definition GrisuRound := GrisuRound_loop grisu_round_fuel.

Definition CountDecimalDigit32 (n : Z) : Z :=
  if n <? 10 then 1
  else if n <? 100 then 2
  else if n <? 1000 then 3
  else if n <? 10000 then 4
  else if n <? 100000 then 5
  else if n <? 1000000 then 6
  else if n <? 10000000 then 7
  else if n <? 100000000 then 8
  else 9.

(** ** Generating digits *)
Definition kPow10 : list Z :=
  [1; 10; 100; 1000; 10000; 100000; 1000000; 10000000; 100000000;
   1000000000; 10000000000; 100000000000; 1000000000000;
   10000000000000; 100000000000000; 1000000000000000;
   10000000000000000; 100000000000000000; 1000000000000000000;
   10000000000000000000].

(** The [switch]: the digit and the new [p1]. *)
Definition next_digit (kappa p1 : Z) : Z * Z :=
  match kappa with
  | 9 => (p1 / 100000000, p1 mod 100000000)
  | 8 => (p1 / 10000000, p1 mod 10000000)
  | 7 => (p1 / 1000000, p1 mod 1000000)
  | 6 => (p1 / 100000, p1 mod 100000)
  | 5 => (p1 / 10000, p1 mod 10000)
  | 4 => (p1 / 1000, p1 mod 1000)
  | 3 => (p1 / 100, p1 mod 100)
  | 2 => (p1 / 10, p1 mod 10)
  | 1 => (p1, 0)
  | _ => (0, p1)
  end.

(** [if (d || *len) buffer[( *len)++] = '0' + d] *)
Definition put_digit (buffer : list Z) (d : Z) : list Z :=
  if negb (d =? 0) || negb (sizeZ buffer =? 0) then buffer ++ [48 + d] else buffer.

Section DigitGen.
  (** [sh] is [-one.e], [one_f] is [one.f] and [wp_w] is [wp_w.f]. *)
Context (sh one_f wp_w : Z).

  (** [for (;;)]: the decimals.  The loop ends once [delta], multiplied by ten
      in every round, exceeds [p2], which is below [one.f]. *)
Fixpoint digitgen_fraction (fuel : nat) (p2 delta kappa : Z) (buffer : list Z) (K : Z)
    : outcome (list Z * Z) :=
    match fuel with
    | O => Undefined FuelExhausted
    | S fuel =>
        let p2 := u64 (p2 * 10) in
        let delta := u64 (delta * 10) in
        let d := u8 (Z.shiftr p2 sh) in
        let buffer := put_digit buffer d in
        let p2 := Z.land p2 (one_f - 1) in
        let kappa := kappa - 1 in
        if p2 <? delta then
          let index := - kappa in
          let* p10 := if index <? 20 then lookupZ kPow10 index else Ret 0 in
          let* buffer := GrisuRound buffer delta p2 one_f (u64 (wp_w * p10)) in
          Ret (buffer, K + kappa)
        else digitgen_fraction fuel p2 delta kappa buffer K
    end.

  (** [while (kappa > 0)]: the integer part; [kappa] counts down. *)
Fixpoint digitgen_integer (kappa : nat) (p1 p2 delta : Z) (buffer : list Z) (K : Z)
    : outcome (list Z * Z) :=
    match kappa with
    | O => digitgen_fraction 20 p2 delta 0 buffer K
    | S kappa' =>
        let '(d, p1) := next_digit (Z.of_nat kappa) p1 in
        let buffer := put_digit buffer d in
        let tmp := u64 (u64 (Z.shiftl p1 sh) + p2) in
        if tmp <=? delta then
          let* p10 := lookupZ kPow10 (Z.of_nat kappa') in
          let* buffer := GrisuRound buffer delta tmp (u64 (Z.shiftl p10 sh)) wp_w in
          Ret (buffer, K + Z.of_nat kappa')
        else digitgen_integer kappa' p1 p2 delta buffer K
    end.
End DigitGen.

(** The digits and the decimal exponent; the shift counts are those of the
    exponents Grisu2 passes, between 34 and 60. *)
Definition DigitGen (W Mp : DiyFp.t) (delta K : Z) : outcome (list Z * Z) :=
  let one := DiyFp.mk (u64 (Z.shiftl 1 (- Mp.(DiyFp.e)))) Mp.(DiyFp.e) in
  let wp_w := DiyFp.sub Mp W in
  let p1 := u32 (Z.shiftr Mp.(DiyFp.f) (- one.(DiyFp.e))) in
  let p2 := Z.land Mp.(DiyFp.f) (one.(DiyFp.f) - 1) in
  let kappa := CountDecimalDigit32 p1 in
  digitgen_integer (- one.(DiyFp.e)) one.(DiyFp.f) wp_w.(DiyFp.f) (Z.to_nat kappa) p1 p2 delta [] K.

Definition Grisu2 (value : double) : outcome (list Z * Z) :=
  let v := DiyFp.of_double value in
  let* (w_m, w_p) := DiyFp.NormalizedBoundaries v in
  let* (c_mk, K) := GetCachedPower w_p.(DiyFp.e) in
  let* vn := DiyFp.Normalize v in
  let W := DiyFp.mul vn c_mk in
  let Wp := DiyFp.mul w_p c_mk in
  let Wm := DiyFp.mul w_m c_mk in
  let Wm := DiyFp.mk (u64 (Wm.(DiyFp.f) + 1)) Wm.(DiyFp.e) in
  let Wp := DiyFp.mk (u64 (Wp.(DiyFp.f) - 1)) Wp.(DiyFp.e) in
  DigitGen W Wp (u64 (Wp.(DiyFp.f) - Wm.(DiyFp.f))) K.

(** ** Layout *)
Definition WriteExponent (K : Z) : outcome (list Z) :=
  let sign := if K <? 0 then [45] else [] in
  let K := if K <? 0 then - K else K in
  let* ds :=
    if 100 <=? K then
      let* d := digits [(true, K mod 100 * 2); (true, K mod 100 * 2 + 1)] in
      Ret ((48 + K / 100) :: d)
    else if 10 <=? K then digits [(true, K * 2); (true, K * 2 + 1)]
    else Ret [48 + K] in
  Ret (sign ++ ds).

(** [for (i = hi; i > lo; i--) if (buffer[i] != '0') return &buffer[i + 1]],
    then [return &buffer[lo + 1]]; [n] is [hi - lo]. *)
Fixpoint cut_zeros (buffer : list Z) (lo : Z) (n : nat) : outcome (list Z) :=
  match n with
  | O => Ret (take (Z.to_nat (lo + 1)) buffer)
  | S n' =>
      let i := lo + Z.of_nat n in
      let* c := lookupZ buffer i in
      if negb (c =? 48) then Ret (take (Z.to_nat (i + 1)) buffer) else cut_zeros buffer lo n'
  end.

Definition Prettify (buffer : list Z) (k maxDecimalPlaces : Z) : outcome (list Z) :=
  let length := sizeZ buffer in
  let kk := length + k in
  if (0 <=? k) && (kk <=? 21) then
    Ret (buffer ++ replicate (Z.to_nat (kk - length)) 48 ++ str ".0")
  else if (0 <? kk) && (kk <=? 21) then
    let buffer := take (Z.to_nat kk) buffer ++ [46] ++ drop (Z.to_nat kk) buffer in
    if 0 >? k + maxDecimalPlaces then
      cut_zeros buffer (kk + 1) (Z.to_nat (maxDecimalPlaces - 1))
    else Ret buffer
  else if (-6 <? kk) && (kk <=? 0) then
    let offset := 2 - kk in
    let buffer := str "0." ++ replicate (Z.to_nat (offset - 2)) 48 ++ buffer in
    if length - kk >? maxDecimalPlaces then
      cut_zeros buffer 2 (Z.to_nat (maxDecimalPlaces - 1))
    else Ret buffer
  else if kk <? - maxDecimalPlaces then Ret (str "0.0")
  else if length =? 1 then
    let* ex := WriteExponent (kk - 1) in
    Ret (buffer ++ [101] ++ ex)
  else
    let* ex := WriteExponent (kk - 1) in
    Ret (take 1 buffer ++ [46] ++ drop 1 buffer ++ [101] ++ ex).

Definition kDefaultMaxDecimalPlaces : Z := 324.

(** Asserts [maxDecimalPlaces >= 1]. *)
Definition dtoa (value : double) (maxDecimalPlaces : Z) : outcome (list Z) :=
  if maxDecimalPlaces <? 1 then Undefined AssertionFailed
  else
    let d := bits_of_double value in
    if Double.IsZero d then
      Ret ((if Double.Sign d then [45] else []) ++ str "0.0")
    else
      let neg := dltb value dzero in
      let value := if neg then SFopp value else value in
      let* (buffer, K) := Grisu2 value in
      let* text := Prettify buffer K maxDecimalPlaces in
      Ret ((if neg then [45] else []) ++ text).

(** ** Runs of digits with a non-zero first one *)
Definition leading (l : list Z) : Prop :=
  is_digits l /\ match l with c :: _ => c <> 48 | [] => False end.

Lemma leading_snoc l c : leading l -> 48 <= c <= 57 -> leading (l ++ [c]).
Proof.
  intros [Hd Hl] Hc. split; [apply is_digits_app; split; [done | by apply is_digits_one]|].
  by destruct l.
Qed.

Lemma leading_one c : 49 <= c <= 57 -> leading [c].
Proof. intros. split; [apply is_digits_one; lia | lia]. Qed.

Lemma leading_replace l c c' : leading (l ++ [c]) -> l <> [] -> 48 <= c' <= 57 -> leading (l ++ [c']).
Proof.
  intros [Hd Hl] Hne Hc. apply is_digits_app in Hd as [Hd _]. split.
  - apply is_digits_app. split; [done | by apply is_digits_one].
  - by destruct l.
Qed.

Lemma leading_value l : leading l -> 10 ^ (sizeZ l - 1) <= dec_value l.
Proof.
  intros [Hd Hl]. destruct l as [|c l]; [done|]. apply Forall_cons in Hd as [Hc Hd].
  change (c :: l) with ([c] ++ l). rewrite dec_value_app. unfold sizeZ. rewrite length_app.
  replace (Z.of_nat (length [c] + length l) - 1) with (Z.of_nat (length l)) by (simpl; lia).
  pose proof (dec_value_bound l Hd).
  assert (1 <= dec_value [c]) by (unfold dec_value; simpl; lia).
  nia.
Qed.

Lemma leading_pos l : leading l -> 1 <= dec_value l.
Proof.
  intros Hl. pose proof (leading_value l Hl).
  assert (0 < 10 ^ (sizeZ l - 1)); [|lia]. apply Z.pow_pos_nonneg; [lia|].
  unfold sizeZ. destruct Hl as [_ Hl], l; simpl; [done | lia].
Qed.

(** ** Rounding keeps the number in the interval *)
Lemma pred_last_snoc b c : pred_last (b ++ [c]) = Ret (b ++ [c - 1]).
Proof. unfold pred_last. by rewrite last_snoc, removelast_last. Qed.

(** The last digit is lowered [k] times, never below 0, and the distance to
    the upper end stays within [delta]. *)
Lemma GrisuRound_ok fuel b d delta rest tk w :
  0 <= d <= Z.of_nat fuel -> 0 <= rest <= delta -> delta < 2 ^ 64 -> 0 < tk ->
  delta <= rest + d * tk ->
  exists k, 0 <= k <= d /\ rest + k * tk <= delta /\
  GrisuRound_loop fuel (b ++ [48 + d]) delta rest tk w = Ret (b ++ [48 + d - k]).
Proof.
  revert d rest. induction fuel as [|fuel IH]; intros d rest Hd Hrest Hdelta Htk Hub;
    cbn [GrisuRound_loop]; rewrite (u64_small (delta - rest)) by lia.
  - replace (tk <=? delta - rest) with false by nia. rewrite andb_false_r. cbn [andb].
    exists 0. split_and!; [lia..|]. do 3 f_equal. lia.
  - case_match eqn:Hc.
    + apply andb_true_iff in Hc as [Hc _]. apply andb_true_iff in Hc as [Hlt Hle].
      rewrite pred_last_snoc. cbn [bind]. rewrite (u64_small (rest + tk)) by lia.
      replace (48 + d - 1) with (48 + (d - 1)) by lia.
      destruct (IH (d - 1) (rest + tk)) as (k & Hk & Hkd & ->); [nia | lia.. | nia |].
      exists (k + 1). split_and!; [lia | lia | nia |]. do 3 f_equal. lia.
    + exists 0. split_and!; [lia..|]. do 3 f_equal. lia.
Qed.

(** ** The two loops *)
Lemma put_digit_leading b d : leading b -> 0 <= d <= 9 -> put_digit b d = b ++ [48 + d].
Proof.
  intros [_ Hb] Hd. unfold put_digit, sizeZ. destruct b as [|c b]; [done|]. by rewrite orb_true_r.
Qed.

Lemma put_digit_first d : 1 <= d -> put_digit [] d = [48 + d].
Proof. intros. unfold put_digit. by replace (d =? 0) with false by lia. Qed.

Lemma next_digit_spec kappa p1 :
  (1 <= kappa <= 9)%nat ->
  next_digit (Z.of_nat kappa) p1 =
  (p1 / 10 ^ Z.of_nat (kappa - 1), p1 mod 10 ^ Z.of_nat (kappa - 1)).
Proof.
  intros Hk. destruct kappa as [|[|[|[|[|[|[|[|[|[|?]]]]]]]]]]; try lia; try done.
  simpl. by rewrite Z.div_1_r, Z.mod_1_r.
Qed.

Lemma kPow10_spec i : 0 <= i < 20 -> lookupZ kPow10 i = Ret (10 ^ i).
Proof.
  intros Hi.
  assert (H : forallb (fun i => match lookupZ kPow10 i with Ret p => p =? 10 ^ i | _ => false end)
                (seqZ 0 20) = true) by (vm_compute; reflexivity).
  pose proof (forallb_seqZ _ _ _ H i Hi) as Hp. simpl in Hp.
  destruct (lookupZ kPow10 i); [|done..]. f_equal. lia.
Qed.

(** Lowering the last of the digits [b ++ [48 + d]]. *)
Lemma round_value b d k :
  dec_value (b ++ [48 + d - k]) = dec_value (b ++ [48 + d]) - k.
Proof. rewrite !dec_value_snoc. lia. Qed.

(** The state of the first loop: the digits so far, or none with a first
    digit that will not be 0; [p1] and [p2] are what is left of [M]. *)
Definition int_state (kappa : nat) (b : list Z) (p1 : Z) : Prop :=
  0 <= p1 < 10 ^ Z.of_nat kappa /\ sizeZ b + Z.of_nat kappa <= 9 /\
  (leading b \/ (b = [] /\ (1 <= kappa)%nat /\ 10 ^ Z.of_nat (kappa - 1) <= p1)).

Lemma int_state_step kappa b p1 :
  int_state (S kappa) b p1 ->
  let p := 10 ^ Z.of_nat kappa in
  0 < p /\ 0 <= p1 / p <= 9 /\ p1 = p1 / p * p + p1 mod p /\ 0 <= p1 mod p < p /\
  (b = [] -> 1 <= p1 / p) /\
  put_digit b (p1 / p) = b ++ [48 + p1 / p] /\ leading (b ++ [48 + p1 / p]) /\
  int_state kappa (b ++ [48 + p1 / p]) (p1 mod p).
Proof.
  intros (Hp1 & Hlen & Hb) p. rewrite Nat2Z.inj_succ, Z.pow_succ_r in Hp1 by lia. fold p in Hp1.
  assert (Hp : 0 < p) by (apply Z.pow_pos_nonneg; lia).
  pose proof (Z.div_mod p1 p ltac:(lia)). pose proof (Z.mod_pos_bound p1 p ltac:(lia)).
  assert (Hd : 0 <= p1 / p <= 9).
  { split; [apply Z.div_pos; lia|]. apply Z.lt_succ_r, Z.div_lt_upper_bound; lia. }
  assert (Hfirst : b = [] -> 1 <= p1 / p).
  { intros ->. destruct Hb as [[_ []] | (_ & _ & Hge)].
    replace (S kappa - 1)%nat with kappa in Hge by lia. apply Z.div_le_lower_bound; lia. }
  assert (Hput : put_digit b (p1 / p) = b ++ [48 + p1 / p] /\ leading (b ++ [48 + p1 / p])).
  { destruct Hb as [Hb | (-> & _)].
    - split; [by apply put_digit_leading | apply leading_snoc; [done | lia]].
    - specialize (Hfirst eq_refl). split; [by apply put_digit_first | apply leading_one; lia]. }
  destruct Hput as [Hput Hlead]. split_and!; try done; try lia.
  split_and!; [lia | lia | | by left]. unfold sizeZ in *. rewrite length_app. simpl. lia.
Qed.

(** The rounding in the first loop: the first digit stays positive. *)
Lemma round_integer b d delta rest tk wp_w :
  0 <= d <= 9 -> 0 <= rest <= delta -> delta < 2 ^ 64 -> 0 < tk ->
  leading (b ++ [48 + d]) -> delta < d * tk + rest ->
  exists k, leading (b ++ [48 + d - k]) /\ rest + k * tk <= delta /\ 0 <= k /\
  GrisuRound (b ++ [48 + d]) delta rest tk wp_w = Ret (b ++ [48 + d - k]).
Proof.
  intros Hd Hrest Hdelta Htk Hlead Hub. unfold GrisuRound.
  destruct (GrisuRound_ok grisu_round_fuel b d delta rest tk wp_w)
    as (k & Hk & Hkr & ->); [unfold grisu_round_fuel; lia | lia.. |].
  exists k. split_and!; [|done | lia | done].
  assert (k < d) by nia. destruct (decide (b = [])) as [-> | Hb].
  - apply leading_one. lia.
  - apply (leading_replace _ (48 + d)); [done | done | lia].
Qed.

Section DigitGenCorrect.
Context (sh wp_w : Z) (Hsh : 34 <= sh <= 60).
Let one := 2 ^ sh.

Lemma one_bounds : 2 ^ 34 <= one <= 2 ^ 60.
Proof using Hsh. split; apply Z.pow_le_mono_r; lia. Qed.

Lemma land_one x : Z.land x (one - 1) = x mod one.
Proof using Hsh.
    unfold one. replace (2 ^ sh - 1) with (Z.ones sh) by (rewrite Z.ones_equiv; lia).
    rewrite Z.land_ones by lia. done.
Qed.

  (** One round of the second loop: the next digit and the new remainder. *)
Lemma fraction_step p2 :
    0 <= p2 < one ->
    0 <= p2 * 10 / one <= 9 /\ p2 * 10 = (p2 * 10 / one) * one + (p2 * 10) mod one /\
    0 <= (p2 * 10) mod one < one /\ u64 (p2 * 10) = p2 * 10 /\
    u8 (Z.shiftr (p2 * 10) sh) = p2 * 10 / one.
Proof using Hsh.
    intros Hp. pose proof one_bounds as Ho.
    pose proof (Z.div_mod (p2 * 10) one ltac:(lia)). pose proof (Z.mod_pos_bound (p2 * 10) one ltac:(lia)).
    assert (0 <= p2 * 10 / one <= 9).
    { split; [apply Z.div_pos; lia|]. apply Z.lt_succ_r, Z.div_lt_upper_bound; lia. }
    split_and!; try lia; [apply u64_small; lia|].
    rewrite Z.shiftr_div_pow2 by lia. fold one. unfold u8. apply Z.mod_small. lia.
Qed.

Lemma digitgen_fraction_ok fuel p2 delta kappa b K :
    kappa <= 0 -> leading b -> 0 < delta <= p2 -> p2 < one -> one <= delta * 10 ^ Z.of_nat fuel ->
    let M := dec_value b * one + p2 in
    exists l n, 1 <= n /\
      digitgen_fraction sh one wp_w fuel p2 delta kappa b K = Ret (l, K + kappa - n) /\
      leading l /\ sizeZ l = sizeZ b + n /\
      (M - delta) * 10 ^ n <= dec_value l * one <= M * 10 ^ n /\
      10 ^ (n - 1) * delta <= one.
Proof using Hsh.
    pose proof one_bounds as Ho. revert p2 delta kappa b.
    induction fuel as [|fuel IH]; intros p2 delta kappa b Hkap Hb Hdelta Hp2 Hfuel M; [simpl in Hfuel; lia|].
    cbn [digitgen_fraction]. destruct (fraction_step p2 ltac:(lia)) as (Hd & Hdm & Hr & -> & ->).
    set (d := p2 * 10 / one) in *. rewrite land_one. set (r := (p2 * 10) mod one) in *.
    rewrite put_digit_leading by done. rewrite (u64_small (delta * 10)) by lia.
    assert (Hb' : leading (b ++ [48 + d])) by (apply leading_snoc; [done | lia]).
    assert (HV : dec_value (b ++ [48 + d]) = 10 * dec_value b + d) by (rewrite dec_value_snoc; lia).
    destruct (Z.ltb_spec r (delta * 10)).
    - assert (Hidx : exists p10, (if - (kappa - 1) <? 20 then lookupZ kPow10 (- (kappa - 1)) else Ret 0) = Ret p10).
      { destruct (Z.ltb_spec (- (kappa - 1)) 20); [|by exists 0].
        exists (10 ^ (- (kappa - 1))). apply kPow10_spec. lia. }
      destruct Hidx as (p10 & ->). cbn [bind]. unfold GrisuRound.
      destruct (GrisuRound_ok grisu_round_fuel b d (delta * 10) r one (u64 (wp_w * p10)))
        as (k & Hk & Hkr & ->); [unfold grisu_round_fuel; lia | lia.. |].
      cbn [bind]. exists (b ++ [48 + d - k]), 1. split_and!; try lia.
      + do 2 f_equal. lia.
      + apply (leading_replace _ (48 + d)); [done | | lia]. by destruct Hb as [_ Hb], b.
      + unfold sizeZ. rewrite length_app. simpl. lia.
      + rewrite round_value, HV. unfold M. nia.
      + rewrite round_value, HV. unfold M. nia.
    - rewrite Nat2Z.inj_succ, Z.pow_succ_r in Hfuel by lia.
      destruct (IH r (delta * 10) (kappa - 1) (b ++ [48 + d])) as (l & n & Hn & -> & Hl & Hlen & HM & Hpow);
        [lia | done | lia | lia | lia |].
      exists l, (n + 1). rewrite HV in HM.
      assert (H10 : 10 ^ (n + 1) = 10 ^ n * 10) by (by rewrite Z.pow_add_r by lia).
      assert (Hn1 : 10 ^ n = 10 ^ (n - 1) * 10).
      { replace n with (n - 1 + 1) at 1 by lia. by rewrite Z.pow_add_r by lia. }
      split_and!; try lia; try done.
      + do 2 f_equal. lia.
      + rewrite Hlen. unfold sizeZ. rewrite length_app. simpl. lia.
      + replace (n + 1 - 1) with n by lia. nia.
Qed.

  (** What a result [(l, K + kappa)] means: with [M] the upper end, all at
      the scale [one], the number [l] is at most [delta] below it. *)
Definition generated (M delta : Z) (l : list Z) (kappa : Z) : Prop :=
    leading l /\
    (M - delta) * 10 ^ Z.max 0 (- kappa) <= dec_value l * 10 ^ Z.max 0 kappa * one
      <= M * 10 ^ Z.max 0 (- kappa) /\
    (sizeZ l <= 9 \/ 10 ^ (sizeZ l - 2) * delta <= M).

Lemma fraction_generated p2 delta b K :
    leading b -> 0 < delta <= p2 -> p2 < one ->
    exists l kappa,
      digitgen_fraction sh one wp_w 20 p2 delta 0 b K = Ret (l, K + kappa) /\
      generated (dec_value b * one + p2) delta l kappa.
Proof using Hsh.
    intros Hb Hdelta Hp2. pose proof one_bounds.
    destruct (digitgen_fraction_ok 20 p2 delta 0 b K) as (l & n & Hn & -> & Hl & Hlen & HM & Hpow);
      [lia | done | lia | lia | change (Z.of_nat 20) with 20; lia |].
    exists l, (- n). split; [do 2 f_equal; lia|]. unfold generated.
    replace (Z.max 0 (- - n)) with n by lia. replace (Z.max 0 (- n)) with 0 by lia.
    rewrite Z.mul_1_r. split_and!; [done | lia | lia |]. right.
    pose proof (leading_value b Hb) as Hv.
    assert (1 <= sizeZ b) by (unfold sizeZ; destruct Hb as [_ Hb], b; simpl; [done | lia]).
    replace (sizeZ l - 2) with (sizeZ b - 1 + (n - 1)) by lia. rewrite Z.pow_add_r by lia.
    assert (0 < 10 ^ (sizeZ b - 1)) by (apply Z.pow_pos_nonneg; lia).
    assert (0 < 10 ^ (n - 1)) by (apply Z.pow_pos_nonneg; lia). nia.
Qed.

Lemma digitgen_integer_ok kappa b p1 p2 delta K :
    int_state kappa b p1 -> 0 <= p2 < one -> 0 < delta < p1 * one + p2 ->
    let M := (dec_value b * 10 ^ Z.of_nat kappa + p1) * one + p2 in
    M < 2 ^ 64 ->
    exists l kap, digitgen_integer sh one wp_w kappa p1 p2 delta b K = Ret (l, K + kap) /\
      generated M delta l kap.
Proof using Hsh.
    pose proof one_bounds as Ho. revert b p1. induction kappa as [|kappa IH]; intros b p1 Hst Hp2 Hdelta M HM.
    - destruct Hst as ([? ?] & _ & [Hb | (_ & ? & _)]); [|lia]. assert (p1 = 0) as -> by (simpl in *; lia).
      destruct (fraction_generated p2 delta b K Hb) as (l & kap & Hl & Hgen); [lia..|].
      exists l, kap. split; [done|]. unfold M. simpl. by rewrite Z.mul_1_r, Z.add_0_r.
    - cbn [digitgen_integer]. rewrite next_digit_spec by (destruct Hst as (_ & ? & _); unfold sizeZ in *; lia).
      replace (S kappa - 1)%nat with kappa by lia.
      destruct (int_state_step kappa b p1 Hst) as (Hp & Hd & Hdm & Hr & Hfirst & -> & Hlead & Hst').
      set (p := 10 ^ Z.of_nat kappa) in *. set (d := p1 / p) in *. set (r := p1 mod p) in *.
      assert (Hpow : 10 ^ Z.of_nat (S kappa) = 10 * p) by (by rewrite Nat2Z.inj_succ, Z.pow_succ_r by lia).
      assert (HV : dec_value (b ++ [48 + d]) = 10 * dec_value b + d) by (rewrite dec_value_snoc; lia).
      assert (HMe : M = (dec_value (b ++ [48 + d]) * p + r) * one + p2)
        by (unfold M; rewrite HV, Hpow; rewrite Hdm at 1; ring).
      assert (Hvb : 0 <= dec_value (b ++ [48 + d])) by (apply dec_value_bound, Hlead).
      rewrite Z.shiftl_mul_pow2 by lia. fold one.
      assert (Hro : 0 <= r * one) by (apply Z.mul_nonneg_nonneg; lia).
      assert (Hq : 0 < p * one) by (apply Z.mul_pos_pos; lia).
      assert (Hsplit : p1 * one + p2 = d * (p * one) + (r * one + p2)) by (rewrite Hdm at 1; ring).
      assert (HMq : M = dec_value (b ++ [48 + d]) * (p * one) + (r * one + p2)) by (rewrite HMe; ring).
      assert (HV1 : 1 <= dec_value (b ++ [48 + d])) by (by apply leading_pos).
      assert (Hq1 : p * one <= dec_value (b ++ [48 + d]) * (p * one)) by nia.
      rewrite (u64_small (r * one)), (u64_small (r * one + p2)) by lia.
      destruct (Z.leb_spec (r * one + p2) delta) as [Hstop | Hgo].
      + rewrite kPow10_spec by (destruct Hst as (_ & ? & _); unfold sizeZ in *; lia). cbn [bind]. fold p.
        rewrite Z.shiftl_mul_pow2 by lia. fold one. rewrite (u64_small (p * one)) by lia.
        destruct (round_integer b d delta (r * one + p2) (p * one) wp_w)
          as (k & Hlk & Hkr & Hk & ->); [lia.. | done | lia |].
        cbn [bind]. exists (b ++ [48 + d - k]), (Z.of_nat kappa). split; [done|]. unfold generated.
        replace (Z.max 0 (Z.of_nat kappa)) with (Z.of_nat kappa) by lia. fold p.
        replace (Z.max 0 (- Z.of_nat kappa)) with 0 by lia. rewrite Z.mul_1_r, round_value, HMq.
        rewrite <- Z.mul_assoc. split_and!; [done | lia | lia |].
        left. destruct Hst' as (_ & Hlen & _). unfold sizeZ in *. rewrite length_app in *. simpl in *. lia.
      + destruct (IH (b ++ [48 + d]) r) as (l & kap & Hl & Hgen); [done | done | lia | |].
        * fold p. by rewrite <- HMe.
        * exists l, kap. split; [done|]. fold p in Hgen. by rewrite <- HMe in Hgen.
Qed.
End DigitGenCorrect.

Lemma CountDecimalDigit32_spec n :
  1 <= n < 10 ^ 9 ->
  let k := CountDecimalDigit32 n in 1 <= k <= 9 /\ 10 ^ (k - 1) <= n < 10 ^ k.
Proof.
  intros Hn. unfold CountDecimalDigit32.
  repeat match goal with |- context [n <? ?b] => destruct (Z.ltb_spec n b); [simpl; lia|] end.
  simpl. lia.
Qed.

Lemma DigitGen_ok W M sh delta K :
  34 <= sh <= 60 -> 2 ^ sh <= M < 2 ^ 64 -> M / 2 ^ sh < 10 ^ 9 -> 0 < delta < M ->
  exists l kap, DigitGen W (DiyFp.mk M (- sh)) delta K = Ret (l, K + kap) /\
    generated sh M delta l kap.
Proof.
  intros Hsh HM Hp1 Hdelta. pose proof (one_bounds sh Hsh) as Ho.
  unfold DigitGen. cbn [DiyFp.f DiyFp.e]. rewrite Z.opp_involutive.
  rewrite Z.shiftl_mul_pow2, Z.mul_1_l by lia. rewrite (u64_small (2 ^ sh)) by lia.
  rewrite Z.shiftr_div_pow2 by lia. rewrite land_one by done.
  pose proof (Z.div_mod M (2 ^ sh) ltac:(lia)) as Hdm.
  pose proof (Z.mod_pos_bound M (2 ^ sh) ltac:(lia)) as Hr.
  set (p1 := M / 2 ^ sh) in *. set (p2 := M mod 2 ^ sh) in *.
  assert (1 <= p1) by (apply Z.div_le_lower_bound; lia).
  unfold u32. rewrite (Z.mod_small p1) by lia.
  destruct (CountDecimalDigit32_spec p1 ltac:(lia)) as (Hk & Hkp). cbv zeta in *.
  set (k := CountDecimalDigit32 p1) in *.
  destruct (digitgen_integer_ok sh (DiyFp.sub (DiyFp.mk M (- sh)) W).(DiyFp.f) Hsh
              (Z.to_nat k) [] p1 p2 delta K) as (l & kap & Hl & Hgen).
  - split_and!; [lia | | unfold sizeZ; simpl; lia |].
    + rewrite Z2Nat.id by lia. lia.
    + right. split_and!; [done | lia |]. replace (Z.of_nat (Z.to_nat k - 1)) with (k - 1) by lia. lia.
  - lia.
  - lia.
  - unfold dec_value. simpl. lia.
  - exists l, kap. split; [done|]. change (dec_value []) with 0 in Hgen.
    replace ((0 * 10 ^ Z.of_nat (Z.to_nat k) + p1) * 2 ^ sh + p2) with M in Hgen by lia. exact Hgen.
Qed.
