(* ===== verification/Grisu.v ===== *)
(** * Grisu2 prints a number inside the rounding interval

    The error analysis of [Grisu2] (dtoa.h): the scaled boundaries are off by
    less than one unit, the interval is narrowed by one unit on either side,
    so whatever [DigitGen] produces in it lies strictly between the exact
    midpoints to the neighbouring doubles. *)
From S2P Require Import Prelude Decimal Types Doubles Ieee754 DiyFp Dtoa.
From Stdlib Require Import SpecFloat.

(** ** Binary and decimal scientific numbers compared as integers *)

(** [a * 2^e < V * 10^X] and [V * 10^X < a * 2^e] *)
Definition bin_lt_dec (a e V X : Z) : Prop :=
  a * 2 ^ Z.max 0 e * 10 ^ Z.max 0 (- X) < V * 10 ^ Z.max 0 X * 2 ^ Z.max 0 (- e).
Definition dec_lt_bin (V X a e : Z) : Prop :=
  V * 10 ^ Z.max 0 X * 2 ^ Z.max 0 (- e) < a * 2 ^ Z.max 0 e * 10 ^ Z.max 0 (- X).

(** The numbers strictly between the midpoints to the neighbours of [m * 2^e];
    the lower neighbour of the smallest 53-bit significand is half as far. *)
Definition lower_quarters (m : Z) : Z := if m =? 2 ^ 52 then 4 * m - 1 else 4 * m - 2.

Definition in_interval (m e V X : Z) : Prop :=
  bin_lt_dec (lower_quarters m) (e - 2) V X /\ dec_lt_bin V X (4 * m + 2) (e - 2).

Lemma pow_shift b A B x1 y1 x2 y2 :
  0 < b -> 0 <= x1 -> 0 <= y1 -> 0 <= x2 -> 0 <= y2 -> x1 - y1 = x2 - y2 ->
  A * b ^ x1 < B * b ^ y1 -> A * b ^ x2 < B * b ^ y2.
Proof.
  intros Hb H1 H2 H3 H4 Heq Hlt. destruct (Z.le_ge_cases x1 x2).
  - replace x2 with (x1 + (x2 - x1)) by lia. replace y2 with (y1 + (x2 - x1)) by lia.
    rewrite !Z.pow_add_r, !Z.mul_assoc by lia. apply Z.mul_lt_mono_pos_r; [|done].
    apply Z.pow_pos_nonneg; lia.
  - replace x1 with (x2 + (x1 - x2)) in Hlt by lia. replace y1 with (y2 + (x1 - x2)) in Hlt by lia.
    rewrite !Z.pow_add_r, !Z.mul_assoc in Hlt by lia. apply Z.mul_lt_mono_pos_r in Hlt; [done|].
    apply Z.pow_pos_nonneg; lia.
Qed.

(** A strict inequality up to the ring laws. *)
Ltac by_ring_lt H :=
  eapply Z.le_lt_trans; [|eapply Z.lt_le_trans; [exact H|]]; apply Z.eq_le_incl; ring.

(** Both powers moved to where the comparison has them. *)
Lemma rescale_lower A V a b c d e X :
  0 <= a -> 0 <= b -> 0 <= c -> 0 <= d -> a - b = e -> d - c = X ->
  A * 10 ^ c * 2 ^ a < V * 10 ^ d * 2 ^ b -> bin_lt_dec A e V X.
Proof.
  intros Ha Hb Hc Hd He HX Hlt. unfold bin_lt_dec.
  eapply (pow_shift 2 _ _ a b (Z.max 0 e) (Z.max 0 (- e))) in Hlt; [|lia..].
  revert Hlt. rewrite <- !Z.mul_assoc, !(Z.mul_comm (10 ^ _) (2 ^ _)), !Z.mul_assoc. intros Hlt.
  eapply (pow_shift 10 _ _ c d (Z.max 0 (- X)) (Z.max 0 X)) in Hlt; [|lia..].
  by_ring_lt Hlt.
Qed.

Lemma rescale_upper A V a b c d e X :
  0 <= a -> 0 <= b -> 0 <= c -> 0 <= d -> a - b = e -> d - c = X ->
  V * 10 ^ d * 2 ^ b < A * 10 ^ c * 2 ^ a -> dec_lt_bin V X A e.
Proof.
  intros Ha Hb Hc Hd He HX Hlt. unfold dec_lt_bin.
  eapply (pow_shift 2 _ _ b a (Z.max 0 (- e)) (Z.max 0 e)) in Hlt; [|lia..].
  revert Hlt. rewrite <- !Z.mul_assoc, !(Z.mul_comm (10 ^ _) (2 ^ _)), !Z.mul_assoc. intros Hlt.
  eapply (pow_shift 10 _ _ d c (Z.max 0 X) (Z.max 0 (- X))) in Hlt; [|lia..].
  by_ring_lt Hlt.
Qed.

(** ** The error of a scaled boundary *)
Section Scaled.
  (** [F] approximates [TN / TD] to half a unit. *)
Context (F TN TD : Z) (HF : is_word F) (HTD : 0 < TD)
    (Hnear : 2 * Z.abs (F * TD - TN) <= TD).

Lemma scaled_upper w :
    is_word w -> (rounded_product w F - 1) * 2 ^ 64 * TD < w * TN.
Proof using HF HTD Hnear.
    unfold is_word, rounded_product. intros Hw.
    pose proof (Z.div_mod (w * F + 2 ^ 63) (2 ^ 64) ltac:(lia)).
    pose proof (Z.mod_pos_bound (w * F + 2 ^ 63) (2 ^ 64) ltac:(lia)).
    set (q := (w * F + 2 ^ 63) / 2 ^ 64) in *.
    assert (H1 : q * 2 ^ 64 <= w * F + 2 ^ 63) by lia.
    assert (H2 : q * 2 ^ 64 * TD <= (w * F + 2 ^ 63) * TD) by (apply Z.mul_le_mono_nonneg_r; lia).
    assert (H3 : 2 * (w * (F * TD - TN)) <= w * TD) by (destruct Hw; nia).
    assert (w * TD < 2 ^ 64 * TD) by (apply Z.mul_lt_mono_pos_r; lia).
    lia.
Qed.

Lemma scaled_lower w :
    is_word w -> w * TN < (rounded_product w F + 1) * 2 ^ 64 * TD.
Proof using HF HTD Hnear.
    unfold is_word, rounded_product. intros Hw.
    pose proof (Z.div_mod (w * F + 2 ^ 63) (2 ^ 64) ltac:(lia)).
    pose proof (Z.mod_pos_bound (w * F + 2 ^ 63) (2 ^ 64) ltac:(lia)).
    set (q := (w * F + 2 ^ 63) / 2 ^ 64) in *.
    assert (H1 : w * F < (q + 1) * 2 ^ 64 - 2 ^ 63) by lia.
    assert (H2 : w * F * TD < ((q + 1) * 2 ^ 64 - 2 ^ 63) * TD) by (apply Z.mul_lt_mono_pos_r; lia).
    assert (H3 : 2 * (w * (TN - F * TD)) <= w * TD) by (destruct Hw; nia).
    assert (w * TD < 2 ^ 64 * TD) by (apply Z.mul_lt_mono_pos_r; lia).
    lia.
Qed.
End Scaled.

(** ** The power chosen *)
Definition scale_num (E K : Z) : Z := 10 ^ Z.max 0 (- K) * 2 ^ Z.max 0 (- E).
Definition scale_den (E K : Z) : Z := 2 ^ Z.max 0 E * 10 ^ Z.max 0 K.

Lemma cached_power e :
  -1137 <= e <= 960 ->
  exists F E K sh, GetCachedPower e = Ret (DiyFp.mk F E, K) /\
    2 ^ 63 <= F < 2 ^ 64 /\ sh = - (e + E + 64) /\ 34 <= sh <= 60 /\ F < 10 ^ 9 * 2 ^ sh - 2 /\
    2 * Z.abs (F * scale_den E K - scale_num E K) <= scale_den E K.
Proof.
  intros He. pose proof (cached_fits_all e He) as Hfit. unfold cached_fits in Hfit.
  destruct (GetCachedPower e) as [[[F E] K]| |]; [|done..]. cbn [DiyFp.f DiyFp.e] in Hfit.
  rewrite !andb_true_iff in Hfit. destruct Hfit as ((((((H1 & H2) & H3) & H4) & H5) & H6) & H7).
  set (index := (348 - K) / 8) in *.
  pose proof (cached_all index ltac:(lia)) as Hok. unfold cached_ok in Hok.
  destruct (GetCachedPowerByIndex index) as [[F' E']| |]; [|done..]. cbn [DiyFp.f DiyFp.e] in *.
  rewrite !andb_true_iff in Hok. destruct Hok as ((H8 & H9) & H10).
  rewrite andb_true_iff in H4. destruct H4 as [HF HE]. apply Z.eqb_eq in HF, HE. subst F' E'.
  exists F, E, K, (- (e + E + 64)). split_and!; try done; try lia.
  unfold near_power in H10. apply Z.leb_le in H10.
  replace (-348 + 8 * index) with (- K) in H10 by lia. rewrite Z.opp_involutive in H10.
  unfold scale_num, scale_den. rewrite Z.mul_assoc. exact H10.
Qed.

(** ** The interval given to DigitGen *)
Lemma scaled_interval F w_m w_p :
  2 ^ 63 <= F < 2 ^ 64 -> 0 <= w_m -> 2 ^ 63 <= w_p < 2 ^ 64 ->
  1536 <= w_p - w_m -> w_p <= 2 ^ 53 * (w_p - w_m) ->
  let Wp := rounded_product w_p F in let Wm := rounded_product w_m F in
  let delta := (Wp - 1) - (Wm + 1) in
  2 ^ 62 <= Wp <= F /\ 0 <= Wm /\ 0 < delta /\ Wp - 1 < 10 ^ 16 * delta.
Proof.
  intros HF Hwm Hwp Hgap Hratio Wp Wm delta.
  pose proof (Z.div_mod (w_p * F + 2 ^ 63) (2 ^ 64) ltac:(lia)) as Ep.
  pose proof (Z.mod_pos_bound (w_p * F + 2 ^ 63) (2 ^ 64) ltac:(lia)).
  pose proof (Z.div_mod (w_m * F + 2 ^ 63) (2 ^ 64) ltac:(lia)) as Em.
  pose proof (Z.mod_pos_bound (w_m * F + 2 ^ 63) (2 ^ 64) ltac:(lia)).
  fold (rounded_product w_p F) in Ep. fold (rounded_product w_m F) in Em. fold Wp in Ep. fold Wm in Em.
  assert (Hy : 1536 * 2 ^ 63 <= (w_p - w_m) * F) by (apply Z.mul_le_mono_nonneg; lia).
  assert (Hr : w_p * F <= 2 ^ 53 * ((w_p - w_m) * F))
    by (rewrite Z.mul_assoc; apply Z.mul_le_mono_nonneg_r; lia).
  assert (Hp1 : 2 ^ 63 * 2 ^ 63 <= w_p * F) by (apply Z.mul_le_mono_nonneg; lia).
  assert (Hp2 : w_p * F <= (2 ^ 64 - 1) * F) by (apply Z.mul_le_mono_nonneg_r; lia).
  assert (Hm1 : 0 <= w_m * F) by (apply Z.mul_nonneg_nonneg; lia).
  rewrite Z.mul_sub_distr_r in Hy, Hr. unfold delta. split_and!; lia.
Qed.

(** ** From the scaled interval to the exact one *)
Section Unscale.
Context (A t W E K E0 sh kap V : Z) (Ht : 0 <= t) (Hsh : sh = - (E0 + E + 64)) (Hsh34 : 34 <= sh).
Let kn := Z.max 0 (- kap).
Let kp := Z.max 0 kap.
Let den := 2 ^ Z.max 0 E * 10 ^ Z.max 0 K.

Lemma unscale_pos : 0 < 10 ^ kn /\ 0 < 2 ^ 64 * den.
Proof using.
    split; [apply Z.pow_pos_nonneg; lia|]. apply Z.mul_pos_pos; [lia|].
    apply Z.mul_pos_pos; apply Z.pow_pos_nonneg; lia.
Qed.

Lemma unscale_lower :
    A * 2 ^ t * scale_num E K < W * 2 ^ 64 * scale_den E K ->
    W * 10 ^ kn <= V * 10 ^ kp * 2 ^ sh ->
    bin_lt_dec A (E0 + t) V (K + kap).
Proof using Ht Hsh Hsh34.
    intros Hlt Hle. destruct unscale_pos as [Hkn Hden].
    apply (Z.mul_lt_mono_pos_r (10 ^ kn)) in Hlt; [|done].
    apply (Z.mul_le_mono_nonneg_r _ _ (2 ^ 64 * den)) in Hle; [|lia].
    apply (rescale_lower A V (t + Z.max 0 (- E)) (sh + 64 + Z.max 0 E)
             (Z.max 0 (- K) + kn) (kp + Z.max 0 K)); [clear Hlt Hle; lia.. |].
    rewrite !Z.pow_add_r by (clear Hlt Hle; lia). unfold scale_num, scale_den, den in *.
    assert (Hmid : W * 2 ^ 64 * (2 ^ Z.max 0 E * 10 ^ Z.max 0 K) * 10 ^ kn
                   = W * 10 ^ kn * (2 ^ 64 * (2 ^ Z.max 0 E * 10 ^ Z.max 0 K))) by ring.
    rewrite Hmid in Hlt. pose proof (Z.lt_le_trans _ _ _ Hlt Hle) as H. by_ring_lt H.
Qed.

Lemma unscale_upper :
    W * 2 ^ 64 * scale_den E K < A * 2 ^ t * scale_num E K ->
    V * 10 ^ kp * 2 ^ sh <= W * 10 ^ kn ->
    dec_lt_bin V (K + kap) A (E0 + t).
Proof using Ht Hsh Hsh34.
    intros Hlt Hle. destruct unscale_pos as [Hkn Hden].
    apply (Z.mul_lt_mono_pos_r (10 ^ kn)) in Hlt; [|done].
    apply (Z.mul_le_mono_nonneg_r _ _ (2 ^ 64 * den)) in Hle; [|lia].
    apply (rescale_upper A V (t + Z.max 0 (- E)) (sh + 64 + Z.max 0 E)
             (Z.max 0 (- K) + kn) (kp + Z.max 0 K)); [clear Hlt Hle; lia.. |].
    rewrite !Z.pow_add_r by (clear Hlt Hle; lia). unfold scale_num, scale_den, den in *.
    assert (Hmid : W * 2 ^ 64 * (2 ^ Z.max 0 E * 10 ^ Z.max 0 K) * 10 ^ kn
                   = W * 10 ^ kn * (2 ^ 64 * (2 ^ Z.max 0 E * 10 ^ Z.max 0 K))) by ring.
    rewrite Hmid in Hlt. pose proof (Z.le_lt_trans _ _ _ Hle Hlt) as H. by_ring_lt H.
Qed.
End Unscale.

(** ** The boundaries as multiples of a power of two *)
Lemma lower_boundary m t :
  10 <= t -> (m = 2 ^ 52 -> t = 10) -> 2 * m * 2 ^ t - lower_gap m t = lower_quarters m * 2 ^ (t - 1).
Proof.
  intros Ht Hm. unfold lower_gap, lower_quarters.
  destruct (Z.eqb_spec m (2 ^ 52)) as [Heq|]; [rewrite (Hm Heq); change (2 ^ 10) with (2 * 2 ^ 9); simpl; lia|].
  replace t with (t - 1 + 1) at 1 2 by lia. rewrite Z.pow_add_r by lia. lia.
Qed.

Lemma upper_boundary m t : 10 <= t -> (2 * m + 1) * 2 ^ t = (4 * m + 2) * 2 ^ (t - 1).
Proof. intros. replace t with (t - 1 + 1) at 1 by lia. rewrite Z.pow_add_r by lia. lia. Qed.

Lemma boundary_gap m t :
  0 < m < 2 ^ 53 -> 10 <= t -> (m = 2 ^ 52 -> t = 10) ->
  let w_p := (2 * m + 1) * 2 ^ t in let w_m := 2 * m * 2 ^ t - lower_gap m t in
  0 <= w_m /\ 1536 <= w_p - w_m /\ w_p <= 2 ^ 53 * (w_p - w_m).
Proof.
  intros Hm Ht Heq w_p w_m. assert (2 ^ 10 <= 2 ^ t) by (apply Z.pow_le_mono_r; lia).
  unfold w_p, w_m, lower_gap. destruct (Z.eqb_spec m (2 ^ 52)) as [Hm52|].
  - rewrite (Heq Hm52), Hm52. vm_compute. split_and!; done || lia.
  - split_and!; nia.
Qed.

Definition finite_positive (m : positive) (e : Z) : Prop := is_double (S754_finite false m e).

Lemma Grisu2_correct m e :
  finite_positive m e ->
  exists l X, Grisu2 (S754_finite false m e) = Ret (l, X) /\
    leading l /\ sizeZ l <= 17 /\ in_interval (Zpos m) e (dec_value l) X.
Proof.
  intros Hd. unfold Grisu2. rewrite of_double_finite by done.
  apply is_double_finite in Hd. set (mz := Zpos m) in *.
  assert (Hm : 0 < mz < 2 ^ 53) by (unfold mz in *; lia).
  destruct (boundaries_exact mz e Hm) as (t & Ht & Heq & Hlow & Hup & -> & ->). cbn [bind].
  cbn [DiyFp.f DiyFp.e].
  assert (HE0 : -1137 <= e - 1 - t <= 960).
  { destruct Hd as [(Hm52 & He) | (? & ->)]; [|lia]. assert (t = 10) as ->; [|lia].
    destruct (decide (t = 10)); [done|]. assert (2 ^ 11 <= 2 ^ t) by (apply Z.pow_le_mono_r; lia). nia. }
  destruct (cached_power (e - 1 - t) HE0) as (F & E & K & sh & -> & HF & Hsh & Hsh34 & HF9 & Hnear).
  cbn [bind]. destruct (boundary_gap mz t Hm ltac:(lia) Heq) as (Hwm0 & Hgap & Hratio).
  set (w_p := (2 * mz + 1) * 2 ^ t) in *. set (w_m := 2 * mz * 2 ^ t - lower_gap mz t) in *.
  destruct (scaled_interval F w_m w_p) as (HWp & HWm & Hdelta & Hlen); [lia | lia | lia | lia | lia |].
  rewrite !mul_rounded by (unfold is_word; cbn [DiyFp.f]; lia). cbn [DiyFp.f DiyFp.e].
  set (Wp := rounded_product w_p F) in *. set (Wm := rounded_product w_m F) in *.
  rewrite (u64_small (Wm + 1)), (u64_small (Wp - 1)), (u64_small (Wp - 1 - (Wm + 1))) by lia.
  replace (e - 1 - t + E + 64) with (- sh) by lia. pose proof (one_bounds sh Hsh34) as Hone.
  destruct (DigitGen_ok (DiyFp.mk (rounded_product (2 * mz * 2 ^ t) F) (- sh)) (Wp - 1) sh
              (Wp - 1 - (Wm + 1)) K) as (l & kap & -> & Hlead & Hval & Hsize);
    [lia | lia | apply Z.div_lt_upper_bound; lia | lia |].
  exists l, (K + kap). split_and!; [done | done | |].
  - destruct Hsize as [|Hsize]; [lia|]. destruct (Z.le_gt_cases (sizeZ l) 17); [done|].
    assert (10 ^ 16 <= 10 ^ (sizeZ l - 2)) by (apply Z.pow_le_mono_r; lia). nia.
  - assert (HFw : is_word F) by (unfold is_word; lia).
    assert (Hden : 0 < scale_den E K)
      by (apply Z.mul_pos_pos; apply Z.pow_pos_nonneg; lia).
    assert (HU := scaled_upper F (scale_num E K) (scale_den E K) HFw Hden Hnear w_p ltac:(unfold is_word; lia)).
    assert (HL := scaled_lower F (scale_num E K) (scale_den E K) HFw Hden Hnear w_m ltac:(unfold is_word; lia)).
    fold Wp in HU. fold Wm in HL. unfold w_p in HU. unfold w_m in HL.
    rewrite upper_boundary in HU by lia. rewrite lower_boundary in HL by (done || lia).
    split; replace (e - 2) with (e - 1 - t + (t - 1)) by lia.
    + apply (unscale_lower _ (t - 1) (Wm + 1) E K _ sh); [lia | lia | lia | exact HL |].
      replace (Wm + 1) with (Wp - 1 - (Wp - 1 - (Wm + 1))) by lia. apply Hval.
    + apply (unscale_upper _ (t - 1) (Wp - 1) E K _ sh); [lia | lia | lia | exact HU | apply Hval].
Qed.
