(* ===== verification/Rounding.v ===== *)
(** * Correctness of rounding a quotient to binary64

    [round_quotient] (Doubles.v) is the standard library's division of
    mantissas followed by its rounding.  Any quotient strictly inside the
    rounding interval of a finite double is rounded to that double. *)
From S2P Require Import Prelude Types Doubles Ieee754 DiyFp Grisu.
From Stdlib Require Import SpecFloat.

(** ** What a shift record means

    [N / D] cut to an integer, with the first and the remaining bits below. *)
Definition cut (N D : Z) (mrs : shr_record) : Prop :=
  shr_m mrs = N / D /\
  shr_r mrs = (D <=? 2 * (N mod D)) /\
  shr_s mrs = negb ((2 * (N mod D)) mod D =? 0).

Lemma cut_rem N D : 0 < D -> (D <=? 2 * (N mod D)) || negb ((2 * (N mod D)) mod D =? 0) = negb (N mod D =? 0).
Proof.
  intros HD. pose proof (Z.mod_pos_bound N D HD). destruct (Z.leb_spec D (2 * (N mod D))); cbn [orb].
  - symmetry. apply negb_true_iff, Z.eqb_neq. lia.
  - rewrite (Z.mod_small (2 * (N mod D))) by lia. f_equal. destruct (Z.eqb_spec (N mod D) 0); lia.
Qed.

Lemma cut_step N D mrs : 0 <= N -> 0 < D -> cut N D mrs -> cut N (D * 2) (shr_1 mrs).
Proof.
  intros HN HD (Hm & Hr & Hs). destruct mrs as [m r s]. cbn [shr_m shr_r shr_s] in *.
  pose proof (cut_rem N D HD) as Hrem. rewrite <- Hr, <- Hs in Hrem.
  assert (Hm0 : 0 <= m) by (subst m; apply Z.div_pos; lia).
  pose proof (Z.mod_pos_bound N D HD). pose proof (Z.div_mod N D ltac:(lia)) as HNd. rewrite <- Hm in HNd.
  assert (H2 : N / (D * 2) = m / 2) by (rewrite <- Z.div_div by lia; by rewrite <- Hm).
  assert (Hmod : N mod (D * 2) = (m mod 2) * D + N mod D).
  { symmetry. apply (Z.mod_unique _ _ (m / 2)); pose proof (Z.mod_pos_bound m 2 ltac:(lia));
      pose proof (Z.div_mod m 2 ltac:(lia)); nia. }
  assert (Hs' : negb ((2 * (N mod (D * 2))) mod (D * 2) =? 0) = r || s).
  { rewrite Hrem, (Z.mul_comm D 2), Z.mul_mod_distr_l by lia. rewrite (Z.mul_comm 2 D), Hmod.
    rewrite Z.add_comm, Z.mod_add, Z.mod_mod by lia. f_equal.
    destruct (Z.eqb_spec (2 * (N mod D)) 0), (Z.eqb_spec (N mod D) 0); lia. }
  unfold cut. rewrite H2, Hs', Hmod.
  assert (Hr' : (D * 2 <=? 2 * (m mod 2 * D + N mod D)) = (m mod 2 =? 1)).
  { pose proof (Z.mod_pos_bound m 2 ltac:(lia)). assert (m mod 2 = 0 \/ m mod 2 = 1) as [-> | ->] by lia.
    - apply Z.leb_gt. lia.
    - apply Z.leb_le. lia. }
  rewrite Hr'. destruct m as [|p|p]; [done | | lia].
  destruct p as [p|p|]; cbn [shr_1 shr_m shr_r shr_s]; split_and!; try done.
  - rewrite (Pos2Z.inj_xI p), Z.mul_comm, Z.add_comm, Z.div_add by lia. done.
  - rewrite (Pos2Z.inj_xI p), Z.mul_comm, Z.add_comm, Z.mod_add by lia. done.
  - rewrite (Pos2Z.inj_xO p), Z.mul_comm, Z.div_mul by lia. done.
  - rewrite (Pos2Z.inj_xO p), Z.mul_comm, Z.mod_mul by lia. done.
Qed.

Lemma cut_iter p : forall N D mrs, 0 <= N -> 0 < D -> cut N D mrs ->
  cut N (D * 2 ^ Zpos p) (iter_pos shr_1 p mrs).
Proof.
  induction p as [p IH|p IH|]; intros N D mrs HN HD Hc; cbn [iter_pos].
  - rewrite Pos2Z.inj_xI. replace (2 * Zpos p + 1) with (1 + Zpos p + Zpos p) by lia.
    rewrite !Z.pow_add_r, !Z.mul_assoc by lia.
    assert (0 < 2 ^ Zpos p) by (apply Z.pow_pos_nonneg; lia).
    apply IH; [done | nia |]. apply IH; [done | nia |]. by apply cut_step.
  - rewrite (Pos2Z.inj_xO p), <- (Z.add_diag (Zpos p)).
    rewrite !Z.pow_add_r, !Z.mul_assoc by lia.
    assert (0 < 2 ^ Zpos p) by (apply Z.pow_pos_nonneg; lia).
    apply IH; [done | nia |]. by apply IH.
  - by apply cut_step.
Qed.

Lemma cut_location N D : 0 <= N -> 0 < D -> cut N D (shr_record_of_loc (N / D) (new_location D (N mod D))).
Proof.
  intros HN HD. pose proof (Z.mod_pos_bound N D HD). unfold cut, new_location, new_location_even, new_location_odd.
  destruct (Z.eqb_spec (N mod D) 0) as [-> | Hr].
  - rewrite Z.mul_0_r, Z.mod_0_l by lia. replace (D <=? 0) with false by lia. by destruct (Z.even D).
  - set (r := N mod D) in *.
    assert (Hs : forall c, (2 * r ?= D) = c ->
      shr_record_of_loc (N / D) (loc_Inexact c) =
      {| shr_m := N / D; shr_r := D <=? 2 * r; shr_s := negb ((2 * r) mod D =? 0) |}).
    { intros c Hc. destruct c.
      - apply Z.compare_eq in Hc. rewrite Hc, Z.mod_same, Z.leb_refl by lia. done.
      - rewrite Z.compare_lt_iff in Hc. rewrite (Z.mod_small (2 * r)) by lia.
        replace (D <=? 2 * r) with false by lia. by replace (2 * r =? 0) with false by lia.
      - rewrite Z.compare_gt_iff in Hc. replace (D <=? 2 * r) with true by lia.
        replace ((2 * r) mod D) with (2 * r - D) by (apply (Z.mod_unique _ _ 1); lia).
        by replace (2 * r - D =? 0) with false by lia. }
    destruct (Z.even D) eqn:Hev; replace (r =? 0) with false by lia.
    + by rewrite (Hs _ eq_refl).
    + assert (Hodd : 2 * r <> D) by (intros Heq; rewrite <- Heq, Z.even_mul in Hev; done).
      replace (match 2 * r + 1 ?= D with Gt => Gt | _ => Lt end) with (2 * r ?= D); [by rewrite (Hs _ eq_refl)|].
      destruct (Z.compare_spec (2 * r) D), (Z.compare_spec (2 * r + 1) D); lia || done.
Qed.

(** Rounding to nearest takes [N / D] to the integer it is closest to. *)
Lemma cut_nearest N D mrs m :
  0 <= N -> 0 < D -> cut N D mrs -> (2 * m - 1) * D < 2 * N < (2 * m + 1) * D ->
  round_nearest_even (shr_m mrs) (loc_of_shr_record mrs) = m.
Proof.
  intros HN HD (Hm & Hr & Hs) Hclose. destruct mrs as [q r s]. cbn [shr_m shr_r shr_s] in *.
  pose proof (Z.mod_pos_bound N D HD). pose proof (Z.div_mod N D ltac:(lia)) as HNd. rewrite <- Hm in HNd.
  unfold loc_of_shr_record, round_nearest_even.
  destruct (Z.leb_spec D (2 * (N mod D))) as [Hge | Hlt].
  - assert (q < m) by (cut (2 * q + 1 < 2 * m + 1); [lia|]; apply (Z.mul_lt_mono_pos_r D); lia).
    assert (2 * (N mod D) <> D) by (intros Heq; cut (2 * m - 1 < 2 * q + 1); [lia|];
      apply (Z.mul_lt_mono_pos_r D); lia).
    assert (m < q + 2) by (cut (2 * m - 1 < 2 * q + 2); [lia|]; apply (Z.mul_lt_mono_pos_r D); lia).
    replace ((2 * (N mod D)) mod D) with (2 * (N mod D) - D) in Hs by (apply (Z.mod_unique _ _ 1); lia).
    replace (2 * (N mod D) - D =? 0) with false in Hs by lia. subst r s. cbn [negb]. lia.
  - assert (q < m + 1) by (cut (2 * q < 2 * m + 1); [lia|]; apply (Z.mul_lt_mono_pos_r D); lia).
    assert (m < q + 1) by (cut (2 * m - 1 < 2 * q + 1); [lia|]; apply (Z.mul_lt_mono_pos_r D); lia).
    subst r. destruct s; lia.
Qed.

(** ** Scaling *)

(** [a * 2^e < num / den] and its converse, as integers *)
Definition bin_lt_quot (a e num den : Z) : Prop := a * 2 ^ Z.max 0 e * den < num * 2 ^ Z.max 0 (- e).
Definition quot_lt_bin (num den a e : Z) : Prop := num * 2 ^ Z.max 0 (- e) < a * 2 ^ Z.max 0 e * den.

Lemma digits2_bounds z : 0 < z -> 2 ^ (Zdigits2 z - 1) <= z < 2 ^ Zdigits2 z.
Proof. destruct z; [lia | | lia]. intros _. apply digits2_pos_bounds. Qed.

Lemma shr_fexp_cut N D e :
  0 <= N -> 0 < D ->
  let q := N / D in let e1 := Z.max e (fexp dprec demax (Zdigits2 q + e)) in
  exists mrs, shr_fexp dprec demax q e (new_location D (N mod D)) = (mrs, e1) /\
  cut N (D * 2 ^ (e1 - e)) mrs.
Proof.
  intros HN HD q e1. unfold shr_fexp, shr. pose proof (cut_location N D HN HD) as Hc. fold q in Hc |- *.
  destruct (fexp dprec demax (Zdigits2 q + e) - e) as [|p|p] eqn:Hf.
  - eexists. split; [f_equal; lia|]. replace (e1 - e) with 0 by lia. by rewrite Z.mul_1_r.
  - eexists. split; [f_equal; lia|]. replace (e1 - e) with (Zpos p) by lia. by apply cut_iter.
  - eexists. split; [f_equal; lia|]. replace (e1 - e) with 0 by lia. by rewrite Z.mul_1_r.
Qed.

(** The second pass of [binary_round_aux] on an exact mantissa. *)
Lemma shr_fexp_exact m e :
  fexp dprec demax (Zdigits2 m + e) <= e -> 
  shr_fexp dprec demax m e loc_Exact = ({| shr_m := m; shr_r := false; shr_s := false |}, e).
Proof. intros Hle. unfold shr_fexp, shr. destruct (_ - e) eqn:Hf; [done | lia | done]. Qed.

Lemma digits2_unique z k : 0 < k -> 2 ^ (k - 1) <= z < 2 ^ k -> Zdigits2 z = k.
Proof.
  intros Hk Hz. assert (0 < 2 ^ (k - 1)) by (apply Z.pow_pos_nonneg; lia).
  pose proof (digits2_bounds z ltac:(lia)) as Hb.
  assert (Zdigits2 z - 1 < k) by (apply (Z.pow_lt_mono_r_iff 2); lia).
  assert (k - 1 < Zdigits2 z); [|lia].
  apply (Z.pow_lt_mono_r_iff 2); [lia | destruct z; simpl; lia | lia].
Qed.

Lemma digits2_upper z k : 0 <= k -> 0 <= z < 2 ^ k -> 0 <= Zdigits2 z <= k.
Proof.
  intros Hk Hz. destruct (decide (z = 0)) as [-> | Hz0]; [simpl; lia|].
  pose proof (digits2_bounds z ltac:(lia)) as Hb.
  assert (Zdigits2 z - 1 < k); [apply (Z.pow_lt_mono_r_iff 2); lia|].
  destruct z; simpl in *; lia.
Qed.

(** The exponent [SFdiv_core_binary] computes at. *)
Definition div_exponent (num den : Z) : Z := Z.min (fexp dprec demax (Zdigits2 num - Zdigits2 den)) 0.

Lemma round_quotient_unfold neg num den :
  0 < num -> 0 < den ->
  let e := div_exponent num den in let N := num * 2 ^ (- e) in
  round_quotient neg num den =
  binary_round_aux dprec demax neg (N / den) e (new_location den (N mod den)).
Proof.
  intros Hnum Hden e N. unfold round_quotient, SFdiv_core_binary.
  rewrite !Z.add_0_r. change (0 - 0) with 0. fold (div_exponent num den). fold e.
  assert (He : e <= 0) by (unfold e, div_exponent; lia).
  replace (match 0 - e with 0 => num | Zpos _ => Z.shiftl num (0 - e) | Zneg _ => 0 end) with N.
  - unfold Z.div, Z.modulo. by destruct (Z.div_eucl N den).
  - unfold N. destruct (0 - e) as [|p|p] eqn:Hs; [| |lia].
    + replace (- e) with 0 by lia. simpl. lia.
    + rewrite <- Hs, Z.shiftl_mul_pow2 by lia. f_equal.
Qed.

Lemma div_exponent_le num den k :
  0 < num -> 0 < den -> num * 2 ^ Z.max 0 (- k) < 2 ^ Z.max 0 k * den ->
  -1074 <= k - 53 -> div_exponent num den <= k - 53.
Proof.
  intros Hnum Hden Hlt Hk. unfold div_exponent, fexp, emin, dprec, demax.
  pose proof (digits2_bounds num Hnum). pose proof (digits2_bounds den Hden).
  assert (0 < Zdigits2 num) by (destruct num; simpl; lia).
  assert (0 < Zdigits2 den) by (destruct den; simpl; lia).
  enough (Zdigits2 num - 1 + Z.max 0 (- k) < Z.max 0 k + Zdigits2 den) by lia.
  apply (Z.pow_lt_mono_r_iff 2); [lia.. |]. rewrite !Z.pow_add_r by lia.
  assert (0 < 2 ^ Z.max 0 (- k)) by (apply Z.pow_pos_nonneg; lia).
  assert (0 < 2 ^ Z.max 0 k) by (apply Z.pow_pos_nonneg; lia).
  apply Z.le_lt_trans with (num * 2 ^ Z.max 0 (- k)); [nia|].
  apply Z.lt_trans with (2 ^ Z.max 0 k * den); [done | nia].
Qed.

(** Rounding at the exponent [E1], when that is the one the digits call for. *)
Lemma binary_round_at neg N den e E1 k :
  0 <= N -> 0 < den -> e <= E1 ->
  Z.max e (fexp dprec demax (Zdigits2 (N / den) + e)) = E1 ->
  let D := den * 2 ^ (E1 - e) in
  (2 * k - 1) * D < 2 * N < (2 * k + 1) * D ->
  binary_round_aux dprec demax neg (N / den) e (new_location den (N mod den)) =
  let '(mrs, e2) := shr_fexp dprec demax k E1 loc_Exact in
  match shr_m mrs with
  | 0 => S754_zero neg
  | Zpos m => if e2 <=? demax - dprec then S754_finite neg m e2 else S754_infinity neg
  | Zneg _ => S754_nan
  end.
Proof.
  intros HN Hden HE1 He1 D Hclose. unfold binary_round_aux.
  destruct (shr_fexp_cut N den e HN Hden) as (mrs & -> & Hcut). rewrite He1 in Hcut |- *. fold D in Hcut.
  assert (HD : 0 < D) by (apply Z.mul_pos_pos; [done | apply Z.pow_pos_nonneg; lia]).
  by rewrite (cut_nearest N D mrs k HN HD Hcut Hclose).
Qed.

(** The interval at the scale of the division. *)
Lemma interval_scaled a b e num den e' :
  e' <= 0 -> e' <= e ->
  bin_lt_quot a (e - 2) num den -> quot_lt_bin num den b (e - 2) ->
  let D := den * 2 ^ (e - e') in let N := num * 2 ^ (- e') in
  a * D < 4 * N < b * D.
Proof.
  intros He' He Hlo Hup D N. unfold bin_lt_quot, quot_lt_bin in *.
  assert (HN : 4 * N = num * 2 ^ (2 - e')).
  { unfold N. replace (2 - e') with (2 + - e') by lia. rewrite Z.pow_add_r by lia. lia. }
  rewrite HN. unfold D. split.
  - rewrite Z.mul_assoc. apply (pow_shift 2 _ _ (Z.max 0 (e - 2)) (Z.max 0 (- (e - 2)))); [lia.. |].
    by_ring_lt Hlo.
  - rewrite Z.mul_assoc. apply (pow_shift 2 _ _ (Z.max 0 (- (e - 2))) (Z.max 0 (e - 2))); [lia.. |].
    by_ring_lt Hup.
Qed.

Lemma div_bounds N den a b : 0 < den -> a * den <= N < b * den -> a <= N / den < b.
Proof.
  intros Hd HN. split; [apply Z.div_le_lower_bound; lia | apply Z.div_lt_upper_bound; lia].
Qed.

Lemma quot_below_power num den b e j :
  0 < den -> 0 <= j -> b <= 2 ^ j -> quot_lt_bin num den b e ->
  num * 2 ^ Z.max 0 (- (e + j)) < 2 ^ Z.max 0 (e + j) * den.
Proof.
  unfold quot_lt_bin. intros Hden Hj Hb Hlt. rewrite (Z.mul_comm (2 ^ _) den).
  apply (pow_shift 2 _ _ (Z.max 0 (- e)) (j + Z.max 0 e)); [lia.. |].
  rewrite Z.pow_add_r by lia. eapply Z.lt_le_trans; [exact Hlt|].
  assert (0 < 2 ^ Z.max 0 e) by (apply Z.pow_pos_nonneg; lia).
  rewrite (Z.mul_comm den), <- !Z.mul_assoc. apply Z.mul_le_mono_nonneg_r; [nia | done].
Qed.

(** Rounding at an exponent where the mantissa needs no second shift. *)
Lemma round_exact neg m e :
  is_double (S754_finite neg m e) ->
  (let '(mrs, e2) := shr_fexp dprec demax (Zpos m) e loc_Exact in
   match shr_m mrs with
   | 0 => S754_zero neg
   | Zpos m => if e2 <=? demax - dprec then S754_finite neg m e2 else S754_infinity neg
   | Zneg _ => S754_nan
   end) = S754_finite neg m e.
Proof.
  intros Hd%is_double_finite. pose proof (digits2_upper (Zpos m) 53) as Hdig.
  rewrite shr_fexp_exact by (unfold fexp, emin, dprec, demax; lia).
  cbn [shr_m]. replace (e <=? demax - dprec) with true; [done|]. unfold demax, dprec. lia.
Qed.

Lemma quarters_bound z : 4 * z - 2 <= lower_quarters z.
Proof. unfold lower_quarters. case_match; lia. Qed.

Section RoundQuotient.
Context (neg : bool) (m : positive) (e num den : Z) (Hnum : 0 < num) (Hden : 0 < den)
    (Hd : is_double (S754_finite neg m e))
    (Hlo : bin_lt_quot (lower_quarters (Zpos m)) (e - 2) num den)
    (Hup : quot_lt_bin num den (4 * Zpos m + 2) (e - 2)).
Let e' := div_exponent num den.
Let N := num * 2 ^ (- e').
Let D := den * 2 ^ (e - e').

Lemma rq_range : (2 ^ 52 <= Zpos m < 2 ^ 53 /\ -1074 <= e <= 971) \/ (Zpos m < 2 ^ 52 /\ e = -1074).
Proof using Hd. by apply is_double_finite in Hd. Qed.

Lemma rq_exponent : e' <= 0 /\ e' <= e.
Proof using Hnum Hden Hd Hup.
    pose proof rq_range. split; [unfold e', div_exponent; lia|].
    replace e with (e + 53 - 53) by lia. apply div_exponent_le; [done | done | | lia].
    replace (e + 53) with (e - 2 + 55) by lia.
    apply (quot_below_power _ _ (4 * Zpos m + 2)); [done | lia | lia | done].
Qed.

Lemma rq_interval : lower_quarters (Zpos m) * D < 4 * N < (4 * Zpos m + 2) * D.
Proof using Hnum Hden Hd Hup Hlo. destruct rq_exponent. by apply interval_scaled. Qed.

Lemma rq_positive : 0 <= N /\ 0 < D.
Proof using Hnum Hden Hd Hup.
    destruct rq_exponent. split.
    - apply Z.mul_nonneg_nonneg; [lia | apply Z.pow_nonneg; lia].
    - apply Z.mul_pos_pos; [done | apply Z.pow_pos_nonneg; lia].
Qed.

  (** The quotient's digits, from bounds in units of the double. *)
Lemma rq_div j : 0 <= j -> N < 2 ^ j * D -> N / den < 2 ^ (j + (e - e')).
Proof using Hnum Hden Hd Hup.
    intros Hj HN. destruct rq_exponent. rewrite Z.pow_add_r by lia.
    apply Z.div_lt_upper_bound; [done|]. unfold D in HN. lia.
Qed.

Lemma rq_div_low j : 0 <= j -> 2 ^ j * D <= N -> 2 ^ (j + (e - e')) <= N / den.
Proof using Hnum Hden Hd Hup.
    intros Hj HN. destruct rq_exponent. rewrite Z.pow_add_r by lia.
    apply Z.div_le_lower_bound; [done|]. unfold D in HN. lia.
Qed.

Lemma rq_same_binade :
    Z.max e' (fexp dprec demax (Zdigits2 (N / den) + e')) = e ->
    binary_round_aux dprec demax neg (N / den) e' (new_location den (N mod den)) = S754_finite neg m e.
Proof using Hnum Hden Hd Hup Hlo.
    intros He1. destruct rq_exponent as [_ Hee]. destruct rq_positive as [HN HD].
    destruct rq_interval as [HL HU]. pose proof (quarters_bound (Zpos m)).
    rewrite (binary_round_at neg N den e' e (Zpos m)); [by apply round_exact | done.. |].
    fold D. nia.
Qed.

  (** Just below the smallest mantissa of a binade: the lower binade's
      rounding carries over to it. *)
Lemma rq_lower_binade :
    e <> -1074 -> N < 2 ^ 52 * D ->
    binary_round_aux dprec demax neg (N / den) e' (new_location den (N mod den)) = S754_finite neg m e.
Proof using Hnum Hden Hd Hup Hlo.
    intros He HN52. pose proof rq_range as Hr. destruct rq_exponent as [He0 Hee].
    destruct rq_positive as [HN HD]. destruct rq_interval as [HL HU].
    assert (Hm : Zpos m = 2 ^ 52).
    { pose proof (quarters_bound (Zpos m)). destruct (Z.eq_dec (Zpos m) (2 ^ 52)); [done|]. nia. }
    unfold lower_quarters in HL. rewrite Hm, Z.eqb_refl in HL.
    assert (Hee1 : e' <= e - 1).
    { replace (e - 1) with (e + 52 - 53) by lia. apply div_exponent_le; [done | done | | lia].
      rewrite (Z.mul_comm (2 ^ _) den). apply (pow_shift 2 _ _ (- e') (52 + (e - e'))); [lia.. |].
      rewrite Z.pow_add_r by lia. unfold N, D in HN52. lia. }
    set (D' := den * 2 ^ (e - 1 - e')).
    assert (HDD : D = 2 * D').
    { unfold D, D'. replace (e - e') with (1 + (e - 1 - e')) by lia. rewrite Z.pow_add_r by lia. lia. }
    assert (Hdig : Zdigits2 (N / den) = 52 + (e - e')).
    { apply digits2_unique; [lia|]. split; [|by apply rq_div].
      replace (52 + (e - e') - 1) with (51 + (e - e')) by lia. apply rq_div_low; lia. }
    rewrite (binary_round_at neg N den e' (e - 1) (2 ^ 53)); [|done | done | lia | |].
    - unfold shr_fexp. change (Zdigits2 (2 ^ 53)) with 54. unfold fexp, emin, dprec, demax.
      replace (Z.max (54 + (e - 1) - 53) (3 - 1024 - 53) - (e - 1)) with 1 by lia.
      cbn [shr iter_pos shr_record_of_loc]. change (shr_m (shr_1 _)) with (2 ^ 52).
      rewrite <- Hm. replace (e - 1 + 1) with e by lia.
      by replace (e <=? 1024 - 53) with true by lia.
    - rewrite Hdig. unfold fexp, emin, dprec, demax. lia.
    - fold D'. lia.
Qed.

Lemma round_quotient_correct : round_quotient neg num den = S754_finite neg m e.
Proof using Hnum Hden Hd Hup Hlo.
    rewrite round_quotient_unfold by done. fold e'. fold N.
    pose proof rq_range as Hr. destruct rq_exponent as [He0 Hee].
    destruct rq_positive as [HN HD]. destruct rq_interval as [HL HU].
    destruct (Z.lt_ge_cases N (2 ^ 52 * D)) as [Hsmall | Hbig].
    - destruct (decide (e = -1074)) as [He | He]; [|by apply rq_lower_binade].
      apply rq_same_binade. pose proof (rq_div 52 ltac:(lia) Hsmall) as Hq.
      pose proof (digits2_upper (N / den) (52 + (e - e')) ltac:(lia)
                    (conj (Z.div_pos _ _ HN Hden) Hq)).
      unfold fexp, emin, dprec, demax. lia.
    - apply rq_same_binade.
      assert (Hdig : Zdigits2 (N / den) = 53 + (e - e')).
      { apply digits2_unique; [lia|]. split; [|apply rq_div; nia].
        replace (53 + (e - e') - 1) with (52 + (e - e')) by lia. apply rq_div_low; lia. }
      rewrite Hdig. assert (-1074 <= e) by lia. unfold fexp, emin, dprec, demax. lia.
Qed.
End RoundQuotient.
