(* ===== verification/DoubleValid.v ===== *)
(** * The arithmetic of doubles stays in the format

    [SpecFloat] computes on triples of sign, mantissa and exponent; that the
    results are canonical binary64 numbers is proved here for what the program
    computes with: rounding, addition and [std::stod]. *)
From S2P Require Import Prelude Decimal Types Doubles Ieee754 DiyFp Grisu Rounding.
From Stdlib Require Import SpecFloat.

(** ** Rounding *)

(** The second pass on a mantissa of at most 53 bits, or one rounded up to
    [2 ^ 53]. *)
Lemma second_pass_valid neg m e : 0 <= m <= 2 ^ 53 -> -1074 <= e -> (2 ^ 52 <= m \/ e = -1074) ->
  is_double (let '(mrs, e2) := shr_fexp dprec demax m e loc_Exact in
             match shr_m mrs with
             | 0 => S754_zero neg
             | Zpos m => if e2 <=? demax - dprec then S754_finite neg m e2 else S754_infinity neg
             | Zneg _ => S754_nan
             end).
Proof.
  intros Hm He Hn. destruct (decide (m = 2 ^ 53)) as [->|Hne].
  - unfold shr_fexp. change (Zdigits2 (2 ^ 53)) with 54.
    replace (fexp dprec demax (54 + e) - e) with 1 by (unfold fexp, emin, dprec, demax; lia).
    cbn [shr iter_pos shr_record_of_loc]. change (shr_m (shr_1 _)) with (2 ^ 52). cbv iota.
    destruct (Z.leb_spec (e + 1) (demax - dprec)) as [Hle|]; [|done].
    apply is_double_finite. unfold demax, dprec in Hle. lia.
  - assert (Hd : 0 <= Zdigits2 m <= 53) by (apply digits2_upper; lia).
    rewrite shr_fexp_exact by (unfold fexp, emin, dprec, demax; lia). cbn [shr_m].
    destruct m as [|m|]; [done| |lia].
    destruct (Z.leb_spec e (demax - dprec)) as [Hle|]; [|done].
    apply is_double_finite. unfold demax, dprec in Hle. lia.
Qed.

Lemma round_nearest_cases mrs :
  round_nearest_even (shr_m mrs) (loc_of_shr_record mrs) = shr_m mrs \/
  round_nearest_even (shr_m mrs) (loc_of_shr_record mrs) = shr_m mrs + 1.
Proof. destruct mrs as [m [|] [|]]; cbn; auto. destruct (Z.even m); auto. Qed.

(** Rounding a mantissa that is long enough for its exponent. *)
Lemma binary_round_aux_valid neg N den e : 0 <= N -> 0 < den ->
  e <= fexp dprec demax (Zdigits2 (N / den) + e) ->
  is_double (binary_round_aux dprec demax neg (N / den) e (new_location den (N mod den))).
Proof.
  intros HN Hden He. unfold binary_round_aux.
  destruct (shr_fexp_cut N den e HN Hden) as (mrs & -> & Hcut & _).
  rewrite Z.max_r in * by done. set (e1 := fexp _ _ _) in *. set (q := N / den) in *.
  assert (Hpow : 0 < 2 ^ (e1 - e)) by (apply Z.pow_pos_nonneg; lia).
  rewrite <- Z.div_div in Hcut by lia. fold q in Hcut.
  assert (Hq : 0 <= q) by (apply Z.div_pos; lia).
  assert (Hm : 0 <= shr_m mrs < 2 ^ 53 /\ (2 ^ 52 <= shr_m mrs \/ e1 = -1074) /\ -1074 <= e1).
  { assert (He1 : e1 = Z.max (Zdigits2 q + e - 53) (-1074)) by done.
    rewrite Hcut. destruct (decide (q = 0)) as [Hq0|Hq0].
    - rewrite Hq0 in *. change (Zdigits2 0) with 0 in *. rewrite Z.div_0_l by lia. lia.
    - pose proof (digits2_bounds q ltac:(lia)) as Hb. set (d := Zdigits2 q) in *.
      assert (Hdp : 0 < d) by (unfold d; destruct q; simpl; lia).
      assert (Hup : q < 2 ^ 53 * 2 ^ (e1 - e)).
      { rewrite <- Z.pow_add_r by lia. eapply Z.lt_le_trans; [apply Hb|]. apply Z.pow_le_mono_r; lia. }
      split; [split; [apply Z.div_pos; lia|apply Z.div_lt_upper_bound; lia]|]. split; [|lia].
      destruct (decide (e1 = -1074)) as [|Hne]; [by right|left].
      apply Z.div_le_lower_bound; [lia|]. rewrite Z.mul_comm, <- Z.pow_add_r by lia.
      replace (52 + (e1 - e)) with (d - 1) by lia. lia. }
  destruct (round_nearest_cases mrs) as [-> | ->]; apply second_pass_valid; lia.
Qed.

Lemma exact_location (z : Z) : z = z / 1 /\ loc_Exact = new_location 1 (z mod 1).
Proof. rewrite Z.div_1_r, Z.mod_1_r. done. Qed.

Lemma shl_align_value mx ex ex' : ex' <= ex ->
  shl_align mx ex ex' = (Pos.shiftl mx (Z.to_N (ex - ex')), ex') \/ (ex' = ex /\ shl_align mx ex ex' = (mx, ex)).
Proof.
  intros Hle. unfold shl_align. destruct (ex' - ex) as [|p|p] eqn:E; [right|lia|left].
  - by replace ex' with ex by lia.
  - f_equal. replace (Z.to_N (ex - ex')) with (Npos p) by lia. done.
Qed.

Lemma digits2_shiftl m n : Zdigits2 (Zpos (Pos.shiftl m n)) = Zdigits2 (Zpos m) + Z.of_N n.
Proof.
  assert (Hp : 1 <= Zdigits2 (Zpos m)) by (cbn; lia).
  apply digits2_unique; [lia|]. pose proof (digits2_bounds (Zpos m) ltac:(lia)) as [Hlo Hhi].
  assert (Hs : Zpos (Pos.shiftl m n) = Zpos m * 2 ^ Z.of_N n).
  { rewrite <- Z.shiftl_mul_pow2 by lia. destruct n as [|p]; [done|]. cbn.
    by apply (Pos.iter_swap_gen _ _ Zpos xO (Z.mul 2)). }
  rewrite Hs. assert (0 < 2 ^ Z.of_N n) by (apply Z.pow_pos_nonneg; lia).
  replace (Zdigits2 (Zpos m) + Z.of_N n - 1) with (Zdigits2 (Zpos m) - 1 + Z.of_N n) by lia.
  rewrite !Z.pow_add_r by lia. nia.
Qed.

Lemma binary_round_valid neg mx ex : is_double (binary_round dprec demax neg mx ex).
Proof.
  unfold binary_round. set (ex' := fexp _ _ _). change (Zpos (digits2_pos mx)) with (Zdigits2 (Zpos mx)) in ex'.
  destruct (Z_le_gt_dec ex' ex) as [Hle|Hgt].
  - destruct (shl_align_value mx ex ex' Hle) as [->|[Heq ->]].
    + pose proof (exact_location (Zpos (Pos.shiftl mx (Z.to_N (ex - ex'))))) as [Hz Hl]. rewrite Hl, Hz at 1.
      apply binary_round_aux_valid; [lia|lia|]. rewrite Z.div_1_r, digits2_shiftl.
      replace (_ + _ + ex') with (Zdigits2 (Zpos mx) + ex) by lia. unfold ex'. lia.
    + pose proof (exact_location (Zpos mx)) as [Hz Hl]. rewrite Hl, Hz at 1.
      apply binary_round_aux_valid; [lia|lia|]. rewrite Z.div_1_r. unfold ex' in Heq. lia.
  - assert (shl_align mx ex ex' = (mx, ex)) as ->.
    { unfold shl_align. destruct (ex' - ex) eqn:E; [done|done|lia]. }
    pose proof (exact_location (Zpos mx)) as [Hz Hl]. rewrite Hl, Hz at 1.
    apply binary_round_aux_valid; [lia|lia|]. rewrite Z.div_1_r. unfold ex' in Hgt. lia.
Qed.

(** ** Addition *)
Lemma dadd_valid a b : is_double a -> is_double b -> is_double (dadd a b).
Proof.
  intros Ha Hb. unfold dadd, SFadd.
  destruct a as [sa|sa| |sa ma ea], b as [sb|sb| |sb mb eb]; try done; try (by destruct sa, sb).
  unfold binary_normalize. destruct (_ + _); [done|..]; apply binary_round_valid.
Qed.

(** ** stod *)
Lemma round_quotient_valid neg num den : 0 < num -> 0 < den -> is_double (round_quotient neg num den).
Proof.
  intros Hn Hd. rewrite round_quotient_unfold by done. set (e := div_exponent num den).
  assert (He : e <= 0) by (unfold e, div_exponent; lia).
  assert (Hpow : 0 < 2 ^ (- e)) by (apply Z.pow_pos_nonneg; lia).
  apply binary_round_aux_valid; [nia|done|].
  pose proof (digits2_bounds num Hn) as [Hn1 Hn2]. pose proof (digits2_bounds den Hd) as [Hd1 Hd2].
  assert (Hdn : 0 < Zdigits2 num) by (destruct num; simpl; lia).
  assert (Hdd : 0 < Zdigits2 den) by (destruct den; simpl; lia).
  enough (Hdig : Zdigits2 num - Zdigits2 den - e <= Zdigits2 (num * 2 ^ (- e) / den)).
  { assert (Hf : e <= fexp dprec demax (Zdigits2 num - Zdigits2 den)) by (unfold e, div_exponent; lia).
    unfold fexp, emin, dprec, demax in *. lia. }
  destruct (Z_le_gt_dec (Zdigits2 num - Zdigits2 den - e) 0) as [Hle|Hgt].
  { assert (0 <= num * 2 ^ (- e) / den) by (apply Z.div_pos; nia). destruct (num * 2 ^ (- e) / den); simpl; lia. }
  set (k := Zdigits2 num - Zdigits2 den - e) in *.
  assert (Hlow : 2 ^ (k - 1) <= num * 2 ^ (- e) / den).
  { apply Z.div_le_lower_bound; [done|]. apply Z.le_trans with (2 ^ Zdigits2 den * 2 ^ (k - 1)).
    - apply Z.mul_le_mono_nonneg_r; [apply Z.pow_nonneg|]; lia.
    - rewrite <- Z.pow_add_r by lia. replace (Zdigits2 den + (k - 1)) with (Zdigits2 num - 1 + - e) by lia.
      rewrite Z.pow_add_r by lia. nia. }
  destruct (Z_le_gt_dec k (Zdigits2 (num * 2 ^ (- e) / den))) as [|Hk]; [done|]. exfalso.
  assert (0 < 2 ^ (k - 1)) by (apply Z.pow_pos_nonneg; lia).
  pose proof (digits2_bounds (num * 2 ^ (- e) / den) ltac:(lia)) as [_ Hup].
  assert (2 ^ Zdigits2 (num * 2 ^ (- e) / den) <= 2 ^ (k - 1)) by (apply Z.pow_le_mono_r; lia). lia.
Qed.

Lemma scale_round_valid neg base m e : 0 <= m -> 0 < base -> is_double (scale_round neg base m e).1.
Proof.
  intros Hm Hb. unfold scale_round. destruct (Z.eqb_spec m 0); [done|].
  destruct (1100 <? e); [done|]. destruct (e <? _); [done|]. unfold round_erange.
  destruct (Z.leb_spec 0 e); cbn [fst].
  - assert (0 < base ^ e) by (apply Z.pow_pos_nonneg; lia). apply round_quotient_valid; nia.
  - apply round_quotient_valid; [lia|apply Z.pow_pos_nonneg; lia].
Qed.

Lemma read_mantissa_digits p s : let '(ip, fp, _) := read_mantissa p s in
  Forall (fun c => p c = true) (ip ++ fp).
Proof.
  unfold read_mantissa. pose proof (span_spec p s) as Hs. destruct (span p s) as [ip s1]. destruct Hs as (_ & Hip & _).
  assert (Hnil : Forall (fun c => p c = true) (ip ++ [])) by (by rewrite app_nil_r).
  destruct s1 as [|c s1]; [done|]. destruct (decide (c = 46)) as [->|Hc].
  - pose proof (span_spec p s1) as Hs1. destruct (span p s1) as [fp rest]. destruct Hs1 as (_ & Hfp & _).
    destruct ip, fp; try done; by apply Forall_app.
  - destruct c as [|q|q]; [exact Hnil| |exact Hnil]. do 7 (try (destruct q as [q|q|]; try exact Hnil)). by destruct Hc.
Qed.

Lemma fold_nonneg (f : Z -> Z) base l acc : 0 <= base -> 0 <= acc -> (forall c, c ∈ l -> 0 <= f c) ->
  0 <= fold_left (fun acc c => base * acc + f c) l acc.
Proof.
  intros Hb. revert acc. induction l as [|c l IH]; intros acc Ha Hf; cbn [fold_left]; [done|].
  apply IH; [|set_solver]. pose proof (Hf c ltac:(set_solver)). nia.
Qed.

Lemma hex_value_nonneg l : Forall (fun c => is_hex c = true) l -> 0 <= hex_value l.
Proof.
  intros Hl. unfold hex_value. apply fold_nonneg; [lia|lia|]. intros c Hc. rewrite Forall_forall in Hl.
  specialize (Hl c Hc). unfold is_hex, hex_digit in *. destruct (isdigit (to_lower c)) eqn:Hd; cbn [default].
  - apply isdigit_true in Hd. cbn. lia.
  - destruct (_ && _) eqn:Hx; [|done]. cbn. lia.
Qed.

(** What [std::stod] returns is a double. *)
Lemma stod_valid s a : stod s = Ret a -> is_double a.
Proof.
  assert (Hdec : forall neg s r, strtod_decimal neg s = Some r -> is_double r.1).
  { intros neg t r. unfold strtod_decimal. pose proof (read_mantissa_digits isdigit t) as Hm.
    destruct (read_mantissa isdigit t) as [[ip fp] rest].
    assert (Hv : is_double (scale_round neg 10 (dec_value (ip ++ fp)) (read_exponent 101 rest - Z.of_nat (length fp))).1).
    { apply scale_round_valid; [|lia]. apply dec_value_bound. eapply Forall_impl; [exact Hm|]. intros c Hc. by apply isdigit_true. }
    by destruct ip, fp; intros [= <-]. }
  assert (Hhex : forall neg s r, strtod_hex neg s = Some r -> is_double r.1).
  { intros neg t r. unfold strtod_hex. pose proof (read_mantissa_digits is_hex t) as Hm.
    destruct (read_mantissa is_hex t) as [[ip fp] rest].
    assert (Hv : is_double (scale_round neg 2 (hex_value (ip ++ fp)) (read_exponent 112 rest - 4 * Z.of_nat (length fp))).1).
    { apply scale_round_valid; [|lia]. by apply hex_value_nonneg. }
    by destruct ip, fp; intros [= <-]. }
  unfold stod. destruct (strtod s) as [[d e]|] eqn:Hs; [|done]. destruct e; [done|]. intros [= <-].
  change d with (d, false).1. revert Hs. generalize (d, false). intros r. unfold strtod.
  destruct (span isspace s) as [ws s1]. destruct (match s1 with 45 :: t => _ | _ => _ end) as [neg s2].
  destruct (strip_prefix (str "inf") s2); [by intros [= <-]|]. destruct (strip_prefix (str "nan") s2); [by intros [= <-]|].
  destruct (strip_prefix (str "0x") s2) as [h|]; [|by apply Hdec].
  destruct (strtod_hex neg h) eqn:Hh; [intros [= <-]; by eapply Hhex|by apply Hdec].
Qed.
