(* ===== verification/DtoaRoundtrip.v ===== *)
(** * Printed doubles are read back exactly

    The text of [dtoa] (dtoa.h), read by a correctly rounding [strtod], gives
    the double that was printed; it fits the 25 bytes the writer reserves. *)
From S2P Require Import Prelude Decimal Itoa Types Doubles Ieee754 DiyFp Dtoa Grisu Rounding.
From Stdlib Require Import SpecFloat.

(** ** Numbers in the interval *)
Lemma in_interval_shift m e V X z :
  0 <= z -> in_interval m e V X -> in_interval m e (V * 10 ^ z) (X - z).
Proof.
  unfold in_interval, bin_lt_dec, dec_lt_bin. intros Hz [Hlo Hup]. split.
  - apply (rescale_lower _ _ (Z.max 0 (e - 2)) (Z.max 0 (- (e - 2)))
             (z + Z.max 0 (- X)) (Z.max 0 X)); [lia.. |].
    rewrite Z.pow_add_r by lia. apply (Z.mul_lt_mono_pos_r (10 ^ z)) in Hlo;
      [|apply Z.pow_pos_nonneg; lia]. by_ring_lt Hlo.
  - apply (rescale_upper _ _ (Z.max 0 (e - 2)) (Z.max 0 (- (e - 2)))
             (z + Z.max 0 (- X)) (Z.max 0 X)); [lia.. |].
    rewrite Z.pow_add_r by lia. apply (Z.mul_lt_mono_pos_r (10 ^ z)) in Hup;
      [|apply Z.pow_pos_nonneg; lia]. by_ring_lt Hup.
Qed.

(** The position of the decimal point is between -323 and 309. *)
Lemma point_lower m e l X :
  finite_positive m e -> is_digits l -> in_interval (Zpos m) e (dec_value l) X -> -324 < sizeZ l + X.
Proof.
  intros Hd%is_double_finite Hl [Hlo _]. unfold bin_lt_dec in Hlo.
  destruct (Z.lt_ge_cases (-324) (sizeZ l + X)) as [|Hle]; [done|]. exfalso. revert Hlo. apply Z.le_ngt.
  pose proof (dec_value_bound l Hl) as Hv. fold (sizeZ l) in Hv.
  assert (Hs : 0 <= sizeZ l) by (unfold sizeZ; lia).
  replace (Z.max 0 X) with 0 by lia. rewrite Z.mul_1_r. replace (Z.max 0 (- X)) with (- X) by lia.
  pose proof (quarters_bound (Zpos m)).
  assert (H10 : 10 ^ (sizeZ l) * 10 ^ 324 <= 10 ^ (- X))
    by (rewrite <- Z.pow_add_r by lia; apply Z.pow_le_mono_r; lia).
  assert (H2 : 2 ^ Z.max 0 (- (e - 2)) <= 2 * 2 ^ Z.max 0 (e - 2) * 10 ^ 324).
  { destruct (Z.le_ge_cases 0 (e - 2)).
    - replace (Z.max 0 (- (e - 2))) with 0 by lia.
      assert (0 < 2 ^ Z.max 0 (e - 2)) by (apply Z.pow_pos_nonneg; lia). lia.
    - replace (Z.max 0 (e - 2)) with 0 by lia. apply Z.le_trans with (2 ^ 1076); [|by vm_compute].
      apply Z.pow_le_mono_r; lia. }
  set (p := 2 ^ Z.max 0 (e - 2)) in *. assert (Hp : 0 < p) by (apply Z.pow_pos_nonneg; lia).
  apply Z.le_trans with (10 ^ sizeZ l * (2 * p * 10 ^ 324)).
  - apply Z.mul_le_mono_nonneg; [lia | lia | apply Z.pow_nonneg; lia | done].
  - apply Z.le_trans with (2 * p * (10 ^ sizeZ l * 10 ^ 324)); [apply Z.eq_le_incl; ring|].
    apply Z.mul_le_mono_nonneg; [lia | nia | apply Z.mul_nonneg_nonneg; apply Z.pow_nonneg; lia | done].
Qed.

Lemma point_upper m e l X :
  finite_positive m e -> leading l -> in_interval (Zpos m) e (dec_value l) X -> sizeZ l + X <= 309.
Proof.
  intros Hd%is_double_finite Hl [_ Hup]. unfold dec_lt_bin in Hup.
  destruct (Z.le_gt_cases (sizeZ l + X) 309) as [|Hgt]; [done|]. exfalso. revert Hup. apply Z.le_ngt.
  pose proof (leading_value l Hl) as Hv.
  assert (Hs : 1 <= sizeZ l) by (unfold sizeZ; destruct Hl as [_ Hl], l; simpl; [done | lia]).
  assert (H10 : 10 ^ Z.max 0 (- X) * 10 ^ 309 <= 10 ^ (sizeZ l - 1) * 10 ^ Z.max 0 X)
    by (rewrite <- !Z.pow_add_r by lia; apply Z.pow_le_mono_r; lia).
  assert (H2 : 2 ^ Z.max 0 (e - 2) <= 2 ^ 969) by (apply Z.pow_le_mono_r; lia).
  assert (Hbig : (4 * Zpos m + 2) * 2 ^ 969 <= 10 ^ 309).
  { apply Z.le_trans with (2 ^ 55 * 2 ^ 969); [apply Z.mul_le_mono_nonneg_r; [by vm_compute | lia]|].
    by vm_compute. }
  assert (Hx : 0 <= 10 ^ Z.max 0 (- X)) by (apply Z.pow_nonneg; lia).
  assert (Hx' : 0 <= 10 ^ Z.max 0 X) by (apply Z.pow_nonneg; lia).
  assert (H1 : 1 <= 2 ^ Z.max 0 (- (e - 2)))
    by (cut (0 < 2 ^ Z.max 0 (- (e - 2))); [lia | apply Z.pow_pos_nonneg; lia]).
  apply Z.le_trans with (10 ^ 309 * 10 ^ Z.max 0 (- X)).
  - apply Z.mul_le_mono_nonneg_r; [done|]. eapply Z.le_trans; [|exact Hbig].
    apply Z.mul_le_mono_nonneg_l; [lia | done].
  - rewrite Z.mul_comm. eapply Z.le_trans; [exact H10|].
    apply Z.le_trans with (dec_value l * 10 ^ Z.max 0 X); [by apply Z.mul_le_mono_nonneg_r|].
    assert (0 <= 10 ^ (sizeZ l - 1)) by (apply Z.pow_nonneg; lia).
    assert (0 <= dec_value l * 10 ^ Z.max 0 X) by (apply Z.mul_nonneg_nonneg; lia). nia.
Qed.

(** ** Rounding a decimal number of the interval *)
Definition is_normal (m : positive) : bool := 2 ^ 52 <=? Zpos m.

Lemma round_erange_finite neg m e num den :
  round_quotient neg num den = S754_finite neg m e ->
  exists erange, round_erange neg num den = (S754_finite neg m e, erange) /\
    (is_normal m = true -> erange = false).
Proof.
  intros Hr. unfold round_erange. rewrite Hr. eexists. split; [done|]. intros Hn.
  cbn [is_infinite is_subnormal_or_zero orb]. unfold is_normal in Hn.
  assert ((Zpos (digits2_pos m) <? dprec) = false) as ->; [|done].
  apply Z.ltb_ge. unfold dprec. pose proof (digits2_pos_bounds m) as Hb.
  destruct (Z.le_gt_cases 53 (Zpos (digits2_pos m))) as [|Hlt]; [done|].
  assert (2 ^ Zpos (digits2_pos m) <= 2 ^ 52) by (apply Z.pow_le_mono_r; lia). lia.
Qed.

Lemma is_normal_digits m : dprec <= Zpos (digits2_pos m) -> is_normal m = true.
Proof.
  intros Hd. apply Z.leb_le. pose proof (digits2_pos_bounds m) as Hb. unfold dprec in Hd.
  assert (2 ^ 52 <= 2 ^ (Zpos (digits2_pos m) - 1)) by (apply Z.pow_le_mono_r; lia). lia.
Qed.

Lemma scale_round_interval neg m e V X :
  finite_positive m e -> 0 < V -> -1100 <= X <= 1100 -> in_interval (Zpos m) e V X ->
  exists erange, scale_round neg 10 V X = (S754_finite neg m e, erange) /\
    (is_normal m = true -> erange = false).
Proof.
  intros Hd HV HX [Hlo Hup]. unfold scale_round.
  replace (V =? 0) with false by lia. replace (1100 <? X) with false by lia.
  rewrite (proj2 (Z.ltb_ge X (- (1100 + _)))) by (pose proof (Nat2Z.is_nonneg (length (dec V))); lia).
  assert (Hd' : is_double (S754_finite neg m e)) by (apply is_double_finite in Hd; by apply is_double_finite).
  unfold bin_lt_dec in Hlo. unfold dec_lt_bin in Hup.
  assert (0 < 10 ^ Z.max 0 X) by (apply Z.pow_pos_nonneg; lia).
  assert (0 < 10 ^ Z.max 0 (- X)) by (apply Z.pow_pos_nonneg; lia).
  assert (Hr : round_quotient neg (V * 10 ^ Z.max 0 X) (10 ^ Z.max 0 (- X)) = S754_finite neg m e)
    by (apply round_quotient_correct; [nia | done..]).
  destruct (Z.leb_spec 0 X).
  - replace (Z.max 0 X) with X in Hr by lia. replace (Z.max 0 (- X)) with 0 in Hr by lia.
    by apply round_erange_finite.
  - replace (Z.max 0 X) with 0 in Hr by lia. replace (Z.max 0 (- X)) with (- X) in Hr by lia.
    rewrite Z.mul_1_r in Hr. by apply round_erange_finite.
Qed.

(** ** How strtod reads the layouts *)
Lemma span_digits l s : is_digits l -> stops isdigit s -> span isdigit (l ++ s) = (l, s).
Proof.
  intros Hl Hs. apply span_app; [|done]. eapply Forall_impl; [exact Hl|]. intros c. apply isdigit_true.
Qed.

Lemma read_mantissa_point ip fp rest :
  is_digits ip -> ip <> [] -> is_digits fp -> stops isdigit rest ->
  read_mantissa isdigit (ip ++ [46] ++ fp ++ rest) = (ip, fp, rest).
Proof.
  intros Hip Hne Hfp Hrest. unfold read_mantissa. rewrite span_digits by done.
  cbn [app]. rewrite span_digits by done. by destruct ip.
Qed.

Lemma read_mantissa_plain ip c rest :
  is_digits ip -> isdigit c = false -> c <> 46 ->
  read_mantissa isdigit (ip ++ c :: rest) = (ip, [], c :: rest).
Proof.
  intros Hip Hc Hc46. unfold read_mantissa. rewrite span_digits by done.
  destruct c as [|p|p]; try done. do 6 (destruct p as [p|p|]; try done).
Qed.

(** A number that starts with a digit and is not "0x...". *)
Definition plain (s : list Z) : Prop :=
  match s with
  | c :: s' => 48 <= c <= 57 /\ (c <> 48 \/ match s' with c' :: _ => to_lower c' <> 120 | [] => True end)
  | [] => False
  end.

Lemma strtod_plain s : plain s -> strtod s = strtod_decimal false s /\ strtod (45 :: s) = strtod_decimal true s.
Proof.
  destruct s as [|c s]; [done|]. intros [Hc Hx].
  assert (Hsp : isspace c = false) by (unfold isspace; lia).
  assert (Hlow : to_lower c = c) by (unfold to_lower; by replace (65 <=? c) with false by lia).
  assert (Hinf : strip_prefix (str "inf") (c :: s) = None)
    by (change (str "inf") with [105; 110; 102]; cbn [strip_prefix]; rewrite Hlow;
        by replace (c =? 105) with false by lia).
  assert (Hnan : strip_prefix (str "nan") (c :: s) = None)
    by (change (str "nan") with [110; 97; 110]; cbn [strip_prefix]; rewrite Hlow;
        by replace (c =? 110) with false by lia).
  assert (H0x : strip_prefix (str "0x") (c :: s) = None).
  { change (str "0x") with [48; 120]. cbn [strip_prefix]. rewrite Hlow. destruct (Z.eqb_spec c 48); [|done]. destruct s as [|c' s]; [done|].
    destruct Hx as [Hx | Hx]; [done|]. by replace (to_lower c' =? 120) with false by lia. }
  unfold strtod. cbn [span]. rewrite Hsp. change (isspace 45) with false. cbv iota.
  assert (Hcase : exists p, c = Zpos p /\ (p = 48 \/ p = 49 \/ p = 50 \/ p = 51 \/ p = 52 \/ p = 53 \/
                    p = 54 \/ p = 55 \/ p = 56 \/ p = 57)%positive).
  { exists (Z.to_pos c). lia. }
  split.
  - destruct Hcase as (p & -> & Hp). destruct_or! Hp; subst p; cbv iota; by rewrite Hinf, Hnan, H0x.
  - by rewrite Hinf, Hnan, H0x.
Qed.

(** ** The layouts of Prettify *)
Lemma shl_mul2 k : k * 2 = Z.shiftl k 1.
Proof. by rewrite Z.shiftl_mul_pow2 by lia. Qed.

Lemma WriteExponent_dec K :
  -1000 < K < 1000 -> WriteExponent K = Ret ((if K <? 0 then [45] else []) ++ dec (Z.abs K)).
Proof.
  intros HK. unfold WriteExponent.
  replace (if K <? 0 then - K else K) with (Z.abs K) by (destruct (Z.ltb_spec K 0); lia).
  set (k := Z.abs K). assert (Hk : 0 <= k < 1000) by lia.
  enough (Hd : (if 100 <=? k then
      let* d := digits [(true, k mod 100 * 2); (true, k mod 100 * 2 + 1)] in Ret ((48 + k / 100) :: d)
    else if 10 <=? k then digits [(true, k * 2); (true, k * 2 + 1)] else Ret [48 + k]) = Ret (dec k))
    by (by rewrite Hd).
  rewrite !shl_mul2. destruct (Z.leb_spec 100 k).
  - pose proof (Z.div_mod k 100 ltac:(lia)). pose proof (Z.mod_pos_bound k 100 ltac:(lia)).
    split_pair (k mod 100). erewrite digits_put; [|eassumption|run_digits]. cbn [bind]. f_equal. solve_canonical.
  - destruct (Z.leb_spec 10 k); [apply pair_dec; lia | by rewrite dec_small by lia].
Qed.

Lemma span_all l : is_digits l -> span isdigit l = (l, []).
Proof. intros Hl. rewrite <- (app_nil_r l) at 1. by apply span_digits. Qed.

Lemma read_exponent_written K :
  -1000 < K < 1000 ->
  read_exponent 101 (101 :: (if K <? 0 then [45] else []) ++ dec (Z.abs K)) = K.
Proof.
  intros HK. cbn [read_exponent]. change (to_lower 101 =? 101) with true. cbv iota.
  assert (Hd := dec_digits (Z.abs K) ltac:(lia)).
  destruct (Z.ltb_spec K 0); cbn [app].
  - rewrite span_all by done. rewrite dec_value_dec; lia.
  - destruct (dec (Z.abs K)) as [|c t] eqn:Hdec.
    + assert (Hv := dec_value_dec (Z.abs K) ltac:(lia)). rewrite Hdec in Hv. unfold dec_value in Hv.
      simpl in Hv. assert (K = 0) as -> by lia. discriminate Hdec.
    + assert (Hc : 48 <= c <= 57) by (by apply Forall_cons in Hd as [? _]).
      replace (match c :: t with 45 :: t0 => (true, t0) | 43 :: t0 => (false, t0) | _ => (false, c :: t) end)
        with (false, c :: t).
      * rewrite <- Hdec, span_all by (by rewrite Hdec). rewrite dec_value_dec; lia.
      * destruct c as [|p|p]; try lia. do 6 (destruct p as [p|p|]; try done); lia.
Qed.

(** The text is read as [V * 10^X], under either sign. *)
Definition reads (text : list Z) (V X : Z) : Prop :=
  plain text /\ forall neg, strtod_decimal neg text = Some (scale_round neg 10 V X).

Lemma reads_point ip fp rest :
  is_digits ip -> is_digits fp -> stops isdigit rest ->
  match ip with c :: ip' => c <> 48 \/ ip' = [] | [] => False end ->
  reads (ip ++ [46] ++ fp ++ rest) (dec_value (ip ++ fp)) (read_exponent 101 rest - sizeZ fp).
Proof.
  intros Hip Hfp Hrest Hfirst. destruct ip as [|c ip]; [done|]. split.
  - apply Forall_cons in Hip as [Hc Hip]. split; [done|]. destruct Hfirst as [Hf | ->]; [by left | by right].
  - intros neg. unfold strtod_decimal. by rewrite read_mantissa_point.
Qed.

Lemma reads_exponent l rest :
  leading l -> reads (l ++ 101 :: rest) (dec_value l) (read_exponent 101 (101 :: rest)).
Proof.
  intros [Hd Hl]. destruct l as [|c l]; [done|]. split.
  - apply Forall_cons in Hd as [Hc _]. split; [done | by left].
  - intros neg. unfold strtod_decimal. rewrite read_mantissa_plain by done.
    rewrite app_nil_r. by rewrite Z.sub_0_r.
Qed.

Lemma dec_value_pad l k : dec_value (l ++ replicate k 48) = dec_value l * 10 ^ Z.of_nat k.
Proof. rewrite dec_value_app, length_replicate, dec_value_zeros. lia. Qed.

Lemma is_digits_zeros k : is_digits (replicate k 48).
Proof. apply Forall_replicate. lia. Qed.

Lemma dec_value_lead0 k l : dec_value (replicate k 48 ++ l) = dec_value l.
Proof. rewrite dec_value_app, dec_value_zeros. lia. Qed.

Lemma leading_size l : leading l -> 1 <= sizeZ l.
Proof. intros [_ Hl]. unfold sizeZ. destruct l; simpl; [done | lia]. Qed.

(** [1234e7 -> 12340000000.0] *)
Lemma reads_integer l k :
  leading l -> reads (l ++ replicate k 48 ++ str ".0") (dec_value l * 10 ^ (Z.of_nat k + 1)) (-1).
Proof.
  intros Hl. pose proof (reads_point (l ++ replicate k 48) [48] []) as H.
  replace (dec_value l * 10 ^ (Z.of_nat k + 1)) with (dec_value ((l ++ replicate k 48) ++ [48])).
  - rewrite app_assoc. apply H; [|by apply is_digits_one | done |].
    + apply is_digits_app. split; [apply Hl | apply is_digits_zeros].
    + destruct Hl as [_ Hl], l as [|c l]; [done|]. by left.
  - rewrite dec_value_app, dec_value_pad, Z.pow_add_r by lia. unfold dec_value. simpl. lia.
Qed.

(** [1234e-2 -> 12.34] *)
Lemma reads_split l k :
  leading l -> 0 < k <= sizeZ l ->
  reads (take (Z.to_nat k) l ++ [46] ++ drop (Z.to_nat k) l) (dec_value l) (k - sizeZ l).
Proof.
  intros [Hd Hl] Hk. unfold sizeZ in *.
  pose proof (reads_point (take (Z.to_nat k) l) (drop (Z.to_nat k) l) []) as H.
  rewrite app_nil_r, take_drop in H.
  replace (read_exponent 101 [] - sizeZ (drop (Z.to_nat k) l)) with (k - Z.of_nat (length l)) in H
    by (unfold sizeZ; rewrite length_drop; cbn [read_exponent]; lia).
  apply H; [by apply Forall_take | by apply Forall_drop | done |].
  destruct (Z.to_nat k) eqn:Hk0; [lia|]. destruct l; [done|]. by left.
Qed.

(** [1234e-6 -> 0.001234] *)
Lemma reads_small l k :
  is_digits l -> reads (str "0." ++ replicate k 48 ++ l) (dec_value l) (- (Z.of_nat k + sizeZ l)).
Proof.
  intros Hd. pose proof (reads_point [48] (replicate k 48 ++ l) []) as H.
  rewrite app_nil_r in H. replace (dec_value ([48] ++ replicate k 48 ++ l)) with (dec_value l) in H
    by (rewrite dec_value_app, dec_value_lead0; change (dec_value [48]) with 0; lia).
  replace (read_exponent 101 [] - sizeZ (replicate k 48 ++ l)) with (- (Z.of_nat k + sizeZ l)) in H
    by (unfold sizeZ; rewrite length_app, length_replicate; cbn [read_exponent]; lia).
  apply H; [by apply is_digits_one | | done | by right].
  apply is_digits_app. split; [apply is_digits_zeros | done].
Qed.

(** [1234e30 -> 1.234e33] *)
Lemma reads_scientific l K :
  leading l -> -1000 < K < 1000 ->
  let ex := (if K <? 0 then [45] else []) ++ dec (Z.abs K) in
  reads (if sizeZ l =? 1 then l ++ [101] ++ ex else take 1 l ++ [46] ++ drop 1 l ++ [101] ++ ex)
    (dec_value l) (K - (sizeZ l - 1)).
Proof.
  intros Hl HK ex. pose proof (read_exponent_written K HK) as Hex. fold ex in Hex.
  destruct (Z.eqb_spec (sizeZ l) 1) as [Hs | Hs].
  - pose proof (reads_exponent l ex Hl) as H. rewrite Hex in H. rewrite Hs, Z.sub_0_r. exact H.
  - destruct Hl as [Hd Hl]. destruct l as [|c l]; [done|].
    pose proof (reads_point [c] l (101 :: ex)) as H. rewrite Hex in H. unfold sizeZ in *.
    replace (K - Z.of_nat (length l)) with (K - (Z.of_nat (length (c :: l)) - 1)) in H by (simpl; lia).
    apply Forall_cons in Hd as [Hc Hd]. apply H; [by apply is_digits_one | done | done | by left].
Qed.

(** Every layout reads as the digits' number, some zeros possibly moved from
    the exponent into the digits, and is at most 24 bytes long. *)
Lemma Prettify_reads l X :
  leading l -> sizeZ l <= 17 -> -324 < sizeZ l + X <= 309 ->
  exists text z, Prettify l X kDefaultMaxDecimalPlaces = Ret text /\ sizeZ text <= 24 /\
    0 <= z <= 22 /\ reads text (dec_value l * 10 ^ z) (X - z).
Proof.
  intros Hl Hlen Hkk. unfold Prettify, kDefaultMaxDecimalPlaces.
  pose proof (leading_size l Hl) as Hs1. set (kk := sizeZ l + X) in *.
  destruct ((0 <=? X) && (kk <=? 21)) eqn:Hcase1.
  { apply andb_true_iff in Hcase1 as [H1 H2]. eexists _, (X + 1). split; [done|].
    split_and!; [|lia | lia |].
    - unfold sizeZ in *. rewrite !length_app, length_replicate. simpl. lia.
    - pose proof (reads_integer l (Z.to_nat (kk - sizeZ l)) Hl) as H.
      replace (Z.of_nat (Z.to_nat (kk - sizeZ l)) + 1) with (X + 1) in H by lia.
      replace (X - (X + 1)) with (-1) by lia. exact H. }
  destruct ((0 <? kk) && (kk <=? 21)) eqn:Hcase2.
  { replace (0 >? X + 324) with false by lia. eexists _, 0. split; [done|].
    rewrite Z.mul_1_r. replace (X - 0) with (kk - sizeZ l) by lia.
    split_and!; [|lia | lia | apply reads_split; [done | lia]].
    unfold sizeZ in *. rewrite !length_app, length_take, length_drop. simpl. lia. }
  destruct ((-6 <? kk) && (kk <=? 0)) eqn:Hcase3.
  { replace (sizeZ l - kk >? 324) with false by lia. eexists _, 0. split; [done|].
    rewrite Z.mul_1_r. split_and!; [|lia | lia |].
    - unfold sizeZ in *. rewrite !length_app, length_replicate. simpl. lia.
    - pose proof (reads_small l (Z.to_nat (2 - kk - 2)) (proj1 Hl)) as H.
      replace (- (Z.of_nat (Z.to_nat (2 - kk - 2)) + sizeZ l)) with (X - 0) in H by lia. exact H. }
  replace (kk <? - (324)) with false by lia. rewrite WriteExponent_dec by lia. cbn [bind].
  pose proof (reads_scientific l (kk - 1) Hl ltac:(lia)) as H. cbv zeta in H.
  replace (kk - 1 - (sizeZ l - 1)) with (X - 0) in H by lia.
  assert (Hex : (length (dec (Z.abs (kk - 1))) <= 3)%nat) by (apply dec_length_upper; simpl; lia).
  destruct (sizeZ l =? 1); (eexists _, 0; split; [reflexivity|]; rewrite Z.mul_1_r; split_and!; [|lia | lia | exact H]);
    unfold sizeZ in *; rewrite !length_app, ?length_take, ?length_drop;
    destruct (kk - 1 <? 0); cbn [length]; lia.
Qed.

(** ** The theorem *)
Lemma strtod_signed neg text :
  plain text -> strtod ((if neg : bool then [45] else []) ++ text) = strtod_decimal neg text.
Proof. intros Hp. destruct (strtod_plain text Hp). by destruct neg. Qed.

Lemma dtoa_finite s m e :
  is_double (S754_finite s m e) ->
  dtoa (S754_finite s m e) kDefaultMaxDecimalPlaces =
  let* (buffer, K) := Grisu2 (S754_finite false m e) in
  let* text := Prettify buffer K kDefaultMaxDecimalPlaces in
  Ret ((if s then [45] else []) ++ text).
Proof.
  intros Hd. unfold dtoa. change (kDefaultMaxDecimalPlaces <? 1) with false. cbv iota.
  destruct (bits_of_finite _ _ _ Hd) as (be & f & Hb & Hbe & Hf & Hcase).
  assert (Double.IsZero (bits_of_double (S754_finite s m e)) = false) as ->.
  { unfold Double.IsZero. rewrite Hb, Z.land_lor_distr_r.
    fold (Double.Significand (word (Z.b2z s) be f)).
    rewrite word_exponent_field, word_significand by (apply b2z_range || lia).
    apply Z.eqb_neq. intros [? ?]%Z.lor_eq_0_iff. lia. }
  by destruct s.
Qed.

Lemma dtoa_reads (d : double) :
  is_double d -> is_finite d = true ->
  exists text erange, dtoa d kDefaultMaxDecimalPlaces = Ret text /\
    sizeZ text <= 25 /\ strtod text = Some (d, erange) /\
    (is_subnormal_or_zero d = false -> stod text = Ret d).
Proof.
  intros Hd Hfin. destruct d as [s| | |s m e]; [|done..|].
  { exists ((if s then [45] else []) ++ str "0.0"), false. by destruct s; vm_compute. }
  assert (Hd' : finite_positive m e)
    by (apply is_double_finite in Hd; by apply is_double_finite).
  rewrite dtoa_finite by done. destruct (Grisu2_correct m e Hd') as (l & X & -> & Hl & Hlen & Hin).
  cbn [bind]. pose proof (point_lower m e l X Hd' (proj1 Hl) Hin).
  pose proof (point_upper m e l X Hd' Hl Hin). pose proof (leading_size l Hl).
  destruct (Prettify_reads l X Hl Hlen ltac:(lia)) as (text & z & -> & Hsize & Hz & Hplain & Hdec).
  cbn [bind]. apply (in_interval_shift _ _ _ _ z) in Hin; [|lia]. pose proof (leading_pos l Hl).
  assert (Hpos : 0 < dec_value l * 10 ^ z) by (apply Z.mul_pos_pos; [lia | apply Z.pow_pos_nonneg; lia]).
  destruct (scale_round_interval s m e _ (X - z) Hd' Hpos ltac:(lia) Hin) as (er & Hsc & Her).
  eexists _, er. split; [done|]. unfold stod. rewrite strtod_signed, Hdec, Hsc by done. split_and!.
  - unfold sizeZ in *. rewrite length_app. destruct s; simpl; lia.
  - done.
  - intros Hn. rewrite Her; [done|]. cbn [is_subnormal_or_zero] in Hn.
    apply is_normal_digits. apply Z.ltb_ge in Hn. done.
Qed.

Lemma dtoa_text d :
  is_double d -> is_finite d = true ->
  exists text, dtoa d kDefaultMaxDecimalPlaces = Ret text /\ sizeZ text <= 25.
Proof. intros Hd Hf. destruct (dtoa_reads d Hd Hf) as (text & _ & H1 & H2 & _). by exists text. Qed.

(** No character printed is a NUL. *)
Definition no_nul (l : list Z) : Prop := Forall (fun c => c <> 0) l.

Lemma digits_no_zero l : is_digits l -> no_nul l.
Proof. intros Hl. apply (Forall_impl _ _ _ Hl). lia. Qed.

Lemma cut_zeros_no_nul buffer lo n text : no_nul buffer -> cut_zeros buffer lo n = Ret text -> no_nul text.
Proof.
  intros Hb. induction n as [|n IH]; cbn [cut_zeros]; intros Ht; [simplify_eq; by apply Forall_take|].
  apply bind_Ret in Ht as (c & _ & Ht). destruct (negb _); [simplify_eq; by apply Forall_take | by apply IH].
Qed.

Lemma WriteExponent_no_nul K text : -1000 < K < 1000 -> WriteExponent K = Ret text -> no_nul text.
Proof.
  intros HK Ht. rewrite WriteExponent_dec in Ht by done. simplify_eq. apply Forall_app. split.
  - destruct (K <? 0); [apply List.Forall_cons; [lia|]|]; apply List.Forall_nil.
  - apply digits_no_zero, dec_digits. lia.
Qed.

Ltac no_nul_parts :=
  repeat first [ assumption | apply Forall_app_2 | apply Forall_take | apply Forall_drop | apply Forall_replicate
               | apply List.Forall_nil | apply List.Forall_cons ]; try (vm_compute; congruence).

Lemma Prettify_no_nul l X m text :
  is_digits l -> -999 < sizeZ l + X < 1000 -> Prettify l X m = Ret text -> no_nul text.
Proof.
  intros Hl%digits_no_zero HX. unfold Prettify. unfold no_nul in Hl |- *.
  destruct ((0 <=? X) && _); [intros Ht; simplify_eq; no_nul_parts|].
  destruct ((0 <? sizeZ l + X) && _).
  { destruct (0 >? _); intros Ht; [eapply cut_zeros_no_nul; [|exact Ht] | simplify_eq]; unfold no_nul; no_nul_parts. }
  destruct ((-6 <? sizeZ l + X) && _).
  { destruct (_ >? _); intros Ht; [eapply cut_zeros_no_nul; [|exact Ht] | simplify_eq]; unfold no_nul; no_nul_parts. }
  destruct (sizeZ l + X <? - m); [intros Ht; simplify_eq; no_nul_parts|].
  destruct (sizeZ l =? 1); intros Ht; apply bind_Ret in Ht as (ex & Hex%WriteExponent_no_nul & Ht); try lia;
    simplify_eq; no_nul_parts.
Qed.

Lemma dtoa_no_nul d text :
  is_double d -> is_finite d = true -> dtoa d kDefaultMaxDecimalPlaces = Ret text -> no_nul text.
Proof.
  intros Hd Hfin. destruct d as [s| | |s m e]; try discriminate Hfin.
  { intros Ht. assert (text = (if s then [45] else []) ++ str "0.0") as -> by (destruct s; vm_compute in Ht; by injection Ht as <-).
    destruct s; repeat constructor; done. }
  assert (Hd' : finite_positive m e) by (apply is_double_finite in Hd; by apply is_double_finite).
  rewrite dtoa_finite by done. destruct (Grisu2_correct m e Hd') as (l & X & -> & Hl & Hlen & Hin). cbn [bind].
  pose proof (point_lower m e l X Hd' (proj1 Hl) Hin). pose proof (point_upper m e l X Hd' Hl Hin).
  intros Ht. apply bind_Ret in Ht as (t & Ht & Heq). apply Prettify_no_nul in Ht; [|apply Hl | lia]. simplify_eq.
  apply Forall_app. split; [|done]. destruct s; [apply List.Forall_cons; [lia|]|]; apply List.Forall_nil.
Qed.

(** C33. What [dtoa] prints for a finite double is read back as the same
    double by a correctly rounding [strtod], the sign of a zero included; it
    always terminates, the text fits the 25 bytes reserved for it, and
    [std::stod] does not throw unless the double is subnormal. *)
Theorem dtoa_roundtrip (d : double) :
  is_double d -> is_finite d = true ->
  exists text erange, dtoa d kDefaultMaxDecimalPlaces = Ret text /\
    sizeZ text <= 25 /\ strtod text = Some (d, erange) /\
    (is_subnormal_or_zero d = false -> stod text = Ret d).
Proof. exact (dtoa_reads d). Qed.

Lemma dtoa_roundtrip_witness :
  exists text erange,
    dtoa (S754_finite false 0x13E66666666666 (-48)) kDefaultMaxDecimalPlaces = Ret text /\
    sizeZ text <= 25 /\ strtod text = Some (S754_finite false 0x13E66666666666 (-48), erange) /\
    (is_subnormal_or_zero (S754_finite false 0x13E66666666666 (-48)) = false ->
     stod text = Ret (S754_finite false 0x13E66666666666 (-48))).
Proof. apply dtoa_roundtrip; vm_compute; reflexivity. Defined.

Example dtoa_19_9 :
  dtoa (S754_finite false 0x13E66666666666 (-48)) kDefaultMaxDecimalPlaces = Ret (str "19.9").
Proof. vm_compute. reflexivity. Qed.

Example dtoa_min : dtoa (S754_finite false 1 (-1074)) kDefaultMaxDecimalPlaces = Ret (str "5e-324").
Proof. vm_compute. reflexivity. Qed.
