(* ===== verification/Strtod.v ===== *)
(** * Decimal to double, normal precision (internal/pow10.h, internal/strtod.h)

    The conversion the parser uses by default: the significand as a double,
    multiplied or divided by a power of ten from a table.  Two roundings happen
    in general; inside the range of the fast path only one does, and the result
    is the correctly rounded one. *)
From S2P Require Import Prelude Decimal Types Doubles Ieee754 Rounding.
From Stdlib Require Import SpecFloat.

(** ** Pow10: the literals 1e+0 to 1e+308, each the nearest double. *)
Definition pow10_table : list double := (fun n => round_quotient false (10 ^ n) 1) <$> seqZ 0 309.

Definition Pow10 (n : Z) : outcome double :=
  if (0 <=? n) && (n <=? 308) then lookupZ pow10_table n else Undefined AssertionFailed.

Definition FastPath (significand : double) (exp : Z) : outcome double :=
  if exp <? -308 then Ret dzero
  else if 0 <=? exp then let* e := Pow10 exp in Ret (dmul significand e)
  else let* e := Pow10 (- exp) in Ret (ddiv significand e).

Definition StrtodNormalPrecision (d : double) (p : Z) : outcome double :=
  if p <? -308 then
    let* d := FastPath d (-308) in
    FastPath d (p + 308)
  else FastPath d p.

(** ** Totality *)
Lemma Pow10_entry n : 0 <= n <= 308 -> Pow10 n = Ret (round_quotient false (10 ^ n) 1).
Proof.
  intros Hn. unfold Pow10. replace ((0 <=? n) && (n <=? 308)) with true by lia.
  apply lookupZ_Ret. split; [lia|]. unfold pow10_table. rewrite list_lookup_fmap, lookup_seqZ_lt by lia.
  cbn [fmap option_fmap option_map]. by replace (0 + Z.of_nat (Z.to_nat n)) with n by lia.
Qed.

Lemma FastPath_total d p : p <= 308 -> exists d', FastPath d p = Ret d'.
Proof.
  intros Hp. unfold FastPath. destruct (Z.ltb_spec p (-308)); [eauto|].
  destruct (Z.leb_spec 0 p); rewrite Pow10_entry by lia; eexists; reflexivity.
Qed.

Lemma StrtodNormalPrecision_total d p : p <= 308 -> exists d', StrtodNormalPrecision d p = Ret d'.
Proof.
  intros Hp. unfold StrtodNormalPrecision. destruct (Z.ltb_spec p (-308)); [|by apply FastPath_total].
  destruct (FastPath_total d (-308)) as (d1 & ->); [lia|]. cbn [bind]. apply FastPath_total. lia.
Qed.

(** ** The fast path *)
Lemma iter_xO d m : Zpos (Pos.iter xO m d) = Zpos m * 2 ^ Zpos d.
Proof. rewrite <- Z.shiftl_mul_pow2 by lia. unfold Z.shiftl. by rewrite (Pos.iter_swap_gen _ _ _ xO (Z.mul 2)). Qed.

(** A positive double [m * 2^e] that stands for the integer [V] exactly. *)
Definition stands_for (d : double) (V : Z) : Prop :=
  exists m e, d = S754_finite false m e /\ 2 ^ 52 <= Zpos m < 2 ^ 53 /\
    Zpos m * 2 ^ Z.max 0 e = V * 2 ^ Z.max 0 (- e) /\ Zdigits2 V = 53 + e.

Lemma binary_round_exact neg m e :
  is_double (S754_finite neg m e) -> binary_round_aux dprec demax neg (Zpos m) e loc_Exact = S754_finite neg m e.
Proof.
  intros Hd. pose proof (round_exact neg m e Hd) as H. unfold binary_round_aux.
  apply is_double_finite in Hd. pose proof (digits2_upper (Zpos m) 53 ltac:(lia) ltac:(lia)).
  rewrite shr_fexp_exact at 1 by (unfold fexp, emin, dprec, demax; lia). exact H.
Qed.

Lemma double_of_Z_stands V : 0 < V < 2 ^ 53 -> stands_for (double_of_Z V) V.
Proof.
  intros HV. destruct V as [|v|v]; try lia.
  pose proof (digits2_bounds (Zpos v) ltac:(lia)) as Hb.
  pose proof (digits2_upper (Zpos v) 53 ltac:(lia) ltac:(lia)) as Hu.
  set (D := Zdigits2 (Zpos v)) in *. assert (0 < D) by (unfold D; simpl; lia).
  assert (exists m, Pos.iter xO v (Z.to_pos (53 - D)) = m) as [m0 Hm0] by eauto.
  assert (Hmul : exists m, Zpos m = Zpos v * 2 ^ (53 - D)).
  { exists (Z.to_pos (Zpos v * 2 ^ (53 - D))). rewrite Z2Pos.id; [done|].
    apply Z.mul_pos_pos; [lia | apply Z.pow_pos_nonneg; lia]. }
  destruct Hmul as [m Hm].
  assert (Hrange : 2 ^ 52 <= Zpos m < 2 ^ 53).
  { replace (2 ^ 53) with (2 ^ D * 2 ^ (53 - D)) by (rewrite <- Z.pow_add_r by lia; f_equal; lia).
    replace (2 ^ 52) with (2 ^ (D - 1) * 2 ^ (53 - D)) by (rewrite <- Z.pow_add_r by lia; f_equal; lia).
    rewrite Hm. assert (0 < 2 ^ (53 - D)) by (apply Z.pow_pos_nonneg; lia). nia. }
  exists m, (D - 53). split; [|split; [exact Hrange|]].
  - unfold double_of_Z, binary_normalize, binary_round.
    change (Zpos (digits2_pos v)) with D. rewrite Z.add_0_r.
    assert (fexp dprec demax D = D - 53) as -> by (unfold fexp, emin, dprec, demax; lia).
    rewrite <- (binary_round_exact false m (D - 53)) by (apply is_double_finite; lia).
    unfold shl_align. rewrite Z.sub_0_r. destruct (D - 53) as [|p|p] eqn:HD; [|lia|].
    + replace (53 - D) with 0 in Hm by lia. rewrite Z.mul_1_r in Hm. by injection Hm as <-.
    + do 2 f_equal. apply (f_equal Z.to_pos) in Hm. rewrite <- (Pos2Z.id m), Hm.
      replace (53 - D) with (Zpos p) by lia. by rewrite <- iter_xO.
  - rewrite Z.max_l, Z.max_r by lia. rewrite Z.mul_1_r, Hm. split; [f_equal; f_equal; lia | lia].
Qed.

Lemma Pow10_stands k : 0 <= k <= 22 -> exists e, Pow10 k = Ret e /\ stands_for e (10 ^ k).
Proof.
  intros Hk. exists (round_quotient false (10 ^ k) 1). split; [apply Pow10_entry; lia|].
  assert (match round_quotient false (10 ^ k) 1 with
          | S754_finite false m e =>
              (2 ^ 52 <=? Zpos m) && (Zpos m <? 2 ^ 53) &&
              (Zpos m * 2 ^ Z.max 0 e =? 10 ^ k * 2 ^ Z.max 0 (- e)) && (Zdigits2 (10 ^ k) =? 53 + e)
          | _ => false end = true) as H.
  { apply (forallb_seqZ (fun k => match round_quotient false (10 ^ k) 1 with
          | S754_finite false m e =>
              (2 ^ 52 <=? Zpos m) && (Zpos m <? 2 ^ 53) &&
              (Zpos m * 2 ^ Z.max 0 e =? 10 ^ k * 2 ^ Z.max 0 (- e)) && (Zdigits2 (10 ^ k) =? 53 + e)
          | _ => false end) 0 23); [vm_compute; reflexivity | lia]. }
  destruct (round_quotient false (10 ^ k) 1) as [| | |[] m e]; try done. exists m, e. split; [done|]. lia.
Qed.

Lemma new_location_scale c n r : 0 < c -> 0 <= r < n -> new_location (c * n) (c * r) = new_location n r.
Proof.
  intros Hc Hr. assert (Hl : forall n r, 0 <= r -> new_location n r =
    if r =? 0 then loc_Exact else loc_Inexact (2 * r ?= n)).
  { clear. intros n r Hr. unfold new_location, new_location_even, new_location_odd.
    destruct (Z.even n) eqn:He; [done|]. destruct (r =? 0); [done|]. f_equal.
    rewrite <- Z.negb_odd, negb_false_iff in He. apply Z.odd_spec in He as [q ->].
    destruct (Z.compare_spec (2 * r + 1) (2 * q + 1)), (Z.compare_spec (2 * r) (2 * q + 1)); done || lia. }
  rewrite !Hl by nia. replace (c * r =? 0) with (r =? 0) by (destruct (Z.eqb_spec r 0), (Z.eqb_spec (c * r) 0); nia || done).
  destruct (r =? 0); [done|]. f_equal. replace (2 * (c * r)) with (c * (2 * r)) by lia.
  destruct (Z.compare_spec (2 * r) n), (Z.compare_spec (c * (2 * r)) (c * n)); done || nia.
Qed.

(** Scaling numerator and denominator does not change quotient and location. *)
Lemma quotient_scale c N D : 0 < c -> 0 < D -> 0 <= N ->
  (c * N) / (c * D) = N / D /\ new_location (c * D) ((c * N) mod (c * D)) = new_location D (N mod D).
Proof.
  intros Hc HD HN. split; [apply Z.div_mul_cancel_l; lia|].
  rewrite Z.mul_mod_distr_l by lia. apply new_location_scale; [done|]. apply Z.mod_pos_bound, HD.
Qed.

Lemma ddiv_stands x y V W :
  stands_for x V -> stands_for y W -> 0 < V < 2 ^ 53 -> 0 < W < 2 ^ 75 ->
  ddiv x y = round_quotient false V W.
Proof.
  intros (mx & ex & -> & Hmx & HV & Hdx) (my & ey & -> & Hmy & HW & Hdy) HVr HWr.
  pose proof (digits2_upper V 53 ltac:(lia) ltac:(lia)). pose proof (digits2_upper W 75 ltac:(lia) ltac:(lia)).
  assert (0 < Zdigits2 W) by (destruct W; simpl; lia). assert (0 < Zdigits2 V) by (destruct V; simpl; lia).
  assert (Zdigits2 (Zpos mx) = 53) as Dx by (apply digits2_unique; lia).
  assert (Zdigits2 (Zpos my) = 53) as Dy by (apply digits2_unique; lia).
  rewrite round_quotient_unfold by lia. cbv zeta.
  assert (div_exponent V W = ex - ey - 53) as HF
    by (unfold div_exponent, fexp, emin, dprec, demax; lia).
  rewrite HF. unfold ddiv, SFdiv, SFdiv_core_binary. rewrite Dx, Dy.
  replace (Z.min (fexp dprec demax (53 + ex - (53 + ey))) (ex - ey)) with (ex - ey - 53)
    by (unfold fexp, emin, dprec, demax; lia).
  replace (ex - ey - (ex - ey - 53)) with 53 by lia. cbv iota. rewrite Z.shiftl_mul_pow2 by lia.
  destruct (Z.div_eucl _ _) as [q r] eqn:Hqr. cbn [xorb].
  assert (q = Zpos mx * 2 ^ 53 / Zpos my) as -> by (unfold Z.div; by rewrite Hqr).
  assert (r = (Zpos mx * 2 ^ 53) mod Zpos my) as -> by (unfold Z.modulo; by rewrite Hqr).
  assert (ex <= 0) by lia. rewrite Z.max_l, Z.max_r, Z.mul_1_r in HV by lia. rewrite HV.
  destruct (Z.le_gt_cases ey 0).
  - rewrite Z.max_l, Z.max_r, Z.mul_1_r in HW by lia. rewrite HW.
    replace (V * 2 ^ (- ex) * 2 ^ 53) with (2 ^ (- ey) * (V * 2 ^ (- (ex - ey - 53)))).
    + rewrite (Z.mul_comm W).
      destruct (quotient_scale (2 ^ (- ey)) (V * 2 ^ (- (ex - ey - 53))) W) as [-> ->]; try done.
      * apply Z.pow_pos_nonneg; lia.
      * lia.
      * apply Z.mul_nonneg_nonneg; [lia | apply Z.pow_nonneg; lia].
    + replace (- (ex - ey - 53)) with (- ex + 53 + ey) by lia.
      rewrite <- Z.mul_assoc, <- (Z.pow_add_r 2 (- ex) 53) by lia.
      rewrite Z.mul_assoc, (Z.mul_comm (2 ^ (- ey))), <- Z.mul_assoc, <- Z.pow_add_r by lia. do 2 f_equal. lia.
  - rewrite Z.max_r, Z.max_l, Z.mul_1_r in HW by lia. rewrite <- HW.
    replace (V * 2 ^ (- (ex - ey - 53))) with (2 ^ ey * (V * 2 ^ (- ex) * 2 ^ 53)).
    + rewrite (Z.mul_comm (Zpos my)).
      destruct (quotient_scale (2 ^ ey) (V * 2 ^ (- ex) * 2 ^ 53) (Zpos my)) as [-> ->]; try done.
      * apply Z.pow_pos_nonneg; lia.
      * apply Z.mul_nonneg_nonneg; [apply Z.mul_nonneg_nonneg; [lia | apply Z.pow_nonneg; lia] | lia].
    + rewrite <- Z.mul_assoc, <- (Z.pow_add_r 2 (- ex) 53) by lia.
      rewrite Z.mul_assoc, (Z.mul_comm (2 ^ ey)), <- Z.mul_assoc, <- Z.pow_add_r by lia. do 2 f_equal. lia.
Qed.

(** With a significand below 2^53 and at most 22 decimals, one division rounds
    correctly: the result is [strtod]'s. *)
Lemma fast_path_correct V k :
  0 <= V < 2 ^ 53 -> 1 <= k <= 22 ->
  StrtodNormalPrecision (double_of_Z V) (- k) = Ret (scale_round false 10 V (- k)).1.
Proof.
  intros HV Hk. unfold StrtodNormalPrecision, FastPath. rewrite !(proj2 (Z.ltb_ge (- k) (-308))) by lia.
  rewrite (proj2 (Z.leb_gt 0 (- k))) by lia. rewrite Z.opp_involutive.
  destruct (Pow10_stands k ltac:(lia)) as (e & -> & He). cbn [bind]. f_equal. unfold scale_round.
  destruct (Z.eqb_spec V 0) as [->|].
  - destruct He as (m & x & -> & _). done.
  - rewrite (proj2 (Z.ltb_ge 1100 (- k))) by lia.
    rewrite (proj2 (Z.ltb_ge (- k) (- (1100 + _)))) by (pose proof (Nat2Z.is_nonneg (length (dec V))); lia).
    rewrite (proj2 (Z.leb_gt 0 (- k))), Z.opp_involutive by lia. cbn [fst round_erange].
    apply ddiv_stands; [apply double_of_Z_stands; lia | done | lia |].
    split; [apply Z.pow_pos_nonneg; lia|].
    apply Z.le_lt_trans with (10 ^ 22); [apply Z.pow_le_mono_r; lia | vm_compute; reflexivity].
Qed.
