(* ===== verification/StringBuffer.v ===== *)
(** * The output buffer: src/include/rapidjson/internal/stack.h and stringbuffer.h

    [internal::Stack<CrtAllocator>] over bytes, with its lazy allocation and
    growth, and [StringBuffer] on top of it.  [memory] is the allocated block,
    [stackTop] the offset of [stackTop_] from [stack_]; a null [stack_] is
    [allocated = false].  Allocation succeeds; the bytes of a fresh block are
    0 (they are written before they are read). *)
From S2P Require Import Prelude.

(** ** internal::Stack *)
Record Stack := mkStack {
  memory : list Z;
  stackTop : Z;
  allocated : bool;
  initialCapacity : Z;
}.

Definition new_Stack (stackCapacity : Z) : Stack := mkStack [] 0 false stackCapacity.

Definition GetSize (st : Stack) : Z := st.(stackTop).
Definition GetCapacity (st : Stack) : Z := sizeZ st.(memory).
Definition Empty (st : Stack) : bool := st.(stackTop) =? 0.
Definition Clear (st : Stack) : Stack := mkStack st.(memory) 0 st.(allocated) st.(initialCapacity).

(** [CrtAllocator::Realloc] to zero bytes frees and returns null. *)
Definition Resize (st : Stack) (newCapacity : Z) : Stack :=
  mkStack (take (Z.to_nat newCapacity) st.(memory) ++
           replicate (Z.to_nat (newCapacity - GetCapacity st)) 0)
    st.(stackTop) (negb (newCapacity =? 0)) st.(initialCapacity).

Definition ShrinkToFit (st : Stack) : Stack :=
  if Empty st then mkStack [] 0 false st.(initialCapacity) else Resize st (GetSize st).

Definition Expand (st : Stack) (count : Z) : Stack :=
  let newCapacity :=
    if negb st.(allocated) then st.(initialCapacity)
    else u64 (GetCapacity st + (GetCapacity st + 1) / 2) in
  let newSize := u64 (GetSize st + count) in
  Resize st (if newCapacity <? newSize then newSize else newCapacity).

Definition Reserve (st : Stack) (count : Z) : Stack :=
  if GetCapacity st - st.(stackTop) <? i64 count then Expand st count else st.

(** The result is the offset of the pushed block and the new stack. *)
Definition PushUnsafe (st : Stack) (count : Z) : outcome (Z * Stack) :=
  if negb st.(allocated) then Undefined AssertionFailed
  else if GetCapacity st - st.(stackTop) <? i64 count then Undefined AssertionFailed
  else Ret (st.(stackTop), mkStack st.(memory) (st.(stackTop) + count) st.(allocated) st.(initialCapacity)).

Definition Push (st : Stack) (count : Z) : outcome (Z * Stack) := PushUnsafe (Reserve st count) count.

Definition Pop (st : Stack) (count : Z) : outcome Stack :=
  if GetSize st <? count then Undefined AssertionFailed
  else Ret (mkStack st.(memory) (st.(stackTop) - count) st.(allocated) st.(initialCapacity)).

(** Assignment through a pointer into the block. *)
Definition poke (st : Stack) (offset c : Z) : outcome Stack :=
  let* memory := storeZ st.(memory) offset c in
  Ret (mkStack memory st.(stackTop) st.(allocated) st.(initialCapacity)).

Fixpoint poke_all (st : Stack) (offset : Z) (cs : list Z) : outcome Stack :=
  match cs with
  | [] => Ret st
  | c :: cs => let* st := poke st offset c in poke_all st (offset + 1) cs
  end.

(** ** StringBuffer *)
Definition kDefaultCapacity : Z := 256.

Definition new_StringBuffer : Stack := new_Stack kDefaultCapacity.

Definition Put (sb : Stack) (c : Z) : outcome Stack :=
  let* (p, sb) := Push sb 1 in poke sb p c.

Definition PutUnsafe (sb : Stack) (c : Z) : outcome Stack :=
  let* (p, sb) := PushUnsafe sb 1 in poke sb p c.

Definition sb_ShrinkToFit (sb : Stack) : outcome Stack :=
  let* (p, sb) := Push sb 1 in
  let* sb := poke sb p 0 in
  Pop (ShrinkToFit sb) 1.

(** [PutN] with [memset] *)
Definition PutN (sb : Stack) (c n : Z) : outcome Stack :=
  let* (p, sb) := Push sb n in poke_all sb p (replicate (Z.to_nat n) c).

(** The bytes a [const char*] to the block's start denotes. *)
Fixpoint c_str (mem : list Z) : list Z :=
  match mem with [] => [] | c :: mem => if c =? 0 then [] else c :: c_str mem end.

Definition GetString (sb : Stack) : outcome (Stack * list Z) :=
  let* (p, sb) := Push sb 1 in
  let* sb := poke sb p 0 in
  let* sb := Pop sb 1 in
  Ret (sb, c_str sb.(memory)).

(** Printing a number into a pushed block: [Push(n)], let the printer write
    [text] there, [Pop(n - length)]. *)
Definition push_print (sb : Stack) (n : Z) (text : list Z) : outcome Stack :=
  let* (p, sb) := Push sb n in
  let* sb := poke_all sb p text in
  Pop sb (u64 (n - sizeZ text)).

(** A run of [PutUnsafe]. *)
Fixpoint put_unsafe (sb : Stack) (cs : list Z) : outcome Stack :=
  match cs with
  | [] => Ret sb
  | c :: cs => let* sb := PutUnsafe sb c in put_unsafe sb cs
  end.

(** ** What the buffer holds *)
Definition content (st : Stack) : list Z := take (Z.to_nat st.(stackTop)) st.(memory).
Definition room (st : Stack) : Z := GetCapacity st - st.(stackTop).

Definition stack_wf (st : Stack) : Prop :=
  0 <= st.(stackTop) <= GetCapacity st /\ GetCapacity st <= 2 ^ 61 /\
  0 <= st.(initialCapacity) <= 2 ^ 60 /\ (st.(allocated) = false -> st.(memory) = []).

Lemma new_StringBuffer_wf : stack_wf new_StringBuffer.
Proof. unfold stack_wf, GetCapacity, kDefaultCapacity, sizeZ. simpl. split_and!; (done || lia). Qed.

Lemma content_size st : stack_wf st -> sizeZ (content st) = st.(stackTop).
Proof.
  intros (H1 & _). unfold sizeZ, content, GetCapacity, sizeZ in *. rewrite length_take. lia.
Qed.

(** ** Reserving *)
Lemma Resize_keeps st n :
  stack_wf st -> st.(stackTop) <= n <= 2 ^ 61 ->
  stack_wf (Resize st n) /\ content (Resize st n) = content st /\ room (Resize st n) = n - st.(stackTop) /\
  allocated (Resize st n) = negb (n =? 0).
Proof.
  intros (H1 & H2 & H3 & H4) Hn. unfold stack_wf, content, room, Resize, GetCapacity, sizeZ in *.
  cbn [memory stackTop allocated initialCapacity].
  assert (Hlen : Z.of_nat (length (take (Z.to_nat n) (memory st) ++
            replicate (Z.to_nat (n - Z.of_nat (length (memory st)))) 0)) = n)
    by (rewrite length_app, length_take, length_replicate; lia).
  rewrite Hlen. split_and!; try lia; try done.
  - intros Hf. apply negb_false_iff, Z.eqb_eq in Hf. subst n.
    destruct (take _ _ ++ _) as [|] eqn:He; [done|]. exfalso. simpl in Hlen. lia.
  - rewrite take_app_le by (rewrite length_take; lia). rewrite take_take. f_equal. lia.
Qed.

Lemma Reserve_keeps st n :
  stack_wf st -> 0 <= n -> st.(stackTop) + n <= 2 ^ 60 ->
  stack_wf (Reserve st n) /\ content (Reserve st n) = content st /\ n <= room (Reserve st n) /\
  stackTop (Reserve st n) = stackTop st /\ (0 < n -> allocated (Reserve st n) = true).
Proof.
  intros Hwf Hn Hmax. pose proof Hwf as (H1 & H2 & H3 & H4). unfold Reserve.
  rewrite i64_small by lia. destruct (Z.ltb_spec (GetCapacity st - stackTop st) n) as [Hlt | Hge].
  - unfold Expand. rewrite (u64_small (GetSize st + n)) by (unfold GetSize; lia).
    assert (Hhalf : 0 <= (GetCapacity st + 1) / 2 <= GetCapacity st + 1).
    { pose proof (Z.div_mod (GetCapacity st + 1) 2 ltac:(lia)).
      pose proof (Z.mod_pos_bound (GetCapacity st + 1) 2 ltac:(lia)). lia. }
    rewrite (u64_small (GetCapacity st + _)) by lia. unfold GetSize.
    assert (Hhalf2 : (GetCapacity st + 1) / 2 <= 2 ^ 59 + 1).
    { apply Z.div_le_upper_bound; lia. }
    set (c := if negb (allocated st) then initialCapacity st else GetCapacity st + (GetCapacity st + 1) / 2).
    assert (Hc : 0 <= c <= 2 ^ 61 - 1) by (unfold c; destruct (allocated st); simpl; lia).
    set (m := if c <? stackTop st + n then stackTop st + n else c).
    assert (Hm : stackTop st + n <= m <= 2 ^ 61 - 1) by (unfold m; destruct (Z.ltb_spec c (stackTop st + n)); lia).
    destruct (Resize_keeps st m Hwf ltac:(lia)) as (Hw & Hcon & Hroom & Hal).
    split_and!; [done | done | lia | done |]. intros. rewrite Hal. by replace (m =? 0) with false by lia.
  - split; [done|]. split; [done|]. split; [unfold room; lia|]. split; [done|]. intros Hpos. destruct (allocated st) eqn:Hal; [done|].
    specialize (H4 eq_refl). unfold GetCapacity, sizeZ in *. rewrite H4 in *. simpl in *. lia.
Qed.

(** ** Writing behind the end *)
Lemma poke_append st c :
  stack_wf st -> 1 <= room st -> allocated st = true ->
  exists st', (let* st := PushUnsafe st 1 in let '(p, st) := st in poke st p c) = Ret st' /\
    stack_wf st' /\ content st' = content st ++ [c] /\ room st' = room st - 1 /\ allocated st' = true.
Proof.
  intros (H1 & H2 & H3 & H4) Hroom Hal. unfold PushUnsafe, room in *. rewrite Hal. cbn [negb].
  change (i64 1) with 1. replace (GetCapacity st - stackTop st <? 1) with false by lia. cbn [bind].
  unfold poke. cbn [memory stackTop allocated initialCapacity].
  unfold GetCapacity in *. rewrite storeZ_total by lia. cbn [bind]. eexists. split; [done|].
  unfold stack_wf, content, GetCapacity, sizeZ in *. cbn [memory stackTop allocated initialCapacity].
  rewrite length_insert. split_and!; try lia; try done.
  replace (Z.to_nat (stackTop st + 1)) with (S (Z.to_nat (stackTop st))) by lia.
  assert (Hlt : (Z.to_nat (stackTop st) < length (memory st))%nat) by lia.
  apply list_eq. intros i. destruct (decide (i < Z.to_nat (stackTop st))%nat) as [Hi | Hi].
  - rewrite lookup_take_lt by lia. rewrite list_lookup_insert_ne by lia.
    rewrite lookup_app_l by (rewrite length_take; lia). by rewrite lookup_take_lt by lia.
  - destruct (decide (i = Z.to_nat (stackTop st))) as [-> | Hne].
    + rewrite lookup_take_lt, list_lookup_insert_eq by lia.
      rewrite lookup_app_r by (rewrite length_take; lia). rewrite length_take.
      by replace (Z.to_nat (stackTop st) - Z.to_nat (stackTop st) `min` length (memory st))%nat with 0%nat by lia.
    + rewrite lookup_take_ge by lia. symmetry. apply lookup_ge_None.
      rewrite length_app, length_take. simpl. lia.
Qed.

(** [appends st m cs]: [m] extends the content by [cs] and leaves at least
    [r] bytes of room. *)
Definition appends (st : Stack) (m : outcome Stack) (cs : list Z) (r : Z) : Prop :=
  exists st', m = Ret st' /\ stack_wf st' /\ content st' = content st ++ cs /\ r <= room st' /\
    allocated st' = true /\ stackTop st' = stackTop st + sizeZ cs.

Lemma appends_intro st st' cs r :
  stack_wf st -> stack_wf st' -> content st' = content st ++ cs -> r <= room st' ->
  allocated st' = true -> appends st (Ret st') cs r.
Proof.
  intros Hwf Hwf' Hc Hr Ha. exists st'. split_and!; try done.
  rewrite <- (content_size st), <- (content_size st'), Hc by done. unfold sizeZ. rewrite length_app. lia.
Qed.

Lemma PutUnsafe_appends st c :
  stack_wf st -> 1 <= room st -> allocated st = true -> appends st (PutUnsafe st c) [c] (room st - 1).
Proof.
  intros Hwf Hr Ha. destruct (poke_append st c Hwf Hr Ha) as (st' & He & Hwf' & Hc & Hr' & Ha').
  unfold PutUnsafe. unfold bind in He |- *. rewrite He. apply appends_intro; [done.. | lia | done].
Qed.

Lemma put_unsafe_appends cs : forall st,
  stack_wf st -> sizeZ cs <= room st -> allocated st = true ->
  appends st (put_unsafe st cs) cs (room st - sizeZ cs).
Proof.
  induction cs as [|c cs IH]; intros st Hwf Hr Ha; cbn [put_unsafe].
  - apply appends_intro; [done | done | by rewrite app_nil_r | unfold sizeZ; simpl; lia | done].
  - unfold sizeZ in Hr |- *. simpl length in *.
    destruct (PutUnsafe_appends st c) as (st1 & -> & Hwf1 & Hc1 & Hr1 & Ha1 & Ht1); [done | lia | done|].
    cbn [bind]. destruct (IH st1) as (st2 & -> & Hwf2 & Hc2 & Hr2 & Ha2 & Ht2);
      [done | unfold sizeZ; lia | done|].
    apply appends_intro; [done | done | by rewrite Hc2, Hc1, <- app_assoc | | done]. unfold sizeZ in *. lia.
Qed.

Lemma Put_appends st c :
  stack_wf st -> stackTop st + 1 <= 2 ^ 60 -> appends st (Put st c) [c] 0.
Proof.
  intros Hwf Hmax. destruct (Reserve_keeps st 1 Hwf) as (Hwf1 & Hc1 & Hr1 & Ht1 & Ha1); [lia..|].
  destruct (PutUnsafe_appends (Reserve st 1) c Hwf1) as (st2 & He & Hwf2 & Hc2 & Hr2 & Ha2 & Ht2);
    [lia | apply Ha1; lia|].
  unfold Put, Push. unfold PutUnsafe in He. rewrite He.
  apply appends_intro; [done | done | by rewrite Hc2, Hc1 | lia | done].
Qed.

Lemma poke_all_memory cs : forall st off,
  0 <= off -> off + sizeZ cs <= GetCapacity st ->
  exists st', poke_all st off cs = Ret st' /\ stackTop st' = stackTop st /\
    allocated st' = allocated st /\ initialCapacity st' = initialCapacity st /\
    memory st' = take (Z.to_nat off) (memory st) ++ cs ++ drop (Z.to_nat (off + sizeZ cs)) (memory st).
Proof.
  induction cs as [|c cs IH]; intros st off Hoff Hcap; cbn [poke_all].
  - exists st. split_and!; try done. unfold sizeZ. simpl. by rewrite Z.add_0_r, take_drop.
  - unfold sizeZ, GetCapacity, sizeZ in *. simpl length in *. unfold poke. rewrite storeZ_total by (unfold sizeZ; lia).
    cbn [bind]. destruct (IH (mkStack (<[Z.to_nat off:=c]> (memory st)) (stackTop st) (allocated st) (initialCapacity st))
      (off + 1)) as (st' & He & H1 & H2 & H3 & Hm); [lia | cbn [memory]; rewrite length_insert; lia|].
    exists st'. split_and!; try done. rewrite Hm. cbn [memory].
    replace (Z.to_nat (off + 1)) with (S (Z.to_nat off)) by lia.
    replace (Z.to_nat (off + 1 + Z.of_nat (length cs))) with (Z.to_nat (off + Z.of_nat (S (length cs)))) by lia.
    rewrite (take_S_r _ _ c) by (apply list_lookup_insert_eq; lia).
    rewrite take_insert_ge by lia. rewrite drop_insert_lt by lia. by rewrite <- app_assoc.
Qed.

(** [Push(n)], printing at most [n] bytes, [Pop] of the rest. *)
Lemma push_print_appends st n text :
  stack_wf st -> 0 < n -> sizeZ text <= n -> stackTop st + n <= 2 ^ 60 ->
  appends st (push_print st n text) text 0.
Proof.
  intros Hwf Hn Hlen Hmax. destruct (Reserve_keeps st n Hwf) as (Hwf1 & Hc1 & Hr1 & Ht1 & Ha1); [lia..|].
  pose proof (proj1 Hwf) as Htop.
  unfold push_print, Push, PushUnsafe. rewrite Ha1, i64_small by lia. cbn [negb].
  set (st1 := Reserve st n) in *. unfold room in Hr1.
  replace (GetCapacity st1 - stackTop st1 <? n) with false by lia. cbn [bind].
  assert (Hs : 0 <= sizeZ text) by (unfold sizeZ; lia).
  pose proof Hwf1 as (H1 & H2 & H3 & H4).
  destruct (poke_all_memory text (mkStack (memory st1) (stackTop st1 + n) true (initialCapacity st1))
    (stackTop st1)) as (st2 & -> & E1 & E2 & E3 & Em); [lia | unfold GetCapacity in *; cbn [memory]; lia|].
  cbn [bind memory stackTop allocated initialCapacity] in *. unfold Pop, GetSize. rewrite E1.
  rewrite u64_small by lia. replace (stackTop st1 + n <? n - sizeZ text) with false by lia.
  assert (Hlm : length (memory st2) = length (memory st1)).
  { rewrite Em, !length_app, length_take, length_drop. unfold GetCapacity, sizeZ in *. lia. }
  apply appends_intro; [done | | | |].
  - unfold stack_wf, GetCapacity, sizeZ in *. cbn [memory stackTop allocated initialCapacity].
    rewrite Hlm, E3. split_and!; try lia. intros Hf. by rewrite E2 in Hf.
  - rewrite <- Hc1. unfold content. cbn [memory stackTop]. rewrite Em.
    replace (Z.to_nat (stackTop st1 + n - (n - sizeZ text)))
      with (length (take (Z.to_nat (stackTop st1)) (memory st1) ++ text)).
    + by rewrite app_assoc, take_app_length.
    + rewrite length_app, length_take. unfold GetCapacity, sizeZ in *. lia.
  - unfold room, GetCapacity, sizeZ in *. cbn [memory stackTop]. rewrite Hlm. lia.
  - done.
Qed.

Lemma c_str_app l m : Forall (fun c => c <> 0) l -> c_str (l ++ 0 :: m) = l.
Proof.
  induction l as [|c l IH]; intros Hl; [done|]. apply Forall_cons in Hl as [Hc Hl].
  cbn [app c_str]. replace (c =? 0) with false by lia. by rewrite IH.
Qed.

Lemma take_content st k : stack_wf st -> (k <= Z.to_nat (stackTop st))%nat ->
  take k (memory st) = take k (content st).
Proof. intros. unfold content. rewrite take_take. f_equal. lia. Qed.

(** Removing what was appended. *)
Lemma Pop_appended st st' cs :
  stack_wf st' -> content st' = content st ++ cs -> stackTop st' = stackTop st + sizeZ cs ->
  0 <= stackTop st ->
  exists st'', Pop st' (sizeZ cs) = Ret st'' /\ stack_wf st'' /\ content st'' = content st /\
    memory st'' = memory st' /\ stackTop st'' = stackTop st.
Proof.
  intros Hwf Hc Ht H0. unfold Pop, GetSize. assert (0 <= sizeZ cs) by (unfold sizeZ; lia).
  replace (stackTop st' <? sizeZ cs) with false by lia. eexists. split; [done|].
  pose proof Hwf as (H1 & H2 & H3 & H4). split_and!; cbn [memory stackTop]; try lia; try done.
  - unfold stack_wf, GetCapacity in *. cbn [memory stackTop allocated initialCapacity].
    split_and!; try lia. done.
  - unfold content at 1. cbn [memory stackTop]. rewrite take_content by (done || lia). rewrite Hc.
    replace (stackTop st' - sizeZ cs) with (stackTop st) by lia.
    apply (f_equal length) in Hc. pose proof (content_size st' Hwf) as Hs'. unfold sizeZ in *.
    rewrite length_app in Hc. rewrite take_app_le by lia. rewrite take_ge; [done | lia].
Qed.

(** The C string is the content, if it has no NUL. *)
Lemma GetString_content st :
  stack_wf st -> stackTop st + 1 <= 2 ^ 60 -> Forall (fun c => c <> 0) (content st) ->
  exists st', GetString st = Ret (st', content st) /\ stack_wf st' /\ content st' = content st.
Proof.
  intros Hwf Hmax Hnz. destruct (Put_appends st 0 Hwf Hmax) as (st1 & He & Hwf1 & Hc1 & _ & _ & Ht1).
  unfold GetString. unfold Put in He. destruct (Push st 1) as [[p st0]| |]; try discriminate He.
  cbn [bind] in He |- *. rewrite He. cbn [bind].
  destruct (Pop_appended st st1 [0] Hwf1 Hc1 Ht1) as (st2 & Hp & Hwf2 & Hc2 & Hm2 & Ht2); [apply Hwf|].
  change (sizeZ [0]) with 1 in Hp. rewrite Hp. cbn [bind]. exists st2. split_and!; [|done..].
  do 2 f_equal. rewrite Hm2, <- (take_drop (Z.to_nat (stackTop st1)) (memory st1)).
  fold (content st1). rewrite Hc1, <- app_assoc. by apply c_str_app.
Qed.

Lemma Clear_empties st : stack_wf st -> stack_wf (Clear st) /\ content (Clear st) = [] /\ stackTop (Clear st) = 0.
Proof.
  intros (H1 & H2 & H3 & H4). unfold stack_wf, Clear, content, GetCapacity, sizeZ in *.
  cbn [memory stackTop allocated initialCapacity]. split_and!; try done; lia.
Qed.

Lemma sb_ShrinkToFit_keeps st :
  stack_wf st -> stackTop st + 1 <= 2 ^ 60 ->
  exists st', sb_ShrinkToFit st = Ret st' /\ stack_wf st' /\ content st' = content st /\
    stackTop st' = stackTop st.
Proof.
  intros Hwf Hmax. destruct (Put_appends st 0 Hwf Hmax) as (st1 & He & Hwf1 & Hc1 & _ & _ & Ht1).
  unfold sb_ShrinkToFit. unfold Put in He. destruct (Push st 1) as [[p st0]| |]; try discriminate He.
  cbn [bind] in He |- *. rewrite He. cbn [bind]. unfold ShrinkToFit, Empty.
  pose proof Hwf as (H1 & _). pose proof Hwf1 as (Hw1 & Hw2 & _). change (sizeZ [0]) with 1 in Ht1.
  replace (stackTop st1 =? 0) with false by lia.
  destruct (Resize_keeps st1 (GetSize st1) Hwf1) as (Hwf2 & Hc2 & _ & _); [unfold GetSize; lia|].
  destruct (Pop_appended st (Resize st1 (GetSize st1)) [0] Hwf2) as (st2 & Hp & Hwf3 & Hc3 & _ & Ht3);
    [by rewrite Hc2 | exact Ht1 | lia |].
  exists st2. by rewrite <- Hp.
Qed.

Lemma PutN_appends st c n :
  stack_wf st -> 0 < n -> stackTop st + n <= 2 ^ 60 ->
  appends st (PutN st c n) (replicate (Z.to_nat n) c) 0.
Proof.
  intros Hwf Hn Hmax. pose proof (push_print_appends st n (replicate (Z.to_nat n) c) Hwf Hn) as H.
  assert (Hs : sizeZ (replicate (Z.to_nat n) c) = n) by (unfold sizeZ; rewrite length_replicate; lia).
  destruct H as (st' & He & Hrest); [lia | lia |]. unfold push_print in He. unfold PutN.
  destruct (Push st n) as [[p st1]| |]; try discriminate He. cbn [bind] in He |- *.
  destruct (poke_all st1 p _) as [st2| |] eqn:Hp; try discriminate He. cbn [bind] in He.
  rewrite Hs, Z.sub_diag in He. unfold Pop in He. change (u64 0) with 0 in He.
  destruct (GetSize st2 <? 0); [done|]. injection He as He. exists st'. split; [|done].
  f_equal. rewrite <- He. destruct st2. cbn. f_equal. lia.
Qed.

(** ** Refinement: the buffer is a byte list *)
Inductive sb_op :=
  | OpPut (c : Z)
  | OpUnsafe (n : Z) (cs : list Z)
  | OpPrint (n : Z) (text : list Z)
  | OpPutN (c n : Z)
  | OpClear
  | OpShrink.

(** [OpUnsafe n cs] is a reservation followed by [PutUnsafe]s. *)
Definition sb_exec (st : Stack) (op : sb_op) : outcome Stack :=
  match op with
  | OpPut c => Put st c
  | OpUnsafe n cs => put_unsafe (Reserve st n) cs
  | OpPrint n text => push_print st n text
  | OpPutN c n => PutN st c n
  | OpClear => Ret (Clear st)
  | OpShrink => sb_ShrinkToFit st
  end.

Definition sb_spec (l : list Z) (op : sb_op) : list Z :=
  match op with
  | OpPut c => l ++ [c]
  | OpUnsafe _ cs => l ++ cs
  | OpPrint _ text => l ++ text
  | OpPutN c n => l ++ replicate (Z.to_nat n) c
  | OpClear => []
  | OpShrink => l
  end.

(** What a caller has to respect: the sizes reserved. *)
Definition sb_allowed (op : sb_op) : Prop :=
  match op with
  | OpUnsafe n cs => sizeZ cs <= n <= 2 ^ 32 /\ 0 < n
  | OpPrint n text => sizeZ text <= n <= 2 ^ 32 /\ 0 < n
  | OpPutN _ n => 0 < n <= 2 ^ 32
  | _ => True
  end.

Fixpoint sb_run (st : Stack) (ops : list sb_op) : outcome Stack :=
  match ops with
  | [] => Ret st
  | op :: ops => let* st := sb_exec st op in sb_run st ops
  end.

Lemma sb_exec_refines st op :
  stack_wf st -> sb_allowed op -> stackTop st + 2 ^ 32 <= 2 ^ 60 ->
  exists st', sb_exec st op = Ret st' /\ stack_wf st' /\ content st' = sb_spec (content st) op /\
    stackTop st' <= stackTop st + 2 ^ 32.
Proof.
  intros Hwf Hok Hmax.
  assert (Happ : forall m cs, appends st m cs 0 -> sizeZ cs <= 2 ^ 32 ->
    exists st', m = Ret st' /\ stack_wf st' /\ content st' = content st ++ cs /\
      stackTop st' <= stackTop st + 2 ^ 32).
  { intros m cs (st' & -> & H1 & H2 & _ & _ & H3) Hs. exists st'. split_and!; (done || lia). }
  destruct op as [c|n cs|n text|c n| |]; cbn [sb_exec sb_spec sb_allowed] in *.
  - apply Happ; [apply Put_appends; (done || lia) | change (sizeZ [c]) with 1; lia].
  - apply Happ; [|lia]. destruct (Reserve_keeps st n Hwf) as (Hwf1 & Hc1 & Hr1 & Ht1 & Ha1); [lia..|].
    destruct (put_unsafe_appends cs (Reserve st n)) as (st' & -> & H1 & H2 & H3 & H4 & H5);
      [done | lia | apply Ha1; lia|].
    apply appends_intro; [done | done | by rewrite H2, Hc1 | lia | done].
  - apply Happ; [apply push_print_appends; (done || lia) | lia].
  - apply Happ; [apply PutN_appends; (done || lia)|]. unfold sizeZ. rewrite length_replicate. lia.
  - destruct (Clear_empties st Hwf) as (? & ? & ?). pose proof Hwf as (? & _).
    eexists. split; [done|]. split_and!; (done || lia).
  - destruct (sb_ShrinkToFit_keeps st Hwf) as (st' & -> & H1 & H2 & H3); [lia|].
    exists st'. split_and!; (done || lia).
Qed.

Lemma sb_run_refines ops : forall st,
  stack_wf st -> Forall sb_allowed ops -> stackTop st + Z.of_nat (length ops) * 2 ^ 32 <= 2 ^ 60 ->
  exists st', sb_run st ops = Ret st' /\ stack_wf st' /\
    content st' = fold_left sb_spec ops (content st) /\
    stackTop st' <= stackTop st + Z.of_nat (length ops) * 2 ^ 32.
Proof.
  induction ops as [|op ops IH]; intros st Hwf Hok Hmax; cbn [sb_run fold_left].
  - exists st. split_and!; (done || lia).
  - apply Forall_cons in Hok as [Hop Hok]. simpl length in *.
    destruct (sb_exec_refines st op Hwf Hop) as (st1 & -> & Hwf1 & Hc1 & Ht1); [lia|].
    cbn [bind]. destruct (IH st1 Hwf1 Hok) as (st2 & -> & Hwf2 & Hc2 & Ht2); [lia|].
    exists st2. rewrite <- Hc1. split_and!; (done || lia).
Qed.

(** C38. The output buffer refines a byte list: for every sequence of its
    operations that keeps to the sizes it reserves, no assertion of the stack
    fails and nothing is written outside the block, however it grows or
    shrinks; the content is the list the operations describe, and
    [GetString] returns it as long as it contains no NUL. *)
Theorem stringbuffer_refines_list (ops : list sb_op) :
  Forall sb_allowed ops -> Z.of_nat (length ops) < 2 ^ 27 ->
  let l := fold_left sb_spec ops [] in
  exists sb, sb_run new_StringBuffer ops = Ret sb /\ content sb = l /\
    (Forall (fun c => c <> 0) l -> exists sb', GetString sb = Ret (sb', l)).
Proof.
  intros Hok Hn l. destruct (sb_run_refines ops new_StringBuffer new_StringBuffer_wf Hok) as
    (sb & He & Hwf & Hc & Ht); [cbn; lia|].
  exists sb. split_and!; [done | done |]. intros Hnz.
  destruct (GetString_content sb Hwf) as (sb' & Hg & _); [cbn in Ht; lia | by rewrite Hc|].
  exists sb'. rewrite Hg, Hc. done.
Qed.

Lemma stringbuffer_refines_list_witness :
  exists sb, sb_run new_StringBuffer [OpPut 65; OpUnsafe 300 (str "bc"); OpShrink; OpPrint 25 (str "1.5")] = Ret sb /\
    content sb = str "Abc1.5".
Proof.
  destruct (stringbuffer_refines_list
    [OpPut 65; OpUnsafe 300 (str "bc"); OpShrink; OpPrint 25 (str "1.5")]) as (sb & H1 & H2 & _).
  - repeat (apply Forall_cons; split; [vm_compute; intuition congruence|]). apply Forall_nil, I.
  - simpl. lia.
  - exists sb. split; [exact H1 | exact H2].
Defined.
