(* ===== verification/Encodings.v ===== *)
(** * String streams and UTF-8 (stream.h, encodings.h)

    [StringStream] reads a NUL-terminated text; [UTF8] encodes, decodes and
    validates one code point on such a stream.  Output goes to any type with an
    [OutputStream] instance, as in the templates of the source. *)
From S2P Require Import Prelude StringBuffer.

(** ** GenericStringStream

    [src_] is what is left of the text, its terminating NUL included, and
    [offset_] the distance to [head_]. *)
Record StringStream := mkStream { src_ : list Z; offset_ : Z }.

Definition new_StringStream (text : list Z) : StringStream := mkStream (text ++ [0]) 0.

Definition Peek (s : StringStream) : outcome Z :=
  match s.(src_) with c :: _ => Ret c | [] => Undefined OutOfBounds end.

Definition Take (s : StringStream) : outcome (Z * StringStream) :=
  match s.(src_) with
  | c :: rest => Ret (c, mkStream rest (u64 (s.(offset_) + 1)))
  | [] => Undefined OutOfBounds
  end.

Definition Tell (s : StringStream) : Z := s.(offset_).

(** The output side of the stream concept. *)
Class OutputStream (O : Type) := os_Put : Z -> O -> outcome O.

#[export] Instance StringBuffer_OutputStream : OutputStream Stack := fun c sb => Put sb c.

(** ** UTF8 *)
Module UTF8.
Section Encode.
Context {O : Type} `{OutputStream O}.

Definition Encode (os : O) (codepoint : Z) : outcome O :=
  if codepoint <=? 0x7F then os_Put (Z.land codepoint 0xFF) os
  else if codepoint <=? 0x7FF then
    let* os := os_Put (Z.lor 0xC0 (Z.land (Z.shiftr codepoint 6) 0xFF)) os in
    os_Put (Z.lor 0x80 (Z.land codepoint 0x3F)) os
  else if codepoint <=? 0xFFFF then
    let* os := os_Put (Z.lor 0xE0 (Z.land (Z.shiftr codepoint 12) 0xFF)) os in
    let* os := os_Put (Z.lor 0x80 (Z.land (Z.shiftr codepoint 6) 0x3F)) os in
    os_Put (Z.lor 0x80 (Z.land codepoint 0x3F)) os
  else if codepoint <=? 0x10FFFF then
    let* os := os_Put (Z.lor 0xF0 (Z.land (Z.shiftr codepoint 18) 0xFF)) os in
    let* os := os_Put (Z.lor 0x80 (Z.land (Z.shiftr codepoint 12) 0x3F)) os in
    let* os := os_Put (Z.lor 0x80 (Z.land (Z.shiftr codepoint 6) 0x3F)) os in
    os_Put (Z.lor 0x80 (Z.land codepoint 0x3F)) os
  else Undefined AssertionFailed.
End Encode.

Definition range_table : list Z :=
  replicate 128 0 ++ replicate 16 0x10 ++ replicate 16 0x40 ++ replicate 32 0x20 ++
  [8; 8] ++ replicate 30 2 ++
  [10; 3; 3; 3; 3; 3; 3; 3; 3; 3; 3; 3; 3; 4; 3; 3] ++
  [11; 6; 6; 6; 5; 8; 8; 8; 8; 8; 8; 8; 8; 8; 8; 8].

Definition GetRange (c : Z) : outcome Z := lookupZ range_table c.

(** What follows a first byte of each range: the masks its tail bytes are
    tested with, or no valid sequence. *)
Definition tails (type : Z) : option (list Z) :=
  if type =? 2 then Some [0x70]
  else if type =? 3 then Some [0x70; 0x70]
  else if type =? 4 then Some [0x50; 0x70]
  else if type =? 5 then Some [0x10; 0x70; 0x70]
  else if type =? 6 then Some [0x70; 0x70; 0x70]
  else if type =? 10 then Some [0x20; 0x70]
  else if type =? 11 then Some [0x60; 0x70; 0x70]
  else None.

(** [RAPIDJSON_COPY(); RAPIDJSON_TRANS(mask)] for each mask, in [Decode]. *)
Fixpoint decode_tails (masks : list Z) (result : bool) (codepoint : Z) (s : StringStream)
  : outcome (bool * Z * StringStream) :=
  match masks with
  | [] => Ret (result, codepoint, s)
  | mask :: masks =>
      let* (c, s) := Take s in
      let codepoint := Z.lor (u32 (Z.shiftl codepoint 6)) (Z.land c 0x3F) in
      let* range := GetRange c in
      decode_tails masks (result && negb (Z.land range mask =? 0)) codepoint s
  end.

Definition Decode (s : StringStream) : outcome (bool * Z * StringStream) :=
  let* (c, s) := Take s in
  if Z.land c 0x80 =? 0 then Ret (true, c, s)
  else
    let* type := GetRange c in
    let codepoint := if type >=? 32 then 0 else Z.land (Z.shiftr 0xFF type) c in
    match tails type with
    | Some masks => decode_tails masks true codepoint s
    | None => Ret (false, codepoint, s)
    end.

Section Validate.
Context {O : Type} `{OutputStream O}.

Fixpoint validate_tails (masks : list Z) (result : bool) (s : StringStream) (os : O)
  : outcome (bool * StringStream * O) :=
  match masks with
  | [] => Ret (result, s, os)
  | mask :: masks =>
      let* (c, s) := Take s in
      let* os := os_Put c os in
      let* range := GetRange c in
      validate_tails masks (result && negb (Z.land range mask =? 0)) s os
  end.

Definition Validate (s : StringStream) (os : O) : outcome (bool * StringStream * O) :=
  let* (c, s) := Take s in
  let* os := os_Put c os in
  if Z.land c 0x80 =? 0 then Ret (true, s, os)
  else
    let* type := GetRange c in
    match tails type with
    | Some masks => validate_tails masks true s os
    | None => Ret (false, s, os)
    end.
End Validate.
End UTF8.

(** ** Encoding is inverted by decoding *)

(** The bytes of a code point. *)
#[export] Instance list_OutputStream : OutputStream (list Z) := fun c l => Ret (l ++ [c]).

(** A code point outside the surrogates. *)
Definition is_scalar (cp : Z) : bool := (cp <=? 0xD7FF) || (0xE000 <=? cp).

Definition range_of (c : Z) : Z := match UTF8.GetRange c with Ret r => r | _ => 0 end.

(** The continuation byte with payload [x], and whether [mask] admits it. *)
Definition tail_byte (x : Z) : Z := Z.lor 0x80 x.
Definition admits (mask x : Z) : bool := negb (Z.land (range_of (tail_byte x)) mask =? 0).

Definition tail_ok (x : Z) : bool :=
  bool_decide (UTF8.GetRange (tail_byte x) = Ret (range_of (tail_byte x))) &&
  (Z.land (tail_byte x) 0x3F =? x) && (0 <=? tail_byte x) && (tail_byte x <? 256).

Lemma tail_byte_facts x : 0 <= x < 64 ->
  UTF8.GetRange (tail_byte x) = Ret (range_of (tail_byte x)) /\
  Z.land (tail_byte x) 0x3F = x /\ 0 <= tail_byte x < 256.
Proof.
  intros Hx.
  assert (tail_ok x = true) as H by (apply (forallb_seqZ tail_ok 0 64); [vm_compute; reflexivity | lia]).
  unfold tail_ok in H. rewrite !andb_true_iff in H. destruct H as [[[H1 H2] H3] H4].
  split; [exact (bool_decide_eq_true_1 _ H1)|]. lia.
Qed.

Lemma append_bits x y : 0 <= x < 2 ^ 26 -> 0 <= y < 64 -> Z.lor (u32 (Z.shiftl x 6)) y = 64 * x + y.
Proof.
  intros Hx Hy. rewrite Z.shiftl_mul_pow2 by lia. unfold u32. rewrite Z.mod_small by lia.
  assert (Z.land (x * 2 ^ 6) y = 0) as Hd.
  { apply Z.bits_inj'. intros n Hn. rewrite Z.land_spec, Z.bits_0.
    destruct (Z.lt_ge_cases n 6).
    - by rewrite Z.mul_pow2_bits_low by lia.
    - rewrite andb_comm, (Z.bits_above_log2 y n); [done | lia |].
      destruct (Z.eq_dec y 0) as [->|]; [simpl; lia|]. pose proof (Z.log2_lt_pow2 y 6). lia. }
  rewrite <- Z.lxor_lor, <- Z.add_nocarry_lxor by done. lia.
Qed.

Lemma decode_tail mask masks result cp x rest p :
  0 <= x < 64 -> 0 <= cp < 2 ^ 26 ->
  UTF8.decode_tails (mask :: masks) result cp (mkStream (tail_byte x :: rest) p) =
  UTF8.decode_tails masks (result && admits mask x) (64 * cp + x) (mkStream rest (u64 (p + 1))).
Proof.
  intros Hx Hcp. destruct (tail_byte_facts x Hx) as (HR & HL & _).
  cbn [UTF8.decode_tails Take src_ offset_ bind]. rewrite HR, HL, append_bits by done. done.
Qed.

Lemma validate_tail {O} `{OutputStream O} mask masks result x rest p (os : O) :
  0 <= x < 64 ->
  UTF8.validate_tails (mask :: masks) result (mkStream (tail_byte x :: rest) p) os =
  let* os := os_Put (tail_byte x) os in
  UTF8.validate_tails masks (result && admits mask x) (mkStream rest (u64 (p + 1))) os.
Proof.
  intros Hx. destruct (tail_byte_facts x Hx) as (HR & _).
  cbn [UTF8.validate_tails Take src_ offset_ bind]. by rewrite HR.
Qed.

(** The first bytes of the sequences of two, three and four bytes with payload
    [hi], and the mask their range puts on the second byte. *)
Definition lead_ok (c hi : Z) (masks : list Z) : bool :=
  bool_decide (UTF8.GetRange c = Ret (range_of c)) && negb (Z.land c 0x80 =? 0) &&
  negb (range_of c >=? 32) && (Z.land (Z.shiftr 0xFF (range_of c)) c =? hi) &&
  bool_decide (UTF8.tails (range_of c) = Some masks).

Definition lead3_mask (hi : Z) : Z := if hi =? 0 then 0x20 else if hi =? 13 then 0x50 else 0x70.
Definition lead4_mask (hi : Z) : Z := if hi =? 0 then 0x60 else if hi =? 4 then 0x10 else 0x70.

Lemma leads :
  (forall hi, 2 <= hi < 32 -> lead_ok (Z.lor 0xC0 (Z.land hi 0xFF)) hi [0x70] = true) /\
  (forall hi, 0 <= hi < 16 -> lead_ok (Z.lor 0xE0 (Z.land hi 0xFF)) hi [lead3_mask hi; 0x70] = true) /\
  (forall hi, 0 <= hi < 5 -> lead_ok (Z.lor 0xF0 (Z.land hi 0xFF)) hi [lead4_mask hi; 0x70; 0x70] = true).
Proof.
  repeat split; intros hi Hhi.
  - apply (forallb_seqZ (fun hi => lead_ok (Z.lor 0xC0 (Z.land hi 0xFF)) hi [0x70]) 2 30);
      [vm_compute; reflexivity | lia].
  - apply (forallb_seqZ (fun hi => lead_ok (Z.lor 0xE0 (Z.land hi 0xFF)) hi [lead3_mask hi; 0x70]) 0 16);
      [vm_compute; reflexivity | lia].
  - apply (forallb_seqZ (fun hi => lead_ok (Z.lor 0xF0 (Z.land hi 0xFF)) hi [lead4_mask hi; 0x70; 0x70]) 0 5);
      [vm_compute; reflexivity | lia].
Qed.

Lemma admits_range x : 0 <= x < 64 ->
  admits 0x70 x = true /\ admits 0x20 x = (32 <=? x) /\ admits 0x50 x = (x <? 32) /\
  admits 0x60 x = (16 <=? x) /\ admits 0x10 x = (x <? 16).
Proof.
  intros Hx.
  assert (admits 0x70 x && Bool.eqb (admits 0x20 x) (32 <=? x) && Bool.eqb (admits 0x50 x) (x <? 32) &&
    Bool.eqb (admits 0x60 x) (16 <=? x) && Bool.eqb (admits 0x10 x) (x <? 16) = true) as H.
  { apply (forallb_seqZ (fun x => admits 0x70 x && Bool.eqb (admits 0x20 x) (32 <=? x) &&
      Bool.eqb (admits 0x50 x) (x <? 32) && Bool.eqb (admits 0x60 x) (16 <=? x) &&
      Bool.eqb (admits 0x10 x) (x <? 16)) 0 64); [vm_compute; reflexivity | lia]. }
  rewrite !andb_true_iff, !Bool.eqb_true_iff in H. tauto.
Qed.

(** The first byte and the payloads of the others, for the longer forms. *)
Definition utf8_form (cp lead hi : Z) (masks xs : list Z) : Prop :=
  lead_ok lead hi masks = true /\ 0 <= hi < 2 ^ 8 /\ 0 <= lead < 256 /\
  Forall (fun x => 0 <= x < 64) xs /\ length xs = length masks /\ (length xs <= 3)%nat /\
  UTF8.Encode [] cp = Ret (lead :: (tail_byte <$> xs)) /\
  fold_left (fun acc x => 64 * acc + x) xs hi = cp /\
  forallb (fun mx => admits mx.1 mx.2) (zip masks xs) = is_scalar cp.

Lemma low6 x : Z.land x 0x3F = x mod 64.
Proof. change 0x3F with (Z.ones 6). by rewrite Z.land_ones by lia. Qed.

Lemma low8 x : 0 <= x < 256 -> Z.land x 0xFF = x.
Proof. intros. change 0xFF with (Z.ones 8). rewrite Z.land_ones, Z.mod_small by lia. done. Qed.

Lemma lead_byte_range k hi : 0 <= k < 256 -> 0 <= hi < 256 -> 0 <= Z.lor k (Z.land hi 0xFF) < 256.
Proof.
  intros Hk Hhi. rewrite low8 by lia. pose proof (Z.lor_nonneg k hi).
  split; [lia|]. apply (Z.log2_lt_cancel _ 256). rewrite Z.log2_lor by lia.
  change (Z.log2 256) with 8. 
  assert (forall x, 0 <= x < 256 -> Z.log2 x < 8) as Hl.
  { intros x Hx. destruct (Z.eq_dec x 0) as [->|]; [simpl; lia|]. apply Z.log2_lt_pow2; lia. }
  pose proof (Hl k Hk). pose proof (Hl hi Hhi). lia.
Qed.

Ltac solve_form L :=
  split; [apply L; lia_div|]; split; [lia_div|]; split; [apply lead_byte_range; lia_div|];
  split; [repeat constructor; lia|]; split; [done|]; split; [simpl; lia|]; split; [done|].

Lemma utf8_forms cp : 0x7F < cp <= 0x10FFFF -> exists lead hi masks xs, utf8_form cp lead hi masks xs.
Proof.
  intros Hcp. destruct leads as (L2 & L3 & L4). unfold utf8_form, UTF8.Encode, os_Put, list_OutputStream.
  rewrite (proj2 (Z.leb_gt cp 0x7F)) by lia.
  rewrite !Z.shiftr_div_pow2 by lia. change (2 ^ 6) with 64. change (2 ^ 12) with 4096. change (2 ^ 18) with 262144.
  assert (0 <= cp / 64 mod 64 < 64) by (apply Z.mod_pos_bound; lia).
  assert (0 <= cp mod 64 < 64) by (apply Z.mod_pos_bound; lia).
  assert (0 <= cp / 4096 mod 64 < 64) by (apply Z.mod_pos_bound; lia).
  rewrite !low6.
  destruct (Z.leb_spec cp 0x7FF); [|destruct (Z.leb_spec cp 0xFFFF)].
  - exists (Z.lor 0xC0 (Z.land (cp / 64) 0xFF)), (cp / 64), [0x70], [cp mod 64].
    solve_form L2; split.
    + cbn [fold_left]. lia_div.
    + cbn [zip zip_with forallb fst snd].
      destruct (admits_range (cp mod 64)) as (-> & _); [lia|]. unfold is_scalar. lia_div.
  - exists (Z.lor 0xE0 (Z.land (cp / 4096) 0xFF)), (cp / 4096),
      [lead3_mask (cp / 4096); 0x70], [cp / 64 mod 64; cp mod 64].
    solve_form L3; split.
    + cbn [fold_left]. lia_div.
    + cbn [zip zip_with forallb fst snd].
      destruct (admits_range (cp mod 64)) as (-> & _); [lia|].
      destruct (admits_range (cp / 64 mod 64)) as (A1 & A2 & A3 & _); [lia|].
      unfold lead3_mask, is_scalar. repeat case_match; rewrite ?A1, ?A2, ?A3; lia_div.
  - rewrite (proj2 (Z.leb_le cp 0x10FFFF)) by lia.
    exists (Z.lor 0xF0 (Z.land (cp / 262144) 0xFF)), (cp / 262144),
      [lead4_mask (cp / 262144); 0x70; 0x70], [cp / 4096 mod 64; cp / 64 mod 64; cp mod 64].
    solve_form L4; split.
    + cbn [fold_left]. lia_div.
    + cbn [zip zip_with forallb fst snd].
      destruct (admits_range (cp mod 64)) as (-> & _); [lia|].
      destruct (admits_range (cp / 64 mod 64)) as (-> & _); [lia|].
      destruct (admits_range (cp / 4096 mod 64)) as (A1 & _ & _ & A2 & A3); [lia|].
      unfold lead4_mask, is_scalar. repeat case_match; rewrite ?A1, ?A2, ?A3; lia_div.
Qed.

Lemma decode_all_tails masks xs result cp rest p :
  length xs = length masks -> Forall (fun x => 0 <= x < 64) xs ->
  0 <= cp < 2 ^ 8 -> (length xs <= 3)%nat ->
  UTF8.decode_tails masks result cp (mkStream ((tail_byte <$> xs) ++ rest) p) =
  Ret (result && forallb (fun mx => admits mx.1 mx.2) (zip masks xs),
       fold_left (fun acc x => 64 * acc + x) xs cp,
       mkStream rest (fold_left (fun p _ => u64 (p + 1)) xs p)).
Proof.
  intros Hlen Hxs Hcp H3.
  assert (0 <= cp < 2 ^ (8 + 6 * (3 - Z.of_nat (length xs)))) as Hb.
  { pose proof (Z.pow_le_mono_r 2 8 (8 + 6 * (3 - Z.of_nat (length xs)))). lia. }
  clear Hcp. revert masks result cp p Hlen H3 Hb.
  induction Hxs as [|x xs Hx Hxs IH]; intros [|mask masks] result cp p Hlen H3 Hb; try discriminate.
  { cbn. by rewrite andb_true_r. }
  cbn [length] in *. rewrite fmap_cons. cbn [app]. rewrite decode_tail.
  - rewrite IH; [|lia..|].
    + cbn [zip zip_with forallb fold_left fst snd]. by rewrite andb_assoc.
    + replace (8 + 6 * (3 - Z.of_nat (length xs))) with ((8 + 6 * (3 - Z.of_nat (S (length xs)))) + 6) by lia.
      rewrite Z.pow_add_r by lia. lia.
  - done.
  - pose proof (Z.pow_le_mono_r 2 (8 + 6 * (3 - Z.of_nat (S (length xs)))) 26). lia.
Qed.

Lemma validate_all_tails masks xs result rest p (os : list Z) :
  length xs = length masks -> Forall (fun x => 0 <= x < 64) xs ->
  UTF8.validate_tails masks result (mkStream ((tail_byte <$> xs) ++ rest) p) os =
  Ret (result && forallb (fun mx => admits mx.1 mx.2) (zip masks xs),
       mkStream rest (fold_left (fun p _ => u64 (p + 1)) xs p), os ++ (tail_byte <$> xs)).
Proof.
  intros Hlen Hxs. revert masks result p os Hlen.
  induction Hxs as [|x xs Hx Hxs IH]; intros [|mask masks] result p os Hlen; try discriminate.
  { cbn. by rewrite andb_true_r, app_nil_r. }
  cbn [length] in *. rewrite fmap_cons. cbn [app]. rewrite validate_tail by done.
  unfold os_Put, list_OutputStream. cbn [bind].
  rewrite IH by lia. cbn [zip zip_with forallb fold_left fst snd].
  by rewrite andb_assoc, <- app_assoc.
Qed.

Lemma advance {A} (xs : list A) p :
  fold_left (fun p _ => u64 (p + 1)) xs (u64 p) = u64 (p + sizeZ xs).
Proof.
  revert p. unfold sizeZ. induction xs as [|x xs IH]; intros p; [simpl; f_equal; lia|].
  cbn [fold_left length]. replace (u64 (u64 p + 1)) with (u64 (p + 1)).
  - rewrite IH. f_equal. lia.
  - unfold u64. by rewrite Zplus_mod_idemp_l.
Qed.

(** ** Theorem *)
Lemma Encode_bytes cp : 0 <= cp <= 0x10FFFF -> exists bytes,
  UTF8.Encode [] cp = Ret bytes /\ Forall (fun c => 0 <= c < 256) bytes.
Proof.
  intros Hcp. destruct (Z.le_gt_cases cp 0x7F).
  - exists [cp]. unfold UTF8.Encode. rewrite (proj2 (Z.leb_le cp 0x7F)), low8 by lia.
    split; [done|]. constructor; [lia | constructor].
  - destruct (utf8_forms cp) as (lead & hi & masks & xs & _ & _ & Hlead & Hxs & _ & _ & HE & _); [lia|].
    exists (lead :: (tail_byte <$> xs)). split; [done|]. constructor; [done|].
    apply Forall_fmap, (Forall_impl _ _ _ Hxs). intros x Hx. apply tail_byte_facts, Hx.
Qed.

(** UTF-8 encoding and decoding are inverse: every code point up to
    [0x10FFFF] is encoded in one to four bytes, which [Decode] reads back as
    that code point, accepted unless it is a surrogate; [Validate] gives the
    same verdict and copies the bytes; both stop right after the sequence. *)
Theorem utf8_roundtrip (cp p : Z) (rest : list Z) :
  0 <= cp <= 0x10FFFF ->
  exists bytes,
    UTF8.Encode [] cp = Ret bytes /\
    1 <= sizeZ bytes <= 4 /\ Forall (fun c => 0 <= c < 256) bytes /\
    UTF8.Decode (mkStream (bytes ++ rest) p) =
      Ret (is_scalar cp, cp, mkStream rest (u64 (p + sizeZ bytes))) /\
    forall os : list Z, UTF8.Validate (mkStream (bytes ++ rest) p) os =
      Ret (is_scalar cp, mkStream rest (u64 (p + sizeZ bytes)), os ++ bytes).
Proof.
  intros Hcp. destruct (Z.le_gt_cases cp 0x7F) as [Hs|Hs].
  - exists [cp]. unfold UTF8.Encode, UTF8.Decode, UTF8.Validate. cbn [app Take src_ bind offset_ sizeZ length].
    rewrite (proj2 (Z.leb_le cp 0x7F)) by lia. unfold os_Put, list_OutputStream.
    assert (Z.land cp 0x80 = 0) as ->.
    { change 0x80 with (Z.shiftl (Z.ones 1) 7). apply Z.bits_inj'. intros n Hn. rewrite Z.land_spec, Z.bits_0.
      rewrite Z.shiftl_spec by lia. destruct (Z.eq_dec n 7) as [->|].
      - rewrite (Z.bits_above_log2 cp 7); [done | lia |].
        destruct (Z.eq_dec cp 0) as [->|]; [simpl; lia|]. apply Z.log2_lt_pow2; lia.
      - rewrite (Z.testbit_ones 1) by lia. apply andb_false_iff. right. lia. }
    cbn [Z.eqb bind app]. rewrite low8 by lia. unfold is_scalar.
    rewrite (proj2 (Z.leb_le cp 0xD7FF)) by lia.
    split; [done|]. split; [unfold sizeZ; cbn [length]; lia|]. split; [constructor; [lia | constructor]|]. done.
  - destruct (utf8_forms cp) as (lead & hi & masks & xs & HL & Hhi & Hlead & Hxs & Hlen & H3 & HE & Hcp' & Hok);
      [lia|].
    unfold lead_ok in HL. rewrite !andb_true_iff, !negb_true_iff in HL.
    destruct HL as [[[[HR H80] H32] Hpay] Ht].
    apply bool_decide_eq_true_1 in HR, Ht. apply Z.eqb_eq in Hpay.
    exists (lead :: (tail_byte <$> xs)). rewrite HE. split; [done|].
    assert (sizeZ (lead :: (tail_byte <$> xs)) = 1 + sizeZ xs) as Hsz.
    { unfold sizeZ. cbn [length]. rewrite length_fmap. lia. }
    split; [unfold sizeZ in *; lia|]. split.
    { constructor; [done|]. apply Forall_fmap, (Forall_impl _ _ _ Hxs). intros x Hx. apply tail_byte_facts, Hx. }
    unfold UTF8.Decode, UTF8.Validate. cbn [app Take src_ bind offset_]. rewrite H80, HR. cbn [bind].
    rewrite H32, Hpay, Ht, decode_all_tails by done. rewrite Hcp', Hok, Hsz, advance.
    rewrite Z.add_assoc. split; [done|]. intros os.
    unfold os_Put at 1, list_OutputStream at 1. cbn [bind].
    rewrite validate_all_tails by done. by rewrite Hok, advance, <- app_assoc.
Qed.

Lemma utf8_roundtrip_witness :
  exists bytes, UTF8.Encode [] 0x20AC = Ret bytes /\
    UTF8.Decode (mkStream (bytes ++ [0]) 7) = Ret (true, 0x20AC, mkStream [0] 10).
Proof.
  destruct (utf8_roundtrip 0x20AC 7 [0]) as (bytes & HE & _ & _ & HD & _); [lia|].
  exists bytes. split; [exact HE|]. rewrite HD. vm_compute in HE. injection HE as <-. reflexivity.
Defined.
