(* ===== verification/Value.v ===== *)
(** * The document model: GenericValue of src/include/rapidjson/document.h

    A value is its [flags] and its data.  A number keeps the 64 bits of the
    union [Number] with the flags that say which views are allowed; arrays and
    objects keep their capacity; member names are byte strings.  A
    [RAPIDJSON_ASSERT] is a precondition: the release build compiles it out,
    so a violated one is undefined here. *)
From S2P Require Import Prelude Types Doubles Ieee754.
From Stdlib Require Import SpecFloat.

#[local] Set Warnings "-register-all".

(** ** Types and flags (rapidjson.h, document.h) *)
Inductive JsonType :=
  | kNullType | kFalseType | kTrueType | kObjectType | kArrayType | kStringType | kNumberType.

#[export] Instance JsonType_eq_dec : EqDecision JsonType.
Proof. solve_decision. Defined.

Definition type_code (t : JsonType) : Z :=
  match t with
  | kNullType => 0 | kFalseType => 1 | kTrueType => 2 | kObjectType => 3
  | kArrayType => 4 | kStringType => 5 | kNumberType => 6
  end.

Definition kBoolFlag : Z := 0x0008.
Definition kNumberFlag : Z := 0x0010.
Definition kIntFlag : Z := 0x0020.
Definition kUintFlag : Z := 0x0040.
Definition kInt64Flag : Z := 0x0080.
Definition kUint64Flag : Z := 0x0100.
Definition kDoubleFlag : Z := 0x0200.

Definition flags_or (l : list Z) : Z := fold_left Z.lor l 0.

Definition kNumberIntFlag : Z := flags_or [6; kNumberFlag; kIntFlag; kInt64Flag].
Definition kNumberUintFlag : Z := flags_or [6; kNumberFlag; kUintFlag; kUint64Flag; kInt64Flag].
Definition kNumberInt64Flag : Z := flags_or [6; kNumberFlag; kInt64Flag].
Definition kNumberUint64Flag : Z := flags_or [6; kNumberFlag; kUint64Flag].
Definition kNumberDoubleFlag : Z := flags_or [6; kNumberFlag; kDoubleFlag].
Definition kNumberAnyFlag : Z :=
  flags_or [6; kNumberFlag; kIntFlag; kInt64Flag; kUintFlag; kUint64Flag; kDoubleFlag].

(** ** Values *)
Inductive Value :=
  | VNull
  | VBool (b : bool)
  | VObject (capacity : Z) (members : list (list Z * Value))
  | VArray (capacity : Z) (elements : list Value)
  | VString (s : list Z)
  | VNumber (flags : Z) (n : Z).

Definition GetType (v : Value) : JsonType :=
  match v with
  | VNull => kNullType
  | VBool b => if b then kTrueType else kFalseType
  | VObject _ _ => kObjectType
  | VArray _ _ => kArrayType
  | VString _ => kStringType
  | VNumber _ _ => kNumberType
  end.

(** ** Constructors *)
Definition Value_of_type (t : JsonType) : Value :=
  match t with
  | kNullType => VNull
  | kFalseType => VBool false
  | kTrueType => VBool true
  | kObjectType => VObject 0 []
  | kArrayType => VArray 0 []
  | kStringType => VString []
  | kNumberType => VNumber kNumberAnyFlag 0
  end.

Definition Value_int (i : Z) : Value :=
  VNumber (if 0 <=? i then flags_or [kNumberIntFlag; kUintFlag; kUint64Flag] else kNumberIntFlag) (u64 i).

Definition Value_uint (u : Z) : Value :=
  VNumber (if negb (Z.land u 0x80000000 =? 0) then kNumberUintFlag
           else flags_or [kNumberUintFlag; kIntFlag; kInt64Flag]) u.

Definition Value_int64 (i : Z) : Value :=
  let flags := kNumberInt64Flag in
  let flags :=
    if 0 <=? i then
      let flags := Z.lor flags kNumberUint64Flag in
      let flags := if Z.land (u64 i) 0xFFFFFFFF00000000 =? 0 then Z.lor flags kUintFlag else flags in
      if Z.land (u64 i) 0xFFFFFFFF80000000 =? 0 then Z.lor flags kIntFlag else flags
    else if i64 0xFFFFFFFF80000000 <=? i then Z.lor flags kIntFlag
    else flags in
  VNumber flags (u64 i).

Definition Value_uint64 (u : Z) : Value :=
  let flags := kNumberUint64Flag in
  let flags := if Z.land u 0x8000000000000000 =? 0 then Z.lor flags kInt64Flag else flags in
  let flags := if Z.land u 0xFFFFFFFF00000000 =? 0 then Z.lor flags kUintFlag else flags in
  let flags := if Z.land u 0xFFFFFFFF80000000 =? 0 then Z.lor flags kIntFlag else flags in
  VNumber flags u.

Definition Value_double (d : double) : Value := VNumber kNumberDoubleFlag (bits_of_double d).

(** ** Queries *)
Definition has_flag (v : Value) (flag : Z) : bool :=
  match v with VNumber flags _ => negb (Z.land flags flag =? 0) | _ => false end.

Definition IsNull (v : Value) : bool := match v with VNull => true | _ => false end.
Definition IsBool (v : Value) : bool := match v with VBool _ => true | _ => false end.
Definition IsObject (v : Value) : bool := match v with VObject _ _ => true | _ => false end.
Definition IsArray (v : Value) : bool := match v with VArray _ _ => true | _ => false end.
Definition IsString (v : Value) : bool := match v with VString _ => true | _ => false end.
Definition IsNumber (v : Value) : bool := has_flag v kNumberFlag.
Definition IsInt (v : Value) : bool := has_flag v kIntFlag.
Definition IsUint (v : Value) : bool := has_flag v kUintFlag.
Definition IsInt64 (v : Value) : bool := has_flag v kInt64Flag.
Definition IsUint64 (v : Value) : bool := has_flag v kUint64Flag.
Definition IsDouble (v : Value) : bool := has_flag v kDoubleFlag.

(** The union's views of a number's bits. *)
Definition view_int (n : Z) : Z := i32 (u32 n).
Definition view_uint (n : Z) : Z := u32 n.
Definition view_int64 (n : Z) : Z := i64 n.

Definition checked (v : Value) (flag : Z) (view : Z -> Z) : outcome Z :=
  match v with
  | VNumber flags n => if Z.land flags flag =? 0 then Undefined AssertionFailed else Ret (view n)
  | _ => Undefined AssertionFailed
  end.

Definition GetInt (v : Value) : outcome Z := checked v kIntFlag view_int.
Definition GetUint (v : Value) : outcome Z := checked v kUintFlag view_uint.
Definition GetInt64 (v : Value) : outcome Z := checked v kInt64Flag view_int64.
Definition GetUint64 (v : Value) : outcome Z := checked v kUint64Flag (fun n => n).

Definition GetBool (v : Value) : outcome bool :=
  match v with VBool b => Ret b | _ => Undefined AssertionFailed end.

Definition GetDouble (v : Value) : outcome double :=
  match v with
  | VNumber _ n =>
      if negb (IsNumber v) then Undefined AssertionFailed
      else if IsDouble v then Ret (double_of_bits n)
      else if IsInt v then Ret (double_of_Z (view_int n))
      else if IsUint v then Ret (double_of_Z (view_uint n))
      else if IsInt64 v then Ret (double_of_Z (view_int64 n))
      else if IsUint64 v then Ret (double_of_Z n)
      else Undefined AssertionFailed
  | _ => Undefined AssertionFailed
  end.

(** ** Objects *)
Definition as_object (v : Value) : outcome (Z * list (list Z * Value)) :=
  match v with VObject c ms => Ret (c, ms) | _ => Undefined AssertionFailed end.

Definition MemberCount (v : Value) : outcome Z := let* (_, ms) := as_object v in Ret (sizeZ ms).
Definition MemberCapacity (v : Value) : outcome Z := let* (c, _) := as_object v in Ret c.
Definition ObjectEmpty (v : Value) : outcome bool := let* (_, ms) := as_object v in Ret (sizeZ ms =? 0).

(** [DoFindMember]: the index of the first member with that name, or of the
    end; [StringEqual] compares length and bytes. *)
Fixpoint find_index (name : list Z) (ms : list (list Z * Value)) : nat :=
  match ms with
  | [] => 0
  | (n, _) :: ms => if bytes_eqb name n then 0 else S (find_index name ms)
  end.

Definition FindMember (v : Value) (name : list Z) : outcome nat :=
  let* (_, ms) := as_object v in Ret (find_index name ms).

Definition HasMember (v : Value) (name : list Z) : outcome bool :=
  let* (_, ms) := as_object v in
  Ret (negb (Nat.eqb (find_index name ms) (length ms))).

(** [operator[]] asserts that the member exists. *)
Definition at_name (v : Value) (name : list Z) : outcome Value :=
  let* (_, ms) := as_object v in
  match ms !! find_index name ms with
  | Some (_, w) => Ret w
  | None => Undefined AssertionFailed
  end.

Definition kDefaultObjectCapacity : Z := 16.
Definition kDefaultArrayCapacity : Z := 16.

Definition grown_capacity (capacity default : Z) : Z :=
  if capacity =? 0 then default else u32 (capacity + u32 (capacity + 1) / 2).

(** [DoReserveMembers] and [Reserve] *)
Definition reserved (capacity newCapacity : Z) : Z := if newCapacity >? capacity then newCapacity else capacity.

Definition MemberReserve (v : Value) (newCapacity : Z) : outcome Value :=
  let* (c, ms) := as_object v in Ret (VObject (reserved c newCapacity) ms).

(** [DoAddMember]: the member is stored behind the last one, in bounds of the
    allocated members. *)
Definition AddMember (v : Value) (name : list Z) (w : Value) : outcome Value :=
  let* (c, ms) := as_object v in
  let c := if c <=? sizeZ ms then reserved c (grown_capacity c kDefaultObjectCapacity) else c in
  if sizeZ ms <? c then Ret (VObject c (ms ++ [(name, w)])) else Undefined OutOfBounds.

Definition RemoveAllMembers (v : Value) : outcome Value :=
  let* (c, _) := as_object v in Ret (VObject c []).

(** [DoRemoveMember]: the last member takes the removed one's place. *)
Definition RemoveMember (v : Value) (name : list Z) : outcome (bool * Value) :=
  let* (c, ms) := as_object v in
  let i := find_index name ms in
  if Nat.eqb i (length ms) then Ret (false, v)
  else
    match last ms with
    | Some l =>
        let ms' := if (Nat.ltb 1 (length ms)) && negb (Nat.eqb i (length ms - 1))
                   then <[i := l]> ms else ms in
        Ret (true, VObject c (take (length ms - 1) ms'))
    | None => Undefined AssertionFailed
    end.

(** [DoEraseMembers] of one member keeps the order. *)
Definition EraseMember (v : Value) (name : list Z) : outcome (bool * Value) :=
  let* (c, ms) := as_object v in
  let i := find_index name ms in
  if Nat.eqb i (length ms) then Ret (false, v)
  else Ret (true, VObject c (take i ms ++ drop (S i) ms)).

(** ** Arrays *)
Definition as_array (v : Value) : outcome (Z * list Value) :=
  match v with VArray c es => Ret (c, es) | _ => Undefined AssertionFailed end.

Definition Size (v : Value) : outcome Z := let* (_, es) := as_array v in Ret (sizeZ es).
Definition Capacity (v : Value) : outcome Z := let* (c, _) := as_array v in Ret c.
Definition ArrayEmpty (v : Value) : outcome bool := let* (_, es) := as_array v in Ret (sizeZ es =? 0).
Definition ArrayClear (v : Value) : outcome Value := let* (c, _) := as_array v in Ret (VArray c []).

Definition at_index (v : Value) (index : Z) : outcome Value :=
  let* (_, es) := as_array v in
  if index <? sizeZ es then lookupZ es index else Undefined AssertionFailed.

Definition ArrayReserve (v : Value) (newCapacity : Z) : outcome Value :=
  let* (c, es) := as_array v in Ret (VArray (reserved c newCapacity) es).

Definition PushBack (v : Value) (w : Value) : outcome Value :=
  let* (c, es) := as_array v in
  let c := if c <=? sizeZ es then reserved c (grown_capacity c kDefaultArrayCapacity) else c in
  if sizeZ es <? c then Ret (VArray c (es ++ [w])) else Undefined OutOfBounds.

Definition PopBack (v : Value) : outcome Value :=
  let* (c, es) := as_array v in
  if sizeZ es =? 0 then Undefined AssertionFailed
  else Ret (VArray c (take (length es - 1) es)).

(** [Erase(first, last)] of a non-empty array. *)
Definition Erase (v : Value) (first last : nat) : outcome Value :=
  let* (c, es) := as_array v in
  if (sizeZ es =? 0) || negb (Nat.leb first last) || negb (Nat.leb last (length es))
  then Undefined AssertionFailed
  else Ret (VArray c (take first es ++ drop last es)).

(** [SetObjectRaw] and [SetArrayRaw] *)
Definition SetObjectRaw (ms : list (list Z * Value)) : Value := VObject (sizeZ ms) ms.
Definition SetArrayRaw (es : list Value) : Value := VArray (sizeZ es) es.

(** ** Induction over nested values *)
Section ValueInd.
Context (P : Value -> Prop)
    (Hnull : P VNull) (Hbool : forall b, P (VBool b))
    (Hobj : forall c ms, Forall (fun m => P m.2) ms -> P (VObject c ms))
    (Harr : forall c es, Forall P es -> P (VArray c es))
    (Hstr : forall s, P (VString s)) (Hnum : forall f n, P (VNumber f n)).

Fixpoint value_ind (v : Value) : P v :=
    match v with
    | VNull => Hnull
    | VBool b => Hbool b
    | VObject c ms =>
        Hobj c ms ((fix go (ms : list (list Z * Value)) : Forall (fun m => P m.2) ms :=
          match ms with
          | [] => @List.Forall_nil _ _
          | m :: ms => @List.Forall_cons _ _ m ms (value_ind m.2) (go ms)
          end) ms)
    | VArray c es =>
        Harr c es ((fix go es : Forall P es :=
          match es with
          | [] => @List.Forall_nil _ _
          | e :: es => @List.Forall_cons _ _ e es (value_ind e) (go es)
          end) es)
    | VString s => Hstr s
    | VNumber f n => Hnum f n
    end.
End ValueInd.

(** ** Deep copy and equality *)

(** [GenericValue(rhs, allocator)]: the copies are allocated to size. *)
Fixpoint CopyFrom (v : Value) : Value :=
  match v with
  | VObject _ ms => SetObjectRaw ((fun '(n, w) => (n, CopyFrom w)) <$> ms)
  | VArray _ es => SetArrayRaw (CopyFrom <$> es)
  | _ => v
  end.

(** [operator==] on numbers *)
Definition number_eqb (a b : Value) : bool :=
  if IsDouble a || IsDouble b then
    match GetDouble a, GetDouble b with
    | Ret x, Ret y => dleb y x && dleb x y
    | _, _ => false
    end
  else match a, b with VNumber _ n, VNumber _ m => n =? m | _, _ => false end.

(** [operator==]: members are looked up by name in the right-hand side. *)
Fixpoint value_eqb (a b : Value) : bool :=
  match a, b with
  | VNull, VNull => true
  | VBool x, VBool y => Bool.eqb x y
  | VObject _ ms, VObject _ ms' =>
      (sizeZ ms =? sizeZ ms') &&
      forallb (fun '(n, w) => match ms' !! find_index n ms' with
                              | Some (_, w') => value_eqb w w'
                              | None => false
                              end) ms
  | VArray _ es, VArray _ es' =>
      (sizeZ es =? sizeZ es') &&
      (fix go es es' :=
         match es, es' with
         | e :: es, e' :: es' => value_eqb e e' && go es es'
         | _, _ => true
         end) es es'
  | VString s, VString s' => (sizeZ s =? sizeZ s') && bytes_eqb s s'
  | VNumber _ _, VNumber _ _ => number_eqb a b
  | _, _ => false
  end.

(** ** Numbers *)
Lemma land_high u k : 0 <= u < 2 ^ 64 -> 0 <= k <= 64 ->
  (Z.land u (Z.shiftl (Z.ones (64 - k)) k) =? 0) = (u <? 2 ^ k).
Proof.
  intros Hu Hk. rewrite land_field by lia.
  assert (H2k : 0 < 2 ^ k) by (apply Z.pow_pos_nonneg; lia).
  assert (Hd : 0 <= u / 2 ^ k < 2 ^ (64 - k)).
  { split; [apply Z.div_pos; lia|]. apply Z.div_lt_upper_bound; [lia|].
    rewrite <- Z.pow_add_r by lia. replace (k + (64 - k)) with 64 by lia. lia. }
  rewrite (Z.mod_small (u / 2 ^ k)) by done. destruct (Z.ltb_spec u (2 ^ k)).
  - by rewrite Z.div_small by lia.
  - apply Z.eqb_neq. assert (1 <= u / 2 ^ k) by (apply Z.div_le_lower_bound; lia). nia.
Qed.

Lemma mask31 u : 0 <= u < 2 ^ 64 -> (Z.land u 0xFFFFFFFF80000000 =? 0) = (u <? 2 ^ 31).
Proof. intros. by apply (land_high u 31). Qed.
Lemma mask32 u : 0 <= u < 2 ^ 64 -> (Z.land u 0xFFFFFFFF00000000 =? 0) = (u <? 2 ^ 32).
Proof. intros. by apply (land_high u 32). Qed.
Lemma mask63 u : 0 <= u < 2 ^ 64 -> (Z.land u 0x8000000000000000 =? 0) = (u <? 2 ^ 63).
Proof. intros. by apply (land_high u 63). Qed.

(** What a number value holds: an integer with exactly the views it fits. *)
Definition holds_integer (v : Value) (z : Z) : Prop :=
  IsNumber v = true /\ IsDouble v = false /\
  GetInt v = (if bool_decide (- 2 ^ 31 <= z < 2 ^ 31) then Ret z else Undefined AssertionFailed) /\
  GetUint v = (if bool_decide (0 <= z < 2 ^ 32) then Ret z else Undefined AssertionFailed) /\
  GetInt64 v = (if bool_decide (- 2 ^ 63 <= z < 2 ^ 63) then Ret z else Undefined AssertionFailed) /\
  GetUint64 v = (if bool_decide (0 <= z < 2 ^ 64) then Ret z else Undefined AssertionFailed) /\
  GetDouble v = Ret (double_of_Z z).

Lemma view_int_small z : - 2 ^ 31 <= z < 2 ^ 31 -> view_int (u64 z) = z.
Proof.
  intros Hz. unfold view_int, u64, u32, i32. rewrite Z.mod_mod_divide by (by exists (2 ^ 32)).
  rewrite Z.add_mod_idemp_l by lia. rewrite Z.mod_small; lia.
Qed.

Lemma view_uint_small z : 0 <= z < 2 ^ 32 -> view_uint z = z.
Proof. intros. unfold view_uint, u32. apply Z.mod_small. lia. Qed.

Lemma view_int64_u64 z : - 2 ^ 63 <= z < 2 ^ 63 -> view_int64 (u64 z) = z.
Proof.
  intros. unfold view_int64, i64, u64. rewrite Z.add_mod_idemp_l by lia. rewrite Z.mod_small; lia.
Qed.

(** With literal flags every accessor reduces to its view. *)
Ltac by_flags :=
  unfold holds_integer, IsNumber, IsDouble, GetInt, GetUint, GetInt64, GetUint64, GetDouble, checked,
    IsDouble, IsInt, IsUint, IsInt64, IsUint64, IsNumber, has_flag;
  repeat match goal with
  | |- context [Z.land ?f ?g =? 0] =>
      let b := eval vm_compute in (Z.land f g =? 0) in change (Z.land f g =? 0) with b
  end; cbn [negb];
  split_and!; try reflexivity; repeat case_bool_decide; try lia; try reflexivity; do 1 f_equal.

Lemma uint64_holds u : 0 <= u < 2 ^ 64 -> holds_integer (Value_uint64 u) u.
Proof.
  intros Hu. unfold Value_uint64. rewrite mask63, mask32, mask31 by done.
  destruct (Z.ltb_spec u (2 ^ 63)), (Z.ltb_spec u (2 ^ 32)), (Z.ltb_spec u (2 ^ 31)); try lia;
    rewrite <- (u64_small u Hu) at 1; by_flags;
    rewrite ?view_int_small, ?view_int64_u64, ?(u64_small u), ?view_uint_small by lia; done.
Qed.

Lemma int_holds i : - 2 ^ 31 <= i < 2 ^ 31 -> holds_integer (Value_int i) i.
Proof.
  intros Hi. unfold Value_int. destruct (Z.leb_spec 0 i); by_flags;
    rewrite ?view_int_small, ?view_int64_u64, ?(u64_small i), ?view_uint_small by lia; done.
Qed.

Lemma uint_holds u : 0 <= u < 2 ^ 32 -> holds_integer (Value_uint u) u.
Proof.
  intros Hu. unfold Value_uint.
  assert ((Z.land u 0x80000000 =? 0) = (u <? 2 ^ 31)) as ->.
  { change 0x80000000 with (Z.shiftl (Z.ones 1) 31). rewrite land_field by lia.
    destruct (Z.ltb_spec u (2 ^ 31)); [by rewrite Z.div_small by lia|].
    replace (u / 2 ^ 31) with 1 by (apply (Z.div_unique _ _ _ (u - 2 ^ 31)); lia). done. }
  destruct (Z.ltb_spec u (2 ^ 31)); cbn [negb]; rewrite <- (u64_small u) at 1 by lia; by_flags;
    rewrite ?view_int_small, ?view_int64_u64, ?(u64_small u), ?view_uint_small by lia; done.
Qed.

Lemma int64_holds i : - 2 ^ 63 <= i < 2 ^ 63 -> holds_integer (Value_int64 i) i.
Proof.
  intros Hi. unfold Value_int64. change (i64 0xFFFFFFFF80000000) with (- 2 ^ 31).
  destruct (Z.leb_spec 0 i).
  - rewrite mask32, mask31 by apply u64_range. rewrite !(u64_small i) by lia.
    destruct (Z.ltb_spec i (2 ^ 32)), (Z.ltb_spec i (2 ^ 31)); try lia;
      rewrite <- (u64_small i) at 1 by lia; by_flags;
      rewrite ?view_int_small, ?view_int64_u64, ?(u64_small i), ?view_uint_small by lia; done.
  - destruct (Z.leb_spec (- 2 ^ 31) i); by_flags;
      rewrite ?view_int_small, ?view_int64_u64 by lia; done.
Qed.

(** C40. The flags of a number are exact, whichever constructor set them: each
    integer accessor is allowed precisely when the number fits the accessor's
    type, and then returns the number; [GetDouble] always returns its nearest
    double.  A [double] is returned as it is. *)
Theorem number_accessors :
  (forall i, - 2 ^ 31 <= i < 2 ^ 31 -> holds_integer (Value_int i) i) /\
  (forall u, 0 <= u < 2 ^ 32 -> holds_integer (Value_uint u) u) /\
  (forall i, - 2 ^ 63 <= i < 2 ^ 63 -> holds_integer (Value_int64 i) i) /\
  (forall u, 0 <= u < 2 ^ 64 -> holds_integer (Value_uint64 u) u) /\
  (forall d, is_double d -> GetDouble (Value_double d) = Ret d /\ IsInt64 (Value_double d) = false /\
             IsUint64 (Value_double d) = false).
Proof.
  split_and!; [exact int_holds | exact uint_holds | exact int64_holds | exact uint64_holds |].
  intros d Hd. split_and!; [|done..]. cbn. f_equal. by apply double_bits_roundtrip.
Qed.

Lemma number_accessors_witness : GetUint64 (Value_uint64 (2 ^ 63)) = Ret (2 ^ 63) /\
  GetInt64 (Value_uint64 (2 ^ 63)) = Undefined AssertionFailed.
Proof.
  destruct number_accessors as (_ & _ & _ & Hu & _).
  destruct (Hu (2 ^ 63) ltac:(lia)) as (_ & _ & _ & _ & H1 & H2 & _).
  rewrite H1, H2. split; reflexivity.
Defined.
