(* ===== verification/Handler.v ===== *)
(** * SAX events: the Handler concept, Accept and the Document

    [GenericValue::Accept] sends a value to any handler as a sequence of
    events and stops at the first one refused; [GenericDocument] is itself a
    handler, which builds values on a stack.  Both are in
    src/include/rapidjson/document.h; the concept is that of reader.h. *)
From S2P Require Import Prelude Types Doubles Ieee754 Value.
From Stdlib Require Import SpecFloat.

(** ** The concept *)
Inductive event :=
  | ENull
  | EBool (b : bool)
  | EInt (i : Z)
  | EUint (u : Z)
  | EInt64 (i : Z)
  | EUint64 (u : Z)
  | EDouble (d : double)
  | ERawNumber (s : list Z)
  | EString (s : list Z)
  | EStartObject
  | EKey (s : list Z)
  | EEndObject (memberCount : Z)
  | EStartArray
  | EEndArray (elementCount : Z).

(** A handler answers whether to go on. *)
Class Handler (H : Type) := handle : event -> H -> outcome (bool * H).

(** [if (!m) return false; k] *)
Definition and_then {H} (m : outcome (bool * H)) (k : H -> outcome (bool * H)) : outcome (bool * H) :=
  let* (ok, h) := m in if ok : bool then k h else Ret (false, h).

(** Events sent in order, up to the first refusal. *)
Fixpoint send {H} `{Handler H} (es : list event) (h : H) : outcome (bool * H) :=
  match es with
  | [] => Ret (true, h)
  | e :: es => and_then (handle e h) (send es)
  end.

(** ** Accept *)
Definition number_event (v : Value) (n : Z) : event :=
  if IsDouble v then EDouble (double_of_bits n)
  else if IsInt v then EInt (view_int n)
  else if IsUint v then EUint (view_uint n)
  else if IsInt64 v then EInt64 (view_int64 n)
  else EUint64 n.

Section Accept.
Context {H : Type} `{Handler H}.

Fixpoint Accept (v : Value) (h : H) {struct v} : outcome (bool * H) :=
    match v with
    | VNull => handle ENull h
    | VBool b => handle (EBool b) h
    | VObject _ ms =>
        and_then (handle EStartObject h) (fun h =>
        and_then ((fix members ms h :=
                     match ms with
                     | [] => Ret (true, h)
                     | (n, w) :: ms =>
                         and_then (handle (EKey n) h) (fun h =>
                         and_then (Accept w h) (members ms))
                     end) ms h)
                 (handle (EEndObject (sizeZ ms))))
    | VArray _ es =>
        and_then (handle EStartArray h) (fun h =>
        and_then ((fix elements es h :=
                     match es with
                     | [] => Ret (true, h)
                     | e :: es => and_then (Accept e h) (elements es)
                     end) es h)
                 (handle (EEndArray (sizeZ es))))
    | VString s => handle (EString s) h
    | VNumber _ n => handle (number_event v n) h
    end.
End Accept.

(** The events of a value. *)
Fixpoint events (v : Value) : list event :=
  match v with
  | VNull => [ENull]
  | VBool b => [EBool b]
  | VObject _ ms =>
      EStartObject :: concat ((fun '(n, w) => EKey n :: events w) <$> ms) ++ [EEndObject (sizeZ ms)]
  | VArray _ es => EStartArray :: concat (events <$> es) ++ [EEndArray (sizeZ es)]
  | VString s => [EString s]
  | VNumber _ n => [number_event v n]
  end.

Section Send.
Context {H : Type} `{Handler H}.

Lemma and_then_assoc m (k k' : H -> outcome (bool * H)) :
    and_then (and_then m k) k' = and_then m (fun h => and_then (k h) k').
Proof using. destruct m as [[[] h]| |]; done. Qed.

Lemma and_then_ret m : and_then m (fun h : H => Ret (true, h)) = m.
Proof using. destruct m as [[[] h]| |]; done. Qed.

Lemma and_then_ext m (k k' : H -> outcome (bool * H)) :
    (forall h, k h = k' h) -> and_then m k = and_then m k'.
Proof using. intros He. destruct m as [[[] h]| |]; simpl; auto. Qed.

Lemma send_app es es' (h : H) : send (es ++ es') h = and_then (send es h) (send es').
Proof.
    revert h. induction es as [|e es IH]; intros h; [done|]. cbn [app send].
    rewrite and_then_assoc. by apply and_then_ext.
Qed.

Lemma send_one e (h : H) : send [e] h = handle e h.
Proof. apply and_then_ret. Qed.

  (** Accept is sending the events. *)
Lemma Accept_send v : forall h : H, Accept v h = send (events v) h.
Proof.
    induction v as [| b | c ms IH | c es IH | s | f n] using value_ind; intros h;
      try (symmetry; apply send_one).
    - cbn [Accept events send]. apply and_then_ext. intros h1. rewrite send_app.
      rewrite <- (and_then_ext _ _ _ (send_one _)). f_equal. revert h1.
      induction IH as [|[n w] ms Hw Hms IHm]; intros h1; [done|].
      rewrite fmap_cons. cbn [concat app send]. apply and_then_ext. intros h2. simpl in Hw.
      rewrite send_app, Hw. apply and_then_ext. intros h3. apply IHm.
    - cbn [Accept events send]. apply and_then_ext. intros h1. rewrite send_app.
      rewrite <- (and_then_ext _ _ _ (send_one _)). f_equal. revert h1.
      induction IH as [|e es He Hes IHe]; intros h1; [done|].
      rewrite fmap_cons. cbn [concat]. rewrite send_app, He. apply and_then_ext. intros h2. apply IHe.
Qed.
End Send.
