(* ===== verification/Document.v ===== *)
(** * GenericDocument: src/include/rapidjson/document.h

    The document as a handler: every event pushes a value on [stack_]; the end
    of an array or object pops its elements and turns the value below, pushed
    at the start, into the container. *)
From S2P Require Import Prelude Types Doubles Ieee754 Value Handler.
From Stdlib Require Import SpecFloat.

Record Document := mkDocument {
  doc_value : Value;      (** the [GenericValue] the document derives from *)
  doc_stack : list Value; (** [stack_], the top first *)
}.

Definition new_Document : Document := mkDocument VNull [].

Definition push (w : Value) (d : Document) : outcome (bool * Document) :=
  Ret (true, mkDocument d.(doc_value) (w :: d.(doc_stack))).

(** [stack_.Pop<ValueType>(n)]: the values, oldest first, and the rest. *)
Definition pop_values (n : Z) (st : list Value) : outcome (list Value * list Value) :=
  if sizeZ st <? n then Undefined AssertionFailed
  else Ret (rev (take (Z.to_nat n) st), drop (Z.to_nat n) st).

(** [Pop<Member>(n)]: a member is two values, the name and the value. *)
Fixpoint members_of (vs : list Value) : outcome (list (list Z * Value)) :=
  match vs with
  | [] => Ret []
  | VString n :: w :: vs => let* ms := members_of vs in Ret ((n, w) :: ms)
  | _ => Undefined AssertionFailed
  end.

(** [Top<ValueType>()->Set...Raw(...)] *)
Definition replace_top (w : Value) (st : list Value) : outcome (list Value) :=
  match st with [] => Undefined AssertionFailed | _ :: st => Ret (w :: st) end.

#[export] Instance Document_Handler : Handler Document := fun e d =>
  match e with
  | ENull => push VNull d
  | EBool b => push (VBool b) d
  | EInt i => push (Value_int i) d
  | EUint u => push (Value_uint u) d
  | EInt64 i => push (Value_int64 i) d
  | EUint64 u => push (Value_uint64 u) d
  | EDouble x => push (Value_double x) d
  | ERawNumber s => push (VString s) d
  | EString s => push (VString s) d
  | EStartObject => push (Value_of_type kObjectType) d
  | EKey s => push (VString s) d
  | EEndObject memberCount =>
      let* (vs, st) := pop_values (2 * memberCount) d.(doc_stack) in
      let* ms := members_of vs in
      let* st := replace_top (SetObjectRaw ms) st in
      Ret (true, mkDocument d.(doc_value) st)
  | EStartArray => push (Value_of_type kArrayType) d
  | EEndArray elementCount =>
      let* (es, st) := pop_values elementCount d.(doc_stack) in
      let* st := replace_top (SetArrayRaw es) st in
      Ret (true, mkDocument d.(doc_value) st)
  end.

(** [Populate]: the generator's one value becomes the document; the stack is
    cleared on exit. *)
Definition Populate (generator : Document -> outcome (bool * Document)) (d : Document) : outcome Document :=
  let* (ok, d) := generator d in
  if ok : bool then
    match d.(doc_stack) with
    | [v] => Ret (mkDocument v [])
    | _ => Undefined AssertionFailed
    end
  else Ret (mkDocument d.(doc_value) []).

#[local] Set Warnings "-register-all".

(** ** Well-formed values *)

(** An integer with the flags its constructors give it. *)
Definition Value_integer (z : Z) : Value := if 0 <=? z then Value_uint64 z else Value_int64 z.

Definition wf_number (v : Value) : Prop :=
  (exists z, - 2 ^ 63 <= z < 2 ^ 64 /\ v = Value_integer z) \/
  (exists d, is_double d /\ v = Value_double d).

(** Every number was set by a constructor, names and strings are bytes. *)
Definition is_bytes (s : list Z) : Prop := Forall (fun c => 0 <= c < 256) s.

(** A text whose escaped form has a 32-bit length. *)
Definition is_text (s : list Z) : Prop := is_bytes s /\ sizeZ s <= 2 ^ 29.

Inductive wf_value : Value -> Prop :=
  | wf_null : wf_value VNull
  | wf_bool b : wf_value (VBool b)
  | wf_object c ms : Forall (fun m => is_text m.1) ms -> Forall (fun m => wf_value m.2) ms ->
      sizeZ ms < 2 ^ 31 -> wf_value (VObject c ms)
  | wf_array c es : Forall wf_value es -> sizeZ es < 2 ^ 31 -> wf_value (VArray c es)
  | wf_string s : is_text s -> wf_value (VString s)
  | wf_num f n : wf_number (VNumber f n) -> wf_value (VNumber f n).

Lemma Value_int_integer i : - 2 ^ 31 <= i < 2 ^ 31 -> Value_int i = Value_integer i.
Proof.
  intros Hi. unfold Value_int, Value_integer, Value_uint64, Value_int64.
  destruct (Z.leb_spec 0 i).
  - rewrite mask63, mask32, mask31, u64_small by lia.
    replace (i <? 2 ^ 63) with true by lia. replace (i <? 2 ^ 32) with true by lia.
    by replace (i <? 2 ^ 31) with true by lia.
  - change (i64 0xFFFFFFFF80000000) with (- 2 ^ 31). by replace (- 2 ^ 31 <=? i) with true by lia.
Qed.

Lemma Value_uint_integer u : 2 ^ 31 <= u < 2 ^ 32 -> Value_uint u = Value_integer u.
Proof.
  intros Hu. unfold Value_uint, Value_integer, Value_uint64. replace (0 <=? u) with true by lia.
  rewrite mask63, mask32, mask31 by lia.
  change 0x80000000 with (Z.shiftl (Z.ones 1) 31). rewrite land_field by lia.
  replace (u / 2 ^ 31) with 1 by (apply (Z.div_unique _ _ _ (u - 2 ^ 31)); lia).
  replace (u <? 2 ^ 63) with true by lia. replace (u <? 2 ^ 32) with true by lia.
  by replace (u <? 2 ^ 31) with false by lia.
Qed.

Lemma Value_int64_integer i : - 2 ^ 63 <= i < 2 ^ 63 -> Value_int64 i = Value_integer i.
Proof.
  intros Hi. unfold Value_integer. destruct (Z.leb_spec 0 i); [|done].
  unfold Value_int64, Value_uint64. replace (0 <=? i) with true by lia.
  rewrite (u64_small i), mask63, mask32, mask31 by lia.
  replace (i <? 2 ^ 63) with true by lia.
  destruct (Z.ltb_spec i (2 ^ 32)), (Z.ltb_spec i (2 ^ 31)); done || lia.
Qed.

(** The event of a well-formed number rebuilds it. *)
Lemma integer_holds z : - 2 ^ 63 <= z < 2 ^ 64 -> holds_integer (Value_integer z) z.
Proof.
  intros. unfold Value_integer. destruct (Z.leb_spec 0 z);
    [apply uint64_holds; lia | apply int64_holds; lia].
Qed.

Lemma number_event_integer z :
  - 2 ^ 63 <= z < 2 ^ 64 ->
  match Value_integer z with
  | VNumber f n => number_event (VNumber f n) n
  | _ => ENull
  end =
  if bool_decide (- 2 ^ 31 <= z < 2 ^ 31) then EInt z
  else if bool_decide (0 <= z < 2 ^ 32) then EUint z
  else if bool_decide (- 2 ^ 63 <= z < 2 ^ 63) then EInt64 z
  else EUint64 z.
Proof.
  intros Hz. pose proof (integer_holds z Hz) as (Hn & Hd & H1 & H2 & H3 & H4 & _).
  destruct (Value_integer z) as [| | | | |f n] eqn:E; try (cbn in Hn; discriminate Hn).
  unfold number_event. rewrite Hd. unfold GetInt, GetUint, GetInt64, GetUint64, checked in *.
  unfold IsInt, IsUint, IsInt64, has_flag.
  destruct (Z.land f kIntFlag =? 0), (Z.land f kUintFlag =? 0), (Z.land f kInt64Flag =? 0),
    (Z.land f kUint64Flag =? 0); cbn [negb];
    repeat case_bool_decide; try discriminate; try lia; by inv_outcome; subst.
Qed.

(** The value an event pushes. *)
Definition pushed (e : event) : option Value :=
  match e with
  | EInt i => Some (Value_int i)
  | EUint u => Some (Value_uint u)
  | EInt64 i => Some (Value_int64 i)
  | EUint64 u => Some (Value_uint64 u)
  | EDouble x => Some (Value_double x)
  | _ => None
  end.

Lemma number_event_rebuilds f n :
  wf_number (VNumber f n) -> pushed (number_event (VNumber f n) n) = Some (VNumber f n).
Proof.
  intros [(z & Hz & He) | (d & Hd & He)].
  - pose proof (number_event_integer z Hz) as Hev. rewrite <- He in Hev. rewrite Hev, He.
    repeat case_bool_decide; cbn [pushed]; f_equal;
      [by apply Value_int_integer | apply Value_uint_integer; lia | by apply Value_int64_integer |].
    unfold Value_integer. by replace (0 <=? z) with true by lia.
  - injection He as -> ->. unfold number_event.
    change (IsDouble (VNumber kNumberDoubleFlag (bits_of_double d))) with true. cbv iota.
    cbn [pushed]. by rewrite double_bits_roundtrip.
Qed.

(** ** Building a value from its events *)
Lemma handle_pushed e w d : pushed e = Some w -> handle e d = push w d.
Proof. destruct e; cbn [pushed]; intros Hp; simplify_eq; done. Qed.

Lemma pop_values_app vs st : pop_values (sizeZ vs) (rev vs ++ st) = Ret (vs, st).
Proof.
  unfold pop_values, sizeZ. rewrite length_app, length_rev.
  rewrite (proj2 (Z.ltb_ge (Z.of_nat (length vs + length st)) (Z.of_nat (length vs)))) by lia.
  rewrite Nat2Z.id, <- (length_rev vs), take_app_length, drop_app_length. by rewrite rev_involutive.
Qed.

(** The values on the stack for the members of an object. *)
Definition member_values (ms : list (list Z * Value)) : list Value :=
  concat ((fun '(n, w) => [VString n; w]) <$> ms).

Lemma members_of_values ms : members_of (member_values ms) = Ret ms.
Proof. induction ms as [|[n w] ms IH]; [done|]. unfold member_values in *. csimpl. by rewrite IH. Qed.

Lemma member_values_size ms : sizeZ (member_values ms) = 2 * sizeZ ms.
Proof.
  induction ms as [|[n w] ms IH]; [done|]. unfold member_values, sizeZ in *. csimpl.
  simpl length. lia.
Qed.

Definition builds (v : Value) : Prop :=
  forall root st, send (events v) (mkDocument root st) = Ret (true, mkDocument root (CopyFrom v :: st)).

Lemma send_members ms : Forall (fun m => builds m.2) ms -> forall root st,
  send (concat ((fun '(n, w) => EKey n :: events w) <$> ms)) (mkDocument root st) =
  Ret (true, mkDocument root (rev (member_values ((fun '(n, w) => (n, CopyFrom w)) <$> ms)) ++ st)).
Proof.
  induction 1 as [|[n w] ms Hw Hms IH]; intros root st; [done|].
  rewrite fmap_cons. cbn [concat app send handle Document_Handler push and_then bind doc_value doc_stack].
  rewrite send_app, Hw. cbn [and_then bind]. rewrite IH. do 3 f_equal.
  unfold member_values. csimpl. rewrite <- !app_assoc. done.
Qed.

Lemma send_elements es : Forall builds es -> forall root st,
  send (concat (events <$> es)) (mkDocument root st) =
  Ret (true, mkDocument root (rev (CopyFrom <$> es) ++ st)).
Proof.
  induction 1 as [|e es He Hes IH]; intros root st; [done|].
  rewrite fmap_cons. cbn [concat]. rewrite send_app, He. cbn [and_then bind]. rewrite IH.
  do 3 f_equal. csimpl. by rewrite <- app_assoc.
Qed.

Lemma events_build v : wf_value v -> builds v.
Proof.
  induction v as [| b | c ms IH | c es IH | s | f n] using value_ind; intros Hwf root st; try done.
  - inversion Hwf as [| |? ? Hb Hms Hsz| | |]; subst.
    cbn [events send handle Document_Handler push and_then bind doc_value doc_stack].
    rewrite send_app, send_members.
    2: { rewrite Forall_forall in *. auto. }
    cbn [and_then bind]. rewrite send_one. cbn [handle Document_Handler doc_value doc_stack].
    set (ms' := (fun '(n, w) => (n, CopyFrom w)) <$> ms).
    assert (Hs : 2 * sizeZ ms = sizeZ (member_values ms'))
      by (rewrite member_values_size; unfold ms', sizeZ; rewrite length_fmap; lia).
    rewrite Hs, pop_values_app. cbn [bind]. rewrite members_of_values. done.
  - inversion Hwf as [| | |? ? Hes Hsz| |]; subst.
    cbn [events send handle Document_Handler push and_then bind doc_value doc_stack].
    rewrite send_app, send_elements.
    2: { rewrite Forall_forall in *. auto. }
    cbn [and_then bind]. rewrite send_one. cbn [handle Document_Handler doc_value doc_stack].
    replace (sizeZ es) with (sizeZ (CopyFrom <$> es)) by (unfold sizeZ; by rewrite length_fmap).
    by rewrite pop_values_app.
  - inversion Hwf as [| | | | |? ? Hn]; subst. cbn [events]. rewrite send_one.
    by rewrite (handle_pushed _ _ _ (number_event_rebuilds f n Hn)).
Qed.

(** A document populated from the events of any well-formed value ends up
    with exactly its deep copy, numbers with their flags included; no pop
    leaves the stack and one value is left at the end. *)
Theorem document_clones (v : Value) (d : Document) :
  wf_value v -> d.(doc_stack) = [] ->
  Populate (Accept v) d = Ret (mkDocument (CopyFrom v) []).
Proof.
  intros Hwf Hst. destruct d as [root st]. cbn in Hst. subst st. unfold Populate.
  rewrite Accept_send, (events_build v Hwf). done.
Qed.

Lemma document_clones_witness :
  Populate (Accept (VObject 16 [(str "a", Value_integer (2 ^ 63)); (str "b", VArray 4 [VNull; VBool true])]))
    new_Document =
  Ret (mkDocument (VObject 2 [(str "a", Value_integer (2 ^ 63)); (str "b", VArray 2 [VNull; VBool true])]) []).
Proof.
  apply (document_clones (VObject 16 [(str "a", Value_integer (2 ^ 63)); (str "b", VArray 4 [VNull; VBool true])])
           new_Document); [|reflexivity].
  constructor; [|repeat (apply List.Forall_cons || apply List.Forall_nil)|vm_compute; reflexivity].
  - repeat (apply List.Forall_cons || apply List.Forall_nil); (split; [|vm_compute; congruence]);
      repeat (apply List.Forall_cons || apply List.Forall_nil); split; vm_compute; congruence.
  - apply wf_num. left. exists (2 ^ 63). split; [lia | reflexivity].
  - constructor; [repeat (apply List.Forall_cons || apply List.Forall_nil); constructor | vm_compute; reflexivity].
Defined.
