(* ===== verification/Reader.v ===== *)
(** * The SAX parser (reader.h, error/error.h)

    [GenericReader] over a NUL-terminated UTF-8 text: the recursive parser, the
    iterative parser with its transition table, and the event a number, a
    string or a literal causes.  The parse flags are a parameter; the template
    instances for in-situ text, numbers kept as strings and full precision are
    other instances of the templates and are not modelled ([modelled_flags]).
    Arithmetic on the [int] exponents is checked for overflow; the count
    [significandDigit] never exceeds 40 and is not.

    A parsing function changes the stream and the handler and either goes on
    or records an error, after which every caller returns at once
    ([RAPIDJSON_PARSE_ERROR_EARLY_RETURN]).  Loops are bounded by the length of
    the text that is left; each iteration takes at least one character. *)
From S2P Require Import Prelude Decimal Types Doubles Strtod StringBuffer Encodings Value Handler.
From Stdlib Require Import SpecFloat.

(** ** Errors *)
Inductive ParseErrorCode :=
  | kParseErrorNone
  | kParseErrorDocumentEmpty | kParseErrorDocumentRootNotSingular
  | kParseErrorValueInvalid
  | kParseErrorObjectMissName | kParseErrorObjectMissColon | kParseErrorObjectMissCommaOrCurlyBracket
  | kParseErrorArrayMissCommaOrSquareBracket
  | kParseErrorStringUnicodeEscapeInvalidHex | kParseErrorStringUnicodeSurrogateInvalid
  | kParseErrorStringEscapeInvalid | kParseErrorStringMissQuotationMark | kParseErrorStringInvalidEncoding
  | kParseErrorNumberTooBig | kParseErrorNumberMissFraction | kParseErrorNumberMissExponent
  | kParseErrorTermination | kParseErrorUnspecificSyntaxError.

#[export] Instance ParseErrorCode_eq_dec : EqDecision ParseErrorCode.
Proof. solve_decision. Defined.

Record ParseResult := mkParseResult { Code : ParseErrorCode; Offset : Z }.

Definition IsError (r : ParseResult) : bool := negb (bool_decide (r.(Code) = kParseErrorNone)).

(** ** The flags *)
Definition kParseNoFlags : Z := 0.
Definition kParseInsituFlag : Z := 1.
Definition kParseValidateEncodingFlag : Z := 2.
Definition kParseIterativeFlag : Z := 4.
Definition kParseStopWhenDoneFlag : Z := 8.
Definition kParseFullPrecisionFlag : Z := 16.
Definition kParseCommentsFlag : Z := 32.
Definition kParseNumbersAsStringsFlag : Z := 64.
Definition kParseTrailingCommasFlag : Z := 128.
Definition kParseNanAndInfFlag : Z := 256.
Definition kParseEscapedApostropheFlag : Z := 512.

Definition flag_set (parseFlags flag : Z) : bool := negb (Z.land parseFlags flag =? 0).

(** The flags whose instances of the templates are modelled; the theorems ask
    for them. *)
Definition modelled_flags (parseFlags : Z) : Prop :=
  flag_set parseFlags kParseInsituFlag = false /\
  flag_set parseFlags kParseFullPrecisionFlag = false /\
  flag_set parseFlags kParseNumbersAsStringsFlag = false.

(** ** Parsing functions *)
Inductive parsed (H A : Type) : Type :=
  | POk (a : A) (s : StringStream) (h : H)
  | PErr (code : ParseErrorCode) (offset : Z) (h : H).
Arguments POk {H A}.
Arguments PErr {H A}.

Definition parser (H A : Type) : Type := StringStream -> H -> outcome (parsed H A).

Definition pret {H A} (a : A) : parser H A := fun s h => Ret (POk a s h).

Definition pbind {H A B} (m : parser H A) (k : A -> parser H B) : parser H B := fun s h =>
  let* r := m s h in
  match r with
  | POk a s h => k a s h
  | PErr code offset h => Ret (PErr code offset h)
  end.

Notation "'let!' x ':=' m 'in' k" := (pbind m (fun x => k))
  (at level 10, x pattern, m at level 100, k at level 200) : cpp_scope.

(** [RAPIDJSON_PARSE_ERROR(code, offset)] *)
Definition fail {H A} (code : ParseErrorCode) (offset : Z) : parser H A := fun _ h => Ret (PErr code offset h).

Definition lift {H A} (m : outcome A) : parser H A := fun s h => let* a := m in Ret (POk a s h).
Definition peek {H} : parser H Z := fun s h => let* c := Peek s in Ret (POk c s h).
Definition take_ch {H} : parser H Z := fun s h => let* (c, s) := Take s in Ret (POk c s h).
Definition tell {H} : parser H Z := fun s h => Ret (POk (Tell s) s h).

(** [RAPIDJSON_PARSE_ERROR(code, is.Tell())] *)
Definition fail_here {H A} (code : ParseErrorCode) : parser H A := let! offset := tell in fail code offset.

(** An [int] result. *)
Definition int_op {H} (z : Z) : parser H Z := lift (int_result z).

(** A call of the handler. *)
Definition emit {H} `{Handler H} (e : event) : parser H bool := fun s h =>
  let* (ok, h) := handle e h in Ret (POk ok s h).

(** A loop with a bound from the text that is left. *)
Definition bounded {H A} (loop : nat -> parser H A) : parser H A := fun s h => loop (length s.(src_)) s h.
Definition out_of_fuel {H A} : parser H A := fun _ _ => Undefined FuelExhausted.

(** ** The buffer of decoded characters

    What [StackStream] has pushed on the reader's stack, and its 32-bit count.
    [Pop] returns the last [length_] of them. *)
Record StackStream := mkStackStream { pushed_ : list Z; length_ : Z }.

Definition new_StackStream : StackStream := mkStackStream [] 0.

#[export] Instance StackStream_OutputStream : OutputStream StackStream := fun c os =>
  Ret (mkStackStream (os.(pushed_) ++ [c]) (u32 (os.(length_) + 1))).

Definition StackStream_Pop (os : StackStream) : outcome (list Z) :=
  let size := sizeZ os.(pushed_) in
  if size <? os.(length_) then Undefined AssertionFailed
  else Ret (drop (Z.to_nat (size - os.(length_))) os.(pushed_)).

(** ** Lexical functions *)

(** [static_cast<unsigned>(c)] of a signed [char]. *)
Definition unsigned_char (c : Z) : Z := u32 (if c <? 128 then c else c - 256).

(** The escapes of [ParseStringToStream]. *)
Definition unescape : list Z :=
  let Z16 := replicate 16 0 in
  Z16 ++ Z16 ++ [0; 0; 34; 0; 0; 0; 0; 0; 0; 0; 0; 0; 0; 0; 0; 47] ++
  Z16 ++ Z16 ++ [0; 0; 0; 0; 0; 0; 0; 0; 0; 0; 0; 0; 92; 0; 0; 0] ++
  [0; 0; 8; 0; 0; 0; 12; 0; 0; 0; 0; 0; 0; 0; 10; 0] ++
  [0; 0; 13; 0; 9; 0; 0; 0; 0; 0; 0; 0; 0; 0; 0; 0] ++
  Z16 ++ Z16 ++ Z16 ++ Z16 ++ Z16 ++ Z16 ++ Z16 ++ Z16.

Section Reader.
Context {H : Type} `{Handler H} (parseFlags : Z).

Definition Consume (expect : Z) : parser H bool :=
  let! c := peek in
  if c =? expect then let! _ := take_ch in pret true else pret false.

(** [Consume] of each character in turn, up to the first that differs. *)
Fixpoint consume_all (expected : list Z) : parser H bool :=
  match expected with
  | [] => pret true
  | c :: expected => let! ok := Consume c in if ok : bool then consume_all expected else pret false
  end.

Fixpoint skip_spaces (fuel : nat) : parser H unit :=
  match fuel with
  | O => out_of_fuel
  | S fuel =>
      let! c := peek in
      if (c =? 32) || (c =? 10) || (c =? 13) || (c =? 9)
      then let! _ := take_ch in skip_spaces fuel
      else pret tt
  end.

Definition SkipWhitespace : parser H unit := bounded skip_spaces.

(** The body of a comment, after its opening. *)
Fixpoint skip_block (fuel : nat) : parser H unit :=
  match fuel with
  | O => out_of_fuel
  | S fuel =>
      let! c := peek in
      if c =? 0 then fail_here kParseErrorUnspecificSyntaxError
      else
        let! star := Consume 42 in
        if star : bool then
          let! slash := Consume 47 in
          if slash : bool then pret tt else skip_block fuel
        else let! _ := take_ch in skip_block fuel
  end.

Fixpoint skip_line (fuel : nat) : parser H unit :=
  match fuel with
  | O => out_of_fuel
  | S fuel =>
      let! c := peek in
      if c =? 0 then pret tt
      else let! c := take_ch in if c =? 10 then pret tt else skip_line fuel
  end.

Fixpoint skip_comments (fuel : nat) : parser H unit :=
  match fuel with
  | O => out_of_fuel
  | S fuel =>
      let! slash := Consume 47 in
      if slash : bool then
        let! star := Consume 42 in
        let! _ := (if star : bool then bounded skip_block
                   else let! slash := Consume 47 in
                        if slash : bool then bounded skip_line
                        else fail_here kParseErrorUnspecificSyntaxError) in
        let! _ := SkipWhitespace in
        skip_comments fuel
      else pret tt
  end.

Definition SkipWhitespaceAndComments : parser H unit :=
  let! _ := SkipWhitespace in
  if flag_set parseFlags kParseCommentsFlag then bounded skip_comments else pret tt.

(** ** Literals *)
Definition parse_literal (first : Z) (rest : list Z) (e : event) : parser H unit :=
  let! c := peek in
  if negb (c =? first) then lift (Undefined AssertionFailed)
  else
    let! _ := take_ch in
    let! ok := consume_all rest in
    if ok : bool then
      let! cont := emit e in
      if cont : bool then pret tt else fail_here kParseErrorTermination
    else fail_here kParseErrorValueInvalid.

Definition ParseNull : parser H unit := parse_literal 110 (str "ull") ENull.
Definition ParseTrue : parser H unit := parse_literal 116 (str "rue") (EBool true).
Definition ParseFalse : parser H unit := parse_literal 102 (str "alse") (EBool false).

(** ** Strings *)
Fixpoint parse_hex (i : nat) (escapeOffset codepoint : Z) : parser H Z :=
  match i with
  | O => pret codepoint
  | S i =>
      let! c := peek in
      let codepoint := u32 (u32 (Z.shiftl codepoint 4) + unsigned_char c) in
      if (48 <=? c) && (c <=? 57) then
        let! _ := take_ch in parse_hex i escapeOffset (u32 (codepoint - 48))
      else if (65 <=? c) && (c <=? 70) then
        let! _ := take_ch in parse_hex i escapeOffset (u32 (codepoint - 55))
      else if (97 <=? c) && (c <=? 102) then
        let! _ := take_ch in parse_hex i escapeOffset (u32 (codepoint - 87))
      else fail kParseErrorStringUnicodeEscapeInvalidHex escapeOffset
  end.

Definition ParseHex4 (escapeOffset : Z) : parser H Z := parse_hex 4 escapeOffset 0.

(** The code point after backslash and u. *)
Definition parse_unicode (escapeOffset : Z) : parser H Z :=
  let! codepoint := ParseHex4 escapeOffset in
  if (0xD800 <=? codepoint) && (codepoint <=? 0xDFFF) then
    if codepoint <=? 0xDBFF then
      let! ok := consume_all [92; 117] in
      if ok : bool then
        let! codepoint2 := ParseHex4 escapeOffset in
        if (codepoint2 <? 0xDC00) || (codepoint2 >? 0xDFFF)
        then fail kParseErrorStringUnicodeSurrogateInvalid escapeOffset
        else pret (u32 (Z.lor (u32 (Z.shiftl (codepoint - 0xD800) 10)) (codepoint2 - 0xDC00) + 0x10000))
      else fail kParseErrorStringUnicodeSurrogateInvalid escapeOffset
    else fail kParseErrorStringUnicodeSurrogateInvalid escapeOffset
  else pret codepoint.

Definition put_ch (c : Z) (os : StackStream) : parser H StackStream := lift (os_Put c os).

(** [Transcoder::Transcode] copies one code unit, [Validate] one sequence. *)
Definition transcode (os : StackStream) : parser H (bool * StackStream) :=
  if flag_set parseFlags kParseValidateEncodingFlag then fun s h =>
    let* (ok, s, os) := UTF8.Validate s os in Ret (POk (ok, os) s h)
  else
    let! c := take_ch in let! os := put_ch c os in pret (true, os).

Fixpoint ParseStringToStream (fuel : nat) (os : StackStream) : parser H StackStream :=
  match fuel with
  | O => out_of_fuel
  | S fuel =>
      let! c := peek in
      if c =? 92 then
        let! escapeOffset := tell in
        let! _ := take_ch in
        let! e := peek in
        let! esc := lift (lookupZ unescape e) in
        if negb (esc =? 0) then
          let! _ := take_ch in let! os := put_ch esc os in ParseStringToStream fuel os
        else if flag_set parseFlags kParseEscapedApostropheFlag && (e =? 39) then
          let! _ := take_ch in let! os := put_ch 39 os in ParseStringToStream fuel os
        else if e =? 117 then
          let! _ := take_ch in
          let! codepoint := parse_unicode escapeOffset in
          let! os := lift (UTF8.Encode os codepoint) in
          ParseStringToStream fuel os
        else fail kParseErrorStringEscapeInvalid escapeOffset
      else if c =? 34 then
        let! _ := take_ch in put_ch 0 os
      else if unsigned_char c <? 0x20 then
        if c =? 0 then fail_here kParseErrorStringMissQuotationMark
        else fail_here kParseErrorStringInvalidEncoding
      else
        let! offset := tell in
        let! (ok, os) := transcode os in
        if ok : bool then ParseStringToStream fuel os
        else fail kParseErrorStringInvalidEncoding offset
  end.

(** With [kParseInsituFlag] the read-only stream fails the assertion of its
    [PutBegin]. *)
Definition ParseString (isKey : bool) : parser H unit :=
  let! c := peek in
  if negb (c =? 34) then lift (Undefined AssertionFailed)
  else
    let! _ := take_ch in
    if flag_set parseFlags kParseInsituFlag then lift (Undefined AssertionFailed)
    else
      let! os := bounded (fun fuel => ParseStringToStream fuel new_StackStream) in
      let length := u32 (os.(length_) - 1) in
      let! popped := lift (StackStream_Pop os) in
      let text := take (Z.to_nat length) popped in
      let! success := emit (if isKey then EKey text else EString text) in
      if success : bool then pret tt else fail_here kParseErrorTermination.

(** ** Numbers *)

(** The integer digits while they fit: stop before a digit that could take [i]
    beyond the type.  [last] is the largest digit allowed after [limit]. *)
Fixpoint integer_digits (wrap : Z -> Z) (limit last : Z) (fuel : nat) (i significandDigit : Z)
  : parser H (Z * bool * Z) :=
  match fuel with
  | O => out_of_fuel
  | S fuel =>
      let! c := peek in
      if isdigit c then
        if (limit <=? i) && (negb (i =? limit) || (last <? c)) then pret (i, true, significandDigit)
        else
          let! c := take_ch in
          integer_digits wrap limit last fuel (wrap (i * 10 + (c - 48))) (significandDigit + 1)
      else pret (i, false, significandDigit)
  end.

(** [while (digit) d = d * 10 + (s.TakePush() - '0')] *)
Fixpoint double_digits (fuel : nat) (d : double) : parser H double :=
  match fuel with
  | O => out_of_fuel
  | S fuel =>
      let! c := peek in
      if isdigit c then
        let! c := take_ch in
        double_digits fuel (dadd (dmul d (double_of_Z 10)) (double_of_Z (c - 48)))
      else pret d
  end.

(** The fraction digits into the 64-bit significand, up to 2^53 - 1. *)
Fixpoint fraction_digits (fuel : nat) (i64 expFrac significandDigit : Z) : parser H (Z * Z * Z) :=
  match fuel with
  | O => out_of_fuel
  | S fuel =>
      let! c := peek in
      if isdigit c then
        if i64 >? 0x1FFFFFFFFFFFFF then pret (i64, expFrac, significandDigit)
        else
          let! c := take_ch in
          let i64 := u64 (i64 * 10 + (c - 48)) in
          let! expFrac := int_op (expFrac - 1) in
          fraction_digits fuel i64 expFrac
            (if negb (i64 =? 0) then significandDigit + 1 else significandDigit)
      else pret (i64, expFrac, significandDigit)
  end.

(** The rest of them into the double, up to 17 significant digits. *)
Fixpoint fraction_rest (fuel : nat) (d : double) (expFrac significandDigit : Z) : parser H (double * Z) :=
  match fuel with
  | O => out_of_fuel
  | S fuel =>
      let! c := peek in
      if isdigit c then
        let! c := take_ch in
        if significandDigit <? 17 then
          let d := dadd (dmul d (double_of_Z 10)) (double_of_Z (c - 48)) in
          let! expFrac := int_op (expFrac - 1) in
          fraction_rest fuel d expFrac
            (if dltb dzero d then significandDigit + 1 else significandDigit)
        else fraction_rest fuel d expFrac significandDigit
      else pret (d, expFrac)
  end.

Fixpoint skip_digits (fuel : nat) : parser H unit :=
  match fuel with
  | O => out_of_fuel
  | S fuel =>
      let! c := peek in
      if isdigit c then let! _ := take_ch in skip_digits fuel else pret tt
  end.

Fixpoint exponent_digits (expMinus : bool) (maxExp startOffset : Z) (fuel : nat) (exp : Z) : parser H Z :=
  match fuel with
  | O => out_of_fuel
  | S fuel =>
      let! c := peek in
      if isdigit c then
        let! c := take_ch in
        let! exp := int_op (exp * 10) in
        let! exp := int_op (exp + (c - 48)) in
        if exp >? maxExp then
          if expMinus then let! _ := bounded skip_digits in exponent_digits expMinus maxExp startOffset fuel exp
          else fail kParseErrorNumberTooBig startOffset
        else exponent_digits expMinus maxExp startOffset fuel exp
      else pret exp
  end.

(** The significand before the fraction: [i], [i64] and [d], and which of them
    holds it; [NanOrInf] for the literals the flag allows. *)
Inductive significand :=
  | Sig32 (i : Z)
  | Sig64 (i64 : Z)
  | SigDouble (d : double)
  | NanOrInf (d : double).

Definition parse_nan_inf (minus : bool) : parser H significand :=
  let! n := Consume 78 in
  if n : bool then
    let! ok := consume_all (str "aN") in
    if ok : bool then pret (NanOrInf S754_nan) else fail_here kParseErrorValueInvalid
  else
    let! i := Consume 73 in
    if i : bool then
      let! ok := consume_all (str "nf") in
      if ok : bool then
        let! c := peek in
        let! ok := (if c =? 105 then consume_all (str "inity") else pret true) in
        if ok : bool then pret (NanOrInf (S754_infinity minus)) else fail_here kParseErrorValueInvalid
      else fail_here kParseErrorValueInvalid
    else fail_here kParseErrorValueInvalid.

(** [int]: zero / ( digit1-9 *DIGIT ), with [significandDigit]. *)
Definition parse_integer (minus : bool) : parser H (significand * Z) :=
  let! c := peek in
  if c =? 48 then let! _ := take_ch in pret (Sig32 0, 0)
  else if (49 <=? c) && (c <=? 57) then
    let! c := take_ch in
    let i := c - 48 in
    let! (i, use64bit, significandDigit) :=
      bounded (fun fuel => if minus then integer_digits u32 214748364 56 fuel i 0
                           else integer_digits u32 429496729 53 fuel i 0) in
    if use64bit : bool then
      let! (i64, useDouble, significandDigit) :=
        bounded (fun fuel =>
          if minus then integer_digits u64 0x0CCCCCCCCCCCCCCC 56 fuel i significandDigit
          else integer_digits u64 0x1999999999999999 53 fuel i significandDigit) in
      if useDouble : bool then
        let! d := bounded (fun fuel => double_digits fuel (double_of_Z i64)) in
        pret (SigDouble d, significandDigit)
      else pret (Sig64 i64, significandDigit)
    else pret (Sig32 i, significandDigit)
  else if flag_set parseFlags kParseNanAndInfFlag && ((c =? 73) || (c =? 78)) then
    let! sig := parse_nan_inf minus in pret (sig, 0)
  else fail_here kParseErrorValueInvalid.

Definition is_nan_or_inf (sig : significand) : bool :=
  match sig with NanOrInf _ => true | _ => false end.

(** [frac]: decimal-point 1*DIGIT, with [expFrac]. *)
Definition parse_fraction (sig : significand) (significandDigit : Z) : parser H (significand * Z) :=
  if is_nan_or_inf sig then pret (sig, 0)
  else
    let! point := Consume 46 in
    if point : bool then
      let! c := peek in
      if negb (isdigit c) then fail_here kParseErrorNumberMissFraction
      else
        let! (d, expFrac, significandDigit) :=
          (match sig with
           | Sig32 i64 | Sig64 i64 =>
               let! (i64, expFrac, significandDigit) :=
                 bounded (fun fuel => fraction_digits fuel i64 0 significandDigit) in
               pret (double_of_Z i64, expFrac, significandDigit)
           | SigDouble d | NanOrInf d => pret (d, 0, significandDigit)
           end) in
        let! (d, expFrac) := bounded (fun fuel => fraction_rest fuel d expFrac significandDigit) in
        pret (SigDouble d, expFrac)
    else pret (sig, 0).

(** [exp]: e [ minus / plus ] 1*DIGIT *)
Definition parse_exponent (sig : significand) (expFrac startOffset : Z) : parser H (significand * Z) :=
  if is_nan_or_inf sig then pret (sig, 0)
  else
    let! e := Consume 101 in
    let! e := (if e : bool then pret true else Consume 69) in
    if e : bool then
      let sig := match sig with Sig32 i | Sig64 i => SigDouble (double_of_Z i) | _ => sig end in
      let! plus := Consume 43 in
      let! expMinus := (if plus : bool then pret false else Consume 45) in
      let! c := peek in
      if isdigit c then
        let! c := take_ch in
        let! maxExp := (if expMinus : bool then let! x := int_op (expFrac + 2147483639) in pret (Z.quot x 10)
                        else int_op (308 - expFrac)) in
        let! exp := bounded (fun fuel => exponent_digits expMinus maxExp startOffset fuel (c - 48)) in
        let! exp := (if expMinus : bool then int_op (- exp) else pret exp) in
        pret (sig, exp)
      else fail_here kParseErrorNumberMissExponent
    else pret (sig, 0).

Definition double_max : double := S754_finite false 0x1FFFFFFFFFFFFF 971.

(** The event of a number. *)
Definition number_result (minus : bool) (sig : significand) (expFrac exp startOffset : Z) : parser H event :=
  match sig with
  | SigDouble d =>
      let! p := int_op (exp + expFrac) in
      let! d := lift (StrtodNormalPrecision d p) in
      if dltb double_max d then fail kParseErrorNumberTooBig startOffset
      else pret (EDouble (if minus then SFopp d else d))
  | NanOrInf d => pret (EDouble d)
  | Sig64 i64 => pret (if minus then EInt64 (Prelude.i64 (u64 (u64 (Z.lnot i64) + 1))) else EUint64 i64)
  | Sig32 i => pret (if minus then EInt (i32 (u32 (u32 (Z.lnot i) + 1))) else EUint i)
  end.

Definition ParseNumber : parser H unit :=
  let! startOffset := tell in
  let! minus := Consume 45 in
  let! (sig, significandDigit) := parse_integer minus in
  let! (sig, expFrac) := parse_fraction sig significandDigit in
  let! (sig, exp) := parse_exponent sig expFrac startOffset in
  let! e := number_result minus sig expFrac exp startOffset in
  let! cont := emit e in
  if cont : bool then pret tt else fail kParseErrorTermination startOffset.

(** ** Objects, arrays, values *)

(** The handler's last call of a compound value. *)
Definition finish (e : event) : parser H unit :=
  let! cont := emit e in
  if cont : bool then pret tt else fail_here kParseErrorTermination.

Section Compound.
Variable parse_value : parser H unit.

Fixpoint parse_members (fuel : nat) (memberCount : Z) : parser H unit :=
  match fuel with
  | O => out_of_fuel
  | S fuel =>
      let! c := peek in
      if negb (c =? 34) then fail_here kParseErrorObjectMissName
      else
        let! _ := ParseString true in
        let! _ := SkipWhitespaceAndComments in
        let! colon := Consume 58 in
        if negb colon then fail_here kParseErrorObjectMissColon
        else
          let! _ := SkipWhitespaceAndComments in
          let! _ := parse_value in
          let! _ := SkipWhitespaceAndComments in
          let memberCount := u32 (memberCount + 1) in
          let! c := peek in
          if c =? 44 then
            let! _ := take_ch in
            let! _ := SkipWhitespaceAndComments in
            if flag_set parseFlags kParseTrailingCommasFlag then
              let! c := peek in
              if c =? 125 then
                let! _ := finish (EEndObject memberCount) in
                let! _ := take_ch in pret tt
              else parse_members fuel memberCount
            else parse_members fuel memberCount
          else if c =? 125 then
            let! _ := take_ch in finish (EEndObject memberCount)
          else fail_here kParseErrorObjectMissCommaOrCurlyBracket
  end.

Definition ParseObject : parser H unit :=
  let! c := peek in
  if negb (c =? 123) then lift (Undefined AssertionFailed)
  else
    let! _ := take_ch in
    let! _ := finish EStartObject in
    let! _ := SkipWhitespaceAndComments in
    let! closed := Consume 125 in
    if closed : bool then finish (EEndObject 0)
    else bounded (fun fuel => parse_members fuel 0).

Fixpoint parse_elements (fuel : nat) (elementCount : Z) : parser H unit :=
  match fuel with
  | O => out_of_fuel
  | S fuel =>
      let! _ := parse_value in
      let elementCount := u32 (elementCount + 1) in
      let! _ := SkipWhitespaceAndComments in
      let! comma := Consume 44 in
      if comma : bool then
        let! _ := SkipWhitespaceAndComments in
        if flag_set parseFlags kParseTrailingCommasFlag then
          let! c := peek in
          if c =? 93 then
            let! _ := finish (EEndArray elementCount) in
            let! _ := take_ch in pret tt
          else parse_elements fuel elementCount
        else parse_elements fuel elementCount
      else
        let! closed := Consume 93 in
        if closed : bool then finish (EEndArray elementCount)
        else fail_here kParseErrorArrayMissCommaOrSquareBracket
  end.

Definition ParseArray : parser H unit :=
  let! c := peek in
  if negb (c =? 91) then lift (Undefined AssertionFailed)
  else
    let! _ := take_ch in
    let! _ := finish EStartArray in
    let! _ := SkipWhitespaceAndComments in
    let! closed := Consume 93 in
    if closed : bool then finish (EEndArray 0)
    else bounded (fun fuel => parse_elements fuel 0).
End Compound.

(** The recursion is bounded by the text that is left. *)
Fixpoint parse_value (fuel : nat) : parser H unit :=
  match fuel with
  | O => out_of_fuel
  | S fuel =>
      let! c := peek in
      if c =? 110 then ParseNull
      else if c =? 116 then ParseTrue
      else if c =? 102 then ParseFalse
      else if c =? 34 then ParseString false
      else if c =? 123 then ParseObject (parse_value fuel)
      else if c =? 91 then ParseArray (parse_value fuel)
      else ParseNumber
  end.

Definition ParseValue : parser H unit := bounded parse_value.

(** [Parse] up to its result. *)
Definition parse_document : parser H unit :=
  let! _ := SkipWhitespaceAndComments in
  let! c := peek in
  if c =? 0 then fail_here kParseErrorDocumentEmpty
  else
    let! _ := ParseValue in
    if flag_set parseFlags kParseStopWhenDoneFlag then pret tt
    else
      let! _ := SkipWhitespaceAndComments in
      let! c := peek in
      if negb (c =? 0) then fail_here kParseErrorDocumentRootNotSingular else pret tt.

(** The recorded error, and the handler at the end. *)
Definition result_of {A} (r : parsed H A) : ParseResult * H :=
  match r with
  | POk _ _ h => (mkParseResult kParseErrorNone 0, h)
  | PErr code offset h => (mkParseResult code offset, h)
  end.
End Reader.

(** ** The iterative parser *)
Inductive IterativeParsingState :=
  | IterativeParsingFinishState
  | IterativeParsingErrorState
  | IterativeParsingStartState
  | IterativeParsingObjectInitialState
  | IterativeParsingMemberKeyState
  | IterativeParsingMemberValueState
  | IterativeParsingObjectFinishState
  | IterativeParsingArrayInitialState
  | IterativeParsingElementState
  | IterativeParsingArrayFinishState
  | IterativeParsingValueState
  | IterativeParsingElementDelimiterState
  | IterativeParsingMemberDelimiterState
  | IterativeParsingKeyValueDelimiterState.

Inductive Token :=
  | LeftBracketToken | RightBracketToken
  | LeftCurlyBracketToken | RightCurlyBracketToken
  | CommaToken | ColonToken
  | StringToken | FalseToken | TrueToken | NullToken | NumberToken.

#[export] Instance IterativeParsingState_eq_dec : EqDecision IterativeParsingState.
Proof. solve_decision. Defined.

#[export] Instance Token_eq_dec : EqDecision Token.
Proof. solve_decision. Defined.

Definition state_code (s : IterativeParsingState) : Z :=
  match s with
  | IterativeParsingFinishState => 0
  | IterativeParsingErrorState => 1
  | IterativeParsingStartState => 2
  | IterativeParsingObjectInitialState => 3
  | IterativeParsingMemberKeyState => 4
  | IterativeParsingMemberValueState => 5
  | IterativeParsingObjectFinishState => 6
  | IterativeParsingArrayInitialState => 7
  | IterativeParsingElementState => 8
  | IterativeParsingArrayFinishState => 9
  | IterativeParsingValueState => 10
  | IterativeParsingElementDelimiterState => 11
  | IterativeParsingMemberDelimiterState => 12
  | IterativeParsingKeyValueDelimiterState => 13
  end.

Definition token_code (t : Token) : Z :=
  match t with
  | LeftBracketToken => 0 | RightBracketToken => 1
  | LeftCurlyBracketToken => 2 | RightCurlyBracketToken => 3
  | CommaToken => 4 | ColonToken => 5
  | StringToken => 6 | FalseToken => 7 | TrueToken => 8 | NullToken => 9 | NumberToken => 10
  end.

Definition tokenMap : list Token :=
  let N := NumberToken in
  let N16 := replicate 16 N in
  N16 ++ N16 ++
  [N; N; StringToken; N; N; N; N; N; N; N; N; N; CommaToken; N; N; N] ++
  [N; N; N; N; N; N; N; N; N; N; ColonToken; N; N; N; N; N] ++
  N16 ++
  [N; N; N; N; N; N; N; N; N; N; N; LeftBracketToken; N; RightBracketToken; N; N] ++
  [N; N; N; N; N; N; FalseToken; N; N; N; N; N; N; N; NullToken; N] ++
  [N; N; N; N; TrueToken; N; N; N; N; N; N; LeftCurlyBracketToken; N; RightCurlyBracketToken; N; N] ++
  N16 ++ N16 ++ N16 ++ N16 ++ N16 ++ N16 ++ N16 ++ N16.

Definition Tokenize (c : Z) : outcome Token := lookupZ tokenMap c.

(** The table: current state x one lookahead token -> new state. *)
Definition G : list (list IterativeParsingState) :=
  let Error := IterativeParsingErrorState in
  let sink := replicate 11 Error in
  let element_start :=
    [IterativeParsingArrayInitialState; IterativeParsingArrayFinishState;
     IterativeParsingObjectInitialState; Error; Error; Error;
     IterativeParsingElementState; IterativeParsingElementState; IterativeParsingElementState;
     IterativeParsingElementState; IterativeParsingElementState] in
  let key_start :=
    [Error; Error; Error; IterativeParsingObjectFinishState; Error; Error;
     IterativeParsingMemberKeyState; Error; Error; Error; Error] in
  [ (* Finish *) sink;
    (* Error *) sink;
    (* Start *)
    [IterativeParsingArrayInitialState; Error; IterativeParsingObjectInitialState; Error; Error; Error;
     IterativeParsingValueState; IterativeParsingValueState; IterativeParsingValueState;
     IterativeParsingValueState; IterativeParsingValueState];
    (* ObjectInitial *) key_start;
    (* MemberKey *)
    [Error; Error; Error; Error; Error; IterativeParsingKeyValueDelimiterState;
     Error; Error; Error; Error; Error];
    (* MemberValue *)
    [Error; Error; Error; IterativeParsingObjectFinishState; IterativeParsingMemberDelimiterState; Error;
     Error; Error; Error; Error; Error];
    (* ObjectFinish *) sink;
    (* ArrayInitial *) element_start;
    (* Element *)
    [Error; IterativeParsingArrayFinishState; Error; Error; IterativeParsingElementDelimiterState; Error;
     Error; Error; Error; Error; Error];
    (* ArrayFinish *) sink;
    (* Single value *) sink;
    (* ElementDelimiter *) element_start;
    (* MemberDelimiter *) key_start;
    (* KeyValueDelimiter *)
    [IterativeParsingArrayInitialState; Error; IterativeParsingObjectInitialState; Error; Error; Error;
     IterativeParsingMemberValueState; IterativeParsingMemberValueState; IterativeParsingMemberValueState;
     IterativeParsingMemberValueState; IterativeParsingMemberValueState] ].

Definition Predict (state : IterativeParsingState) (token : Token) : outcome IterativeParsingState :=
  let* row := lookupZ G (state_code state) in lookupZ row (token_code token).

(** The frames on the reader's stack: the state to restore and the count of
    members or elements. *)
Definition frames := list (IterativeParsingState * Z).

Section Iterative.
Context {H : Type} `{Handler H} (parseFlags : Z).

(** What a compound value leaves on the stack when it starts. *)
Definition frame_state (src : IterativeParsingState) : IterativeParsingState :=
  match src with
  | IterativeParsingArrayInitialState | IterativeParsingElementDelimiterState => IterativeParsingElementState
  | IterativeParsingKeyValueDelimiterState => IterativeParsingMemberValueState
  | _ => src
  end.

Definition start_compound (src dst : IterativeParsingState) (e : event) (stack : frames)
  : parser H (IterativeParsingState * frames) :=
  let stack := (frame_state src, 0) :: stack in
  let! hr := emit e in
  if hr : bool then let! _ := take_ch in pret (dst, stack) else fail_here kParseErrorTermination.

Definition end_compound (src value_state delimiter_state : IterativeParsingState) (missing : ParseErrorCode)
    (e : Z -> event) (stack : frames) : parser H (IterativeParsingState * frames) :=
  if negb (flag_set parseFlags kParseTrailingCommasFlag) && bool_decide (src = delimiter_state)
  then fail_here missing
  else
    match stack with
    | [] => lift (Undefined AssertionFailed)
    | (n, c) :: stack =>
        let c := if bool_decide (src = value_state) then u32 (c + 1) else c in
        let n := if bool_decide (n = IterativeParsingStartState) then IterativeParsingFinishState else n in
        let! hr := emit (e c) in
        if hr : bool then let! _ := take_ch in pret (n, stack) else fail_here kParseErrorTermination
    end.

Definition Transit (src : IterativeParsingState) (token : Token) (dst : IterativeParsingState) (stack : frames)
  : parser H (IterativeParsingState * frames) :=
  match dst with
  | IterativeParsingErrorState => pret (dst, stack)
  | IterativeParsingObjectInitialState => start_compound src dst EStartObject stack
  | IterativeParsingArrayInitialState => start_compound src dst EStartArray stack
  | IterativeParsingMemberKeyState => let! _ := ParseString parseFlags true in pret (dst, stack)
  | IterativeParsingKeyValueDelimiterState =>
      if bool_decide (token = ColonToken) then let! _ := take_ch in pret (dst, stack)
      else lift (Undefined AssertionFailed)
  | IterativeParsingMemberValueState | IterativeParsingElementState =>
      let! _ := ParseValue parseFlags in pret (dst, stack)
  | IterativeParsingMemberDelimiterState | IterativeParsingElementDelimiterState =>
      let! _ := take_ch in
      match stack with
      | [] => lift (Undefined AssertionFailed)
      | (n, c) :: stack => pret (dst, (n, u32 (c + 1)) :: stack)
      end
  | IterativeParsingObjectFinishState =>
      end_compound src IterativeParsingMemberValueState IterativeParsingMemberDelimiterState
        kParseErrorObjectMissName EEndObject stack
  | IterativeParsingArrayFinishState =>
      end_compound src IterativeParsingElementState IterativeParsingElementDelimiterState
        kParseErrorValueInvalid EEndArray stack
  | IterativeParsingValueState =>
      let! _ := ParseValue parseFlags in pret (IterativeParsingFinishState, stack)
  | _ => lift (Undefined AssertionFailed)
  end.

(** The error of the state the parser stopped in. *)
Definition HandleError {A} (src : IterativeParsingState) : parser H A :=
  match src with
  | IterativeParsingStartState => fail_here kParseErrorDocumentEmpty
  | IterativeParsingFinishState => fail_here kParseErrorDocumentRootNotSingular
  | IterativeParsingObjectInitialState | IterativeParsingMemberDelimiterState =>
      fail_here kParseErrorObjectMissName
  | IterativeParsingMemberKeyState => fail_here kParseErrorObjectMissColon
  | IterativeParsingMemberValueState => fail_here kParseErrorObjectMissCommaOrCurlyBracket
  | IterativeParsingKeyValueDelimiterState | IterativeParsingArrayInitialState
  | IterativeParsingElementDelimiterState => fail_here kParseErrorValueInvalid
  | IterativeParsingElementState => fail_here kParseErrorArrayMissCommaOrSquareBracket
  | _ => lift (Undefined AssertionFailed)
  end.

(** The loop of [IterativeParse] and what follows it. *)
Fixpoint iterate (fuel : nat) (state : IterativeParsingState) (stack : frames) : parser H unit :=
  match fuel with
  | O => out_of_fuel
  | S fuel =>
      let! c := peek in
      if c =? 0 then
        if bool_decide (state = IterativeParsingFinishState) then pret tt else HandleError state
      else
        let! t := lift (Tokenize c) in
        let! n := lift (Predict state t) in
        let! (d, stack) := Transit state t n stack in
        if bool_decide (d = IterativeParsingErrorState) then HandleError state
        else if flag_set parseFlags kParseStopWhenDoneFlag && bool_decide (d = IterativeParsingFinishState)
        then pret tt
        else
          let! _ := SkipWhitespaceAndComments parseFlags in
          iterate fuel d stack
  end.

Definition IterativeParse : parser H unit :=
  let! _ := SkipWhitespaceAndComments parseFlags in
  bounded (fun fuel => iterate fuel IterativeParsingStartState []).

(** [GenericReader::Parse] *)
Definition Parse (s : StringStream) (h : H) : outcome (ParseResult * H) :=
  let* r := (if flag_set parseFlags kParseIterativeFlag then IterativeParse else parse_document parseFlags) s h in
  Ret (result_of r).
End Iterative.
