(* ===== verification/ReaderLogic.v ===== *)
(** * Reasoning about parsing functions

    A parsing function started on a well-formed stream either succeeds or
    records an error, and on the way sends a sequence of events that does not
    depend on the handler: this is [sound].  Rules for the operations the
    parser is made of let a proof follow the code. *)
From S2P Require Import Prelude Decimal Types Doubles StringBuffer Encodings Value Handler Reader.

(** A text of bytes whose terminating NUL is ahead, [N] bytes long with it. *)
Record ok_stream (N : Z) (s : StringStream) : Prop := {
  ok_bytes : Forall (fun c => 0 <= c < 256) s.(src_);
  ok_last : last s.(src_) = Some 0;
  ok_offset : 0 <= s.(offset_);
  ok_length : s.(offset_) + sizeZ s.(src_) = N;
  ok_size : N <= 2 ^ 31
}.

Definition left (s : StringStream) : nat := length s.(src_).

Lemma ok_new text :
  Forall (fun c => 0 <= c < 256) text -> sizeZ text < 2 ^ 31 -> ok_stream (sizeZ text + 1) (new_StringStream text).
Proof.
  intros Hb Hs. constructor; cbn [new_StringStream src_ offset_].
  - apply Forall_app. split; [done|]. constructor; [lia | constructor].
  - apply last_snoc.
  - done.
  - unfold sizeZ. rewrite length_app. simpl. lia.
  - lia.
Qed.

Lemma ok_cons N s : ok_stream N s -> exists c rest,
  s = mkStream (c :: rest) s.(offset_) /\ 0 <= c < 256 /\ s.(offset_) < N /\
  (c <> 0 -> ok_stream N (mkStream rest (u64 (s.(offset_) + 1)))).
Proof.
  intros [Hb Hl Ho Hn HN]. destruct s as [[|c rest] o]; [done|]. cbn [src_ offset_] in *.
  apply Forall_cons in Hb as [Hc Hb]. exists c, rest. unfold sizeZ in *. cbn [length] in Hn.
  split; [done|]. split; [done|]. split; [lia|]. intros H0.
  assert (u64 (o + 1) = o + 1) as -> by (apply u64_small; lia).
  constructor; cbn [src_ offset_]; [done | | lia | unfold sizeZ; lia | done].
  destruct rest; [cbn in Hl; congruence | done].
Qed.

Lemma ok_open N l o : ok_stream N (mkStream l o) -> exists c rest,
  l = c :: rest /\ 0 <= c < 256 /\ 0 <= o < N /\ (c <> 0 -> ok_stream N (mkStream rest (u64 (o + 1)))).
Proof.
  intros Hs. pose proof (ok_offset _ _ Hs). destruct (ok_cons N _ Hs) as (c & rest & He & Hc & Ho & Hr).
  cbn [offset_] in *. injection He as ->. exists c, rest. split; [done|]. split; [done|]. split; [lia | done].
Qed.

Lemma ok_left N s : ok_stream N s -> Z.of_nat (left s) <= N.
Proof. intros [_ _ Ho Hl _]. unfold left, sizeZ in *. lia. Qed.

(** The stream [s] with [Hs : ok_stream N s] as its first character and the rest. *)
Ltac open_stream s Hs c rest o Hc Hr :=
  let l := fresh "l" in let Ho := fresh "Ho" in let He := fresh in
  destruct s as [l o];
  pose proof (ok_open _ _ _ Hs) as (c & rest & He & Hc & Ho & Hr);
  subst l.

Ltac solve_left := unfold left in *; cbn [src_ length] in *; lia.

Section Logic.
Context {H : Type} `{Handler H} (N : Z).

(** Sending [es] explains the outcome: it ends as [fin] says, unless the
    handler refuses an event or fails itself. *)
Definition runs {A} (es : list event) (fin : H -> parsed H A) (h : H) (o : outcome (parsed H A)) : Prop :=
  match send es h with
  | Ret (true, h') => o = Ret (fin h')
  | Ret (false, h') => exists off, 0 <= off < N /\ o = Ret (PErr kParseErrorTermination off h')
  | Throw e => o = Throw e
  | Undefined u => o = Undefined u
  end.

Inductive sound {A} (m : parser H A) (s : StringStream)
    (Q : A -> StringStream -> list event -> Prop) (E : list event -> Prop) : Prop :=
  | sound_ok a s' es : ok_stream N s' -> Q a s' es ->
      (forall h, runs es (POk a s') h (m s h)) -> sound m s Q E
  | sound_err code off es : E es -> code <> kParseErrorNone -> 0 <= off < N ->
      (forall h, runs es (PErr code off) h (m s h)) -> sound m s Q E.

Lemma runs_bind {A B} (m : parser H A) (k : A -> parser H B) s a s' es es' fin h :
  runs es (POk a s') h (m s h) -> (forall h', runs es' fin h' (k a s' h')) ->
  runs (es ++ es') fin h (pbind m k s h).
Proof.
  unfold runs, pbind. intros Hm Hk. rewrite send_app. unfold and_then.
  destruct (send es h) as [[[] h']|e|u]; cbn [bind].
  - rewrite Hm. apply Hk.
  - destruct Hm as (off & Hoff & ->). eauto.
  - by rewrite Hm.
  - by rewrite Hm.
Qed.

Lemma runs_err {A B} (m : parser H A) (k : A -> parser H B) s code off es h :
  runs es (PErr code off) h (m s h) -> runs es (PErr code off) h (pbind m k s h).
Proof.
  unfold runs, pbind. intros Hm. destruct (send es h) as [[[] h']|e|u].
  - by rewrite Hm.
  - destruct Hm as (o & Ho & ->). eauto.
  - by rewrite Hm.
  - by rewrite Hm.
Qed.

Lemma runs_nil {A} (fin : H -> parsed H A) h o : o = Ret (fin h) -> runs [] fin h o.
Proof. done. Qed.

(** ** Rules *)
Section Rules.
Context {A B : Type} (Q : B -> StringStream -> list event -> Prop) (E : list event -> Prop).

Lemma snd_call (m : parser H A) (k : A -> parser H B) s Q1 E1 :
  sound m s Q1 E1 -> (forall es, E1 es -> E es) ->
  (forall a s' es, ok_stream N s' -> Q1 a s' es ->
    sound (k a) s' (fun b s'' es' => Q b s'' (es ++ es')) (fun es' => E (es ++ es'))) ->
  sound (pbind m k) s Q E.
Proof.
  intros [a s' es Hs' HQ Hm | code off es HE Hc Hoff Hm] HEE Hk.
  - destruct (Hk a s' es Hs' HQ) as [b s'' es' Hs'' HQ' Hk' | code off es' HE Hc Hoff Hk'].
    + eapply sound_ok; [done | exact HQ' |]. intros h. by eapply runs_bind.
    + eapply sound_err; [exact HE | done | done |]. intros h. by eapply runs_bind.
  - eapply sound_err; [by apply HEE | done | done |]. intros h. by apply runs_err.
Qed.

(** A call that sends nothing. *)
Lemma snd_quiet (m : parser H A) (k : A -> parser H B) s (Q1 : A -> StringStream -> Prop) :
  sound m s (fun a s' es => es = [] /\ Q1 a s') (fun es => es = []) -> E [] ->
  (forall a s', ok_stream N s' -> Q1 a s' -> sound (k a) s' Q E) ->
  sound (pbind m k) s Q E.
Proof.
  intros Hm HE Hk. apply (snd_call m k s _ _ Hm); [by intros es ->|].
  intros a s' es Hs' [-> HQ]. by apply Hk.
Qed.

Lemma snd_step (m : parser H A) (k : A -> parser H B) s a s' :
  (forall h, m s h = Ret (POk a s' h)) -> sound (k a) s' Q E -> sound (pbind m k) s Q E.
Proof.
  intros Hm [b s'' es Hs'' HQ Hk | code off es HE Hc Hoff Hk].
  - eapply sound_ok; [done | exact HQ |]. intros h. by apply (runs_bind m k s a s' [] es); [apply runs_nil|].
  - eapply sound_err; [exact HE | done | done |]. intros h.
    by apply (runs_bind m k s a s' [] es); [apply runs_nil|].
Qed.

Lemma snd_ret b s : ok_stream N s -> Q b s [] -> sound (pret b) s Q E.
Proof. intros Hs HQ. eapply sound_ok; [done | exact HQ |]. intros h. by apply runs_nil. Qed.

Lemma snd_fail code off s : E [] -> code <> kParseErrorNone -> 0 <= off < N -> sound (fail code off) s Q E.
Proof. intros HE Hc Hoff. eapply sound_err; [exact HE | done | done |]. intros h. by apply runs_nil. Qed.

Lemma snd_fail_here code s :
  ok_stream N s -> E [] -> code <> kParseErrorNone -> sound (fail_here code) s Q E.
Proof.
  intros Hs HE Hc. destruct (ok_cons N s Hs) as (c & rest & _ & _ & Ho & _). pose proof (ok_offset _ _ Hs).
  apply (sound_err _ _ _ _ code s.(offset_) []); [done | done | lia |]. intros h. by apply runs_nil.
Qed.
End Rules.

Lemma snd_weaken {A} (m : parser H A) s Q E Q' E' :
  sound m s Q E -> (forall a s' es, ok_stream N s' -> Q a s' es -> Q' a s' es) ->
  (forall es, E es -> E' es) -> sound m s Q' E'.
Proof.
  intros [a s' es Hs' HQ Hm | code off es HE Hc Hoff Hm] HQQ HEE.
  - eapply sound_ok; [done | by apply HQQ | done].
  - eapply sound_err; [by apply HEE | done | done | done].
Qed.

Section Steps.
Context {B : Type} (Q : B -> StringStream -> list event -> Prop) (E : list event -> Prop).

Lemma snd_peek (k : Z -> parser H B) c rest o :
  sound (k c) (mkStream (c :: rest) o) Q E -> sound (pbind peek k) (mkStream (c :: rest) o) Q E.
Proof. by apply snd_step. Qed.

Lemma snd_take (k : Z -> parser H B) c rest o :
  sound (k c) (mkStream rest (u64 (o + 1))) Q E -> sound (pbind take_ch k) (mkStream (c :: rest) o) Q E.
Proof. by apply snd_step. Qed.

Lemma snd_tell (k : Z -> parser H B) s : sound (k s.(offset_)) s Q E -> sound (pbind tell k) s Q E.
Proof. by apply snd_step. Qed.

Lemma snd_lift {A} (m : outcome A) a (k : A -> parser H B) s :
  m = Ret a -> sound (k a) s Q E -> sound (pbind (lift m) k) s Q E.
Proof. intros ->. by apply snd_step. Qed.

Lemma snd_int z (k : Z -> parser H B) s :
  - 2 ^ 31 <= z < 2 ^ 31 -> sound (k z) s Q E -> sound (pbind (int_op z) k) s Q E.
Proof. intros Hz. by apply snd_lift, int_result_fits. Qed.

Lemma snd_consume (k : bool -> parser H B) expect c rest o :
  (c = expect -> sound (k true) (mkStream rest (u64 (o + 1))) Q E) ->
  (c <> expect -> sound (k false) (mkStream (c :: rest) o) Q E) ->
  sound (pbind (Consume expect) k) (mkStream (c :: rest) o) Q E.
Proof.
  intros Ht Hf. destruct (Z.eqb_spec c expect) as [Hc|Hc].
  - apply (snd_step _ _ _ _ _ true (mkStream rest (u64 (o + 1)))); [|by apply Ht].
    intros h. unfold Consume, pbind. cbn. by rewrite (proj2 (Z.eqb_eq c expect)).
  - apply (snd_step _ _ _ _ _ false (mkStream (c :: rest) o)); [|by apply Hf].
    intros h. unfold Consume, pbind. cbn. by rewrite (proj2 (Z.eqb_neq c expect)).
Qed.

Lemma snd_emit e (k : parser H B) off s :
  0 <= off < N ->
  sound k s (fun b s' es => Q b s' (e :: es)) (fun es => E (e :: es)) ->
  sound (let! ok := emit e in if ok : bool then k else fail kParseErrorTermination off) s Q E.
Proof.
  intros Hoff Hk.
  assert (forall es fin h, (forall h', runs es fin h' (k s h')) ->
    runs (e :: es) fin h ((let! ok := emit e in if ok : bool then k else fail kParseErrorTermination off) s h)) as Hr.
  { intros es fin h Hes. unfold runs, pbind, emit. cbn [send]. unfold and_then.
    destruct (handle e h) as [[[] h']|x|u]; cbn [bind]; [apply Hes | | done | done].
    unfold fail. eauto. }
  destruct Hk as [b s' es Hs' HQ Hm | code o es HE Hc Ho Hm].
  - eapply sound_ok; [done | exact HQ |]. intros h. by apply Hr.
  - eapply sound_err; [exact HE | done | done |]. intros h. by apply Hr.
Qed.

Lemma snd_emit_here e (k : parser H B) s :
  ok_stream N s ->
  sound k s (fun b s' es => Q b s' (e :: es)) (fun es => E (e :: es)) ->
  sound (let! ok := emit e in if ok : bool then k else fail_here kParseErrorTermination) s Q E.
Proof.
  intros Hs Hk. destruct (ok_cons N s Hs) as (c & rest & _ & _ & Ho & _). pose proof (ok_offset _ _ Hs).
  assert (forall h, (let! ok := emit e in if ok : bool then k else fail_here kParseErrorTermination) s h =
    (let! ok := emit e in if ok : bool then k else fail kParseErrorTermination s.(offset_)) s h) as Heq.
  { intros h. unfold pbind, emit. by destruct (handle e h) as [[[] h']|x|u]. }
  destruct (snd_emit e k s.(offset_) s ltac:(lia) Hk) as [b s' es Hs' HQ Hm | code o es HE Hc Ho' Hm].
  - eapply sound_ok; [done | exact HQ |]. intros h. by rewrite Heq.
  - eapply sound_err; [exact HE | done | done |]. intros h. by rewrite Heq.
Qed.
End Steps.

Lemma sound_ok_inv {A} (m : parser H A) s Q E a s' h h' :
  sound m s Q E -> m s h = Ret (POk a s' h') -> ok_stream N s' /\ exists es, Q a s' es.
Proof.
  intros [a1 s1 es Hs1 HQ Hm | code off es HE Hc Ho Hm] Hr; specialize (Hm h); unfold runs in Hm; rewrite Hr in Hm.
  - destruct (send es h) as [[[] h1]| |]; try discriminate Hm; [injection Hm as -> -> ->; eauto|].
    by destruct Hm as (? & ? & ?).
  - destruct (send es h) as [[[] h1]| |]; try discriminate Hm. by destruct Hm as (? & ? & ?).
Qed.

(** ** Progress

    Less than [sound], for what may run into undefined behaviour: when [m]
    succeeds the stream is well formed and at most [L] characters are left. *)
Definition advances {A} (L : nat) (m : parser H A) (s : StringStream) : Prop :=
  forall h a s' h', m s h = Ret (POk a s' h') -> ok_stream N s' /\ (left s' <= L)%nat.

Lemma adv_sound {A} L (m : parser H A) s Q E :
  sound m s Q E -> (forall a s' es, Q a s' es -> (left s' <= L)%nat) -> advances L m s.
Proof. intros Hm HQ h a s' h' Hr. destruct (sound_ok_inv _ _ _ _ _ _ _ _ Hm Hr) as (Hs' & es & Hq). eauto. Qed.

Section Advances.
Context {A B : Type} (L : nat).

Lemma adv_ret (a : A) s : ok_stream N s -> (left s <= L)%nat -> advances L (pret a) s.
Proof. by intros Hs Hl h b s' h' [= <- <- <-]. Qed.

Lemma adv_fail code off s : advances (A := A) L (fail code off) s.
Proof. by intros h a s' h' Hr. Qed.

Lemma adv_fail_here code s : advances (A := A) L (fail_here code) s.
Proof. by intros h a s' h' Hr. Qed.

Lemma adv_bind L1 (m : parser H A) (k : A -> parser H B) s :
  advances L1 m s -> (forall a s', ok_stream N s' -> (left s' <= L1)%nat -> advances L (k a) s') ->
  advances L (pbind m k) s.
Proof.
  intros Hm Hk h b s' h' Hr. unfold pbind in Hr. destruct (m s h) as [[a1 s1 h1|]| |] eqn:E; try discriminate Hr.
  destruct (Hm _ _ _ _ E) as [Hs1 Hl1]. by eapply Hk.
Qed.

Lemma adv_int z (k : Z -> parser H B) s : (forall z', advances L (k z') s) -> advances L (pbind (int_op z) k) s.
Proof.
  intros Hk h b s' h' Hr. unfold pbind, int_op, lift, int_result in Hr. destruct (_ && _); [|discriminate Hr].
  exact (Hk _ _ _ _ _ Hr).
Qed.

Lemma adv_peek (k : Z -> parser H B) c rest o :
  advances L (k c) (mkStream (c :: rest) o) -> advances L (pbind peek k) (mkStream (c :: rest) o).
Proof. done. Qed.

Lemma adv_take (k : Z -> parser H B) c rest o :
  advances L (k c) (mkStream rest (u64 (o + 1))) -> advances L (pbind take_ch k) (mkStream (c :: rest) o).
Proof. done. Qed.

Lemma adv_emit (e : event) (k : parser H B) off s :
  advances L k s -> advances L (let! ok := emit e in if ok : bool then k else fail kParseErrorTermination off) s.
Proof.
  intros Hk h b s' h' Hr. unfold pbind, emit in Hr. destruct (handle e h) as [[[] h1]| |]; try discriminate Hr. exact (Hk _ _ _ _ Hr).
Qed.
End Advances.

Lemma adv_consume expect s : ok_stream N s -> expect <> 0 -> advances (left s) (Consume expect) s.
Proof.
  intros Hs He. destruct s as [l o]. destruct (ok_open _ _ _ Hs) as (c & rest & -> & _ & _ & Hr).
  unfold Consume. apply adv_peek. destruct (Z.eqb_spec c expect) as [->|].
  - apply adv_take, adv_ret; [by apply Hr | unfold left; cbn; lia].
  - by apply adv_ret.
Qed.

(** Sends nothing, on success and on failure. *)
Definition quiet {A} (m : parser H A) (s : StringStream) (Q : A -> StringStream -> Prop) : Prop :=
  sound m s (fun a s' es => es = [] /\ Q a s') (fun es => es = []).

Lemma quiet_weaken {A} (m : parser H A) s (Q Q' : A -> StringStream -> Prop) :
  quiet m s Q -> (forall a s', ok_stream N s' -> Q a s' -> Q' a s') -> quiet m s Q'.
Proof.
  intros Hm HQ. apply (snd_weaken _ _ _ _ _ _ Hm); [|done]. intros a s' es Hs' [-> HQ']. auto.
Qed.

Lemma quiet_bounded {A} (loop : nat -> parser H A) s Q : quiet (loop (left s)) s Q -> quiet (bounded loop) s Q.
Proof.
  intros [a s' es Hs' HQ Hm | code off es HE Hc Hoff Hm].
  - by eapply sound_ok.
  - by eapply sound_err.
Qed.
End Logic.

(** Following the code: one rule per operation. *)
Ltac p_open s Hs c rest := let o := fresh "o" in let Hc := fresh "Hc" in let Hr := fresh "Hr" in
  open_stream s Hs c rest o Hc Hr.
Ltac solve_ok :=
  first [ assumption
        | match goal with Hr : _ -> ok_stream _ ?s |- ok_stream _ ?s => apply Hr; lia end ].
Ltac p_ret := apply snd_ret; [solve_ok|]; try (split; [done|]).
Ltac p_fail := apply snd_fail_here; [solve_ok | done | done].
