(* ===== verification/ReaderTotal.v ===== *)
(** * The parser always returns

    Every function of the parser is [sound]: on a NUL-terminated text it ends,
    never reads past the NUL and never fails an assertion of its own, whatever
    the text, and the events it sends are those of one JSON value, or a prefix
    of such a sequence when it stops with an error. *)
From Stdlib Require Import SpecFloat.
From S2P Require Import Prelude Decimal Types Doubles Strtod StringBuffer Encodings.
From S2P Require Import Value Handler Document Reader ReaderLogic.

Section Lexical.
Context {H : Type} `{Handler H} (N parseFlags : Z).

Lemma skip_spaces_quiet fuel s :
  ok_stream N s -> (left s <= fuel)%nat -> quiet N (skip_spaces fuel) s (fun _ s' => (left s' <= left s)%nat).
Proof.
  revert s. induction fuel as [|fuel IH]; intros s Hs Hf; p_open s Hs c rest; [solve_left|].
  cbn [skip_spaces]. apply snd_peek. destruct (_ || _) eqn:Hw.
  - apply snd_take. eapply quiet_weaken; [apply IH; [apply Hr; lia | solve_left]|]. intros ? s' ? ?. solve_left.
  - p_ret. solve_left.
Qed.

Lemma SkipWhitespace_quiet s : ok_stream N s -> quiet N SkipWhitespace s (fun _ s' => (left s' <= left s)%nat).
Proof. intros Hs. apply quiet_bounded. by apply skip_spaces_quiet. Qed.

Lemma skip_block_quiet fuel s :
  ok_stream N s -> (left s <= fuel)%nat -> quiet N (skip_block fuel) s (fun _ s' => (left s' <= left s)%nat).
Proof.
  revert s. induction fuel as [|fuel IH]; intros s Hs Hf; p_open s Hs c rest; [solve_left|].
  cbn [skip_block]. apply snd_peek. destruct (Z.eqb_spec c 0); [p_fail|].
  apply snd_consume; intros Hstar.
  - assert (Hs1 := Hr ltac:(lia)). pose proof (ok_open _ _ _ Hs1) as (c1 & rest1 & -> & _ & _ & Hr1).
    apply snd_consume; intros Hslash; [p_ret; solve_left|].
    eapply quiet_weaken; [apply IH; [done | solve_left]|]. intros ? s' ? ?. solve_left.
  - apply snd_take. eapply quiet_weaken; [apply IH; [auto | solve_left]|]. intros ? s' ? ?. solve_left.
Qed.

Lemma skip_line_quiet fuel s :
  ok_stream N s -> (left s <= fuel)%nat -> quiet N (skip_line fuel) s (fun _ s' => (left s' <= left s)%nat).
Proof.
  revert s. induction fuel as [|fuel IH]; intros s Hs Hf; p_open s Hs c rest; [solve_left|].
  cbn [skip_line]. apply snd_peek. destruct (Z.eqb_spec c 0); [p_ret; solve_left|].
  apply snd_take. destruct (Z.eqb_spec c 10); [p_ret; solve_left|].
  eapply quiet_weaken; [apply IH; [auto | solve_left]|]. intros ? s' ? ?. solve_left.
Qed.

Lemma skip_comments_quiet fuel s :
  ok_stream N s -> (left s <= fuel)%nat -> quiet N (skip_comments fuel) s (fun _ s' => (left s' <= left s)%nat).
Proof.
  revert s. induction fuel as [|fuel IH]; intros s Hs Hf; p_open s Hs c rest; [solve_left|].
  cbn [skip_comments]. apply snd_consume; intros Hslash; [|p_ret; solve_left].
  assert (Hs1 := Hr ltac:(lia)). pose proof (ok_open _ _ _ Hs1) as (c1 & rest1 & -> & _ & _ & Hr1).
  apply snd_consume; intros Hstar.
  - eapply snd_quiet; [apply quiet_bounded, skip_block_quiet; [auto with lia | done] | done |].
    intros ? s2 Hs2 H2. eapply snd_quiet; [by apply SkipWhitespace_quiet | done |].
    intros ? s3 Hs3 H3. eapply quiet_weaken; [apply IH; [done | solve_left]|]. intros ? s' ? ?. solve_left.
  - eapply (snd_quiet N _ _ _ _ _ (fun _ s' => (left s' <= left (mkStream (c1 :: rest1) (u64 (o + 1))))%nat)); [|done|].
    + apply snd_consume; intros Hslash2; [|p_fail].
      eapply quiet_weaken; [apply quiet_bounded, skip_line_quiet; [auto with lia | done]|].
      intros ? s' ? ?. solve_left.
    + intros ? s2 Hs2 H2. eapply snd_quiet; [by apply SkipWhitespace_quiet | done |].
      intros ? s3 Hs3 H3. eapply quiet_weaken; [apply IH; [done | solve_left]|]. intros ? s' ? ?. solve_left.
Qed.

Lemma Skip_quiet s :
  ok_stream N s -> quiet N (SkipWhitespaceAndComments parseFlags) s (fun _ s' => (left s' <= left s)%nat).
Proof.
  intros Hs. eapply snd_quiet; [by apply SkipWhitespace_quiet | done |]. intros ? s1 Hs1 H1.
  destruct (flag_set _ _).
  - eapply quiet_weaken; [by apply quiet_bounded, skip_comments_quiet|]. intros ? s' ? ?. solve_left.
  - by p_ret.
Qed.

Lemma consume_all_quiet cs s :
  ok_stream N s -> Forall (fun c => c <> 0) cs ->
  quiet N (consume_all cs) s (fun ok s' => (left s' <= left s)%nat /\ (ok = true -> (left s' + length cs = left s)%nat)).
Proof.
  intros Hs Hcs. revert s Hs. induction Hcs as [|c cs Hc Hcs IH]; intros s Hs.
  { p_ret. split; [done|]. cbn [length]. lia. }
  p_open s Hs x rest. cbn [consume_all]. apply snd_consume; intros He.
  - eapply quiet_weaken; [apply IH; solve_ok|]. intros ? s' ? [? Hok]. split; [solve_left|].
    intros Ha. specialize (Hok Ha). solve_left.
  - p_ret. split; [solve_left | done].
Qed.
End Lexical.

(** ** Strings *)

(** The buffer holds bytes, counted exactly. *)
Definition os_ok (os : StackStream) : Prop :=
  Forall (fun c => 0 <= c < 256) os.(pushed_) /\ os.(length_) = sizeZ os.(pushed_).

Lemma put_stack c os :
  os_ok os -> 0 <= c < 256 -> sizeZ os.(pushed_) < 2 ^ 32 - 1 ->
  exists os', os_Put c os = Ret os' /\ os_ok os' /\ os'.(pushed_) = os.(pushed_) ++ [c].
Proof.
  intros [Hb Hl] Hc Hs. eexists. split; [reflexivity|]. cbn [pushed_]. split; [|done].
  split; cbn [pushed_ length_]; [apply Forall_app; split; [done | constructor; [done | constructor]]|].
  rewrite Hl. unfold sizeZ in *. rewrite length_app. cbn [length]. unfold u32. rewrite Z.mod_small; lia.
Qed.

Lemma stack_eq p p' l l' : p = p' -> l = l' -> mkStackStream p l = mkStackStream p' l'.
Proof. by intros -> ->. Qed.

Lemma Encode_stack cp os :
  os_ok os -> 0 <= cp <= 0x10FFFF -> sizeZ os.(pushed_) < 2 ^ 32 - 4 ->
  exists os' bytes, UTF8.Encode os cp = Ret os' /\ os_ok os' /\ os'.(pushed_) = os.(pushed_) ++ bytes /\
    UTF8.Encode [] cp = Ret bytes /\ sizeZ bytes <= 4 /\ (cp <= 0xFFFF -> sizeZ bytes <= 3).
Proof.
  intros [Hb Hl] Hcp Hs. destruct (Encode_bytes cp Hcp) as (bytes & HE & Hbytes).
  assert (Hw : forall n, sizeZ os.(pushed_) <= n < 2 ^ 32 - 1 -> u32 (n + 1) = n + 1)
    by (intros n Hn; unfold u32, sizeZ in *; rewrite Z.mod_small; lia).
  exists (mkStackStream (os.(pushed_) ++ bytes) (sizeZ (os.(pushed_) ++ bytes))), bytes.
  revert HE. unfold UTF8.Encode, os_Put, StackStream_OutputStream, list_OutputStream. rewrite Hl.
  assert (Hfin : os_ok (mkStackStream (os.(pushed_) ++ bytes) (sizeZ (os.(pushed_) ++ bytes))))
    by (split; [by apply Forall_app | done]).
  destruct (cp <=? 0x7F) eqn:H1; [|destruct (cp <=? 0x7FF) eqn:H2; [|destruct (cp <=? 0xFFFF) eqn:H3;
    [|rewrite (proj2 (Z.leb_le cp 0x10FFFF)) by lia]]];
    cbn [bind app pushed_ length_]; intros HE; pose proof HE as HE'; injection HE' as <-;
    rewrite ?(Hw (sizeZ os.(pushed_))) by lia; rewrite ?(Hw (sizeZ os.(pushed_) + 1)) by lia;
    rewrite ?(Hw (sizeZ os.(pushed_) + 1 + 1)) by lia; rewrite ?(Hw (sizeZ os.(pushed_) + 1 + 1 + 1)) by lia;
    (split; [apply f_equal, stack_eq; [by rewrite <- ?app_assoc | unfold sizeZ; rewrite !length_app; cbn [length]; lia]|]);
    (split; [exact Hfin|]); (split; [done|]); (split; [done|]); unfold sizeZ; cbn [length]; lia.
Qed.

Section Strings.
Context {H : Type} `{Handler H} (N parseFlags : Z).

Lemma parse_hex_quiet i off s : ok_stream N s -> 0 <= off < N -> forall k cp, 0 <= k -> 0 <= cp < 16 ^ k ->
  k + Z.of_nat i <= 4 ->
  quiet N (parse_hex i off cp) s (fun a s' => 0 <= a < 16 ^ (k + Z.of_nat i) /\ (left s' + i = left s)%nat).
Proof.
  intros Hs Hoff. revert s Hs. induction i as [|i IH]; intros s Hs k cp Hk Hcp Hki.
  { p_ret. rewrite Z.add_0_r. split; [done | solve_left]. }
  p_open s Hs c rest. cbn [parse_hex]. apply snd_peek.
  assert (16 ^ k <= 16 ^ 3) by (apply Z.pow_le_mono_r; lia).
  assert (Hstep : forall d x, 0 <= d < 16 -> c = d + x -> 0 <= x -> c < 128 ->
    u32 (u32 (u32 (Z.shiftl cp 4) + unsigned_char c) - x) = 16 * cp + d).
  { intros d x Hd Hx Hx0 Hc1. unfold unsigned_char. rewrite (proj2 (Z.ltb_lt c 128)) by lia.
    rewrite Z.shiftl_mul_pow2 by lia. unfold u32.
    rewrite (Z.mod_small (cp * 2 ^ 4)), (Z.mod_small c), (Z.mod_small (cp * 2 ^ 4 + c)), Z.mod_small by lia. lia. }
  assert (Hgo : forall d x, 0 <= d < 16 -> c = d + x -> 0 <= x -> c < 128 -> c <> 0 ->
    quiet N (let! _ := take_ch in parse_hex i off (u32 (u32 (u32 (Z.shiftl cp 4) + unsigned_char c) - x)))
      (mkStream (c :: rest) o)
      (fun a s' => 0 <= a < 16 ^ (k + Z.of_nat (S i)) /\ (left s' + S i = left (mkStream (c :: rest) o))%nat)).
  { intros d x Hd Hx Hx0 Hc1 Hc0. apply snd_take. rewrite (Hstep d x) by done.
    eapply quiet_weaken; [apply (IH _ (Hr Hc0) (k + 1)); rewrite ?Z.pow_add_r by lia; lia|].
    intros a s' _ [Ha Hl]. replace (k + Z.of_nat (S i)) with (k + 1 + Z.of_nat i) by lia. split; [done | solve_left]. }
  destruct (_ && _) eqn:E1; [apply (Hgo (c - 48)); lia|].
  destruct (_ && _) eqn:E2 in |- *; [apply (Hgo (c - 55)); lia|].
  destruct (_ && _) eqn:E3 in |- *; [apply (Hgo (c - 87)); lia|].
  by apply snd_fail.
Qed.

Lemma ParseHex4_quiet off s : ok_stream N s -> 0 <= off < N ->
  quiet N (ParseHex4 off) s (fun a s' => 0 <= a <= 0xFFFF /\ (left s' + 4 = left s)%nat).
Proof.
  intros Hs Hoff. eapply quiet_weaken; [apply (parse_hex_quiet 4 off s Hs Hoff 0); simpl; lia|].
  intros a s' _ [Ha Hl]. change (16 ^ (0 + Z.of_nat 4)) with 65536 in Ha. split; [lia | done].
Qed.

Lemma surrogate_pair hi lo : 0xD800 <= hi <= 0xDBFF -> 0xDC00 <= lo <= 0xDFFF ->
  u32 (Z.lor (u32 (Z.shiftl (hi - 0xD800) 10)) (lo - 0xDC00) + 0x10000) =
  0x10000 + 1024 * (hi - 0xD800) + (lo - 0xDC00).
Proof.
  intros Hhi Hlo. rewrite Z.shiftl_mul_pow2 by lia. unfold u32. rewrite (Z.mod_small (_ * _)) by lia.
  assert (Z.land ((hi - 0xD800) * 2 ^ 10) (lo - 0xDC00) = 0) as Hd.
  { apply Z.bits_inj'. intros n Hn. rewrite Z.land_spec, Z.bits_0. destruct (Z.lt_ge_cases n 10).
    - by rewrite Z.mul_pow2_bits_low by lia.
    - rewrite andb_comm, (Z.bits_above_log2 (lo - 0xDC00) n); [done | lia |].
      destruct (Z.eq_dec (lo - 0xDC00) 0) as [->|]; [simpl; lia|]. pose proof (Z.log2_lt_pow2 (lo - 0xDC00) 10). lia. }
  rewrite <- Z.lxor_lor, <- Z.add_nocarry_lxor by done. rewrite Z.mod_small; lia.
Qed.

Lemma parse_unicode_quiet off s : ok_stream N s -> 0 <= off < N ->
  quiet N (parse_unicode off) s (fun cp s' => 0 <= cp <= 0x10FFFF /\ (left s' + 4 <= left s)%nat /\
    (0xFFFF < cp -> (left s' + 10 <= left s)%nat)).
Proof.
  intros Hs Hoff. unfold parse_unicode.
  eapply snd_quiet; [by apply ParseHex4_quiet | done |]. intros cp s1 Hs1 [Hcp Hl1].
  destruct (_ && _) eqn:Ehi; [|p_ret; lia].
  destruct (cp <=? 0xDBFF) eqn:Ehi2; [|by apply snd_fail].
  eapply snd_quiet; [apply consume_all_quiet; [done | by repeat constructor] | done |].
  intros ok s2 Hs2 [Hl2 Hok]. destruct ok; [|by apply snd_fail]. specialize (Hok eq_refl). cbn [length] in Hok.
  eapply snd_quiet; [by apply ParseHex4_quiet | done |]. intros cp2 s3 Hs3 [Hcp2 Hl3].
  destruct (_ || _) eqn:Elo; [by apply snd_fail|].
  rewrite surrogate_pair by lia. p_ret. lia.
Qed.

Context (Hvalidate : flag_set parseFlags kParseValidateEncodingFlag = false).

Lemma unescape_entry c : 0 <= c < 256 -> exists e, lookupZ unescape c = Ret e /\ 0 <= e < 256.
Proof using.
  intros Hc. destruct (lookupZ_total unescape c) as [e He]; [exact Hc|]. exists e. split; [done|].
  apply lookupZ_Ret in He as [_ He].
  assert (forallb (fun e => (0 <=? e) && (e <? 256)) unescape = true) as Hall by (vm_compute; reflexivity).
  rewrite forallb_forall in Hall. apply list_elem_of_lookup_2, list_elem_of_In in He. specialize (Hall _ He). lia.
Qed.

(** What the string in the buffer and the text left can grow to. *)
Definition budget (os : StackStream) (s : StringStream) : Z := sizeZ os.(pushed_) + Z.of_nat (left s).

Lemma ParseStringToStream_quiet fuel s os :
  ok_stream N s -> (left s <= fuel)%nat -> os_ok os -> budget os s <= 2 ^ 31 ->
  quiet N (ParseStringToStream parseFlags fuel os) s (fun os' s' => os_ok os' /\
    (exists t, os'.(pushed_) = t ++ [0]) /\ budget os' s' <= budget os s /\ (left s' < left s)%nat).
Proof using Hvalidate.
  revert s os. induction fuel as [|fuel IH]; intros s os Hs Hf Hos Hb; p_open s Hs c rest; [solve_left|].
  cbn [ParseStringToStream]. apply snd_peek.
  assert (Hgo : forall s1 os1, ok_stream N s1 -> os_ok os1 -> (left s1 <= length rest)%nat ->
    budget os1 s1 <= budget os (mkStream (c :: rest) o) ->
    quiet N (ParseStringToStream parseFlags fuel os1) s1 (fun os' s' => os_ok os' /\
      (exists t, os'.(pushed_) = t ++ [0]) /\ budget os' s' <= budget os (mkStream (c :: rest) o) /\
      (left s' < left (mkStream (c :: rest) o))%nat)).
  { intros s1 os1 Hs1 Hos1 Hl1 Hb1. eapply quiet_weaken; [apply IH; [done | solve_left | done | lia]|].
    intros os' s' _ (H1 & H2 & H3 & H4). split_and!; [done | done | lia | solve_left]. }
  assert (Hsz : sizeZ os.(pushed_) + 1 + Z.of_nat (length rest) <= 2 ^ 31)
    by (unfold budget, left in Hb; cbn [src_ length] in Hb; lia).
  destruct (Z.eqb_spec c 92) as [->|H92].
  - assert (Hs1 := Hr ltac:(lia)). apply snd_tell, snd_take.
    pose proof (ok_open _ _ _ Hs1) as (e & rest1 & -> & He & _ & Hr1). apply snd_peek. cbn [offset_].
    destruct (unescape_entry e He) as (esc & Hesc & Hesc'). apply (snd_lift _ _ _ _ esc); [done|].
    destruct (negb (esc =? 0)) eqn:Enz.
    + apply snd_take. destruct (put_stack esc os Hos Hesc' ltac:(lia)) as (os1 & Hput & Hos1 & Hp1).
      apply (snd_lift _ _ _ _ os1); [done|]. apply Hgo; [apply Hr1; intros ->; vm_compute in Hesc; inv_outcome; subst; done | done | solve_left |].
      unfold budget, sizeZ in *. rewrite Hp1, length_app. solve_left.
    + destruct (_ && _) eqn:Eap.
      * apply snd_take. destruct (put_stack 39 os Hos ltac:(lia) ltac:(lia)) as (os1 & Hput & Hos1 & Hp1).
        apply (snd_lift _ _ _ _ os1); [done|]. apply Hgo; [apply Hr1; lia | done | solve_left |].
        unfold budget, sizeZ in *. rewrite Hp1, length_app. solve_left.
      * destruct (Z.eqb_spec e 117) as [->|]; [|by apply snd_fail].
        apply snd_take. eapply snd_quiet; [apply parse_unicode_quiet; [apply Hr1; lia | done] | done |].
        intros cp s2 Hs2 (Hcp & Hl2 & Hl3).
        destruct (Encode_stack cp os Hos Hcp ltac:(lia)) as (os1 & bytes & HE & Hos1 & Hp1 & _ & Hb4 & Hb3).
        apply (snd_lift _ _ _ _ os1); [done|]. apply Hgo; [done | done | solve_left |].
        unfold budget, sizeZ in *. rewrite Hp1, length_app.
        destruct (Z.le_gt_cases cp 0xFFFF) as [Hle|Hgt]; [specialize (Hb3 Hle) | specialize (Hl3 ltac:(lia))]; solve_left.
  - destruct (Z.eqb_spec c 34) as [->|H34].
    + apply snd_take. destruct (put_stack 0 os Hos ltac:(lia) ltac:(lia)) as (os1 & Hput & Hos1 & Hp1).
      eapply sound_ok; [by apply Hr | |intros h; apply runs_nil; unfold put_ch, lift; by rewrite Hput].
      split; [done|]. split_and!; [done | by eexists | | solve_left].
      unfold budget, sizeZ in *. rewrite Hp1, length_app. solve_left.
    + destruct (_ <? _) eqn:Elow.
      * destruct (Z.eqb_spec c 0); p_fail.
      * assert (c <> 0) by (intros ->; vm_compute in Elow; discriminate).
        apply snd_tell. unfold transcode. rewrite Hvalidate.
        destruct (put_stack c os Hos Hc ltac:(lia)) as (os1 & Hput & Hos1 & Hp1).
        apply (snd_step N _ _ _ _ _ (true, os1) (mkStream rest (u64 (o + 1)))).
        { intros h. unfold pbind, put_ch, lift. cbn [take_ch Take src_ offset_ bind]. by rewrite Hput. }
        apply Hgo; [by apply Hr | done | solve_left |].
        unfold budget, sizeZ in *. rewrite Hp1, length_app. solve_left.
Qed.
End Strings.

(** ** Numbers *)
(** A text this long cannot make the exponent of a number overflow. *)
Definition number_limit : Z := 214748000.

Section Numbers.
Context {H : Type} `{Handler H} (N parseFlags : Z).

Lemma digit_nonzero c : isdigit c = true -> c <> 0.
Proof. intros Hd%isdigit_true. lia. Qed.

(** A digit loop: it stops at a non-digit, by itself, or goes on after taking
    a digit. *)
Ltac digit_loop c :=
  apply snd_peek;
  destruct (isdigit c) eqn:Ed; [pose proof (digit_nonzero c Ed)|p_ret; try solve_left].

Lemma integer_digits_quiet wrap limit last fuel s i sd :
  ok_stream N s -> (left s <= fuel)%nat ->
  quiet N (integer_digits wrap limit last fuel i sd) s (fun _ s' => (left s' <= left s)%nat).
Proof.
  revert s i sd. induction fuel as [|fuel IH]; intros s i sd Hs Hf; p_open s Hs c rest; [solve_left|]; cbn [integer_digits]; digit_loop c.
  destruct (_ && _); [p_ret; solve_left|]. apply snd_take.
  eapply quiet_weaken; [apply IH; [solve_ok | solve_left]|]. intros ? s' ? ?. solve_left.
Qed.

Lemma double_digits_quiet fuel s d :
  ok_stream N s -> (left s <= fuel)%nat -> quiet N (double_digits fuel d) s (fun _ s' => (left s' <= left s)%nat).
Proof.
  revert s d. induction fuel as [|fuel IH]; intros s d Hs Hf; p_open s Hs c rest; [solve_left|]; cbn [double_digits]; digit_loop c.
  apply snd_take. eapply quiet_weaken; [apply IH; [solve_ok | solve_left]|]. intros ? s' ? ?. solve_left.
Qed.

(** The exponent counts down by at most one per character. *)
Definition taken_exponent (e : Z) (s : StringStream) (e' : Z) (s' : StringStream) : Prop :=
  e - Z.of_nat (left s) + Z.of_nat (left s') <= e' <= e /\ (left s' <= left s)%nat.

Ltac solve_taken := unfold taken_exponent in *; cbn [fst snd] in *; solve_left.

Lemma fraction_digits_quiet fuel s i e sd :
  ok_stream N s -> (left s <= fuel)%nat -> Z.of_nat (left s) - 2 ^ 31 <= e <= 0 ->
  quiet N (fraction_digits fuel i e sd) s (fun r s' => taken_exponent e s r.1.2 s').
Proof.
  revert s i e sd. induction fuel as [|fuel IH]; intros s i e sd Hs Hf He; p_open s Hs c rest; [solve_left|]; cbn [fraction_digits]; digit_loop c.
  - destruct (_ >? _); [p_ret; solve_taken|]. apply snd_take. cbv zeta. apply snd_int; [solve_left|].
    eapply quiet_weaken; [apply IH; [solve_ok | solve_left | solve_left]|]. intros ? s' ? ?. solve_taken.
  - solve_taken.
Qed.

Lemma fraction_rest_quiet fuel s d e sd :
  ok_stream N s -> (left s <= fuel)%nat -> Z.of_nat (left s) - 2 ^ 31 <= e <= 0 ->
  quiet N (fraction_rest fuel d e sd) s (fun r s' => taken_exponent e s r.2 s').
Proof.
  revert s d e sd. induction fuel as [|fuel IH]; intros s d e sd Hs Hf He; p_open s Hs c rest; [solve_left|]; cbn [fraction_rest]; digit_loop c.
  - apply snd_take. cbv zeta. destruct (sd <? 17); [apply snd_int; [solve_left|]|];
      (eapply quiet_weaken; [apply IH; [solve_ok | solve_left | solve_left]|]; intros ? s' ? ?; solve_taken).
  - solve_taken.
Qed.

Lemma skip_digits_quiet fuel s :
  ok_stream N s -> (left s <= fuel)%nat ->
  quiet N (skip_digits fuel) s (fun _ s' => (left s' <= left s)%nat /\ exists c rest, s'.(src_) = c :: rest /\ isdigit c = false).
Proof.
  revert s. induction fuel as [|fuel IH]; intros s Hs Hf; p_open s Hs c rest; [solve_left|]; cbn [skip_digits]; digit_loop c.
  - apply snd_take. eapply quiet_weaken; [apply IH; [solve_ok | solve_left]|]. intros ? s' ? [? ?]. split; [solve_left | done].
  - split; [solve_left | by exists c, rest].
Qed.

(** The limit [maxExp] keeps the next digit inside [int]. *)
Lemma exponent_digits_quiet expMinus maxExp off fuel s exp :
  ok_stream N s -> (left s <= fuel)%nat -> 0 <= off < N -> 10 * maxExp + 9 < 2 ^ 31 -> 0 <= exp <= maxExp ->
  quiet N (exponent_digits expMinus maxExp off fuel exp) s
    (fun r s' => 0 <= r <= 10 * maxExp + 9 /\ (expMinus = false -> r <= maxExp) /\ (left s' <= left s)%nat).
Proof.
  intros Hs Hf Hoff HM. revert s exp Hs Hf.
  induction fuel as [|fuel IH]; intros s exp Hs Hf He; p_open s Hs c rest; [solve_left|]; cbn [exponent_digits]; digit_loop c.
  - apply snd_take. apply isdigit_true in Ed. do 2 (apply snd_int; [lia|]). destruct (_ >? maxExp) eqn:Em.
    + destruct expMinus; [|by apply snd_fail].
      eapply snd_quiet; [apply quiet_bounded, skip_digits_quiet; [solve_ok | done] | done |].
      intros ? s1 Hs1 (Hl1 & c1 & rest1 & Hc1 & Hd1). destruct s1 as [l1 o1]. cbn [src_] in Hc1. subst l1.
      destruct fuel as [|fuel]; [solve_left|]. cbn [exponent_digits]. apply snd_peek. rewrite Hd1.
      p_ret. split_and!; [lia | lia | done | solve_left].
    + eapply quiet_weaken; [apply IH; [solve_ok | solve_left | lia]|].
      intros ? s' ? (? & ? & ?). split_and!; [lia | lia | done | solve_left].
Qed.

Lemma parse_nan_inf_quiet minus s :
  ok_stream N s -> quiet N (parse_nan_inf minus) s (fun _ s' => (left s' < left s)%nat).
Proof.
  intros Hs. p_open s Hs c rest. unfold parse_nan_inf. apply snd_consume; intros Hn.
  - eapply snd_quiet; [apply consume_all_quiet; [solve_ok | by repeat constructor] | done |].
    intros ok s1 Hs1 [Hl1 _]. destruct ok; [p_ret; solve_left | p_fail].
  - apply snd_consume; intros Hi; [|p_fail].
    eapply snd_quiet; [apply consume_all_quiet; [solve_ok | by repeat constructor] | done |].
    intros ok s1 Hs1 [Hl1 _]. destruct ok; [|p_fail].
    p_open s1 Hs1 c1 rest1. apply snd_peek.
    eapply (snd_quiet N _ _ _ _ _ (fun _ s' => (left s' <= left (mkStream (c1 :: rest1) o0))%nat)); [|done|].
    + destruct (c1 =? 105); [|p_ret; solve_left].
      eapply quiet_weaken; [apply consume_all_quiet; [done | by repeat constructor]|]. intros ? s' ? [? _]. solve_left.
    + intros ok s2 Hs2 Hl2. destruct ok; [p_ret; solve_left | p_fail].
Qed.

Lemma parse_integer_quiet minus s :
  ok_stream N s -> quiet N (parse_integer parseFlags minus) s (fun _ s' => (left s' < left s)%nat).
Proof.
  intros Hs. p_open s Hs c rest. unfold parse_integer. apply snd_peek.
  destruct (Z.eqb_spec c 48) as [->|]; [apply snd_take; p_ret; solve_left|].
  destruct ((49 <=? c) && (c <=? 57)) eqn:Ed.
  - apply snd_take. eapply (snd_quiet N _ _ _ _ _ (fun _ s' => (left s' <= length rest)%nat)); [|done|].
    { apply quiet_bounded. destruct minus; apply integer_digits_quiet; solve_ok || solve_left. }
    intros [[i use64] sd] s1 Hs1 Hl1. destruct use64; [|p_ret; solve_left].
    eapply (snd_quiet N _ _ _ _ _ (fun _ s' => (left s' <= left s1)%nat)); [|done|].
    { apply quiet_bounded. destruct minus; by apply integer_digits_quiet. }
    intros [[i64 useD] sd2] s2 Hs2 Hl2. destruct useD; [|p_ret; solve_left].
    eapply snd_quiet; [by apply quiet_bounded, double_digits_quiet | done |].
    intros d s3 Hs3 Hl3. p_ret. solve_left.
  - destruct (flag_set _ _ && _); [|p_fail]. eapply snd_quiet; [by apply parse_nan_inf_quiet | done |].
    intros sig s1 Hs1 Hl1. p_ret. solve_left.
Qed.

Lemma parse_fraction_quiet sig sd s :
  ok_stream N s ->
  quiet N (parse_fraction sig sd) s (fun r s' => - N <= r.2 <= 0 /\ (left s' <= left s)%nat).
Proof.
  intros Hs. pose proof (ok_left _ _ Hs) as HN. pose proof (ok_size _ _ Hs) as HS.
  unfold parse_fraction. destruct (is_nan_or_inf sig); [p_ret; cbn [snd]; split; [lia | done]|].
  p_open s Hs c rest. apply snd_consume; intros Hp; [|p_ret; cbn [snd]; split; [lia | solve_left]].
  assert (Hs1 := Hr ltac:(lia)). pose proof (ok_open _ _ _ Hs1) as (c1 & rest1 & -> & _ & _ & Hr1).
  apply snd_peek. destruct (negb _); [p_fail|].
  eapply (snd_quiet N _ _ _ _ _ (fun r s' => taken_exponent 0 (mkStream (c1 :: rest1) (u64 (o + 1))) r.1.2 s')); [|done|].
  - destruct sig as [i|i|d|d]; try (p_ret; solve_taken);
      (eapply snd_quiet; [apply quiet_bounded, fraction_digits_quiet; [done | done | solve_left] | done |];
       intros [[x e] y] s2 Hs2 He; p_ret; solve_taken).
  - intros [[d e] y] s2 Hs2 He.
    eapply snd_quiet; [apply quiet_bounded, fraction_rest_quiet; [done | done | solve_taken] | done |].
    intros [d' e'] s3 Hs3 He'. p_ret. solve_taken.
Qed.

Lemma parse_exponent_quiet sig expFrac off s :
  N <= number_limit -> ok_stream N s -> 0 <= off < N -> - N <= expFrac <= 0 ->
  quiet N (parse_exponent sig expFrac off) s (fun r s' => - 2 ^ 31 <= r.2 + expFrac <= 308 /\ (left s' <= left s)%nat).
Proof.
  unfold number_limit. intros HN Hs Hoff He. unfold parse_exponent.
  destruct (is_nan_or_inf sig); [p_ret; split; [cbn; lia | done]|].
  p_open s Hs c rest.
  assert (Hexp : forall s1, ok_stream N s1 -> (left s1 <= length rest)%nat ->
    quiet N (let! plus := Consume 43 in
      let! expMinus := (if plus : bool then pret false else Consume 45) in
      let! c := peek in
      if isdigit c then
        let! c := take_ch in
        let! maxExp := (if expMinus : bool then let! x := int_op (expFrac + 2147483639) in pret (Z.quot x 10)
                        else int_op (308 - expFrac)) in
        let! exp := bounded (fun fuel => exponent_digits expMinus maxExp off fuel (c - 48)) in
        let! exp := (if expMinus : bool then int_op (- exp) else pret exp) in
        pret (match sig with Sig32 i | Sig64 i => SigDouble (double_of_Z i) | _ => sig end, exp)
      else fail_here kParseErrorNumberMissExponent) s1
      (fun r s' => - 2 ^ 31 <= r.2 + expFrac <= 308 /\ (left s' <= S (length rest))%nat)).
  { intros s1 Hs1 Hl1. eapply (snd_quiet N _ _ _ _ _ (fun _ s' => (left s' <= left s1)%nat)); [|done|].
    { p_open s1 Hs1 c1 rest1. pose proof Hs1 as Hs1'. unfold Consume. apply snd_peek.
      destruct (Z.eqb_spec c1 43); [apply snd_take|]; p_ret; solve_left. }
    intros plus s2 Hs2 Hl2. eapply (snd_quiet N _ _ _ _ _ (fun _ s' => (left s' <= left s2)%nat)); [|done|].
    { destruct plus; [by p_ret|]. p_open s2 Hs2 c1 rest1. unfold Consume. apply snd_peek.
      destruct (Z.eqb_spec c1 45); [apply snd_take|]; p_ret; solve_left. }
    intros expMinus s3 Hs3 Hl3. p_open s3 Hs3 c3 rest3. apply snd_peek.
    destruct (isdigit c3) eqn:Ed; [|p_fail]. pose proof (digit_nonzero c3 Ed). apply isdigit_true in Ed. apply snd_take.
    set (m := if expMinus : bool then Z.quot (expFrac + 2147483639) 10 else 308 - expFrac).
    assert (Hm : 9 <= m /\ 10 * m + 9 < 2 ^ 31 /\ (expMinus = true -> 10 * m <= expFrac + 2147483639)).
    { unfold m. destruct expMinus; [|lia]. pose proof (Z.quot_rem' (expFrac + 2147483639) 10).
      pose proof (Z.rem_bound_pos (expFrac + 2147483639) 10). lia. }
    assert (Hrest : ok_stream N (mkStream rest3 (u64 (o0 + 1)))) by solve_ok.
    apply (snd_step N _ _ _ _ _ m (mkStream rest3 (u64 (o0 + 1)))).
    { intros h. unfold m. destruct expMinus; unfold int_op, lift, pbind, pret; by rewrite int_result_fits by lia. }
    eapply snd_quiet; [apply quiet_bounded, exponent_digits_quiet; [done | done | done | lia | lia] | done |].
    intros exp s4 Hs4 (Hx & Hpos & Hl4).
    eapply (snd_quiet N _ _ _ _ _ (fun x s' => x = (if expMinus : bool then - exp else exp) /\ s' = s4)); [|done|].
    { destruct expMinus; [|by p_ret]. unfold int_op. rewrite int_result_fits by lia. by apply (sound_ok _ _ _ _ _ (- exp) s4 []). }
    intros x s5 Hs5 [-> ->]. p_ret. split; [|solve_left]. cbn [snd].
    destruct expMinus; [specialize (proj2 (proj2 Hm) eq_refl)|specialize (Hpos eq_refl)]; lia. }
  apply snd_consume; intros He1.
  - apply (snd_step N _ _ _ _ _ true (mkStream rest (u64 (o + 1)))); [done|].
    eapply quiet_weaken; [apply Hexp; [solve_ok | done]|]. intros ? s' ? [? ?]. split; [done | solve_left].
  - apply snd_consume; intros He2; [|p_ret; split; [cbn; lia | solve_left]].
    eapply quiet_weaken; [apply Hexp; [solve_ok | done]|]. intros ? s' ? [? ?]. split; [done | solve_left].
Qed.

Lemma number_result_quiet minus sig expFrac exp off s :
  ok_stream N s -> 0 <= off < N -> - 2 ^ 31 <= exp + expFrac <= 308 ->
  quiet N (number_result minus sig expFrac exp off) s (fun e s' => s' = s /\ exists w, pushed e = Some w).
Proof.
  intros Hs Hoff Hp. unfold number_result. destruct sig as [i|i|d|d].
  - p_ret. split; [done|]. destruct minus; eauto.
  - p_ret. split; [done|]. destruct minus; eauto.
  - apply snd_int; [lia|]. destruct (StrtodNormalPrecision_total d (exp + expFrac) (proj2 Hp)) as (d' & Hd). apply (snd_lift _ _ _ _ d'); [done|].
    destruct (dltb _ _); [by apply snd_fail|]. p_ret. split; [done|]. eauto.
  - p_ret. split; [done|]. eauto.
Qed.

(** One number, one event. *)
Lemma ParseNumber_sound s : N <= number_limit -> ok_stream N s ->
  sound N (ParseNumber parseFlags) s
    (fun _ s' es => (exists e w, es = [e] /\ pushed e = Some w) /\ (left s' < left s)%nat) (fun es => es = []).
Proof.
  intros HN Hs. unfold ParseNumber. apply snd_tell.
  destruct (ok_cons N s Hs) as (c0 & r0 & _ & _ & Ho & _). pose proof (ok_offset _ _ Hs) as Ho0.
  assert (Hoff : 0 <= offset_ s < N) by lia. set (off := offset_ s) in *. clearbody off.
  eapply (snd_quiet N _ _ _ _ _ (fun _ s' => (left s' <= left s)%nat)); [|done|].
  { p_open s Hs c rest. unfold Consume. apply snd_peek. destruct (Z.eqb_spec c 45); [apply snd_take|]; p_ret; solve_left. }
  intros minus s1 Hs1 Hl1. eapply snd_quiet; [by apply parse_integer_quiet | done |].
  intros [sig sd] s2 Hs2 Hl2. eapply snd_quiet; [by apply parse_fraction_quiet | done |].
  intros [sig2 expFrac] s3 Hs3 [He Hl3]. cbn [snd] in He.
  eapply snd_quiet; [by apply parse_exponent_quiet | done |].
  intros [sig3 exp] s4 Hs4 [Hx Hl4]. cbn [snd] in Hx.
  eapply snd_quiet; [by apply number_result_quiet | done |]. intros e s5 Hs5 [-> [w Hw]].
  apply snd_emit; [done|]. apply snd_ret; [done|]. split; [by exists e, w | solve_left].
Qed.

(** Without the limit: a number that is read takes something. *)
Lemma exponent_digits_advances expMinus maxExp off fuel s exp :
  ok_stream N s -> (left s <= fuel)%nat -> advances (H := H) N (left s) (exponent_digits expMinus maxExp off fuel exp) s.
Proof.
  revert s exp. induction fuel as [|fuel IH]; intros s exp Hs Hf; p_open s Hs c rest; [solve_left|]; cbn [exponent_digits].
  apply adv_peek. destruct (isdigit c) eqn:Ed; [|by apply adv_ret]. specialize (Hr (digit_nonzero c Ed)).
  assert (Hgo : forall s' exp', ok_stream N s' -> (left s' <= length rest)%nat ->
    advances (H := H) N (left (mkStream (c :: rest) o)) (exponent_digits expMinus maxExp off fuel exp') s').
  { intros s' exp' Hs' Hl' h a s2 h2 Hrun. destruct (IH s' exp' Hs' ltac:(solve_left) _ _ _ _ Hrun). split; [done | solve_left]. }
  apply adv_take. do 2 (apply adv_int; intros ?). destruct (_ >? _); [|by apply Hgo].
  destruct expMinus; [|apply adv_fail]. eapply adv_bind; [|intros ? s' Hs' Hl'; by apply Hgo].
  eapply adv_sound; [by apply quiet_bounded, skip_digits_quiet|]. by intros ? s' ? (_ & Hl & _).
Qed.

Lemma parse_exponent_advances sig expFrac off s : ok_stream N s -> advances (H := H) N (left s) (parse_exponent sig expFrac off) s.
Proof.
  intros Hs. unfold parse_exponent. destruct (is_nan_or_inf sig); [by apply adv_ret|].
  eapply adv_bind; [by apply adv_consume|]. intros e1 s1 Hs1 Hl1. eapply (adv_bind N _ (left s)).
  { intros h a s' h' Hr. destruct e1; [injection Hr as <- <- <-; by split|].
    destruct (adv_consume N 69 s1 Hs1 ltac:(lia) _ _ _ _ Hr). split; [done | lia]. }
  intros e2 s2 Hs2 Hl2. destruct e2; [|by apply adv_ret].
  eapply adv_bind; [by apply adv_consume|]. intros plus s3 Hs3 Hl3. eapply (adv_bind N _ (left s)).
  { intros h a s' h' Hr. destruct plus; [injection Hr as <- <- <-; split; [done | lia]|].
    destruct (adv_consume N 45 s3 Hs3 ltac:(lia) _ _ _ _ Hr). split; [done | lia]. }
  intros expMinus s4 Hs4 Hl4. p_open s4 Hs4 c rest. apply adv_peek. destruct (isdigit c) eqn:Ed; [|apply adv_fail_here].
  specialize (Hr (digit_nonzero c Ed)). apply adv_take.
  assert (Hm : forall (h : H) a s' h', (if expMinus : bool then let! x := int_op (expFrac + 2147483639) in pret (Z.quot x 10)
    else int_op (308 - expFrac)) (mkStream rest (u64 (o + 1))) h = Ret (POk a s' h') -> s' = mkStream rest (u64 (o + 1))).
  { intros h a s' h'. destruct expMinus; unfold int_op, lift, pbind, pret, int_result; destruct (_ && _);
      cbn [bind]; intros Hrun; by simplify_eq. }
  eapply (adv_bind N _ (length rest)).
  { intros h a s' h' Hrun. rewrite (Hm _ _ _ _ Hrun). by split. }
  intros m s5 Hs5 Hl5. eapply adv_bind; [by apply exponent_digits_advances|]. intros exp s6 Hs6 Hl6.
  destruct expMinus.
  - apply adv_int; intros z. apply adv_ret; [done | solve_left].
  - eapply adv_bind; [by apply adv_ret|]. intros z s7 Hs7 Hl7. apply adv_ret; [done | solve_left].
Qed.

Lemma ParseNumber_advances s : ok_stream N s -> advances N (left s - 1) (ParseNumber parseFlags) s.
Proof.
  intros Hs. unfold ParseNumber. eapply (adv_bind N _ (left s)); [by intros h a s' h' [= <- <- <-]|]. intros off s0 Hs0 Hl0.
  eapply adv_bind; [by apply adv_consume|]. intros minus s1 Hs1 Hl1.
  eapply (adv_bind N _ (left s - 1)); [eapply adv_sound; [by apply parse_integer_quiet|]; intros ? s' ? [_ ?]; lia|].
  intros [sig sd] s2 Hs2 Hl2.
  eapply (adv_bind N _ (left s - 1)); [eapply adv_sound; [by apply parse_fraction_quiet|]; intros ? s' ? (_ & _ & ?); lia|].
  intros [sig2 expFrac] s3 Hs3 Hl3.
  eapply (adv_bind N _ (left s - 1)).
  { intros h a s' h' Hr. destruct (parse_exponent_advances sig2 expFrac off s3 Hs3 _ _ _ _ Hr). split; [done | lia]. }
  intros [sig3 exp] s4 Hs4 Hl4. eapply (adv_bind N _ (left s - 1)).
  { unfold number_result. destruct sig3; try (by apply adv_ret). apply adv_int; intros p.
    eapply (adv_bind N _ (left s - 1)); [|intros d' s' Hs' Hl'; destruct (dltb _ _); [apply adv_fail | by apply adv_ret]].
    intros h a s' h' Hr. unfold lift in Hr. by destruct (StrtodNormalPrecision d p); simplify_eq/=. }
  intros e s5 Hs5 Hl5. apply adv_emit. by apply adv_ret.
Qed.
End Numbers.

(** ** The events of a JSON value

    A specification independent of the parser: which event sequences describe
    a value, and the value a document builds from them. *)
Definition scalar_value (e : event) : option Value :=
  match e with
  | ENull => Some VNull
  | EBool b => Some (VBool b)
  | EString s => Some (VString s)
  | _ => pushed e
  end.

Inductive value_events : list event -> Value -> Prop :=
  | ve_scalar e w : scalar_value e = Some w -> value_events [e] w
  | ve_array es ws : element_events es ws ->
      value_events (EStartArray :: es ++ [EEndArray (sizeZ ws)]) (SetArrayRaw ws)
  | ve_object es ms : member_events es ms ->
      value_events (EStartObject :: es ++ [EEndObject (sizeZ ms)]) (SetObjectRaw ms)
with element_events : list event -> list Value -> Prop :=
  | ee_nil : element_events [] []
  | ee_snoc es ws es' w : element_events es ws -> value_events es' w -> element_events (es ++ es') (ws ++ [w])
with member_events : list event -> list (list Z * Value) -> Prop :=
  | me_nil : member_events [] []
  | me_snoc es ms n es' w : member_events es ms -> value_events es' w ->
      member_events (es ++ EKey n :: es') (ms ++ [(n, w)]).

Definition value_prefix (es : list event) : Prop := exists rest w, value_events (es ++ rest) w.
Definition element_prefix (es : list event) : Prop := exists rest ws, element_events (es ++ rest) ws.
Definition member_prefix (es : list event) : Prop := exists rest ms, member_events (es ++ rest) ms.

Lemma value_prefix_nil : value_prefix [].
Proof. exists [ENull], VNull. by apply ve_scalar. Qed.

Lemma array_prefix es : element_prefix es -> value_prefix (EStartArray :: es).
Proof. intros (rest & ws & Hes). eexists _, _. cbn [app]. rewrite app_assoc. apply (ve_array _ _ Hes). Qed.

Lemma object_prefix es : member_prefix es -> value_prefix (EStartObject :: es).
Proof. intros (rest & ms & Hes). eexists _, _. cbn [app]. rewrite app_assoc. apply (ve_object _ _ Hes). Qed.

Lemma element_prefix_in es ws es' : element_events es ws -> value_prefix es' -> element_prefix (es ++ es').
Proof.
  intros Hes (rest & w & Hv). exists rest, (ws ++ [w]). rewrite <- app_assoc. by apply ee_snoc.
Qed.

Lemma member_prefix_in es ms n es' : member_events es ms -> value_prefix es' -> member_prefix (es ++ EKey n :: es').
Proof.
  intros Hes (rest & w & Hv). exists rest, (ms ++ [(n, w)]). rewrite <- app_assoc. by apply me_snoc.
Qed.

Lemma element_prefix_all es ws : element_events es ws -> element_prefix es.
Proof. intros He. exists [], ws. by rewrite app_nil_r. Qed.

Lemma member_prefix_all es ms : member_events es ms -> member_prefix es.
Proof. intros He. exists [], ms. by rewrite app_nil_r. Qed.

Section Values.
Context {H : Type} `{Handler H} (N parseFlags : Z).
Context (Hvalidate : flag_set parseFlags kParseValidateEncodingFlag = false).
Context (Hinsitu : flag_set parseFlags kParseInsituFlag = false).

(** One value was parsed: its events are sent and something was taken. *)
Definition one_value (s : StringStream) : unit -> StringStream -> list event -> Prop :=
  fun _ s' es => (exists w, value_events es w) /\ (left s' < left s)%nat.

Lemma literal_sound first rest e w s :
  ok_stream N s -> scalar_value e = Some w -> first <> 0 -> Forall (fun c => c <> 0) rest ->
  (exists l, s.(src_) = first :: l) ->
  sound N (parse_literal first rest e) s (one_value s) value_prefix.
Proof using.
  intros Hs He Hf Hrest [l Hl]. p_open s Hs c rest0. cbn [src_] in Hl. injection Hl as -> ->.
  unfold parse_literal. apply snd_peek. rewrite Z.eqb_refl. cbn [negb]. apply snd_take.
  eapply snd_quiet; [by apply consume_all_quiet; [apply Hr|] | apply value_prefix_nil |].
  intros ok s1 Hs1 [Hl1 _]. destruct ok; [|apply snd_fail_here; [done | apply value_prefix_nil | done]].
  apply snd_emit_here; [done|]. apply snd_ret; [done|]. split; [|solve_left].
  exists w. by apply ve_scalar.
Qed.

Lemma ParseString_sound isKey s :
  ok_stream N s -> (exists l, s.(src_) = 34 :: l) ->
  sound N (ParseString parseFlags isKey) s
    (fun _ s' es => (exists t, es = [if isKey then EKey t else EString t]) /\ (left s' < left s)%nat)
    (fun es => es = []).
Proof using Hvalidate Hinsitu.
  intros Hs [l Hl]. p_open s Hs c rest. cbn [src_] in Hl. injection Hl as -> ->.
  unfold ParseString. apply snd_peek. rewrite Z.eqb_refl. cbn [negb]. apply snd_take. rewrite Hinsitu.
  assert (Hs1 := Hr ltac:(lia)).
  assert (Hn : sizeZ l + 1 <= 2 ^ 31).
  { pose proof (ok_length _ _ Hs) as HL. pose proof (ok_size _ _ Hs). cbn [src_ offset_] in HL.
    unfold sizeZ in *. cbn [length] in HL. lia. }
  eapply snd_quiet; [apply quiet_bounded, ParseStringToStream_quiet; [done | done | done | by split |] | done |].
  { unfold budget, new_StackStream, left. cbn [pushed_ src_]. unfold sizeZ in *. cbn [length]. lia. }
  intros os s2 Hs2 ([Hb Hlen] & [t Ht] & Hbud & Hl2).
  assert (Hsz : 0 < sizeZ os.(pushed_) <= 2 ^ 31).
  { unfold budget, new_StackStream, left in Hbud. cbn [pushed_ src_] in Hbud. unfold sizeZ in *.
    rewrite Ht in *. rewrite length_app in *. cbn [length] in *. lia. }
  assert (Hpop : StackStream_Pop os = Ret os.(pushed_)).
  { unfold StackStream_Pop. rewrite Hlen, (proj2 (Z.ltb_ge _ _)) by lia.
    by rewrite Z.sub_diag. }
  cbv zeta. apply (snd_lift _ _ _ _ os.(pushed_)); [done|].
  apply snd_emit_here; [done|]. apply snd_ret; [done|]. split; [eexists; by destruct isKey | solve_left].
Qed.

(** A value that is no array and no object. *)
Lemma scalar_advances c rest o : ok_stream N (mkStream (c :: rest) o) -> c <> 91 -> c <> 123 ->
  advances N (length rest) (ParseValue parseFlags) (mkStream (c :: rest) o).
Proof using Hvalidate Hinsitu.
  intros Hs H91 H123.
  assert (Hlit : forall first lit e w, c = first -> first <> 0 -> Forall (fun c => c <> 0) lit -> scalar_value e = Some w ->
    advances N (length rest) (parse_literal first lit e) (mkStream (c :: rest) o)).
  { intros first lit e w -> Hf Hl He. eapply adv_sound; [by eapply literal_sound; [| | | |eexists]|].
    intros [] s' es [_ Hl']. unfold left in *. cbn [src_ length] in *. lia. }
  unfold ParseValue, bounded. cbn [src_ length]. intros h a s' h' Hr.
  change (parse_value parseFlags (S (length rest)) (mkStream (c :: rest) o) h = Ret (POk a s' h')) in Hr. cbn [parse_value] in Hr.
  unfold pbind in Hr. cbn [peek Peek src_ bind] in Hr.
  destruct (Z.eqb_spec c 110); [by apply (Hlit 110 (str "ull") ENull VNull) in Hr; [|try done; by repeat constructor..]|].
  destruct (Z.eqb_spec c 116); [by apply (Hlit 116 (str "rue") (EBool true) (VBool true)) in Hr; [|try done; by repeat constructor..]|].
  destruct (Z.eqb_spec c 102); [by apply (Hlit 102 (str "alse") (EBool false) (VBool false)) in Hr; [|try done; by repeat constructor..]|].
  destruct (Z.eqb_spec c 34) as [->|].
  { eapply (adv_sound N (length rest)); [apply ParseString_sound; [exact Hs | by eexists]| |exact Hr].
    intros [] s2 es [_ Hl']. unfold left in *. cbn [src_ length] in *. lia. }
  rewrite (proj2 (Z.eqb_neq c 91)), (proj2 (Z.eqb_neq c 123)) in Hr by done.
  destruct (ParseNumber_advances N parseFlags _ Hs _ _ _ _ Hr) as [Hs' Hl']. split; [done|].
  unfold left in *. cbn [src_ length] in *. lia.
Qed.

Context (Hlimit : N <= number_limit).

(** What the loops assume of the recursive call. *)
Definition parses_values (n : nat) (pv : parser H unit) : Prop :=
  forall s, ok_stream N s -> (left s <= n)%nat -> sound N pv s (one_value s) value_prefix.

Lemma u32_count k : 0 <= k < 2 ^ 32 - 1 -> u32 (k + 1) = k + 1.
Proof using. intros. unfold u32. rewrite Z.mod_small; lia. Qed.

Lemma finish_sound e s (Q : unit -> StringStream -> list event -> Prop) (E : list event -> Prop) :
  ok_stream N s -> Q tt s [e] -> sound N (finish e) s Q E.
Proof using. intros Hs HQ. apply snd_emit_here; [done|]. by apply snd_ret. Qed.

Definition array_rest (s : StringStream) (es0 : list event) : unit -> StringStream -> list event -> Prop :=
  fun _ s' es => (exists es1 ws, es = es1 ++ [EEndArray (sizeZ ws)] /\ element_events (es0 ++ es1) ws) /\
    (left s' < left s)%nat.

Lemma parse_elements_sound n pv fuel s es0 ws :
  parses_values n pv -> ok_stream N s -> (left s <= n)%nat -> (left s <= fuel)%nat ->
  element_events es0 ws -> sizeZ ws + Z.of_nat (left s) <= 2 ^ 31 ->
  sound N (parse_elements parseFlags pv fuel (sizeZ ws)) s (array_rest s es0) (fun es => element_prefix (es0 ++ es)).
Proof using Hvalidate Hinsitu Hlimit.
  intros Hpv. revert s es0 ws. induction fuel as [|fuel IH]; intros s es0 ws Hs Hn Hf Hes Hsz.
  { p_open s Hs c rest. solve_left. }
  cbn [parse_elements].
  eapply snd_call; [apply (Hpv s Hs Hn) | by intros es; apply (element_prefix_in _ ws) |].
  intros [] s1 es1 Hs1 [[w Hw] Hl1].
  assert (Hes1 : element_events (es0 ++ es1) (ws ++ [w])) by (by apply ee_snoc).
  assert (Hws : u32 (sizeZ ws + 1) = sizeZ (ws ++ [w])).
  { unfold sizeZ in *. rewrite u32_count, length_app by lia. cbn [length]. lia. }
  cbv zeta. rewrite Hws.
  assert (HE : element_prefix (es0 ++ es1 ++ [])) by (rewrite app_nil_r; by eapply element_prefix_all).
  eapply snd_quiet; [by apply Skip_quiet | done |]. intros [] s2 Hs2 Hl2.
  assert (Hend : forall s3, ok_stream N s3 -> (left s3 < left s)%nat ->
    array_rest s es0 tt s3 (es1 ++ [EEndArray (sizeZ (ws ++ [w]))])).
  { intros s3 Hs3 Hl3. split; [by exists es1, (ws ++ [w]) | done]. }
  assert (Hloop : forall s3, ok_stream N s3 -> (left s3 < left s)%nat ->
    sound N (parse_elements parseFlags pv fuel (sizeZ (ws ++ [w]))) s3
      (fun b s'' es' => array_rest s es0 b s'' (es1 ++ es')) (fun es' => element_prefix (es0 ++ es1 ++ es'))).
  { intros s3 Hs3 Hl3. eapply snd_weaken; [apply (IH s3 (es0 ++ es1)); [done | lia | lia | done |]| |].
    - unfold sizeZ in *. rewrite length_app. cbn [length]. lia.
    - intros [] s4 es4 _ [(es5 & ws5 & -> & H5) Hl4]. split; [|lia].
      exists (es1 ++ es5), ws5. rewrite !app_assoc in *. done.
    - intros es4. by rewrite app_assoc. }
  p_open s2 Hs2 c2 rest2. apply snd_consume; intros Hcomma.
  - assert (Hs3 := Hr ltac:(lia)). eapply snd_quiet; [by apply Skip_quiet | done |]. intros [] s4 Hs4 Hl4.
    destruct (flag_set parseFlags kParseTrailingCommasFlag); [|apply Hloop; [done | solve_left]].
    p_open s4 Hs4 c4 rest4. apply snd_peek. destruct (Z.eqb_spec c4 93); [|apply Hloop; [done | solve_left]].
    eapply (snd_call N _ _ _ _ _ (fun _ s' es => s' = mkStream (c4 :: rest4) o0 /\ es = [EEndArray (sizeZ (ws ++ [w]))])
              (fun _ => False)); [by apply finish_sound | done |].
    intros [] s5 es5 Hs5 [-> ->]. apply snd_take. apply snd_ret; [solve_ok|].
    rewrite app_nil_r. apply Hend; [solve_ok | solve_left].
  - apply snd_consume; intros Hclose.
    + apply finish_sound; [solve_ok|]. apply Hend; [solve_ok | solve_left].
    + by apply snd_fail_here.
Qed.

Lemma ParseArray_sound n pv s :
  parses_values n pv -> ok_stream N s -> (left s <= S n)%nat -> (exists l, s.(src_) = 91 :: l) ->
  sound N (ParseArray parseFlags pv) s (one_value s) value_prefix.
Proof using Hvalidate Hinsitu Hlimit.
  intros Hpv Hs Hn [l Hl]. p_open s Hs c rest. cbn [src_] in Hl. injection Hl as -> ->.
  unfold ParseArray. apply snd_peek. rewrite Z.eqb_refl. cbn [negb]. apply snd_take. assert (Hs1 := Hr ltac:(lia)).
  pose proof (ok_length _ _ Hs1) as HN. pose proof (ok_size _ _ Hs1). pose proof (ok_offset _ _ Hs1). cbn [src_] in HN.
  eapply (snd_call N _ _ _ _ _ (fun _ s' es => s' = mkStream l (u64 (o + 1)) /\ es = [EStartArray]) (fun _ => False));
    [by apply finish_sound | done |].
  intros [] s1 es1 _ [-> ->].
  assert (HE : value_prefix ([EStartArray] ++ [])) by (apply array_prefix, (element_prefix_all [] []), ee_nil).
  eapply snd_quiet; [by apply Skip_quiet | done |]. intros [] s2 Hs2 Hl2.
  p_open s2 Hs2 c2 rest2. apply snd_consume; intros Hclose.
  - apply finish_sound; [solve_ok|]. split; [|solve_left]. exists (SetArrayRaw []). apply (ve_array [] []), ee_nil.
  - destruct (parse_elements_sound n pv (left (mkStream (c2 :: rest2) o0)) (mkStream (c2 :: rest2) o0) [] [])
      as [b s3 es Hs3 [(es1 & ws & -> & Hw) Hl3] Hm | code off es HE' Hc' Hoff Hm];
      [done | done | solve_left | done | apply ee_nil | unfold left in *; unfold sizeZ in *; cbn [src_ length] in *; lia | |].
    + eapply sound_ok; [done | | exact Hm]. split; [|solve_left]. exists (SetArrayRaw ws). by apply (ve_array es1 ws).
    + eapply sound_err; [| exact Hc' | exact Hoff | exact Hm]. by apply array_prefix.
Qed.

Definition object_rest (s : StringStream) (es0 : list event) : unit -> StringStream -> list event -> Prop :=
  fun _ s' es => (exists es1 ms, es = es1 ++ [EEndObject (sizeZ ms)] /\ member_events (es0 ++ es1) ms) /\
    (left s' < left s)%nat.

Lemma parse_members_sound n pv fuel s es0 ms :
  parses_values n pv -> ok_stream N s -> (left s <= n)%nat -> (left s <= fuel)%nat ->
  member_events es0 ms -> sizeZ ms + Z.of_nat (left s) <= 2 ^ 31 ->
  sound N (parse_members parseFlags pv fuel (sizeZ ms)) s (object_rest s es0) (fun es => member_prefix (es0 ++ es)).
Proof using Hvalidate Hinsitu Hlimit.
  intros Hpv. revert s es0 ms. induction fuel as [|fuel IH]; intros s es0 ms Hs Hn Hf Hes Hsz.
  { p_open s Hs c rest. solve_left. }
  cbn [parse_members]. assert (HE0 : member_prefix (es0 ++ [])) by (rewrite app_nil_r; by eapply member_prefix_all).
  p_open s Hs c rest. apply snd_peek. destruct (Z.eqb_spec c 34) as [->|]; [|by apply snd_fail_here]. cbn [negb].
  eapply snd_call; [apply ParseString_sound; [done | by eexists] | by intros es ->|].
  intros [] s1 es1 Hs1 [[t ->] Hl1].
  assert (HE1 : member_prefix (es0 ++ [EKey t] ++ [])) by (apply (member_prefix_in _ ms), value_prefix_nil; done).
  eapply snd_quiet; [by apply Skip_quiet | done |]. intros [] s2 Hs2 Hl2.
  p_open s2 Hs2 c2 rest2. apply snd_consume; intros Hcolon; [|by apply snd_fail_here]. cbn [negb].
  assert (Hs2' := Hr0 ltac:(lia)). eapply snd_quiet; [by apply Skip_quiet | done |]. intros [] s3 Hs3 Hl3.
  eapply snd_call; [apply (Hpv s3 Hs3); solve_left | by intros es He; apply (member_prefix_in _ ms) |].
  intros [] s4 es4 Hs4 [[w Hw] Hl4].
  assert (Hes4 : member_events (es0 ++ EKey t :: es4) (ms ++ [(t, w)])) by (by apply me_snoc).
  assert (Hms : u32 (sizeZ ms + 1) = sizeZ (ms ++ [(t, w)])).
  { unfold sizeZ in *. rewrite u32_count, length_app by solve_left. cbn [length]. lia. }
  cbv zeta. rewrite Hms. set (ms1 := ms ++ [(t, w)]) in *.
  assert (HE4 : member_prefix (es0 ++ [EKey t] ++ es4 ++ [])) by (rewrite app_nil_r; by eapply member_prefix_all).
  eapply snd_quiet; [by apply Skip_quiet | done |]. intros [] s5 Hs5 Hl5.
  assert (Hend : forall s6, ok_stream N s6 -> (left s6 <= left s5)%nat ->
    object_rest (mkStream (34 :: rest) o) es0 tt s6 ([EKey t] ++ es4 ++ [EEndObject (sizeZ ms1)])).
  { intros s6 Hs6 Hl6. split; [by exists (EKey t :: es4), ms1 | solve_left]. }
  assert (Hloop : forall s6, ok_stream N s6 -> (left s6 <= left s5)%nat ->
    sound N (parse_members parseFlags pv fuel (sizeZ ms1)) s6
      (fun b s'' es' => object_rest (mkStream (34 :: rest) o) es0 b s'' ([EKey t] ++ es4 ++ es'))
      (fun es' => member_prefix (es0 ++ [EKey t] ++ es4 ++ es'))).
  { intros s6 Hs6 Hl6. eapply snd_weaken; [apply (IH s6 (es0 ++ EKey t :: es4)); [done | solve_left | solve_left | done |]| |].
    - unfold ms1, sizeZ in *. rewrite length_app. cbn [length]. solve_left.
    - intros [] s7 es7 _ [(es8 & ms8 & -> & H8) Hl7]. split; [|solve_left].
      exists (EKey t :: es4 ++ es8), ms8. rewrite <- app_assoc in H8. split; [cbn [app]; by rewrite <- app_assoc | done].
    - intros es7. cbv beta. by rewrite <- app_assoc. }
  p_open s5 Hs5 c5 rest5. apply snd_peek. destruct (Z.eqb_spec c5 44).
  - apply snd_take. assert (Hs6 := Hr1 ltac:(lia)). eapply snd_quiet; [by apply Skip_quiet | done |]. intros [] s7 Hs7 Hl7.
    destruct (flag_set parseFlags kParseTrailingCommasFlag); [|apply Hloop; [done | solve_left]].
    p_open s7 Hs7 c7 rest7. apply snd_peek. destruct (Z.eqb_spec c7 125); [|apply Hloop; [done | solve_left]].
    eapply (snd_call N _ _ _ _ _ (fun _ s' es => s' = mkStream (c7 :: rest7) o2 /\ es = [EEndObject (sizeZ ms1)])
              (fun _ => False)); [by apply finish_sound | done |].
    intros [] s8 es8 Hs8 [-> ->]. apply snd_take. apply snd_ret; [solve_ok|].
    rewrite app_nil_r. apply Hend; [solve_ok | solve_left].
  - destruct (Z.eqb_spec c5 125).
    + apply snd_take. apply finish_sound; [solve_ok|]. apply Hend; [solve_ok | solve_left].
    + by apply snd_fail_here.
Qed.

Lemma ParseObject_sound n pv s :
  parses_values n pv -> ok_stream N s -> (left s <= S n)%nat -> (exists l, s.(src_) = 123 :: l) ->
  sound N (ParseObject parseFlags pv) s (one_value s) value_prefix.
Proof using Hvalidate Hinsitu Hlimit.
  intros Hpv Hs Hn [l Hl]. p_open s Hs c rest. cbn [src_] in Hl. injection Hl as -> ->.
  unfold ParseObject. apply snd_peek. rewrite Z.eqb_refl. cbn [negb]. apply snd_take. assert (Hs1 := Hr ltac:(lia)).
  pose proof (ok_length _ _ Hs1) as HN. pose proof (ok_size _ _ Hs1). pose proof (ok_offset _ _ Hs1). cbn [src_] in HN.
  eapply (snd_call N _ _ _ _ _ (fun _ s' es => s' = mkStream l (u64 (o + 1)) /\ es = [EStartObject]) (fun _ => False));
    [by apply finish_sound | done |].
  intros [] s1 es1 _ [-> ->].
  assert (HE : value_prefix ([EStartObject] ++ [])) by (apply object_prefix, (member_prefix_all [] []), me_nil).
  eapply snd_quiet; [by apply Skip_quiet | done |]. intros [] s2 Hs2 Hl2.
  p_open s2 Hs2 c2 rest2. apply snd_consume; intros Hclose.
  - apply finish_sound; [solve_ok|]. split; [|solve_left]. exists (SetObjectRaw []). apply (ve_object [] []), me_nil.
  - destruct (parse_members_sound n pv (left (mkStream (c2 :: rest2) o0)) (mkStream (c2 :: rest2) o0) [] [])
      as [b s3 es Hs3 [(es1 & ms & -> & Hw) Hl3] Hm | code off es HE' Hc' Hoff Hm];
      [done | done | solve_left | done | apply me_nil | unfold left in *; unfold sizeZ in *; cbn [src_ length] in *; lia | |].
    + eapply sound_ok; [done | | exact Hm]. split; [|solve_left]. exists (SetObjectRaw ms). by apply (ve_object es1 ms).
    + eapply sound_err; [| exact Hc' | exact Hoff | exact Hm]. by apply object_prefix.
Qed.

Lemma parse_value_sound n : parses_values n (parse_value parseFlags n).
Proof using Hvalidate Hinsitu Hlimit.
  induction n as [|n IH]; intros s Hs Hn; pose proof Hs as Hs'; p_open s Hs c rest; [solve_left|].
  cbn [parse_value]. apply snd_peek.
  destruct (Z.eqb_spec c 110) as [->|]; [by eapply literal_sound; [| | |repeat constructor|eexists]|].
  destruct (Z.eqb_spec c 116) as [->|]; [by eapply literal_sound; [| | |repeat constructor|eexists]|].
  destruct (Z.eqb_spec c 102) as [->|]; [by eapply literal_sound; [| | |repeat constructor|eexists]|].
  destruct (Z.eqb_spec c 34) as [->|].
  { eapply snd_weaken; [apply ParseString_sound; [done | by eexists]| |].
    - intros [] s' es _ [[t ->] Hl]. split; [|done]. exists (VString t). by apply ve_scalar.
    - intros es ->. apply value_prefix_nil. }
  destruct (Z.eqb_spec c 123) as [->|]; [eapply ParseObject_sound; [exact IH | done | done | by eexists]|].
  destruct (Z.eqb_spec c 91) as [->|]; [eapply ParseArray_sound; [exact IH | done | done | by eexists]|].
  eapply snd_weaken; [by apply ParseNumber_sound | |].
  - intros [] s' es _ [(e & w & -> & Hw) Hl]. split; [|done]. exists w. apply ve_scalar. by destruct e.
  - intros es ->. apply value_prefix_nil.
Qed.

Lemma ParseValue_sound s : ok_stream N s -> sound N (ParseValue parseFlags) s (one_value s) value_prefix.
Proof using Hvalidate Hinsitu Hlimit.
  intros Hs. destruct (parse_value_sound (left s) s Hs (Nat.le_refl _))
    as [a s' es Hs' HQ Hm | code off es HE Hc Hoff Hm].
  - by eapply sound_ok.
  - by eapply sound_err.
Qed.
End Values.
