(* ===== verification/IterativeParser.v ===== *)
(** * The iterative parser against the recursive one

    [IterativeParse] replaces the call stack by a table of states and a stack
    of frames.  This file follows one run of the recursive parser with the
    iterations of the loop: every call that succeeds is matched by [k]
    iterations that reach the same stream and the same handler, and every error
    by iterations that report it.  An iteration takes at least one character,
    so [k] is bounded by the text consumed and the fuel suffices. *)
From S2P Require Import Prelude Decimal Types Doubles StringBuffer Encodings Value Handler Document.
From S2P Require Import Reader ReaderLogic ReaderTotal.

(** ** Tokens *)
Definition token_of (c : Z) : Token :=
  if c =? 91 then LeftBracketToken else if c =? 93 then RightBracketToken
  else if c =? 123 then LeftCurlyBracketToken else if c =? 125 then RightCurlyBracketToken
  else if c =? 44 then CommaToken else if c =? 58 then ColonToken
  else if c =? 34 then StringToken else if c =? 102 then FalseToken
  else if c =? 116 then TrueToken else if c =? 110 then NullToken else NumberToken.

Lemma Tokenize_token c : 0 <= c < 256 -> Tokenize c = Ret (token_of c).
Proof.
  intros Hc. enough (Ht : forallb (fun c => bool_decide (Tokenize c = Ret (token_of c))) (seqZ 0 256) = true).
  { eapply forallb_seqZ in Ht; [|exact Hc]. by apply bool_decide_eq_true in Ht. }
  vm_compute. reflexivity.
Qed.

Ltac token_cases :=
  unfold token_of; repeat match goal with |- context [?x =? ?y] => destruct (Z.eqb_spec x y); try lia end; reflexivity.

(** The tokens that start no value. *)
Definition stray (c : Z) : bool := (c =? 0) || (c =? 93) || (c =? 125) || (c =? 44) || (c =? 58).

Section Iterative.
Context {H : Type} `{Handler H} (N : Z) (parseFlags : Z).
Context (Hvalidate : flag_set parseFlags kParseValidateEncodingFlag = false).
Context (Hinsitu : flag_set parseFlags kParseInsituFlag = false).

Lemma pbind_assoc {A B C} (m : parser H A) (k : A -> parser H B) (k' : B -> parser H C) s h :
  pbind (pbind m k) k' s h = pbind m (fun a => pbind (k a) k') s h.
Proof. unfold pbind. destruct (m s h) as [[a s' h'|code off h']| |]; done. Qed.

Lemma emit_at {B} e (k : bool -> parser H B) s h :
  pbind (emit e) k s h = let* (ok, h1) := handle e h in k ok s h1.
Proof. unfold pbind, emit. by destruct (handle e h) as [[ok h1]| |]. Qed.

(** ** Following *)

(** Whatever [m] returns on [s], the loop [it] with [k] more iterations does
    the same and goes on with [K], or reports the same error; the offset of a
    termination by the handler may differ.  [b] characters are kept for the
    iterations around [m]. *)
Definition follows {A} (b : nat) (m : parser H A) (s : StringStream) (it : nat -> parser H unit)
    (K : A -> nat -> parser H unit) : Prop := forall h r, m s h = Ret r ->
  match r with
  | POk a s' h' => ok_stream N s' /\ exists k, (k + left s' + b <= left s)%nat /\ forall f, it (k + f)%nat s h = K a f s' h'
  | PErr code off h' => exists k off', (k + b <= left s)%nat /\ (off' = off \/ code = kParseErrorTermination) /\
      forall f, it (k + f)%nat s h = Ret (PErr code off' h')
  end.

Section Rules.
Context {A B : Type} (b : nat) (s : StringStream) (it : nat -> parser H unit) (K : B -> nat -> parser H unit).

Lemma fol_bind (m : parser H A) (k : A -> parser H B) b1 K1 :
  follows (b1 + b) m s it K1 ->
  (forall a s', ok_stream N s' -> (left s' + b1 + b <= left s)%nat -> follows 0 (k a) s' (K1 a) K) ->
  follows b (pbind m k) s it K.
Proof.
  intros Hm Hk h r Hr. unfold pbind in Hr. destruct (m s h) as [r1| |] eqn:E1; try discriminate Hr.
  specialize (Hm h r1 E1). cbn [bind] in Hr. destruct r1 as [a s' h'|code off h'].
  - destruct Hm as (Hs' & k1 & Hl1 & Hit1). specialize (Hk a s' Hs' ltac:(lia) h' r Hr). destruct r as [x s2 h2|code off h2].
    + destruct Hk as (Hs2 & k2 & Hl2 & Hit2). split; [done|]. exists (k1 + k2)%nat. split; [lia|].
      intros f. by rewrite <- Nat.add_assoc, Hit1.
    + destruct Hk as (k2 & off' & Hl2 & Hoff & Hit2). exists (k1 + k2)%nat, off'. split; [lia|]. split; [done|].
      intros f. by rewrite <- Nat.add_assoc, Hit1.
  - simplify_eq. destruct Hm as (k1 & off' & Hl & Hoff & Hit). exists k1, off'. split; [lia|]. done.
Qed.

Lemma fol_ext (m : parser H B) it' :
  (forall f h, it f s h = it' f s h) -> follows b m s it' K -> follows b m s it K.
Proof.
  intros He Hm h r Hr. specialize (Hm h r Hr). destruct r as [x s2 h2|code off h2].
  - destruct Hm as (Hs2 & k & Hl & Hit). split; [done|]. exists k. split; [done|]. intros f. by rewrite He.
  - destruct Hm as (k & off' & Hl & Hoff & Hit). exists k, off'. split_and!; try done. intros f. by rewrite He.
Qed.

(** One iteration. *)
Lemma fol_step (m : parser H B) it' :
  (forall f h, it (S f) s h = it' f s h) -> follows (S b) m s it' K -> follows b m s it K.
Proof.
  intros He Hm h r Hr. specialize (Hm h r Hr). destruct r as [x s2 h2|code off h2].
  - destruct Hm as (Hs2 & k & Hl & Hit). split; [done|]. exists (S k). split; [lia|]. intros f. cbn [Nat.add]. by rewrite He.
  - destruct Hm as (k & off' & Hl & Hoff & Hit). exists (S k), off'. split_and!; [lia|done|]. intros f. cbn [Nat.add]. by rewrite He.
Qed.

Lemma fol_ret a : ok_stream N s -> (b = 0)%nat -> (forall f h, it f s h = K a f s h) -> follows b (pret a) s it K.
Proof. intros Hs -> He h r [= <-]. split; [done|]. exists 0%nat. split; [lia|]. intros f. apply He. Qed.

Lemma fol_fail code : (b <= left s)%nat ->
  (forall f h, it f s h = fail_here code s h) -> follows b (fail_here code) s it K.
Proof. intros Hb He h r [= <-]. exists 0%nat, (Tell s). split_and!; [lia | by left |]. intros f. by rewrite He. Qed.
End Rules.

(** The same step on both sides, which takes [b1] characters when it succeeds. *)
Lemma fol_same {A B} b b1 b2 (m : parser H A) (k : A -> parser H B) s (it : A -> nat -> parser H unit) K
    (Q : A -> StringStream -> list event -> Prop) E :
  sound N m s Q E -> (b <= left s)%nat -> (b <= b1 + b2)%nat ->
  (forall a s' es, ok_stream N s' -> Q a s' es -> (left s' + b1 <= left s)%nat /\ follows b2 (k a) s' (it a) K) ->
  follows b (pbind m k) s (fun f => pbind m (fun a => it a f)) K.
Proof.
  intros Hm Hb Hb12 Hk h r Hr. unfold pbind in Hr |- *. destruct (m s h) as [r1| |] eqn:E1; try discriminate Hr.
  cbn [bind] in Hr |- *. destruct r1 as [a s' h'|code off h'].
  - destruct (sound_ok_inv _ _ _ _ _ _ _ _ _ Hm E1) as (Hs' & es & HQ). destruct (Hk a s' es Hs' HQ) as [Hl Hf].
    specialize (Hf h' r Hr). destruct r as [x s2 h2|code off h2].
    + destruct Hf as (Hs2 & k2 & Hl2 & Hit2). split; [done|]. exists k2. split; [lia | done].
    + destruct Hf as (k2 & off' & Hl2 & Hoff & Hit2). exists k2, off'. split; [lia | done].
  - simplify_eq. exists 0%nat, off. split_and!; [lia | by left | done].
Qed.

Lemma fol_call {A} b L (m : parser H A) s (it : nat -> parser H unit) :
  advances N L m s -> (b <= left s)%nat -> (L + b <= left s)%nat ->
  follows b m s (fun f => let! _ := m in it f) (fun _ => it).
Proof.
  intros Hm Hb HL h r Hr. unfold pbind. rewrite Hr. cbn [bind]. destruct r as [a s' h'|code off h'].
  - destruct (Hm _ _ _ _ Hr) as (Hs' & Hl). split; [done|]. exists 0%nat. split; [lia|done].
  - exists 0%nat, off. split_and!; [lia | by left | done].
Qed.

(** White space, on both sides. *)
Lemma fol_skip {B} b (k : parser H B) s (it : nat -> parser H unit) K :
  ok_stream N s -> (b <= left s)%nat ->
  (forall s', ok_stream N s' -> (left s' <= left s)%nat -> follows b k s' it K) ->
  follows b (pbind (SkipWhitespaceAndComments parseFlags) (fun _ => k)) s
    (fun f => pbind (SkipWhitespaceAndComments parseFlags) (fun _ => it f)) K.
Proof.
  intros Hs Hb Hk. eapply (fol_same b 0 b); [by apply Skip_quiet | done | lia |].
  intros a s' es Hs' [_ Hl]. split; [lia|]. by apply Hk.
Qed.

Lemma fol_take {B} b c rest o (k : Z -> parser H B) (it : nat -> parser H unit) K :
  (ok_stream N (mkStream rest (u64 (o + 1))) -> follows b (k c) (mkStream rest (u64 (o + 1))) it K) ->
  c <> 0 -> ok_stream N (mkStream (c :: rest) o) ->
  follows (S b) (pbind take_ch k) (mkStream (c :: rest) o) (fun f => pbind take_ch (fun _ => it f)) K.
Proof.
  intros Hk Hc Hs h r Hr. destruct (ok_cons _ _ Hs) as (c' & rest' & He & _ & _ & Hrest). cbn [offset_] in *.
  injection He as <- <-. specialize (Hk (Hrest Hc) h r Hr). unfold left in *. cbn [src_ length].
  destruct r as [x s2 h2|code off h2].
  - destruct Hk as (Hs2 & k2 & Hl2 & Hit2). split; [done|]. exists k2. cbn [src_] in Hl2. split; [lia | exact Hit2].
  - destruct Hk as (k2 & off' & Hl2 & Hoff & Hit2). exists k2, off'. cbn [src_] in Hl2. split_and!; [lia | done | exact Hit2].
Qed.

(** The handler is called before the bracket is taken in the loop, and after it
    (or before) in the recursion. *)
Definition emit_take {A} (e : event) (k : parser H A) : parser H A :=
  let! hr := emit e in if hr : bool then let! _ := take_ch in k else fail_here kParseErrorTermination.

Lemma fol_emitted {B} b c rest o e off (m k : parser H B) (it : nat -> parser H unit) K :
  (forall h, m (mkStream (c :: rest) o) h =
     let* (ok, h1) := handle e h in
     if ok : bool then k (mkStream rest (u64 (o + 1))) h1 else Ret (PErr kParseErrorTermination off h1)) ->
  (ok_stream N (mkStream rest (u64 (o + 1))) -> follows b k (mkStream rest (u64 (o + 1))) it K) ->
  c <> 0 -> (b <= length rest)%nat -> ok_stream N (mkStream (c :: rest) o) ->
  follows (S b) m (mkStream (c :: rest) o) (fun f => emit_take e (it f)) K.
Proof.
  intros Hm Hk Hc Hb Hs h r Hr. destruct (ok_cons _ _ Hs) as (c' & rest' & He & _ & _ & Hrest). cbn [offset_] in *.
  injection He as <- <-. specialize (Hk (Hrest Hc)). unfold left in *. cbn [src_ length]. rewrite Hm in Hr.
  unfold emit_take, emit, pbind. cbn [take_ch Take src_ offset_ bind].
  destruct (handle e h) as [[[] h1]| |]; try discriminate Hr; cbn [bind] in Hr |- *.
  - specialize (Hk h1 r Hr). destruct r as [x s2 h2|code off' h2].
    + destruct Hk as (Hs2 & k2 & Hl2 & Hit2). split; [done|]. exists k2. unfold left in Hl2. cbn [src_] in Hl2. split; [lia | exact Hit2].
    + destruct Hk as (k2 & off2 & Hl2 & Hoff & Hit2). exists k2, off2. unfold left in Hl2. cbn [src_] in Hl2. split_and!; [lia | done | exact Hit2].
  - injection Hr as <-. exists 0%nat. eexists. split_and!; [lia | by right | done].
Qed.

Lemma fol_take_emit {B} b c rest o e (k : parser H B) (it : nat -> parser H unit) K :
  (ok_stream N (mkStream rest (u64 (o + 1))) -> follows b k (mkStream rest (u64 (o + 1))) it K) ->
  c <> 0 -> (b <= length rest)%nat -> ok_stream N (mkStream (c :: rest) o) ->
  follows (S b) (let! _ := take_ch in let! _ := finish e in k) (mkStream (c :: rest) o) (fun f => emit_take e (it f)) K.
Proof.
  apply (fol_emitted b c rest o e (u64 (o + 1))). intros h. unfold finish, emit, pbind. cbn [take_ch Take src_ offset_ bind].
  by destruct (handle e h) as [[[] h1]| |].
Qed.

Lemma fol_emit_take {B} b c rest o e (k : parser H B) (it : nat -> parser H unit) K :
  (ok_stream N (mkStream rest (u64 (o + 1))) -> follows b k (mkStream rest (u64 (o + 1))) it K) ->
  c <> 0 -> (b <= length rest)%nat -> ok_stream N (mkStream (c :: rest) o) ->
  follows (S b) (let! _ := finish e in let! _ := take_ch in k) (mkStream (c :: rest) o) (fun f => emit_take e (it f)) K.
Proof.
  apply (fol_emitted b c rest o e o). intros h. unfold finish, emit, pbind. cbn [take_ch Take src_ offset_ bind].
  by destruct (handle e h) as [[[] h1]| |].
Qed.

(** ** One iteration of the loop *)

(** What follows a transition to [d]. *)
Definition after (f : nat) (d : IterativeParsingState) (stack : frames) : parser H unit :=
  if flag_set parseFlags kParseStopWhenDoneFlag && bool_decide (d = IterativeParsingFinishState) then pret tt
  else let! _ := SkipWhitespaceAndComments parseFlags in iterate parseFlags f d stack.

Lemma after_skip f d stack : d <> IterativeParsingFinishState ->
  after f d stack = (let! _ := SkipWhitespaceAndComments parseFlags in iterate parseFlags f d stack).
Proof. intros Hd. unfold after. rewrite bool_decide_eq_false_2 by done. by rewrite andb_false_r. Qed.

Definition landed (f : nat) (src : IterativeParsingState) (r : IterativeParsingState * frames) : parser H unit :=
  let '(d, stack) := r in if bool_decide (d = IterativeParsingErrorState) then HandleError src else after f d stack.

Section Step.
Context (src : IterativeParsingState) (stack : frames) (c : Z) (rest : list Z) (o : Z) (f : nat) (h : H).
Context (Hbyte : 0 <= c < 256).

Lemma loop_step n : c <> 0 -> Predict src (token_of c) = Ret n ->
  iterate parseFlags (S f) src stack (mkStream (c :: rest) o) h =
  pbind (Transit parseFlags src (token_of c) n stack) (landed f src) (mkStream (c :: rest) o) h.
Proof using Hbyte.
  intros Hc Hp. cbn [iterate]. unfold pbind at 1. cbn [peek Peek src_ bind]. rewrite (proj2 (Z.eqb_neq c 0)) by done.
  unfold pbind at 1, lift at 1. rewrite Tokenize_token by done. cbn [bind].
  unfold pbind at 1, lift at 1. rewrite Hp. cbn [bind]. done.
Qed.

Lemma loop_stray : c <> 0 -> Predict src (token_of c) = Ret IterativeParsingErrorState ->
  iterate parseFlags (S f) src stack (mkStream (c :: rest) o) h = HandleError src (mkStream (c :: rest) o) h.
Proof using Hbyte. intros Hc Hp. by rewrite (loop_step _ Hc Hp). Qed.

Lemma loop_eof : c = 0 -> src <> IterativeParsingFinishState ->
  iterate parseFlags (S f) src stack (mkStream (c :: rest) o) h = HandleError src (mkStream (c :: rest) o) h.
Proof using.
  intros Hc Hs. cbn [iterate]. unfold pbind at 1. cbn [peek Peek src_ bind]. rewrite (proj2 (Z.eqb_eq c 0)) by done. by rewrite bool_decide_eq_false_2.
Qed.

Lemma loop_value n d : c <> 0 -> Predict src (token_of c) = Ret n ->
  (n = IterativeParsingMemberValueState \/ n = IterativeParsingElementState) /\ d = n \/
    n = IterativeParsingValueState /\ d = IterativeParsingFinishState ->
  iterate parseFlags (S f) src stack (mkStream (c :: rest) o) h =
  (let! _ := ParseValue parseFlags in after f d stack) (mkStream (c :: rest) o) h.
Proof using Hbyte.
  intros Hc Hp Hn. rewrite (loop_step _ Hc Hp). by destruct Hn as [[[-> | ->] ->] | [-> ->]]; cbn [Transit]; rewrite pbind_assoc.
Qed.

Lemma loop_key : c <> 0 -> Predict src (token_of c) = Ret IterativeParsingMemberKeyState ->
  iterate parseFlags (S f) src stack (mkStream (c :: rest) o) h =
  (let! _ := ParseString parseFlags true in after f IterativeParsingMemberKeyState stack) (mkStream (c :: rest) o) h.
Proof using Hbyte. intros Hc Hp. rewrite (loop_step _ Hc Hp). cbn [Transit]. by rewrite pbind_assoc. Qed.

Lemma loop_colon : c = 58 -> Predict src (token_of c) = Ret IterativeParsingKeyValueDelimiterState ->
  iterate parseFlags (S f) src stack (mkStream (c :: rest) o) h =
  (let! _ := take_ch in after f IterativeParsingKeyValueDelimiterState stack) (mkStream (c :: rest) o) h.
Proof using Hbyte.
  intros Hc Hp. rewrite (loop_step _ ltac:(lia) Hp). cbn [Transit]. rewrite bool_decide_eq_true_2 by (by subst c).
  by rewrite pbind_assoc.
Qed.

Lemma loop_comma n i count stack' : c <> 0 -> Predict src (token_of c) = Ret n ->
  n = IterativeParsingMemberDelimiterState \/ n = IterativeParsingElementDelimiterState -> stack = (i, count) :: stack' ->
  iterate parseFlags (S f) src stack (mkStream (c :: rest) o) h =
  (let! _ := take_ch in after f n ((i, u32 (count + 1)) :: stack')) (mkStream (c :: rest) o) h.
Proof using Hbyte.
  intros Hc Hp Hn Hs. rewrite (loop_step _ Hc Hp), Hs. by destruct Hn as [-> | ->]; cbn [Transit]; rewrite pbind_assoc.
Qed.

Lemma loop_start n e : c <> 0 -> Predict src (token_of c) = Ret n ->
  n = IterativeParsingObjectInitialState /\ e = EStartObject \/ n = IterativeParsingArrayInitialState /\ e = EStartArray ->
  iterate parseFlags (S f) src stack (mkStream (c :: rest) o) h =
  emit_take e (after f n ((frame_state src, 0) :: stack)) (mkStream (c :: rest) o) h.
Proof using Hbyte.
  intros Hc Hp Hn. rewrite (loop_step _ Hc Hp).
  destruct Hn as [[-> ->] | [-> ->]]; cbn [Transit]; unfold start_compound, emit_take; rewrite pbind_assoc, !emit_at;
    destruct (handle _ h) as [[[] h1]| |]; done.
Qed.

(** The state after a closing bracket. *)
Definition closed (i : IterativeParsingState) : IterativeParsingState :=
  if bool_decide (i = IterativeParsingStartState) then IterativeParsingFinishState else i.

Lemma loop_end n i count stack' value_state delimiter_state missing e :
  c <> 0 -> Predict src (token_of c) = Ret n -> stack = (i, count) :: stack' -> i <> IterativeParsingErrorState ->
  Transit parseFlags src (token_of c) n stack = end_compound parseFlags src value_state delimiter_state missing e stack (H := H) ->
  negb (flag_set parseFlags kParseTrailingCommasFlag) && bool_decide (src = delimiter_state) = false ->
  iterate parseFlags (S f) src stack (mkStream (c :: rest) o) h =
  emit_take (e (if bool_decide (src = value_state) then u32 (count + 1) else count)) (after f (closed i) stack')
    (mkStream (c :: rest) o) h.
Proof using Hbyte.
  intros Hc Hp Hs Hi Ht Hd. rewrite (loop_step _ Hc Hp), Ht, Hs. unfold end_compound, emit_take. rewrite Hd. cbv zeta.
  rewrite pbind_assoc, !emit_at. destruct (handle _ h) as [[[] h1]| |]; try done. cbn [bind].
  unfold landed. fold (closed i). unfold pbind. cbn [take_ch Take src_ offset_ bind pret].
  rewrite bool_decide_eq_false_2; [done|]. unfold closed. clear -Hi. by case_bool_decide.
Qed.
Lemma loop_trailing n missing : c <> 0 -> Predict src (token_of c) = Ret n ->
  n = IterativeParsingObjectFinishState /\ src = IterativeParsingMemberDelimiterState /\ missing = kParseErrorObjectMissName \/
    n = IterativeParsingArrayFinishState /\ src = IterativeParsingElementDelimiterState /\ missing = kParseErrorValueInvalid ->
  flag_set parseFlags kParseTrailingCommasFlag = false ->
  iterate parseFlags (S f) src stack (mkStream (c :: rest) o) h = fail_here missing (mkStream (c :: rest) o) h.
Proof using Hbyte.
  intros Hc Hp Hn Hf. rewrite (loop_step _ Hc Hp).
  destruct Hn as [(-> & -> & ->) | (-> & -> & ->)]; cbn [Transit]; unfold end_compound; by rewrite Hf.
Qed.

Lemma loop_array_end i count stack' : c = 93 -> stack = (i, count) :: stack' -> i <> IterativeParsingErrorState ->
  src = IterativeParsingElementState \/ src = IterativeParsingArrayInitialState \/
    src = IterativeParsingElementDelimiterState /\ flag_set parseFlags kParseTrailingCommasFlag = true ->
  iterate parseFlags (S f) src stack (mkStream (c :: rest) o) h =
  emit_take (EEndArray (if bool_decide (src = IterativeParsingElementState) then u32 (count + 1) else count))
    (after f (closed i) stack') (mkStream (c :: rest) o) h.
Proof using Hbyte.
  intros Hc Hs Hi Hsrc. apply (loop_end IterativeParsingArrayFinishState i count stack' IterativeParsingElementState
    IterativeParsingElementDelimiterState kParseErrorValueInvalid EEndArray); try done; [lia | |].
  - rewrite Hc. by destruct Hsrc as [-> | [-> | [-> _]]].
  - destruct Hsrc as [-> | [-> | [-> ->]]]; [apply andb_false_r | apply andb_false_r | done].
Qed.

Lemma loop_object_end i count stack' : c = 125 -> stack = (i, count) :: stack' -> i <> IterativeParsingErrorState ->
  src = IterativeParsingMemberValueState \/ src = IterativeParsingObjectInitialState \/
    src = IterativeParsingMemberDelimiterState /\ flag_set parseFlags kParseTrailingCommasFlag = true ->
  iterate parseFlags (S f) src stack (mkStream (c :: rest) o) h =
  emit_take (EEndObject (if bool_decide (src = IterativeParsingMemberValueState) then u32 (count + 1) else count))
    (after f (closed i) stack') (mkStream (c :: rest) o) h.
Proof using Hbyte.
  intros Hc Hs Hi Hsrc. apply (loop_end IterativeParsingObjectFinishState i count stack' IterativeParsingMemberValueState
    IterativeParsingMemberDelimiterState kParseErrorObjectMissName EEndObject); try done; [lia | |].
  - rewrite Hc. by destruct Hsrc as [-> | [-> | [-> _]]].
  - destruct Hsrc as [-> | [-> | [-> ->]]]; [apply andb_false_r | apply andb_false_r | done].
Qed.
End Step.

(** ** Values *)

(** The states in which a value is expected, and the one after it. *)
Definition value_state (src : IterativeParsingState) : option IterativeParsingState :=
  match src with
  | IterativeParsingStartState => Some IterativeParsingFinishState
  | IterativeParsingArrayInitialState | IterativeParsingElementDelimiterState => Some IterativeParsingElementState
  | IterativeParsingKeyValueDelimiterState => Some IterativeParsingMemberValueState
  | _ => None
  end.

(** The characters on which the two parsers differ, or leave the loop. *)
Definition allowed (src : IterativeParsingState) (c : Z) : Prop :=
  match src with
  | IterativeParsingStartState => stray c = false
  | IterativeParsingArrayInitialState => c <> 93
  | IterativeParsingElementDelimiterState => c = 93 -> flag_set parseFlags kParseTrailingCommasFlag = false
  | _ => True
  end.

Lemma frame_state_value src d : value_state src = Some d ->
  closed (frame_state src) = d /\ frame_state src <> IterativeParsingErrorState.
Proof. by destruct src; intros [= <-]. Qed.

(** A stray token is an invalid value. *)
Lemma stray_value n c rest o h : stray c = true ->
  parse_value (H := H) parseFlags (S n) (mkStream (c :: rest) o) h = Ret (PErr kParseErrorValueInvalid o h).
Proof.
  unfold stray. intros Hs. assert (Hc : c = 0 \/ c = 93 \/ c = 125 \/ c = 44 \/ c = 58) by lia.
  cbn [parse_value]. unfold pbind at 1. cbn [peek Peek src_ bind].
  destruct Hc as [->|[->|[->|[->| ->]]]]; cbn [Z.eqb Pos.eqb]; unfold ParseNumber, Consume, parse_integer, fail_here, fail, tell, pbind;
    cbn [peek Peek src_ bind Z.eqb Pos.eqb Z.leb Z.compare Pos.compare Pos.compare_cont andb tell Tell offset_ pret];
    rewrite andb_false_r; done.
Qed.

(** A scalar does not need the recursion. *)
Lemma scalar_fuel n c rest o h : c <> 91 -> c <> 123 ->
  parse_value (H := H) parseFlags (S n) (mkStream (c :: rest) o) h = ParseValue parseFlags (mkStream (c :: rest) o) h.
Proof.
  intros H1 H2. unfold ParseValue, bounded. cbn [src_ length]. cbn [parse_value]. unfold pbind. cbn [peek Peek src_ bind].
  by rewrite (proj2 (Z.eqb_neq c 91)), (proj2 (Z.eqb_neq c 123)) by done.
Qed.

Definition next_allowed (src : IterativeParsingState) (s : StringStream) : Prop :=
  match s.(src_) with c :: _ => allowed src c | [] => True end.

(** The loop follows [parse_value] with recursion depth [n]. *)
Definition matched (n : nat) : Prop := forall src d stack s,
  value_state src = Some d -> ok_stream N s -> next_allowed src s ->
  follows 0 (parse_value parseFlags n) s (fun f => iterate parseFlags f src stack) (fun _ f => after f d stack).

Lemma fol_peek {B} b c rest o (k : Z -> parser H B) it K :
  follows b (k c) (mkStream (c :: rest) o) it K -> follows b (pbind peek k) (mkStream (c :: rest) o) it K.
Proof. intros Hk h r Hr. by apply Hk. Qed.

Lemma fol_consume {B} b c c' rest o (k : bool -> parser H B) it K :
  (c = c' -> follows b (let! _ := take_ch in k true) (mkStream (c :: rest) o) it K) ->
  (c <> c' -> follows b (k false) (mkStream (c :: rest) o) it K) ->
  follows b (pbind (Consume c') k) (mkStream (c :: rest) o) it K.
Proof.
  intros H1 H2. destruct (Z.eq_dec c c') as [->|Hne].
  - intros h r Hr. apply (H1 eq_refl). rewrite <- Hr. unfold Consume, pbind. cbn [peek Peek src_ bind]. by rewrite Z.eqb_refl.
  - intros h r Hr. apply (H2 Hne). rewrite <- Hr. unfold Consume, pbind. cbn [peek Peek src_ bind].
    by rewrite (proj2 (Z.eqb_neq c c')).
Qed.

(** An error of the state the loop is in. *)
Lemma fol_stuck {B} (c : Z) rest o src stack code K :
  0 <= c < 256 -> src <> IterativeParsingFinishState ->
  (forall s h, HandleError (A := unit) src s h = fail_here (H := H) code s h) ->
  (c <> 0 -> Predict src (token_of c) = Ret IterativeParsingErrorState) ->
  follows (A := B) 0 (fail_here code) (mkStream (c :: rest) o) (fun f => iterate parseFlags f src stack) K.
Proof.
  intros Hb Hf He Hp. apply (fol_step _ _ _ _ _ (fun _ => fail_here code)).
  - intros f h. rewrite <- He. destruct (Z.eq_dec c 0); [by apply loop_eof | by apply loop_stray; auto].
  - apply fol_fail; [unfold left; cbn; lia | done].
Qed.

Lemma fol_ret_tt b s (it : nat -> parser H unit) K : ok_stream N s -> (b = 0)%nat ->
  (forall f h, it f s h = K tt f s h) -> follows b (pret tt) s it K.
Proof. apply fol_ret. Qed.

Lemma finish_ret e (s : StringStream) (h : H) : finish e s h = (let! _ := finish e in pret tt) s h.
Proof. unfold finish, pbind, emit. by destruct (handle e h) as [[[] h1]| |]. Qed.

Lemma fol_m_ext {B} b (m m' : parser H B) s it K :
  (forall h, m s h = m' s h) -> follows b m' s it K -> follows b m s it K.
Proof. intros He Hm h r Hr. rewrite He in Hr. by apply Hm. Qed.

Lemma pbind_ext {A B} (m : parser H A) (k k' : A -> parser H B) s h :
  (forall a s h, k a s h = k' a s h) -> pbind m k s h = pbind m k' s h.
Proof. intros He. unfold pbind. destruct (m s h) as [[a s1 h1|]| |]; cbn [bind]; auto. Qed.

Lemma fol_after {B} b (k : parser H B) s d stack K :
  d <> IterativeParsingFinishState -> ok_stream N s -> (b <= left s)%nat ->
  (forall s', ok_stream N s' -> (left s' <= left s)%nat ->
     follows b k s' (fun f => iterate parseFlags f d stack) K) ->
  follows b (let! _ := SkipWhitespaceAndComments parseFlags in k) s (fun f => after f d stack) K.
Proof.
  intros Hd Hs Hb Hk. eapply (fol_ext _ _ _ _ _ (fun f => let! _ := SkipWhitespaceAndComments parseFlags in
    iterate parseFlags f d stack)); [intros f h; by rewrite after_skip|]. by apply fol_skip.
Qed.

Lemma elements_follow n : matched n -> forall fuel count src i stack s,
  src = IterativeParsingArrayInitialState \/ src = IterativeParsingElementDelimiterState ->
  i <> IterativeParsingErrorState -> ok_stream N s -> next_allowed src s ->
  follows 0 (parse_elements parseFlags (parse_value parseFlags n) fuel count) s
    (fun f => iterate parseFlags f src ((i, count) :: stack)) (fun _ f => after f (closed i) stack).
Proof.
  intros HV. induction fuel as [|fuel IH]; intros count src i stack s Hsrc Hi Hs Hal; [intros h r Hr; discriminate Hr|].
  cbn [parse_elements]. apply (fol_bind 0 s _ _ _ _ 0 (fun _ f => after f IterativeParsingElementState ((i, count) :: stack))).
  { apply HV; [by destruct Hsrc as [-> | ->] | done | done]. }
  intros _ s1 Hs1 _. apply fol_after; [done | done | lia |]. intros s2 Hs2 _.
  destruct s2 as [l2 o2]. destruct (ok_open _ _ _ Hs2) as (c2 & rest2 & -> & Hc2 & _ & Hr2).
  apply fol_consume; intros Hc.
  - subst c2. apply (fol_step _ _ _ _ _ (fun f => let! _ := take_ch in
      after f IterativeParsingElementDelimiterState ((i, u32 (count + 1)) :: stack))).
    { intros f h. apply loop_comma; auto; lia. }
    apply fol_take; [|lia|done]. intros Hs3. apply fol_after; [done | done | lia |]. intros s4 Hs4 _.
    destruct (flag_set parseFlags kParseTrailingCommasFlag) eqn:Etr.
    + destruct s4 as [l4 o4]. destruct (ok_open _ _ _ Hs4) as (c4 & rest4 & -> & Hc4 & _ & Hr4). apply fol_peek.
      destruct (Z.eqb_spec c4 93) as [->|Hne].
      * apply (fol_step _ _ _ _ _ (fun f => emit_take (EEndArray (u32 (count + 1))) (after f (closed i) stack))).
        { intros f h. apply (loop_array_end IterativeParsingElementDelimiterState ((i, u32 (count + 1)) :: stack) 93 rest4 o4 f h
            Hc4 i (u32 (count + 1)) stack); auto. }
        apply fol_emit_take; [|done | lia | done]. intros Hs5. by apply fol_ret.
      * apply IH; auto. cbn. unfold allowed. intros ?. lia.
    + apply IH; auto. unfold next_allowed. destruct s4 as [[|c4 l4] o4]; [exact I | by intros _].
  - apply fol_consume; intros Hc'.
    + subst c2. apply (fol_step _ _ _ _ _ (fun f => emit_take (EEndArray (u32 (count + 1))) (after f (closed i) stack))).
      { intros f h. apply (loop_array_end IterativeParsingElementState ((i, count) :: stack) 93 rest2 o2 f h Hc2 i count stack); auto. }
      eapply fol_m_ext; [intros h; apply pbind_ext; intros ? s' h'; apply finish_ret|].
      apply fol_take_emit; [|done | lia | done]. intros Hs5. by apply fol_ret.
    + apply fol_stuck; try done. intros Hc0. token_cases.
Qed.

Lemma members_follow n : matched n -> forall fuel count src i stack s,
  src = IterativeParsingObjectInitialState \/ src = IterativeParsingMemberDelimiterState ->
  i <> IterativeParsingErrorState -> ok_stream N s ->
  match s.(src_) with
  | c :: _ => c = 125 -> src = IterativeParsingMemberDelimiterState /\ flag_set parseFlags kParseTrailingCommasFlag = false
  | [] => True
  end ->
  follows 0 (parse_members parseFlags (parse_value parseFlags n) fuel count) s
    (fun f => iterate parseFlags f src ((i, count) :: stack)) (fun _ f => after f (closed i) stack).
Proof.
  intros HV. induction fuel as [|fuel IH]; intros count src i stack s Hsrc Hi Hs Hal; [intros h r Hr; discriminate Hr|].
  cbn [parse_members]. destruct s as [l o]. destruct (ok_open _ _ _ Hs) as (c & rest & -> & Hc & _ & _).
  cbn [src_] in Hal. apply fol_peek. destruct (Z.eqb_spec c 34) as [->|Hne]; cbn [negb].
  2: { assert (Hno : c <> 125 -> c <> 0 -> Predict src (token_of c) = Ret IterativeParsingErrorState).
       { intros H125 Hc0. destruct Hsrc as [-> | ->]; token_cases. }
       destruct (Z.eq_dec c 125) as [->|H125]; [|by apply fol_stuck; destruct Hsrc as [-> | ->]; auto].
       destruct (Hal eq_refl) as [-> Hflag]. apply (fol_step _ _ _ _ _ (fun _ => fail_here kParseErrorObjectMissName)).
       - intros f h. by apply (loop_trailing _ _ _ _ _ _ _ Hc IterativeParsingObjectFinishState); auto.
       - apply fol_fail; [unfold left; cbn; lia | done]. }
  eapply (fol_bind 0 _ _ _ _ _ 0 (fun _ f => after f IterativeParsingMemberKeyState ((i, count) :: stack))).
  { apply (fol_step _ _ _ _ _ (fun f => let! _ := ParseString parseFlags true in
      after f IterativeParsingMemberKeyState ((i, count) :: stack))).
    { intros f h. apply loop_key; [done | done |]. by destruct Hsrc as [-> | ->]. }
    eapply (fol_call 1 (length rest)); [|unfold left; cbn; lia..].
    eapply adv_sound; [by apply ParseString_sound; [done..|by eexists]|]. intros [] s' es [_ Hl]. unfold left in *. cbn [src_ length] in *. lia. }
  intros _ s1 Hs1 _. apply fol_after; [done | done | lia |]. intros s2 Hs2 _.
  destruct s2 as [l2 o2]. destruct (ok_open _ _ _ Hs2) as (c2 & rest2 & -> & Hc2 & _ & Hr2).
  apply fol_consume; intros Hcolon.
  2: { cbn [negb]. apply fol_stuck; try done. intros _. token_cases. }
  subst c2. cbn [negb]. apply (fol_step _ _ _ _ _ (fun f => let! _ := take_ch in
    after f IterativeParsingKeyValueDelimiterState ((i, count) :: stack))).
  { intros f h. by apply loop_colon. }
  apply fol_take; [|done|done]. intros Hs3. apply fol_after; [done | done | lia |]. intros s4 Hs4 _.
  apply (fol_bind 0 s4 _ _ _ _ 0 (fun _ f => after f IterativeParsingMemberValueState ((i, count) :: stack))).
  { apply HV; [done | done |]. unfold next_allowed. by destruct s4 as [[|? ?] ?]. }
  intros _ s5 Hs5 _. apply fol_after; [done | done | lia |]. intros s6 Hs6 _.
  destruct s6 as [l6 o6]. destruct (ok_open _ _ _ Hs6) as (c6 & rest6 & -> & Hc6 & _ & Hr6).
  cbv zeta. apply fol_peek. destruct (Z.eqb_spec c6 44) as [->|Hn44].
  - apply (fol_step _ _ _ _ _ (fun f => let! _ := take_ch in
      after f IterativeParsingMemberDelimiterState ((i, u32 (count + 1)) :: stack))).
    { intros f h. apply loop_comma; auto; lia. }
    apply fol_take; [|lia|done]. intros Hs7. apply fol_after; [done | done | lia |]. intros s8 Hs8 _.
    destruct (flag_set parseFlags kParseTrailingCommasFlag) eqn:Etr.
    + destruct s8 as [l8 o8]. destruct (ok_open _ _ _ Hs8) as (c8 & rest8 & -> & Hc8 & _ & Hr8). apply fol_peek.
      destruct (Z.eqb_spec c8 125) as [->|Hne].
      * apply (fol_step _ _ _ _ _ (fun f => emit_take (EEndObject (u32 (count + 1))) (after f (closed i) stack))).
        { intros f h. apply (loop_object_end IterativeParsingMemberDelimiterState ((i, u32 (count + 1)) :: stack) 125 rest8 o8 f h
            Hc8 i (u32 (count + 1)) stack); auto. }
        apply fol_emit_take; [|done | lia | done]. intros Hs9. by apply fol_ret.
      * apply IH; auto. cbn [src_]. intros ?. lia.
    + apply IH; auto. by destruct s8 as [[|c8 l8] o8].
  - destruct (Z.eqb_spec c6 125) as [->|Hn125].
    + apply (fol_step _ _ _ _ _ (fun f => emit_take (EEndObject (u32 (count + 1))) (after f (closed i) stack))).
      { intros f h. apply (loop_object_end IterativeParsingMemberValueState ((i, count) :: stack) 125 rest6 o6 f h Hc6 i count stack); auto. }
      eapply fol_m_ext; [intros h; apply pbind_ext; intros ? s' h'; apply finish_ret|].
      apply fol_take_emit; [|done | lia | done]. intros Hs7. by apply fol_ret.
    + apply fol_stuck; try done. intros Hc0. token_cases.
Qed.

(** An error of a value that the loop reports from its own state. *)
Lemma stray_follows {B} n src d stack c rest o (K : B -> nat -> parser H unit) (k : unit -> parser H B) :
  value_state src = Some d -> 0 <= c < 256 -> stray c = true -> allowed src c ->
  follows 0 (pbind (parse_value parseFlags (S n)) k) (mkStream (c :: rest) o) (fun f => iterate parseFlags f src stack) K.
Proof.
  intros Hd Hc Hst Hal. apply (fol_m_ext _ _ (fail_here kParseErrorValueInvalid)).
  { intros h. unfold pbind. by rewrite stray_value. }
  assert (Hcs : c = 0 \/ c = 93 \/ c = 125 \/ c = 44 \/ c = 58) by (unfold stray in Hst; lia).
  destruct (decide (src = IterativeParsingElementDelimiterState /\ c = 93)) as [[-> ->]|Hne].
  - apply (fol_step _ _ _ _ _ (fun _ => fail_here kParseErrorValueInvalid)).
    + intros f h. by apply (loop_trailing _ _ _ _ _ _ _ Hc IterativeParsingArrayFinishState); auto.
    + apply fol_fail; [unfold left; cbn; lia | done].
  - destruct src; try discriminate Hd.
    + cbn in Hal. congruence.
    + apply fol_stuck; try done. intros Hc0. by destruct Hcs as [->|[->|[->|[->| ->]]]].
    + apply fol_stuck; try done. intros Hc0. destruct Hcs as [->|[->|[->|[->| ->]]]]; try done. by destruct Hne.
    + apply fol_stuck; try done. intros Hc0. by destruct Hcs as [->|[->|[->|[->| ->]]]].
Qed.

Lemma pbind_ret {A} (m : parser H A) s h : m s h = pbind m pret s h.
Proof. unfold pbind. by destruct (m s h) as [[a s' h'|code off h']| |]. Qed.

(** The state predicted for a scalar. *)
Lemma scalar_predict src d c : value_state src = Some d -> c <> 0 -> c <> 91 -> c <> 123 -> stray c = false ->
  exists n, Predict src (token_of c) = Ret n /\
    ((n = IterativeParsingMemberValueState \/ n = IterativeParsingElementState) /\ d = n \/
     n = IterativeParsingValueState /\ d = IterativeParsingFinishState).
Proof.
  intros Hd Hc0 H1 H2 Hs. unfold stray in Hs.
  destruct src; try discriminate Hd; injection Hd as <-; eexists; (split; [token_cases|]); auto.
Qed.

Lemma array_follows n src d stack rest o : matched n -> value_state src = Some d -> ok_stream N (mkStream (91 :: rest) o) ->
  follows 0 (parse_value parseFlags (S n)) (mkStream (91 :: rest) o) (fun f => iterate parseFlags f src stack)
    (fun _ f => after f (closed (frame_state src)) stack).
Proof.
  intros IH Hd Hs. destruct (frame_state_value src d Hd) as [Hcl Her]. assert (Hc : 0 <= 91 < 256) by lia.
    eapply fol_m_ext with (m' := let! _ := take_ch in let! _ := finish EStartArray in
      let! _ := SkipWhitespaceAndComments parseFlags in
      let! closed := Consume 93 in
      if closed : bool then finish (EEndArray 0)
      else bounded (fun fuel => parse_elements parseFlags (parse_value parseFlags n) fuel 0)); [done|].
    apply (fol_step _ _ _ _ _ (fun f => emit_take EStartArray (after f IterativeParsingArrayInitialState ((frame_state src, 0) :: stack)))).
    { intros f h. apply loop_start; [done | done | by destruct src | auto]. }
    apply fol_take_emit; [|done | lia | done]. intros Hs1. apply fol_after; [done | done | lia |]. intros s2 Hs2 _.
    destruct s2 as [l2 o2]. destruct (ok_open _ _ _ Hs2) as (c2 & rest2 & -> & Hc2 & _ & _). apply fol_consume; intros Hcl2.
    + subst c2. apply (fol_step _ _ _ _ _ (fun f => emit_take (EEndArray 0) (after f (closed (frame_state src)) stack))).
      { intros f h. apply (loop_array_end IterativeParsingArrayInitialState ((frame_state src, 0) :: stack) 93 rest2 o2 f h
          Hc2 (frame_state src) 0 stack); auto. }
      eapply fol_m_ext; [intros h; apply pbind_ext; intros ? s' h'; apply finish_ret|].
      apply fol_take_emit; [|done | lia | done]. intros Hs3. by apply fol_ret.
    + eapply fol_m_ext with (m' := parse_elements parseFlags (parse_value parseFlags n) (length (c2 :: rest2)) 0); [done|].
      apply elements_follow; auto.
Qed.

Lemma object_follows n src d stack rest o : matched n -> value_state src = Some d -> ok_stream N (mkStream (123 :: rest) o) ->
  follows 0 (parse_value parseFlags (S n)) (mkStream (123 :: rest) o) (fun f => iterate parseFlags f src stack)
    (fun _ f => after f (closed (frame_state src)) stack).
Proof.
  intros IH Hd Hs. destruct (frame_state_value src d Hd) as [Hcl Her]. assert (Hc : 0 <= 123 < 256) by lia.
    eapply fol_m_ext with (m' := let! _ := take_ch in let! _ := finish EStartObject in
      let! _ := SkipWhitespaceAndComments parseFlags in
      let! closed := Consume 125 in
      if closed : bool then finish (EEndObject 0)
      else bounded (fun fuel => parse_members parseFlags (parse_value parseFlags n) fuel 0)); [done|].
    apply (fol_step _ _ _ _ _ (fun f => emit_take EStartObject (after f IterativeParsingObjectInitialState ((frame_state src, 0) :: stack)))).
    { intros f h. apply loop_start; [done | done | by destruct src | auto]. }
    apply fol_take_emit; [|done | lia | done]. intros Hs1. apply fol_after; [done | done | lia |]. intros s2 Hs2 _.
    destruct s2 as [l2 o2]. destruct (ok_open _ _ _ Hs2) as (c2 & rest2 & -> & Hc2 & _ & _). apply fol_consume; intros Hcl2.
    + subst c2. apply (fol_step _ _ _ _ _ (fun f => emit_take (EEndObject 0) (after f (closed (frame_state src)) stack))).
      { intros f h. apply (loop_object_end IterativeParsingObjectInitialState ((frame_state src, 0) :: stack) 125 rest2 o2 f h
          Hc2 (frame_state src) 0 stack); auto. }
      eapply fol_m_ext; [intros h; apply pbind_ext; intros ? s' h'; apply finish_ret|].
      apply fol_take_emit; [|done | lia | done]. intros Hs3. by apply fol_ret.
    + eapply fol_m_ext with (m' := parse_members parseFlags (parse_value parseFlags n) (length (c2 :: rest2)) 0); [done|].
      apply members_follow; auto. cbn [src_]. lia.
Qed.

Lemma value_follows n : matched n.
Proof.
  induction n as [|n IH]; intros src d stack s Hd Hs Hal; [intros h r Hr; discriminate Hr|].
  destruct s as [l o]. destruct (ok_open _ _ _ Hs) as (c & rest & -> & Hc & _ & Hr). cbn in Hal.
  destruct (stray c) eqn:Est.
  { eapply fol_m_ext; [intros h; apply pbind_ret|]. by eapply stray_follows. }
  assert (Hc0 : c <> 0) by (unfold stray in Est; lia). specialize (Hr Hc0).
  destruct (frame_state_value src d Hd) as [Hcl Her].
  destruct (Z.eq_dec c 91) as [->|H91].
  - rewrite <- Hcl. by apply (array_follows n src d).
  - destruct (Z.eq_dec c 123) as [->|H123].
    { rewrite <- Hcl. by apply (object_follows n src d). }
    destruct (scalar_predict src d c Hd Hc0 H91 H123 Est) as (n' & Hp & Hn).
    eapply fol_m_ext; [intros h; by apply scalar_fuel|].
    apply (fol_step _ _ _ _ _ (fun f => let! _ := ParseValue parseFlags in after f d stack)).
    { intros f h. by apply (loop_value _ _ _ _ _ _ _ Hc n' d). }
    eapply (fol_call 1 (length rest)); [by apply scalar_advances | unfold left; cbn; lia..].
Qed.
End Iterative.

(** ** The two parsers *)

(** The text starts with a closing bracket, a comma or a colon. *)
Definition stray_start (s : StringStream) : bool :=
  match s.(src_) with c :: _ => existsb (Z.eqb c) (str "]},:") | [] => false end.

Lemma stray_start_stray c rest o : stray_start (mkStream (c :: rest) o) = negb (c =? 0) && stray c.
Proof.
  change (existsb (Z.eqb c) [93; 125; 44; 58] = negb (c =? 0) && stray c). unfold stray. cbn [existsb].
  repeat match goal with |- context [?x =? ?y] => destruct (Z.eqb_spec x y); try lia end; reflexivity.
Qed.

(** So does the text after its white space and comments, instead of a root
    value. *)
Definition stray_root {H} (parseFlags : Z) (text : list Z) (h : H) : bool :=
  match SkipWhitespaceAndComments parseFlags (new_StringStream text) h with
  | Ret (POk _ s _) => stray_start s
  | _ => false
  end.

(** The results agree: the same stream and handler on success, the same error
    and handler otherwise, at the same offset unless the handler stopped the
    parsing; only the error of a [stray] root differs. *)
Definition agree {H} (stray : bool) (r r' : parsed H unit) : Prop :=
  match r with
  | POk _ _ _ => r' = r
  | PErr code offset h =>
      if stray then code = kParseErrorValueInvalid /\ r' = PErr kParseErrorDocumentEmpty offset h
      else exists offset', r' = PErr code offset' h /\ (offset' = offset \/ code = kParseErrorTermination)
  end.

Section Document.
Context {H : Type} `{Handler H} (N : Z) (parseFlags : Z).
Context (Hvalidate : flag_set parseFlags kParseValidateEncodingFlag = false).
Context (Hinsitu : flag_set parseFlags kParseInsituFlag = false).

(** After the root value. *)
Definition root_end : parser H unit :=
  if flag_set parseFlags kParseStopWhenDoneFlag then pret tt
  else
    let! _ := SkipWhitespaceAndComments parseFlags in
    let! c := peek in
    if negb (c =? 0) then fail_here kParseErrorDocumentRootNotSingular else pret tt.

Lemma root_end_agrees s h r : ok_stream N s -> root_end s h = Ret r ->
  exists k, (k <= left s)%nat /\ forall f, after parseFlags (k + f) IterativeParsingFinishState [] s h = Ret r.
Proof.
  intros Hs Hr. unfold root_end, after in *. rewrite bool_decide_eq_true_2, andb_true_r by done.
  destruct (flag_set parseFlags kParseStopWhenDoneFlag); [exists 0%nat; split; [lia | done]|].
  exists 1%nat. split; [destruct s as [l o]; destruct (ok_open _ _ _ Hs) as (? & ? & -> & _); unfold left; cbn; lia|].
  intros f. unfold pbind at 1 in Hr. unfold pbind at 1.
  destruct (SkipWhitespaceAndComments parseFlags s h) as [[[] s1 h1|code off h1]| |] eqn:E; try discriminate Hr; [|done].
  destruct (sound_ok_inv N _ _ _ _ _ _ _ _ (Skip_quiet N parseFlags s Hs) E) as [Hs1 _]. cbn [bind] in *.
  destruct s1 as [l o]. destruct (ok_open _ _ _ Hs1) as (c & rest & -> & Hc & _ & _).
  unfold pbind in Hr. cbn [peek Peek src_ bind] in Hr. cbn [Nat.add].
  destruct (Z.eqb_spec c 0) as [->|Hc0]; cbn [negb] in Hr; [by rewrite <- Hr|].
  rewrite <- Hr. etrans; [apply loop_stray; [done | done |]; token_cases | done].
Qed.

Lemma root_agrees s h r : ok_stream N s ->
  (let! c := peek in
   if c =? 0 then fail_here kParseErrorDocumentEmpty
   else let! _ := ParseValue parseFlags in root_end) s h = Ret r ->
  exists r', iterate parseFlags (left s) IterativeParsingStartState [] s h = Ret r' /\ agree (stray_start s) r r'.
Proof.
  intros Hs Hr. destruct s as [l o]. destruct (ok_open _ _ _ Hs) as (c & rest & -> & Hc & _ & _).
  unfold left. cbn [src_ length]. unfold pbind at 1 in Hr. cbn [peek Peek src_ bind] in Hr.
  destruct (Z.eqb_spec c 0) as [->|Hc0].
  { exists r. split; [rewrite <- Hr; by etrans; [apply loop_eof|]|]. injection Hr as <-. eexists. by split; [|left]. }
  rewrite stray_start_stray, (proj2 (Z.eqb_neq c 0)) by done. cbn [negb andb]. destruct (stray c) eqn:Est.
  { unfold pbind, ParseValue, bounded in Hr. cbn [src_ length] in Hr. rewrite stray_value in Hr by done. injection Hr as <-.
    exists (PErr kParseErrorDocumentEmpty o h). split; [etrans; [apply loop_stray; [done | done |] | done]|].
    - unfold stray in Est. assert (Hcs : c = 93 \/ c = 125 \/ c = 44 \/ c = 58) by lia. by destruct Hcs as [->|[->|[->| ->]]].
    - by split. }
  unfold pbind in Hr. destruct (ParseValue parseFlags _ h) as [r1| |] eqn:E1; try discriminate Hr. cbn [bind] in Hr.
  pose proof (value_follows N parseFlags Hvalidate Hinsitu (S (length rest)) IterativeParsingStartState IterativeParsingFinishState []
    _ eq_refl Hs Est h r1 E1) as Hf. unfold left in Hf. cbn [src_ length] in Hf. destruct r1 as [[] s1 h1|code off h1].
  - destruct Hf as (Hs1 & k & Hl & Hit). destruct (root_end_agrees s1 h1 r Hs1 Hr) as (k2 & Hl2 & Hit2).
    exists r. split; [|destruct r as [? ? ?|code off ?]; cbn; [done|]; eexists; split; [done|]; by left].
    unfold left in *. replace (S (length rest)) with (k + (k2 + (S (length rest) - k - k2)))%nat by lia.
    rewrite Hit. apply Hit2.
  - injection Hr as <-. destruct Hf as (k & off' & Hl & Hoff & Hit). eexists. split.
    + replace (S (length rest)) with (k + (S (length rest) - k))%nat by lia. apply Hit.
    + cbn. by eexists.
Qed.
End Document.

(** C32. The iterative parser and the recursive one agree.  For every handler,
    every flags without encoding validation (of those modelled) and every text
    below 2^31 bytes, whatever the recursive [Parse] returns, [IterativeParse]
    returns too, with as many iterations as the text has bytes: on success the
    handler received the same events and the stream is at the same place, on
    failure the handler is in the same state and the error is the same, at the
    same offset unless the handler itself stopped the parsing.  The one difference
    is a text whose root value is missing before a closing bracket, a comma or a
    colon ([stray_root]): an invalid value for one and an empty document for the
    other, at the same offset. *)
Theorem iterative_agrees {H} `{Handler H} (parseFlags : Z) (text : list Z) (h : H) (r : parsed H unit) :
  modelled_flags parseFlags -> flag_set parseFlags kParseValidateEncodingFlag = false ->
  Forall (fun c => 0 <= c < 256) text -> sizeZ text < 2 ^ 31 ->
  parse_document parseFlags (new_StringStream text) h = Ret r ->
  exists r', IterativeParse parseFlags (new_StringStream text) h = Ret r' /\ agree (stray_root parseFlags text h) r r'.
Proof.
  intros [Hin _] Hv Hb Hsz Hr. pose proof (ok_new text Hb Hsz) as Hs. unfold parse_document in Hr. unfold IterativeParse, stray_root.
  unfold pbind at 1 in Hr. unfold pbind at 1.
  destruct (SkipWhitespaceAndComments parseFlags _ h) as [[[] s1 h1|code off h1]| |] eqn:E; try discriminate Hr; cbn [bind] in *.
  - destruct (sound_ok_inv _ _ _ _ _ _ _ _ _ (Skip_quiet _ parseFlags _ Hs) E) as [Hs1 _].
    by apply (root_agrees (sizeZ text + 1) parseFlags Hv Hin s1 h1 r Hs1).
  - injection Hr as <-. eexists. split; [done|]. eexists. by split; [|left].
Qed.

Lemma iterative_agrees_witness :
  match parse_document kParseNoFlags (new_StringStream (jstr "[1,{'a':[]}}")) new_Document with
  | Ret r => r = PErr kParseErrorArrayMissCommaOrSquareBracket 11 (mkDocument VNull [VObject 1 [(str "a", VArray 0 [])]; Value_uint 1; VArray 0 []]) /\
      exists r', IterativeParse kParseNoFlags (new_StringStream (jstr "[1,{'a':[]}}")) new_Document = Ret r' /\ agree false r r'
  | _ => False
  end.
Proof.
  assert (E : exists r, parse_document kParseNoFlags (new_StringStream (jstr "[1,{'a':[]}}")) new_Document = Ret r)
    by (eexists; vm_compute; reflexivity).
  destruct E as [r E]. rewrite E. split.
  - vm_compute in E. injection E as <-. vm_compute. reflexivity.
  - change false with (stray_root kParseNoFlags (jstr "[1,{'a':[]}}") new_Document).
    apply (iterative_agrees kParseNoFlags (jstr "[1,{'a':[]}}") new_Document r); [by split_and! | reflexivity | | reflexivity | exact E].
    repeat (apply List.Forall_cons || apply List.Forall_nil); split; vm_compute; congruence.
Defined.
