(* ===== verification/DocumentParse.v ===== *)
(** * Document::Parse (document.h)

    The parser with a document as its handler: whatever the text (below the
    length from which an exponent can overflow), parsing ends, fails no assertion,
    and leaves either the value described by the events or
    the document as it was. *)
From S2P Require Import Prelude Decimal Types Doubles StringBuffer Encodings Value Handler Document.
From S2P Require Import Reader ReaderLogic ReaderTotal.

(** [ParseStream]; [ClearStackOnExit] empties the stack. *)
Definition ParseStream (parseFlags : Z) (s : StringStream) (d : Document) : outcome (ParseResult * Document) :=
  let* (parseResult_, d) := Parse parseFlags s d in
  if IsError parseResult_ then Ret (parseResult_, mkDocument d.(doc_value) [])
  else
    match d.(doc_stack) with
    | [v] => Ret (parseResult_, mkDocument v [])
    | _ => Undefined AssertionFailed
    end.

(** [Parse] of a NUL-terminated read-only text. *)
Definition Document_Parse (parseFlags : Z) (str : list Z) (d : Document) : outcome (ParseResult * Document) :=
  if flag_set parseFlags kParseInsituFlag then Undefined AssertionFailed
  else ParseStream parseFlags (new_StringStream str) d.

(** ** Events build values *)
Scheme value_events_mut := Induction for value_events Sort Prop
  with element_events_mut := Induction for element_events Sort Prop
  with member_events_mut := Induction for member_events Sort Prop.
Combined Scheme json_events_ind from value_events_mut, element_events_mut, member_events_mut.

Lemma handle_scalar e w d : scalar_value e = Some w -> handle e d = push w d.
Proof. destruct e; cbn [scalar_value]; intros Hp; simplify_eq; try done; by apply handle_pushed. Qed.

Lemma json_events_build :
  (forall es w, value_events es w -> forall root st,
    send es (mkDocument root st) = Ret (true, mkDocument root (w :: st))) /\
  (forall es ws, element_events es ws -> forall root st,
    send es (mkDocument root st) = Ret (true, mkDocument root (rev ws ++ st))) /\
  (forall es ms, member_events es ms -> forall root st,
    send es (mkDocument root st) = Ret (true, mkDocument root (rev (member_values ms) ++ st))).
Proof.
  apply json_events_ind.
  - intros e w He root st. rewrite send_one, (handle_scalar _ _ _ He). done.
  - intros es ws _ IH root st. cbn [send handle Document_Handler push and_then bind doc_value doc_stack].
    rewrite send_app, IH. cbn [and_then bind]. rewrite send_one. cbn [handle Document_Handler doc_value doc_stack].
    by rewrite pop_values_app.
  - intros es ms _ IH root st. cbn [send handle Document_Handler push and_then bind doc_value doc_stack].
    rewrite send_app, IH. cbn [and_then bind]. rewrite send_one. cbn [handle Document_Handler doc_value doc_stack].
    rewrite <- member_values_size, pop_values_app. cbn [bind]. by rewrite members_of_values.
  - done.
  - intros es ws es' w _ IH _ IHw root st. rewrite send_app, IH. cbn [and_then bind]. rewrite IHw.
    by rewrite rev_app_distr.
  - done.
  - intros es ms n es' w _ IH _ IHw root st. rewrite send_app, IH.
    cbn [and_then bind send handle Document_Handler push doc_value doc_stack]. rewrite IHw.
    unfold member_values. rewrite fmap_app, concat_app, rev_app_distr. done.
Qed.

Lemma handle_root e d b d' : handle e d = Ret (b, d') -> d'.(doc_value) = d.(doc_value).
Proof.
  destruct e; cbn [handle Document_Handler]; unfold push; intros Hh; try (by simplify_eq).
  all: apply bind_Ret in Hh as ([? ?] & _ & Hh); repeat (apply bind_Ret in Hh as (? & _ & Hh)); by simplify_eq.
Qed.

Lemma send_root es d b d' : send es d = Ret (b, d') -> d'.(doc_value) = d.(doc_value).
Proof.
  revert d. induction es as [|e es IH]; intros d Hs; [cbn in Hs; by simplify_eq|].
  cbn [send] in Hs. unfold and_then in Hs. destruct (handle e d) as [[ok d1]| |] eqn:He; [|done..].
  cbn [bind] in Hs. apply handle_root in He. destruct ok; [|by simplify_eq]. rewrite <- He. by apply IH.
Qed.

(** A prefix of a value's events is accepted too. *)
Lemma prefix_accepted es d : value_prefix es -> exists d', send es d = Ret (true, d') /\ d'.(doc_value) = d.(doc_value).
Proof.
  intros (rest & w & Hv). destruct d as [root st].
  pose proof (proj1 json_events_build _ _ Hv root st) as Hs. rewrite send_app in Hs. unfold and_then in Hs.
  destruct (send es (mkDocument root st)) as [[[] d']| |] eqn:He; try done.
  exists d'. split; [done|]. by apply send_root in He.
Qed.

(** ** The whole parser *)
Lemma parse_document_sound {H} `{Handler H} N parseFlags s :
  flag_set parseFlags kParseValidateEncodingFlag = false -> flag_set parseFlags kParseInsituFlag = false ->
  N <= number_limit -> ok_stream N s ->
  sound N (parse_document parseFlags (H := H)) s (fun _ _ es => exists w, value_events es w) value_prefix.
Proof.
  intros Hv Hin HN Hs. unfold parse_document.
  eapply snd_quiet; [by apply Skip_quiet | apply value_prefix_nil |]. intros [] s1 Hs1 _.
  p_open s1 Hs1 c rest. apply snd_peek.
  destruct (c =? 0); [apply snd_fail_here; [done | apply value_prefix_nil | done]|].
  eapply (snd_call N _ _ _ _ _ (fun _ _ es => exists w, value_events es w) value_prefix); [| done |].
  { eapply snd_weaken; [by apply ParseValue_sound | | done].
    by intros a s' es _ [Hw _]. }
  intros [] s2 es Hs2 [w Hw].
  assert (HE : value_prefix (es ++ [])) by (exists [], w; by rewrite !app_nil_r).
  destruct (flag_set parseFlags kParseStopWhenDoneFlag).
  - apply snd_ret; [done|]. exists w. by rewrite app_nil_r.
  - eapply snd_quiet; [by apply Skip_quiet | done |]. intros [] s3 Hs3 _.
    p_open s3 Hs3 c3 rest3. apply snd_peek. destruct (negb _); [by apply snd_fail_here|].
    apply snd_ret; [done|]. exists w. by rewrite app_nil_r.
Qed.

Lemma Document_Parse_returns (parseFlags : Z) (text : list Z) (v0 : Value) :
  modelled_flags parseFlags ->
  flag_set parseFlags kParseValidateEncodingFlag = false ->
  flag_set parseFlags kParseIterativeFlag = false ->
  Forall (fun c => 0 <= c < 256) text -> sizeZ text < number_limit ->
  exists r v, Document_Parse parseFlags text (mkDocument v0 []) = Ret (r, mkDocument v []) /\
    if IsError r then v = v0 /\ 0 <= r.(Offset) <= sizeZ text
    else exists es, value_events es v.
Proof.
  intros [Hin _] Hv Hi Hb Hs. unfold Document_Parse, ParseStream, Parse. rewrite Hin, Hi.
  destruct (parse_document_sound (H := Document) (sizeZ text + 1) parseFlags (new_StringStream text))
    as [[] s' es _ [w Hw] Hrun | code off es HE Hc Hoff Hrun]; [done | done | lia | apply ok_new; [done | unfold number_limit in Hs; lia] | |];
    specialize (Hrun (mkDocument v0 [])); unfold runs in Hrun.
  - rewrite (proj1 json_events_build _ _ Hw) in Hrun. rewrite Hrun. eexists _, w. split; [reflexivity|].
    by exists es.
  - destruct (prefix_accepted es (mkDocument v0 []) HE) as (d' & Hd' & Hroot). rewrite Hd' in Hrun. rewrite Hrun.
    cbn [bind result_of]. unfold IsError at 1. cbn [Code]. rewrite bool_decide_false by done. cbn [negb].
    rewrite Hroot. eexists _, v0. split; [reflexivity|]. unfold IsError. cbn [Code Offset].
    rewrite bool_decide_false by done. split; [done | lia].
Qed.

(** C31. [Document::Parse] of a read-only text is total: for every flags
    without encoding validation and iterative parsing (and of those modelled) and
    every text below 214748000 bytes it returns without undefined behaviour, the
    overflow of the [int] exponents included, and without failing an assertion.
    On success the document holds one value built from events of the text, its
    arrays and objects filled to capacity; on a parse error it keeps its old value
    and the reported offset lies in the text.  Nothing is left on the stack. *)
Theorem document_parse_total (parseFlags : Z) (text : list Z) (v0 : Value) :
  modelled_flags parseFlags ->
  flag_set parseFlags kParseValidateEncodingFlag = false ->
  flag_set parseFlags kParseIterativeFlag = false ->
  Forall (fun c => 0 <= c < 256) text -> sizeZ text < 214748000 ->
  exists r v, Document_Parse parseFlags text (mkDocument v0 []) = Ret (r, mkDocument v []) /\
    if IsError r then v = v0 /\ 0 <= r.(Offset) <= sizeZ text
    else exists es, value_events es v.
Proof. apply Document_Parse_returns. Qed.

Lemma document_parse_total_witness :
  exists r v, Document_Parse kParseNoFlags (jstr "{'a':[1,2.5,]") new_Document = Ret (r, mkDocument v []) /\
    r = mkParseResult kParseErrorValueInvalid 12 /\ v = VNull /\ 0 <= r.(Offset) <= 13.
Proof.
  destruct (document_parse_total kParseNoFlags (jstr "{'a':[1,2.5,]") VNull) as (r & v & Hp & Hr);
    [by split_and! | reflexivity | reflexivity | | reflexivity |].
  - repeat (apply List.Forall_cons || apply List.Forall_nil); split; vm_compute; congruence.
  - exists r, v. split; [exact Hp|]. unfold new_Document in Hp. vm_compute in Hp. injection Hp as <- <-.
    split; [reflexivity|]. split; [reflexivity|]. simpl. lia.
Defined.
