(* ===== verification/Writer.v ===== *)
(** * The JSON writer: Writer<StringBuffer> of src/include/rapidjson/writer.h

    The instance the service uses: UTF-8 to UTF-8, default flags, output to a
    [StringBuffer]; the [Write*] functions are the specialisations for it.  The
    level stack is a list, its top first. *)
From S2P Require Import Prelude Decimal Itoa Types Doubles Ieee754 Dtoa StringBuffer Value Handler.
From Stdlib Require Import SpecFloat.

(** ** State *)
Record Level := mkLevel { valueCount : Z; inArray : bool }.

Record Writer := mkWriter {
  os : Stack;
  level_stack : list Level;
  maxDecimalPlaces : Z;
  hasRoot : bool;
}.

Definition new_Writer (sb : Stack) : Writer := mkWriter sb [] kDefaultMaxDecimalPlaces false.

Definition IsComplete (w : Writer) : bool := w.(hasRoot) && bool_decide (w.(level_stack) = []).

Definition Writer_Reset (w : Writer) (sb : Stack) : Writer := mkWriter sb [] w.(maxDecimalPlaces) false.

Definition SetMaxDecimalPlaces (w : Writer) (n : Z) : Writer :=
  mkWriter w.(os) w.(level_stack) n w.(hasRoot).

Definition set_os (w : Writer) (sb : Stack) : Writer :=
  mkWriter sb w.(level_stack) w.(maxDecimalPlaces) w.(hasRoot).

#[export] Instance Level_eq_dec : EqDecision Level.
Proof. solve_decision. Defined.

(** ** Strings *)
Definition hexDigits : list Z := str "0123456789ABCDEF".

Definition Z16 : list Z := replicate 16 0.

(** The table [escape]: the character behind the backslash, 0 for none. *)
Definition escape : list Z :=
  str "uuuuuuuubtnufruu" ++
  str "uuuuuuuuuuuuuuuu" ++
  ([0; 0; 34] ++ replicate 13 0) ++
  (Z16 ++ Z16) ++
  (replicate 12 0 ++ [92] ++ replicate 3 0) ++
  (Z16 ++ Z16 ++ Z16 ++ Z16 ++ Z16 ++ Z16 ++ Z16 ++ Z16 ++ Z16 ++ Z16).

(** One round of the loop of [WriteString]: the bytes put for [c]. *)
Definition write_char (c : Z) (sb : Stack) : outcome Stack :=
  let* e := lookupZ escape (u8 c) in
  if negb (e =? 0) then
    let* sb := PutUnsafe sb 92 in
    let* sb := PutUnsafe sb e in
    if e =? 117 then
      let* sb := PutUnsafe sb 48 in
      let* sb := PutUnsafe sb 48 in
      let* h := lookupZ hexDigits (Z.shiftr (u8 c) 4) in
      let* sb := PutUnsafe sb h in
      let* h := lookupZ hexDigits (Z.land (u8 c) 0xF) in
      PutUnsafe sb h
    else Ret sb
  else PutUnsafe sb c.

Fixpoint write_chars (s : list Z) (sb : Stack) : outcome Stack :=
  match s with
  | [] => Ret sb
  | c :: s => let* sb := write_char c sb in write_chars s sb
  end.

(** [length] is a [SizeType], the reservation is computed in 32 bits. *)
Definition WriteString (s : list Z) (sb : Stack) : outcome (bool * Stack) :=
  let sb := Reserve sb (u32 (2 + sizeZ s * 6)) in
  let* sb := PutUnsafe sb 34 in
  let* sb := write_chars s sb in
  let* sb := PutUnsafe sb 34 in
  Ret (true, sb).

(** ** The other values *)
Definition put_literal (text : list Z) (sb : Stack) : outcome (bool * Stack) :=
  let* sb := put_unsafe (Reserve sb (sizeZ text)) text in Ret (true, sb).

Definition WriteNull (sb : Stack) : outcome (bool * Stack) := put_literal (str "null") sb.

Definition WriteBool (b : bool) (sb : Stack) : outcome (bool * Stack) :=
  put_literal (if b then str "true" else str "false") sb.

Definition WriteInt (i : Z) (sb : Stack) : outcome (bool * Stack) :=
  let* text := i32toa i in let* sb := push_print sb 11 text in Ret (true, sb).
Definition WriteUint (u : Z) (sb : Stack) : outcome (bool * Stack) :=
  let* text := u32toa u in let* sb := push_print sb 10 text in Ret (true, sb).
Definition WriteInt64 (i : Z) (sb : Stack) : outcome (bool * Stack) :=
  let* text := i64toa i in let* sb := push_print sb 21 text in Ret (true, sb).
Definition WriteUint64 (u : Z) (sb : Stack) : outcome (bool * Stack) :=
  let* text := u64toa u in let* sb := push_print sb 20 text in Ret (true, sb).

(** With the default flags neither NaN nor an infinity is written. *)
Definition WriteDouble (maxDecimalPlaces : Z) (d : double) (sb : Stack) : outcome (bool * Stack) :=
  if Double.IsNanOrInf (bits_of_double d) then Ret (false, sb)
  else
    let* text := dtoa d maxDecimalPlaces in
    let* sb := push_print sb 25 text in
    Ret (true, sb).

Definition WriteRawValue (json : list Z) (sb : Stack) : outcome (bool * Stack) :=
  if bool_decide (0 ∈ json) then Undefined AssertionFailed else put_literal json sb.

(** ** Structure *)
Definition Prefix (t : JsonType) (w : Writer) : outcome Writer :=
  match w.(level_stack) with
  | level :: rest =>
      let* sb :=
        if 0 <? level.(valueCount) then
          if level.(inArray) then Put w.(os) 44
          else Put w.(os) (if level.(valueCount) mod 2 =? 0 then 44 else 58)
        else Ret w.(os) in
      if negb level.(inArray) && (level.(valueCount) mod 2 =? 0) && negb (bool_decide (t = kStringType))
      then Undefined AssertionFailed
      else Ret (mkWriter sb (mkLevel (u64 (level.(valueCount) + 1)) level.(inArray) :: rest)
                  w.(maxDecimalPlaces) w.(hasRoot))
  | [] =>
      if w.(hasRoot) then Undefined AssertionFailed
      else Ret (mkWriter w.(os) [] w.(maxDecimalPlaces) true)
  end.

(** [Flush] of a [StringBuffer] does nothing. *)
Definition EndValue (m : outcome (bool * Stack)) (w : Writer) : outcome (bool * Writer) :=
  let* (ret, sb) := m in Ret (ret, set_os w sb).

Definition write_value (t : JsonType) (write : Stack -> outcome (bool * Stack)) (w : Writer)
  : outcome (bool * Writer) :=
  let* w := Prefix t w in EndValue (write w.(os)) w.

(** [StartObject] and [StartArray]: the bracket, and a new level. *)
Definition start_level (t : JsonType) (array : bool) (c : Z) (w : Writer) : outcome (bool * Writer) :=
  let* w := Prefix t w in
  let* sb := Put w.(os) c in
  Ret (true, mkWriter sb (mkLevel 0 array :: w.(level_stack)) w.(maxDecimalPlaces) w.(hasRoot)).

(** [EndObject] and [EndArray] *)
Definition end_level (array : bool) (c : Z) (w : Writer) : outcome (bool * Writer) :=
  match w.(level_stack) with
  | [] => Undefined AssertionFailed
  | level :: rest =>
      if negb (Bool.eqb level.(inArray) array) then Undefined AssertionFailed
      else if negb array && negb (level.(valueCount) mod 2 =? 0) then Undefined AssertionFailed
      else
        let w := mkWriter w.(os) rest w.(maxDecimalPlaces) w.(hasRoot) in
        EndValue (let* sb := Put w.(os) c in Ret (true, sb)) w
  end.

Definition RawValue (json : list Z) (t : JsonType) (w : Writer) : outcome (bool * Writer) :=
  write_value t (WriteRawValue json) w.

#[export] Instance Writer_Handler : Handler Writer := fun e w =>
  match e with
  | ENull => write_value kNullType WriteNull w
  | EBool b => write_value (if b then kTrueType else kFalseType) (WriteBool b) w
  | EInt i => write_value kNumberType (WriteInt i) w
  | EUint u => write_value kNumberType (WriteUint u) w
  | EInt64 i => write_value kNumberType (WriteInt64 i) w
  | EUint64 u => write_value kNumberType (WriteUint64 u) w
  | EDouble d => write_value kNumberType (WriteDouble w.(maxDecimalPlaces) d) w
  | ERawNumber s => write_value kNumberType (WriteString s) w
  | EString s => write_value kStringType (WriteString s) w
  | EStartObject => start_level kObjectType false 123 w
  | EKey s => write_value kStringType (WriteString s) w
  | EEndObject _ => end_level false 125 w
  | EStartArray => start_level kArrayType true 91 w
  | EEndArray _ => end_level true 93 w
  end.
