(* ===== verification/WriterCorrect.v ===== *)
(** * The writer prints JSON

    The text of a value, defined recursively, and the theorem that a writer
    receiving the value's events appends exactly that text. *)
From S2P Require Import Prelude Decimal Itoa Types Doubles Ieee754 DiyFp Dtoa DtoaRoundtrip StringBuffer.
From S2P Require Import Value Handler Document Writer.
From Stdlib Require Import SpecFloat.

(** ** The reference text *)
Definition hex_digit_char (d : Z) : Z := if d <? 10 then 48 + d else 55 + d.

(** RFC 8259: the two-character escapes, \u00XX for the other control
    characters, everything else as it is. *)
Definition json_escape (c : Z) : list Z :=
  if c =? 34 then [92; 34]
  else if c =? 92 then [92; 92]
  else if c =? 8 then [92; 98]
  else if c =? 9 then [92; 116]
  else if c =? 10 then [92; 110]
  else if c =? 12 then [92; 102]
  else if c =? 13 then [92; 114]
  else if c <? 32 then [92; 117; 48; 48; hex_digit_char (c / 16); hex_digit_char (c mod 16)]
  else [c].

Definition json_string (s : list Z) : list Z := [34] ++ concat (json_escape <$> s) ++ [34].

Definition json_integer (z : Z) : list Z := if z <? 0 then 45 :: dec (- z) else dec z.

Definition json_double (d : double) : list Z :=
  match dtoa d kDefaultMaxDecimalPlaces with Ret text => text | _ => [] end.

Definition json_number (v : Value) (n : Z) : list Z :=
  match number_event v n with
  | EInt i | EUint i | EInt64 i | EUint64 i => json_integer i
  | EDouble d => json_double d
  | _ => []
  end.

Fixpoint join (sep : list Z) (ts : list (list Z)) : list Z :=
  match ts with
  | [] => []
  | [t] => t
  | t :: ts => t ++ sep ++ join sep ts
  end.

Fixpoint json_text (v : Value) : list Z :=
  match v with
  | VNull => str "null"
  | VBool b => if b then str "true" else str "false"
  | VString s => json_string s
  | VNumber _ n => json_number v n
  | VArray _ es => [91] ++ join [44] (json_text <$> es) ++ [93]
  | VObject _ ms => [123] ++ join [44] ((fun '(n, w) => json_string n ++ [58] ++ json_text w) <$> ms) ++ [125]
  end.

(** ** Strings *)
Lemma escape_table c :
  0 <= c < 256 ->
  exists e, lookupZ escape c = Ret e /\
  (if e =? 0 then json_escape c = [c]
   else if e =? 117 then
     exists h1 h2, lookupZ hexDigits (Z.shiftr c 4) = Ret h1 /\ lookupZ hexDigits (Z.land c 0xF) = Ret h2 /\
       json_escape c = [92; 117; 48; 48; h1; h2]
   else json_escape c = [92; e]).
Proof.
  intros Hc.
  assert (Hall : forallb (fun c =>
      match lookupZ escape c with
      | Ret e =>
          if e =? 0 then bool_decide (json_escape c = [c])
          else if e =? 117 then
            match lookupZ hexDigits (Z.shiftr c 4), lookupZ hexDigits (Z.land c 0xF) with
            | Ret h1, Ret h2 => bool_decide (json_escape c = [92; 117; 48; 48; h1; h2])
            | _, _ => false
            end
          else bool_decide (json_escape c = [92; e])
      | _ => false
      end) (seqZ 0 256) = true) by (vm_compute; reflexivity).
  pose proof (forallb_seqZ _ _ _ Hall c Hc) as H. cbv beta in H.
  destruct (lookupZ escape c) as [e| |]; [|done..]. exists e. split; [done|].
  destruct (e =? 0); [by apply bool_decide_eq_true in H|].
  destruct (e =? 117); [|by apply bool_decide_eq_true in H].
  destruct (lookupZ hexDigits (Z.shiftr c 4)) as [h1| |]; [|done..].
  destruct (lookupZ hexDigits (Z.land c 0xF)) as [h2| |]; [|done..].
  exists h1, h2. split_and!; [reflexivity.. | exact (bool_decide_eq_true_1 _ H)].
Qed.

(** A character costs at most the six bytes reserved for it. *)
Lemma json_escape_size c : 1 <= sizeZ (json_escape c) <= 6.
Proof. unfold json_escape, sizeZ. repeat case_match; simpl; lia. Qed.

Lemma bind_ret_r {A} (m : outcome A) : (let* x := m in Ret x) = m.
Proof. by destruct m. Qed.

Lemma write_char_puts c sb : 0 <= c < 256 -> write_char c sb = put_unsafe sb (json_escape c).
Proof.
  intros Hc. unfold write_char. unfold u8. rewrite !(Z.mod_small c) by lia.
  destruct (escape_table c Hc) as (e & -> & He). cbn [bind]. destruct (Z.eqb_spec e 0); cbn [negb].
  - rewrite He. cbn [put_unsafe]. by rewrite bind_ret_r.
  - destruct (Z.eqb_spec e 117) as [Heq |].
    + subst e. destruct He as (h1 & h2 & -> & -> & ->). cbn [put_unsafe bind].
      repeat (destruct (PutUnsafe _ _); cbn [bind]; [|done..]). done.
    + rewrite He. cbn [put_unsafe]. destruct (PutUnsafe sb 92); cbn [bind]; [|done..].
      by destruct (PutUnsafe _ e).
Qed.

Lemma put_unsafe_app l l' sb : put_unsafe sb (l ++ l') = let* sb := put_unsafe sb l in put_unsafe sb l'.
Proof.
  revert sb. induction l as [|c l IH]; intros sb; [done|]. cbn [app put_unsafe].
  destruct (PutUnsafe sb c); cbn [bind]; auto.
Qed.

Lemma write_chars_puts s sb : is_bytes s -> write_chars s sb = put_unsafe sb (concat (json_escape <$> s)).
Proof.
  intros Hs. revert sb. induction Hs as [|c s Hc Hs IH]; intros sb; [done|].
  cbn [write_chars]. rewrite fmap_cons. cbn [concat]. rewrite put_unsafe_app, write_char_puts by done.
  destruct (put_unsafe sb _); cbn [bind]; auto.
Qed.

Lemma escaped_size s : 0 <= sizeZ (concat (json_escape <$> s)) <= 6 * sizeZ s.
Proof.
  unfold sizeZ. induction s as [|c s IH]; [simpl; lia|]. rewrite fmap_cons. cbn [concat].
  rewrite length_app. pose proof (json_escape_size c). unfold sizeZ in *. simpl length. lia.
Qed.

Lemma string_puts s sb :
  is_bytes s ->
  (let* sb := PutUnsafe sb 34 in
   let* sb := write_chars s sb in
   let* sb := PutUnsafe sb 34 in
   Ret (true, sb)) = let* sb := put_unsafe sb (json_string s) in Ret (true, sb).
Proof.
  intros Hs. unfold json_string. cbn [app put_unsafe].
  destruct (PutUnsafe sb 34) as [sb1| |]; cbn [bind]; [|done..].
  rewrite write_chars_puts, put_unsafe_app by done.
  destruct (put_unsafe sb1 _) as [sb2| |]; cbn [bind put_unsafe]; [|done..].
  by destruct (PutUnsafe sb2 34).
Qed.

(** [WriteString] reserves enough for its unchecked puts. *)
Lemma WriteString_appends s sb :
  stack_wf sb -> is_text s -> stackTop sb + 2 + 6 * sizeZ s <= 2 ^ 60 ->
  exists sb', WriteString s sb = Ret (true, sb') /\ appends sb (Ret sb') (json_string s) 0.
Proof.
  intros Hwf [Hs Hlen] Hmax. unfold WriteString. pose proof (escaped_size s) as Hesc.
  assert (0 <= sizeZ s) by (unfold sizeZ; lia).
  assert (Hu : u32 (2 + sizeZ s * 6) = 2 + sizeZ s * 6) by (unfold u32; apply Z.mod_small; lia).
  rewrite Hu. destruct (Reserve_keeps sb (2 + sizeZ s * 6) Hwf) as (Hwf1 & Hc1 & Hr1 & Ht1 & Ha1); [lia..|].
  set (sb1 := Reserve sb (2 + sizeZ s * 6)) in *.
  destruct (put_unsafe_appends (json_string s) sb1 Hwf1) as (sb2 & He & Hwf2 & Hc2 & Hr2 & Ha2 & Ht2).
  - unfold json_string. unfold sizeZ in *. rewrite !length_app. simpl. lia.
  - apply Ha1. lia.
  - exists sb2. split.
    + rewrite string_puts, He by done. done.
    + apply appends_intro; [done | done | by rewrite Hc2, Hc1 | | done].
      unfold json_string, sizeZ in *. rewrite !length_app in Hr2. simpl in Hr2. lia.
Qed.

(** ** One value in its context *)

(** The separator before the next value, and the level after it. *)
Definition separator (L : list Level) : list Z :=
  match L with
  | mkLevel c arr :: _ =>
      if 0 <? c then if arr then [44] else if c mod 2 =? 0 then [44] else [58] else []
  | [] => []
  end.

Definition bump (L : list Level) : list Level :=
  match L with mkLevel c arr :: L => mkLevel (c + 1) arr :: L | [] => [] end.

(** A writer that can take a value of type [t] next. *)
Definition ready (t : JsonType) (w : Writer) : Prop :=
  stack_wf w.(os) /\ w.(maxDecimalPlaces) = kDefaultMaxDecimalPlaces /\
  match w.(level_stack) with
  | [] => w.(hasRoot) = false
  | mkLevel c arr :: _ => w.(hasRoot) = true /\ 0 <= c < 2 ^ 40 /\
      (arr = true \/ c mod 2 <> 0 \/ t = kStringType)
  end.

(** [m] succeeds, [cs] is appended and the levels are [L]. *)
Definition wrote (w : Writer) (m : outcome (bool * Writer)) (cs : list Z) (L : list Level) : Prop :=
  exists w', m = Ret (true, w') /\ stack_wf w'.(os) /\ w'.(maxDecimalPlaces) = kDefaultMaxDecimalPlaces /\
    content w'.(os) = content w.(os) ++ cs /\ stackTop w'.(os) = stackTop w.(os) + sizeZ cs /\
    w'.(level_stack) = L /\ w'.(hasRoot) = true.

Lemma Prefix_puts t w :
  ready t w -> stackTop w.(os) + 1 <= 2 ^ 60 ->
  exists w', Prefix t w = Ret w' /\ stack_wf w'.(os) /\
    content w'.(os) = content w.(os) ++ separator w.(level_stack) /\
    stackTop w'.(os) = stackTop w.(os) + sizeZ (separator w.(level_stack)) /\
    w'.(level_stack) = bump w.(level_stack) /\ w'.(hasRoot) = true /\
    w'.(maxDecimalPlaces) = kDefaultMaxDecimalPlaces.
Proof.
  intros (Hwf & Hmax & Hlv) Htop. unfold Prefix. destruct w as [sb L mdp root]. cbn [os level_stack hasRoot maxDecimalPlaces] in *.
  subst mdp. destruct L as [|[c arr] L].
  - subst root. eexists. split; [done|]. cbn [os level_stack hasRoot separator bump].
    split_and!; try done; [by rewrite app_nil_r | change (sizeZ []) with 0; lia].
  - destruct Hlv as (-> & Hc & Hok). cbn [valueCount inArray separator bump].
    assert (Hsep : exists sb', (if 0 <? c then if arr then Put sb 44 else Put sb (if c mod 2 =? 0 then 44 else 58)
                     else Ret sb) = Ret sb' /\ stack_wf sb' /\
        content sb' = content sb ++ (if 0 <? c then if arr then [44] else if c mod 2 =? 0 then [44] else [58] else []) /\
        stackTop sb' = stackTop sb + sizeZ (if 0 <? c then if arr then [44] else if c mod 2 =? 0 then [44] else [58] else [])).
    { destruct (0 <? c).
      - destruct arr; [|destruct (c mod 2 =? 0)];
          match goal with |- context [Put sb ?x] =>
            destruct (Put_appends sb x Hwf Htop) as (sb' & He & H1 & H2 & _ & _ & H3) end;
          exists sb'; rewrite He; split_and!; done.
      - exists sb. split_and!; try done; [by rewrite app_nil_r | change (sizeZ []) with 0; lia]. }
    destruct Hsep as (sb' & -> & H1 & H2 & H3). cbn [bind].
    assert (negb arr && (c mod 2 =? 0) && negb (bool_decide (t = kStringType)) = false) as ->.
    { destruct arr; [done|]. cbn [negb andb]. destruct (Z.eqb_spec (c mod 2) 0); [|done].
      destruct Hok as [|[|Ht]]; [done | done |]. by rewrite bool_decide_eq_true_2. }
    eexists. split; [done|]. cbn [os level_stack hasRoot maxDecimalPlaces].
    rewrite u64_small by lia. done.
Qed.

(** A value printed by [write] as [text]. *)
Lemma write_value_wrote t w write text budget :
  ready t w -> 0 <= budget -> stackTop w.(os) + 1 + budget <= 2 ^ 60 ->
  (forall sb, stack_wf sb -> stackTop sb + budget <= 2 ^ 60 ->
     exists sb', write sb = Ret (true, sb') /\ appends sb (Ret sb') text 0) ->
  wrote w (write_value t write w) (separator w.(level_stack) ++ text) (bump w.(level_stack)).
Proof.
  intros Hr Hb Hmax Hwrite.
  destruct (Prefix_puts t w Hr) as (w1 & Hp & Hwf1 & Hc1 & Ht1 & Hl1 & Hroot1 & Hm1); [lia|].
  unfold write_value. rewrite Hp. cbn [bind]. assert (sizeZ (separator (level_stack w)) <= 1).
  { unfold separator, sizeZ. repeat case_match; simpl; lia. }
  destruct (Hwrite (os w1) Hwf1) as (sb & He & sb' & Heq & Hwf2 & Hc2 & _ & _ & Ht2); [lia|].
  injection Heq as <-. unfold EndValue. rewrite He. cbn [bind]. eexists. split; [done|].
  unfold set_os. cbn [os level_stack hasRoot maxDecimalPlaces]. split_and!; try done.
  - by rewrite Hc2, Hc1, app_assoc.
  - rewrite Ht2, Ht1. unfold sizeZ. rewrite length_app. lia.
Qed.

(** ** Scalars *)
Lemma literal_appends text sb :
  stack_wf sb -> 0 < sizeZ text -> stackTop sb + sizeZ text <= 2 ^ 60 ->
  exists sb', put_literal text sb = Ret (true, sb') /\ appends sb (Ret sb') text 0.
Proof.
  intros Hwf Hs Hmax. unfold put_literal.
  destruct (Reserve_keeps sb (sizeZ text) Hwf) as (Hwf1 & Hc1 & Hr1 & Ht1 & Ha1); [lia..|].
  destruct (put_unsafe_appends text (Reserve sb (sizeZ text))) as (sb2 & -> & H1 & H2 & H3 & H4 & H5);
    [done | lia | apply Ha1; lia|].
  exists sb2. split; [done|]. apply appends_intro; [done | done | by rewrite H2, Hc1 | lia | done].
Qed.

Lemma print_appends n text sb :
  stack_wf sb -> 0 < n -> sizeZ text <= n -> stackTop sb + n <= 2 ^ 60 ->
  exists sb', (let* sb := push_print sb n text in Ret (true, sb)) = Ret (true, sb') /\
    appends sb (Ret sb') text 0.
Proof.
  intros Hwf Hn Ht Hmax. destruct (push_print_appends sb n text Hwf Hn Ht Hmax) as (sb' & -> & Hrest).
  exists sb'. split; [done|]. by exists sb'.
Qed.

Lemma json_integer_size z k :
  (0 < k)%nat -> - 10 ^ Z.of_nat k < z < 10 ^ Z.of_nat k ->
  sizeZ (json_integer z) <= Z.of_nat k + (if z <? 0 then 1 else 0).
Proof.
  intros Hk Hz. unfold json_integer, sizeZ. destruct (Z.ltb_spec z 0).
  - pose proof (dec_length_upper k (- z) ltac:(lia) Hk ltac:(lia)). simpl length. lia.
  - pose proof (dec_length_upper k z ltac:(lia) Hk ltac:(lia)). lia.
Qed.

(** The numbers the writer accepts: finite doubles. *)
Definition printable_number (v : Value) (n : Z) : Prop :=
  match number_event v n with EDouble d => is_double d /\ is_finite d = true | _ => True end.

Lemma number_writes f n w :
  wf_number (VNumber f n) -> printable_number (VNumber f n) n ->
  ready kNumberType w -> stackTop w.(os) + 26 <= 2 ^ 60 ->
  wrote w (handle (number_event (VNumber f n) n) w)
    (separator w.(level_stack) ++ json_number (VNumber f n) n) (bump w.(level_stack)).
Proof.
  intros Hwf Hp Hr Hmax. unfold printable_number, json_number in *.
  destruct Hwf as [(z & Hz & He) | (d & Hd & He)].
  - pose proof (number_event_integer z Hz) as Hev. rewrite <- He in Hev. rewrite Hev. clear Hev Hp.
    repeat case_bool_decide; cbn [handle Writer_Handler];
      (eapply (write_value_wrote _ _ _ _ 25); [done | lia | lia |]; intros sb Hsb Hroom).
    + unfold WriteInt. rewrite i32toa_dec by lia. cbn [bind]. fold (json_integer z).
      apply print_appends; [done | lia | | lia].
      pose proof (json_integer_size z 10). destruct (z <? 0); simpl in *; lia.
    + unfold WriteUint. rewrite u32toa_dec by lia. cbn [bind].
      unfold json_integer. replace (z <? 0) with false by lia.
      apply print_appends; [done | lia | | lia].
      pose proof (dec_length_upper 10 z). unfold sizeZ. simpl in *. lia.
    + unfold WriteInt64. rewrite i64toa_dec by lia. cbn [bind]. fold (json_integer z).
      apply print_appends; [done | lia | | lia].
      pose proof (json_integer_size z 19). destruct (z <? 0); simpl in *; lia.
    + unfold WriteUint64. rewrite u64toa_dec by lia. cbn [bind].
      unfold json_integer. replace (z <? 0) with false by lia.
      apply print_appends; [done | lia | | lia].
      pose proof (dec_length_upper 20 z). unfold sizeZ. simpl in *. lia.
  - injection He as -> ->. unfold number_event in *.
    change (IsDouble (VNumber kNumberDoubleFlag (bits_of_double d))) with true in *. cbv iota in *.
    rewrite double_bits_roundtrip in * by done. cbn [handle Writer_Handler].
    destruct (dtoa_text d Hd (proj2 Hp)) as (text & Htext & Hsize).
    eapply (write_value_wrote _ _ _ _ 25); [done | lia | lia |]. intros sb Hsb Hroom.
    unfold WriteDouble. rewrite finite_not_nan by (done || apply Hp).
    destruct Hr as (_ & -> & _). unfold json_double. rewrite Htext. cbn [bind].
    apply print_appends; [done | lia | done | lia].
Qed.

(** ** Sequences *)
Lemma wrote_then w m cs L (k : Writer -> outcome (bool * Writer)) cs' L' :
  wrote w m cs L ->
  (forall w', stack_wf w'.(os) -> w'.(maxDecimalPlaces) = kDefaultMaxDecimalPlaces ->
     stackTop w'.(os) = stackTop w.(os) + sizeZ cs -> w'.(level_stack) = L -> w'.(hasRoot) = true ->
     wrote w' (k w') cs' L') ->
  wrote w (and_then m k) (cs ++ cs') L'.
Proof.
  intros (w1 & -> & Hwf1 & Hm1 & Hc1 & Ht1 & Hl1 & Hr1) Hk. cbn [and_then bind].
  destruct (Hk w1) as (w2 & -> & Hwf2 & Hm2 & Hc2 & Ht2 & Hl2 & Hr2); [done..|].
  exists w2. split_and!; try done.
  - by rewrite Hc2, Hc1, app_assoc.
  - rewrite Ht2, Ht1. unfold sizeZ. rewrite length_app. lia.
Qed.

Lemma wrote_nil w : stack_wf w.(os) -> w.(maxDecimalPlaces) = kDefaultMaxDecimalPlaces -> w.(hasRoot) = true ->
  wrote w (Ret (true, w)) [] w.(level_stack).
Proof.
  intros. exists w. split_and!; try done; [by rewrite app_nil_r | change (sizeZ []) with 0; lia].
Qed.

(** An upper bound of the bytes a value reserves, separators included. *)
Definition string_weight (s : list Z) : Z := 3 + 6 * sizeZ s.

Definition sum (l : list Z) : Z := foldr Z.add 0 l.

Fixpoint weight (v : Value) : Z :=
  match v with
  | VString s => string_weight s
  | VArray _ es => 3 + sum (weight <$> es)
  | VObject _ ms => 3 + sum ((fun '(n, w) => string_weight n + weight w) <$> ms)
  | _ => 26
  end.

Lemma weight_pos v : 0 < weight v.
Proof.
  induction v as [| b | c ms IH | c es IH | s | f n] using value_ind; cbn [weight]; try lia.
  - enough (0 <= sum ((fun '(n, w) => string_weight n + weight w) <$> ms)) by lia.
    induction IH as [|[n w] ms Hw _ IHm]; csimpl; [lia|]. unfold string_weight, sizeZ in *. simpl in Hw. lia.
  - enough (0 <= sum (weight <$> es)) by lia. induction IH as [|e es He _ IHe]; csimpl; lia.
  - unfold string_weight, sizeZ. lia.
Qed.

Lemma weights_nonneg es : 0 <= sum (weight <$> es).
Proof. induction es as [|e es IH]; [done|]. pose proof (weight_pos e). unfold sum in *. csimpl. lia. Qed.

Lemma member_weights_nonneg (ms : list (list Z * Value)) :
  0 <= sum ((fun '(n, w) => string_weight n + weight w) <$> ms).
Proof.
  induction ms as [|[n w] ms IH]; [done|]. pose proof (weight_pos w).
  unfold sum, string_weight, sizeZ in *. csimpl. lia.
Qed.

#[local] Set Warnings "-register-all".

(** Every double in the value is finite. *)
Inductive printable : Value -> Prop :=
  | pr_null : printable VNull
  | pr_bool b : printable (VBool b)
  | pr_string s : printable (VString s)
  | pr_number f n : printable_number (VNumber f n) n -> printable (VNumber f n)
  | pr_array c es : Forall printable es -> printable (VArray c es)
  | pr_object c ms : Forall (fun m => printable m.2) ms -> printable (VObject c ms).

(** The writer appends the separator and the text of [v]. *)
Definition prints (v : Value) : Prop := forall w,
  ready kNullType w -> stackTop w.(os) + weight v <= 2 ^ 60 ->
  wrote w (send (events v) w) (separator w.(level_stack) ++ json_text v) (bump w.(level_stack)) /\
  1 + sizeZ (json_text v) <= weight v.

Lemma separator_size L : 0 <= sizeZ (separator L) <= 1.
Proof. unfold separator, sizeZ. repeat case_match; simpl; lia. Qed.

(** The texts of the elements behind [k] others. *)
Fixpoint listed (k : Z) (ts : list (list Z)) : list Z :=
  match ts with
  | [] => []
  | t :: ts => (if 0 <? k then [44] else []) ++ t ++ listed (k + 1) ts
  end.

Lemma listed_join ts : listed 0 ts = join [44] ts.
Proof.
  destruct ts as [|t ts]; [done|]. cbn [listed]. change (0 <? 0) with false. cbn [app].
  change (0 + 1) with 1. assert (H : forall k, 0 < k -> forall t, t ++ listed k ts = join [44] (t :: ts)); [|by apply H].
  clear t. induction ts as [|t' ts IH]; intros k Hk t; [by rewrite app_nil_r|].
  cbn [listed join]. replace (0 <? k) with true by lia. cbn [app]. do 2 f_equal. apply IH. lia.
Qed.

Lemma elements_print es : Forall prints es -> forall k w L,
  0 <= k -> k + sizeZ es < 2 ^ 40 -> stack_wf w.(os) -> w.(maxDecimalPlaces) = kDefaultMaxDecimalPlaces ->
  w.(hasRoot) = true -> w.(level_stack) = mkLevel k true :: L ->
  stackTop w.(os) + sum (weight <$> es) <= 2 ^ 60 ->
  wrote w (send (concat (events <$> es)) w) (listed k (json_text <$> es))
    (mkLevel (k + sizeZ es) true :: L) /\
  sizeZ (listed k (json_text <$> es)) <= sum (weight <$> es).
Proof.
  induction 1 as [|e es He Hes IH]; intros k w L Hk Hn Hwf Hm Hr Hl Hmax.
  - change (sizeZ []) with 0. rewrite Z.add_0_r, <- Hl. split; [by apply wrote_nil | apply Z.le_refl].
  - rewrite !fmap_cons in *. cbn [concat listed sum foldr] in *. rewrite send_app.
    unfold sizeZ in Hn. simpl length in Hn. pose proof (weights_nonneg es).
    fold (sum (weight <$> es)) in *. destruct (He w) as [Hw Hsz].
    { split_and!; try done. rewrite Hl. split_and!; try done; lia || by left. }
    { lia. }
    rewrite Hl in Hw. cbn [separator bump] in Hw.
    assert (Hsep : 0 <= sizeZ (if 0 <? k then [44] else []) <= 1) by (destruct (0 <? k); unfold sizeZ; simpl; lia).
    split.
    + rewrite app_assoc. eapply wrote_then; [exact Hw|]. intros w' Hwf' Hm' Ht' Hl' Hr'.
      replace (k + sizeZ (e :: es)) with (k + 1 + sizeZ es) by (unfold sizeZ; simpl; lia).
      apply IH; try done; try lia; [unfold sizeZ; lia|]. rewrite Ht'.
      unfold sizeZ in *. rewrite length_app. lia.
    + specialize (IH (k + 1) (mkWriter (os w) (mkLevel (k + 1) true :: L) (maxDecimalPlaces w) (hasRoot w)) L).
      destruct IH as [_ IH]; cbn [os level_stack hasRoot maxDecimalPlaces]; try done; try lia.
      { unfold sizeZ. lia. }
      { pose proof (weight_pos e). lia. }
      unfold sizeZ in *. rewrite !length_app. lia.
Qed.

Lemma json_string_size s : sizeZ (json_string s) <= 2 + 6 * sizeZ s.
Proof.
  pose proof (escaped_size s). unfold json_string, sizeZ in *. rewrite !length_app. simpl. lia.
Qed.

(** A key, in the state its value needs. *)
Lemma key_prints n w k L :
  is_text n -> 0 <= k -> 2 * k < 2 ^ 40 -> stack_wf w.(os) ->
  w.(maxDecimalPlaces) = kDefaultMaxDecimalPlaces -> w.(hasRoot) = true ->
  w.(level_stack) = mkLevel (2 * k) false :: L -> stackTop w.(os) + string_weight n <= 2 ^ 60 ->
  wrote w (handle (EKey n) w) ((if 0 <? k then [44] else []) ++ json_string n)
    (mkLevel (2 * k + 1) false :: L).
Proof.
  intros Hn Hk Hk' Hwf Hm Hr Hl Hmax. unfold string_weight in Hmax.
  replace ((if 0 <? k then [44] else []) ++ json_string n)
    with (separator (level_stack w) ++ json_string n).
  - replace (mkLevel (2 * k + 1) false :: L) with (bump (level_stack w)) by (by rewrite Hl).
    cbn [handle Writer_Handler].
    eapply (write_value_wrote _ _ _ _ (2 + 6 * sizeZ n)); [|unfold sizeZ; lia | lia |].
    + split_and!; try done. rewrite Hl. split_and!; try done; [lia..|]. by right; right.
    + intros sb Hsb Hroom. apply WriteString_appends; [done | done | lia].
  - rewrite Hl. cbn [separator]. rewrite Z.mul_comm, Z.mod_mul by lia. cbn [Z.eqb].
    destruct (Z.ltb_spec 0 k), (Z.ltb_spec 0 (k * 2)); done || lia.
Qed.

Lemma members_print ms : Forall (fun m => prints m.2) ms -> Forall (fun m => is_text m.1) ms ->
  forall k w L,
  0 <= k -> 2 * (k + sizeZ ms) < 2 ^ 40 -> stack_wf w.(os) -> w.(maxDecimalPlaces) = kDefaultMaxDecimalPlaces ->
  w.(hasRoot) = true -> w.(level_stack) = mkLevel (2 * k) false :: L ->
  stackTop w.(os) + sum ((fun '(n, v) => string_weight n + weight v) <$> ms) <= 2 ^ 60 ->
  let texts := (fun '(n, v) => json_string n ++ [58] ++ json_text v) <$> ms in
  wrote w (send (concat ((fun '(n, v) => EKey n :: events v) <$> ms)) w) (listed k texts)
    (mkLevel (2 * (k + sizeZ ms)) false :: L) /\
  sizeZ (listed k texts) <= sum ((fun '(n, v) => string_weight n + weight v) <$> ms).
Proof.
  induction 1 as [|[n v] ms Hv Hms IH]; intros Htext k w L Hk Hn Hwf Hm Hr Hl Hmax.
  - change (sizeZ []) with 0. rewrite Z.add_0_r, <- Hl. split; [by apply wrote_nil | apply Z.le_refl].
  - apply Forall_cons in Htext as [Hname Htext]. simpl in Hname, Hv.
    rewrite !fmap_cons in *. cbn [concat listed sum foldr] in *. cbv zeta.
    unfold sizeZ in Hn. simpl length in Hn. pose proof (member_weights_nonneg ms).
    fold (sum ((fun '(n, w) => string_weight n + weight w) <$> ms)) in *.
    pose proof (json_string_size n) as Hns. pose proof (weight_pos v).
    assert (Hsep : 0 <= sizeZ (if 0 <? k then [44] else []) <= 1) by (destruct (0 <? k); unfold sizeZ; simpl; lia).
    assert (Hkey : forall s, sizeZ (((if 0 <? k then [44] else []) ++ json_string s)) <= string_weight s).
    { intros s. pose proof (json_string_size s). unfold string_weight, sizeZ in *. rewrite length_app. lia. }
    specialize (Hkey n).
    assert (Hval : forall w', stack_wf w'.(os) -> w'.(maxDecimalPlaces) = kDefaultMaxDecimalPlaces ->
      stackTop w'.(os) <= stackTop w.(os) + string_weight n -> w'.(hasRoot) = true ->
      w'.(level_stack) = mkLevel (2 * k + 1) false :: L ->
      wrote w' (send (events v) w') ([58] ++ json_text v) (mkLevel (2 * (k + 1)) false :: L) /\
      1 + sizeZ (json_text v) <= weight v).
    { intros w' Hwf' Hm' Ht' Hr' Hl'. destruct (Hv w') as [Hw Hs].
      - split_and!; try done. rewrite Hl'. split_and!; try done; [lia..|]. right. left.
        rewrite Z.add_comm, (Z.mul_comm 2), Z.mod_add by lia. done.
      - lia.
      - rewrite Hl' in Hw. cbn [separator bump] in Hw.
        replace (0 <? 2 * k + 1) with true in Hw by lia.
        replace ((2 * k + 1) mod 2) with 1 in Hw by (rewrite Z.add_comm, (Z.mul_comm 2), Z.mod_add by lia; done).
        replace (2 * (k + 1)) with (2 * k + 1 + 1) by lia. done. }
    split.
    + replace ((if 0 <? k then [44] else []) ++ (json_string n ++ [58] ++ json_text v) ++ listed (k + 1) _)
        with (((if 0 <? k then [44] else []) ++ json_string n) ++ ([58] ++ json_text v) ++
              listed (k + 1) ((fun '(n, v) => json_string n ++ [58] ++ json_text v) <$> ms))
        by (by rewrite <- !app_assoc).
      eapply (wrote_then w (handle (EKey n) w) _ _ (send (events v ++ _)));
        [apply (key_prints n w k L); try done; lia|].
      intros w1 Hwf1 Hm1 Ht1 Hl1 Hr1. rewrite send_app.
      destruct (Hval w1) as [Hw2 Hs2]; try done; [lia|].
      eapply wrote_then; [exact Hw2|]. intros w2 Hwf2 Hm2 Ht2 Hl2 Hr2.
      replace (2 * (k + sizeZ ((n, v) :: ms))) with (2 * (k + 1 + sizeZ ms)) by (unfold sizeZ; simpl; lia).
      apply IH; try done; try lia; [unfold sizeZ; lia|]. rewrite Ht2, Ht1.
      unfold sizeZ in *. rewrite !length_app in *. simpl length in *. lia.
    + destruct (Hval (mkWriter (os w) (mkLevel (2 * k + 1) false :: L) (maxDecimalPlaces w) (hasRoot w)))
        as [_ Hs]; cbn [os level_stack hasRoot maxDecimalPlaces]; try done;
        [unfold string_weight, sizeZ; lia|].
      destruct (IH Htext (k + 1) (mkWriter (os w) (mkLevel (2 * (k + 1)) false :: L) (maxDecimalPlaces w) (hasRoot w)) L)
        as [_ HIH]; cbn [os level_stack hasRoot maxDecimalPlaces]; try done; try lia;
        [unfold sizeZ; lia | unfold string_weight, sizeZ in *; lia|].
      unfold string_weight, sizeZ in *. rewrite !length_app in *. simpl length in *. lia.
Qed.

(** ** Brackets *)
Lemma start_wrote t arr c w :
  ready t w -> stackTop w.(os) + 2 <= 2 ^ 60 ->
  wrote w (start_level t arr c w) (separator w.(level_stack) ++ [c]) (mkLevel 0 arr :: bump w.(level_stack)).
Proof.
  intros Hr Hmax. destruct (Prefix_puts t w Hr) as (w1 & Hp & Hwf1 & Hc1 & Ht1 & Hl1 & Hroot1 & Hm1); [lia|].
  unfold start_level. rewrite Hp. cbn [bind]. pose proof (separator_size (level_stack w)).
  destruct (Put_appends (os w1) c Hwf1) as (sb & -> & H1 & H2 & _ & _ & H3); [lia|].
  cbn [bind]. eexists. split; [done|]. cbn [os level_stack hasRoot maxDecimalPlaces].
  split_and!; try done.
  - by rewrite H2, Hc1, app_assoc.
  - rewrite H3, Ht1. unfold sizeZ. rewrite length_app. lia.
  - by rewrite Hl1.
Qed.

Lemma end_wrote arr c k L w :
  stack_wf w.(os) -> w.(maxDecimalPlaces) = kDefaultMaxDecimalPlaces -> w.(hasRoot) = true ->
  w.(level_stack) = mkLevel k arr :: L -> (arr = true \/ k mod 2 = 0) -> stackTop w.(os) + 1 <= 2 ^ 60 ->
  wrote w (end_level arr c w) [c] L.
Proof.
  intros Hwf Hm Hr Hl Hok Hmax. unfold end_level. rewrite Hl. cbn [inArray valueCount].
  rewrite Bool.eqb_reflx. cbn [negb].
  assert (negb arr && negb (k mod 2 =? 0) = false) as ->.
  { destruct arr; [done|]. destruct Hok as [|Hk]; [done|]. by rewrite Hk. }
  destruct (Put_appends (os w) c Hwf Hmax) as (sb & He & H1 & H2 & _ & _ & H3).
  unfold EndValue. cbn [os]. rewrite He. cbn [bind]. eexists. split; [done|].
  unfold set_os. cbn [os level_stack hasRoot maxDecimalPlaces]. done.
Qed.

Lemma ready_any t w : ready kNullType w -> ready t w.
Proof.
  intros (H1 & H2 & H3). split_and!; [done..|]. destruct (level_stack w) as [|[c arr] L]; [done|].
  destruct H3 as (? & ? & [?|[?|?]]); [auto | auto | done].
Qed.

Lemma join_size_listed (es : list (list Z)) : sizeZ (join [44] es) = sizeZ (listed 0 es).
Proof. by rewrite listed_join. Qed.

Lemma scalar_prints e w t write text budget :
  handle e w = write_value t write w -> ready kNullType w -> 0 <= budget ->
  stackTop w.(os) + 1 + budget <= 2 ^ 60 ->
  (forall sb, stack_wf sb -> stackTop sb + budget <= 2 ^ 60 ->
     exists sb', write sb = Ret (true, sb') /\ appends sb (Ret sb') text 0) ->
  wrote w (send [e] w) (separator w.(level_stack) ++ text) (bump w.(level_stack)).
Proof.
  intros He Hr Hb Hmax Hw. rewrite send_one, He.
  by apply (write_value_wrote _ _ _ _ budget); [apply ready_any| | |].
Qed.

Lemma printed_number_size f n :
  wf_number (VNumber f n) -> printable_number (VNumber f n) n -> sizeZ (json_number (VNumber f n) n) <= 25.
Proof.
  intros Hwf Hp. set (w := mkWriter new_StringBuffer [] kDefaultMaxDecimalPlaces false).
  destruct Hwf as [(z & Hz & He) | (d & Hd & He)].
  - unfold json_number. pose proof (number_event_integer z Hz) as Hev. rewrite <- He in Hev. rewrite Hev.
    pose proof (json_integer_size z 20 ltac:(lia) ltac:(simpl; lia)) as Hs.
    repeat case_bool_decide; destruct (z <? 0); simpl in Hs; lia.
  - injection He as -> ->. unfold json_number, printable_number, number_event in *.
    change (IsDouble (VNumber kNumberDoubleFlag (bits_of_double d))) with true in *. cbv iota in *.
    rewrite double_bits_roundtrip in * by done.
    destruct (dtoa_text d Hd (proj2 Hp)) as (text & Htext & Hsize). unfold json_double. by rewrite Htext.
Qed.

(** ** Every value *)
Lemma array_prints c es :
  Forall prints es -> sizeZ es < 2 ^ 31 -> prints (VArray c es).
Proof.
  intros Hes Hn w Hr Hmax. cbn [events weight json_text] in *. pose proof (weights_nonneg es).
  pose proof (separator_size (level_stack w)) as Hsep.
  assert (Hready := ready_any kArrayType w Hr).
  pose proof (start_wrote kArrayType true 91 w Hready ltac:(lia)) as Hstart.
  rewrite <- listed_join.
  assert (Hbody : forall w1, stack_wf w1.(os) -> w1.(maxDecimalPlaces) = kDefaultMaxDecimalPlaces ->
    stackTop w1.(os) <= stackTop w.(os) + 2 -> w1.(hasRoot) = true ->
    w1.(level_stack) = mkLevel 0 true :: bump (level_stack w) ->
    wrote w1 (send (concat (events <$> es)) w1) (listed 0 (json_text <$> es))
      (mkLevel (sizeZ es) true :: bump (level_stack w)) /\
    sizeZ (listed 0 (json_text <$> es)) <= sum (weight <$> es)).
  { intros w1 ? ? ? ? ?. apply (elements_print es Hes 0); try done; lia. }
  split.
  - change (send (EStartArray :: ?l) w) with (and_then (start_level kArrayType true 91 w) (send l)).
    rewrite app_assoc. eapply wrote_then; [exact Hstart|]. intros w1 Hwf1 Hm1 Ht1 Hl1 Hr1.
    rewrite send_app. unfold sizeZ in Ht1. rewrite length_app in Ht1. unfold sizeZ in Hsep. simpl in Ht1.
    destruct (Hbody w1) as [Hw1 Hs1]; try done; [lia|].
    eapply wrote_then; [exact Hw1|]. intros w2 Hwf2 Hm2 Ht2 Hl2 Hr2. rewrite send_one.
    eapply end_wrote; [done.. | by left |]. lia.
  - destruct (Hbody (mkWriter (os w) (mkLevel 0 true :: bump (level_stack w)) (maxDecimalPlaces w) true))
      as [_ Hs]; cbn [os level_stack hasRoot maxDecimalPlaces]; try done; try apply Hr; [lia|].
    unfold sizeZ in *. rewrite !length_app. simpl. lia.
Qed.

Lemma object_prints c ms :
  Forall (fun m => prints m.2) ms -> Forall (fun m => is_text m.1) ms -> sizeZ ms < 2 ^ 31 ->
  prints (VObject c ms).
Proof.
  intros Hms Htext Hn w Hr Hmax. cbn [events weight json_text] in *. pose proof (member_weights_nonneg ms).
  pose proof (separator_size (level_stack w)) as Hsep.
  assert (Hready := ready_any kObjectType w Hr).
  pose proof (start_wrote kObjectType false 123 w Hready ltac:(lia)) as Hstart.
  rewrite <- listed_join. set (texts := (fun '(n, v) => json_string n ++ [58] ++ json_text v) <$> ms).
  set (W := sum _) in *.
  assert (Hbody : forall w1, stack_wf w1.(os) -> w1.(maxDecimalPlaces) = kDefaultMaxDecimalPlaces ->
    stackTop w1.(os) <= stackTop w.(os) + 2 -> w1.(hasRoot) = true ->
    w1.(level_stack) = mkLevel 0 false :: bump (level_stack w) ->
    wrote w1 (send (concat ((fun '(n, v) => EKey n :: events v) <$> ms)) w1) (listed 0 texts)
      (mkLevel (2 * sizeZ ms) false :: bump (level_stack w)) /\
    sizeZ (listed 0 texts) <= W).
  { intros w1 ? ? ? ? ?. apply (members_print ms Hms Htext 0); try done; lia. }
  split.
  - change (send (EStartObject :: ?l) w) with (and_then (start_level kObjectType false 123 w) (send l)).
    rewrite app_assoc. eapply wrote_then; [exact Hstart|]. intros w1 Hwf1 Hm1 Ht1 Hl1 Hr1.
    rewrite send_app. unfold sizeZ in Ht1. rewrite length_app in Ht1. unfold sizeZ in Hsep. simpl in Ht1.
    destruct (Hbody w1) as [Hw1 Hs1]; try done; [lia|].
    eapply wrote_then; [exact Hw1|]. intros w2 Hwf2 Hm2 Ht2 Hl2 Hr2. rewrite send_one.
    eapply end_wrote; [done.. | right; by rewrite Z.mul_comm, Z.mod_mul by lia |]. lia.
  - destruct (Hbody (mkWriter (os w) (mkLevel 0 false :: bump (level_stack w)) (maxDecimalPlaces w) true))
      as [_ Hs]; cbn [os level_stack hasRoot maxDecimalPlaces]; try done; try apply Hr; [lia|].
    unfold sizeZ in *. rewrite !length_app. simpl. lia.
Qed.

Lemma value_prints v : wf_value v -> printable v -> prints v.
Proof.
  induction v as [| b | c ms IH | c es IH | s | f n] using value_ind; intros Hwf Hp.
  - intros w Hr Hmax. cbn [weight] in Hmax. split; [|by vm_compute].
    apply (scalar_prints ENull w kNullType WriteNull _ 4); [done | done | lia | lia |].
    intros sb Hsb Hroom. by apply literal_appends.
  - intros w Hr Hmax. cbn [weight] in Hmax. split; [|by destruct b; vm_compute].
    apply (scalar_prints (EBool b) w (if b then kTrueType else kFalseType) (WriteBool b) _ 5); [done | done | lia | lia |].
    intros sb Hsb Hroom. destruct b; apply literal_appends; try done; unfold sizeZ; simpl; lia.
  - inversion Hwf as [| |? ? Htext Hms Hsz| | |]; subst. inversion Hp; subst.
    apply object_prints; [|done | done]. rewrite Forall_forall in *. auto.
  - inversion Hwf as [| | |? ? Hes Hsz| |]; subst. inversion Hp; subst.
    apply array_prints; [|done]. rewrite Forall_forall in *. auto.
  - inversion Hwf as [| | | |? Htext|]; subst. intros w Hr Hmax. cbn [weight json_text events] in *.
    pose proof (json_string_size s). unfold string_weight in *. split; [|lia].
    apply (scalar_prints (EString s) w kStringType (WriteString s) _ (2 + 6 * sizeZ s));
      [done | done | unfold sizeZ; lia | lia |].
    intros sb Hsb Hroom. apply WriteString_appends; [done | done | lia].
  - inversion Hwf as [| | | | |? ? Hn]; subst. inversion Hp as [| | |? ? Hpn| |]; subst.
    intros w Hr Hmax. cbn [weight json_text events] in *. rewrite send_one. split.
    + apply number_writes; [done | done | by apply ready_any | lia].
    + pose proof (printed_number_size f n Hn ltac:(done)). lia.
Qed.

Lemma writer_accepts v sb :
  wf_value v -> printable v -> stack_wf sb -> stackTop sb + weight v <= 2 ^ 60 ->
  exists w, Accept v (new_Writer sb) = Ret (true, w) /\
    content w.(os) = content sb ++ json_text v /\ IsComplete w = true /\ stack_wf w.(os).
Proof.
  intros Hwf Hp Hsb Hmax. rewrite Accept_send.
  destruct (value_prints v Hwf Hp (new_Writer sb)) as [(w & -> & H1 & _ & H2 & _ & H3 & H4) _]; [done | done |].
  exists w. split_and!; [done | done | | done]. unfold IsComplete. by rewrite H4, H3.
Qed.

(** C29. For every value the library can build whose doubles are finite and
    whose strings have at most 2^29 bytes, writing it with [Accept] succeeds, appends to the buffer exactly the
    value's JSON text and leaves a complete document; no assertion of the
    writer or of its buffer fails, and every unchecked put is within the bytes
    reserved before it. *)
Theorem writer_prints_json (v : Value) (sb : Stack) :
  wf_value v -> printable v -> stack_wf sb -> stackTop sb + weight v <= 2 ^ 60 ->
  exists w, Accept v (new_Writer sb) = Ret (true, w) /\
    content w.(os) = content sb ++ json_text v /\ IsComplete w = true /\ stack_wf w.(os).
Proof. apply writer_accepts. Qed.

(** An example value: an object with an escaped string, an array and a double. *)
Definition sample_value : Value :=
  VObject 16 [(str "a", VArray 4 [Value_integer (-5); VNull; VBool true]);
              (str "b", VString [34; 10; 65]); (str "c", Value_double (double_of_Z 3))].

Example sample_text : json_text sample_value = jstr "{'a':[-5,null,true],'b':'\'\nA','c':3.0}".
Proof. vm_compute. reflexivity. Qed.

Ltac by_bytes :=
  split; [repeat (apply List.Forall_cons || apply List.Forall_nil); split; vm_compute; congruence
         | vm_compute; congruence].

Lemma sample_wf : wf_value sample_value.
Proof.
  constructor; [| |vm_compute; reflexivity].
  - repeat (apply List.Forall_cons; [by_bytes|]). apply List.Forall_nil.
  - repeat (apply List.Forall_cons || apply List.Forall_nil); cbn [snd].
    + constructor; [|vm_compute; reflexivity]. repeat (apply List.Forall_cons || apply List.Forall_nil); try constructor.
      left. exists (-5). split; [lia | reflexivity].
    + constructor. by_bytes.
    + constructor. right. exists (double_of_Z 3). split; [vm_compute; reflexivity | reflexivity].
Qed.

Lemma sample_printable : printable sample_value.
Proof.
  constructor. repeat (apply List.Forall_cons || apply List.Forall_nil); cbn [snd]; repeat constructor.
Qed.

Lemma writer_prints_json_witness :
  exists w, Accept sample_value (new_Writer new_StringBuffer) = Ret (true, w) /\
    content w.(os) = content new_StringBuffer ++ json_text sample_value /\ IsComplete w = true /\
    stack_wf w.(os).
Proof.
  apply (writer_prints_json sample_value new_StringBuffer);
    [exact sample_wf | exact sample_printable | exact new_StringBuffer_wf | vm_compute; congruence].
Defined.
