(* ===== verification/ReaderRoundtrip.v ===== *)
(** * Parsing what the writer printed

    The parser with its default flags on the JSON text of a value: strings and
    names come back byte for byte, integers exactly, and doubles exactly when
    their text has few enough digits for the fast path. *)
From Stdlib Require Import SpecFloat.
From S2P Require Import Prelude Decimal Types Doubles Ieee754 DiyFp Dtoa DtoaRoundtrip Strtod StringBuffer Encodings.
From S2P Require Import Value Handler Document Writer WriterCorrect Reader ReaderLogic ReaderTotal DocumentParse.

(** ** Following the parser along a text

    [m] takes the text from [src] to [rest], sends [es] and returns [a], for
    every handler that accepts [es]. *)
Section Takes.
Context {H : Type} `{Handler H}.

Definition takes {A} (m : parser H A) (src rest : list Z) (a : A) (es : list event) : Prop :=
  forall o h h', send es h = Ret (true, h') ->
  exists o', m (mkStream src o) h = Ret (POk a (mkStream rest o') h').

Section Rules.
Context {B : Type} (src rest : list Z) (b : B) (es : list event).

Lemma takes_bind {A} (m : parser H A) (k : A -> parser H B) mid a es1 :
  takes m src mid a es1 -> takes (k a) mid rest b es -> takes (pbind m k) src rest b (es1 ++ es).
Proof.
  intros Hm Hk o h h2 Hs. rewrite send_app in Hs. unfold and_then in Hs.
  destruct (send es1 h) as [[[] h1]| |] eqn:H1; try done. cbn [bind] in Hs.
  destruct (Hm o h h1 H1) as [o1 E1]. unfold pbind. rewrite E1. cbn [bind]. by apply Hk.
Qed.

(** A step that sends nothing. *)
Lemma takes_quiet {A} (m : parser H A) (k : A -> parser H B) mid a :
  takes m src mid a [] -> takes (k a) mid rest b es -> takes (pbind m k) src rest b es.
Proof. apply (takes_bind m k mid a []). Qed.

Lemma takes_peek (k : Z -> parser H B) c :
  takes (k c) (c :: src) rest b es -> takes (pbind peek k) (c :: src) rest b es.
Proof. intros Hk o h h' Hs. by apply Hk. Qed.

Lemma takes_char (k : Z -> parser H B) c :
  takes (k c) src rest b es -> takes (pbind take_ch k) (c :: src) rest b es.
Proof. intros Hk o h h' Hs. by apply Hk. Qed.

Lemma takes_tell (k : Z -> parser H B) :
  (forall o, takes (k o) src rest b es) -> takes (pbind tell k) src rest b es.
Proof. intros Hk o h h' Hs. by apply (Hk o). Qed.

Lemma takes_lift {A} (m : outcome A) a (k : A -> parser H B) :
  m = Ret a -> takes (k a) src rest b es -> takes (pbind (lift m) k) src rest b es.
Proof. intros -> Hk o h h' Hs. by apply Hk. Qed.

Lemma takes_consume (k : bool -> parser H B) c :
  takes (k true) src rest b es -> takes (pbind (Consume c) k) (c :: src) rest b es.
Proof.
  intros Hk o h h' Hs. unfold Consume, pbind. cbn [peek Peek src_ bind]. rewrite Z.eqb_refl. by apply Hk.
Qed.

Lemma takes_consume_not (k : bool -> parser H B) c c' :
  c' <> c -> takes (k false) (c' :: src) rest b es -> takes (pbind (Consume c) k) (c' :: src) rest b es.
Proof.
  intros Hc Hk o h h' Hs. unfold Consume, pbind. cbn [peek Peek src_ bind].
  rewrite (proj2 (Z.eqb_neq c' c)) by done. by apply Hk.
Qed.

Lemma takes_emit e (k f : parser H B) :
  takes k src rest b es -> takes (let! ok := emit e in if ok : bool then k else f) src rest b (e :: es).
Proof.
  intros Hk o h h' Hs. cbn [send] in Hs. unfold and_then in Hs. unfold pbind, emit.
  destruct (handle e h) as [[[] h1]| |]; try done. cbn [bind] in *. by apply Hk.
Qed.
End Rules.

Lemma takes_ret {A} (a : A) rest : takes (pret a) rest rest a [].
Proof. intros o h h' [= <-]. by exists o. Qed.

Lemma takes_finish e rest : takes (finish e) rest rest tt [e].
Proof. apply takes_emit, takes_ret. Qed.

Lemma takes_bounded {A} (loop : nat -> parser H A) src rest a es :
  takes (loop (length src)) src rest a es -> takes (bounded loop) src rest a es.
Proof. done. Qed.

(** ** White space *)
Definition not_space (c : Z) : Prop := c <> 32 /\ c <> 10 /\ c <> 13 /\ c <> 9.

Lemma takes_skip {B} (k : unit -> parser H B) c src rest b es :
  not_space c -> takes (k tt) (c :: src) rest b es ->
  takes (pbind (SkipWhitespaceAndComments kParseNoFlags) k) (c :: src) rest b es.
Proof.
  intros Hc Hk o h h' Hs. unfold not_space in Hc.
  unfold SkipWhitespaceAndComments, SkipWhitespace, bounded, pbind at 1 2.
  cbn [src_ length skip_spaces]. unfold pbind at 1. cbn [peek Peek src_ bind].
  replace ((c =? 32) || (c =? 10) || (c =? 13) || (c =? 9)) with false by lia. by apply Hk.
Qed.

(** ** Strings *)
Lemma escape_step fuel os c rest : 0 <= c < 256 ->
  exists os', os_Put c os = Ret os' /\ forall o (h : H), exists o',
    ParseStringToStream kParseNoFlags (S fuel) os (mkStream (json_escape c ++ rest) o) h =
    ParseStringToStream kParseNoFlags fuel os' (mkStream rest o') h.
Proof.
  intros Hc. eexists. split; [reflexivity|]. intros o h.
  destruct (Z.lt_ge_cases c 32) as [Hlt|Hge].
  - assert (exists n, (n < 32)%nat /\ c = Z.of_nat n) as (n & Hn & ->) by (exists (Z.to_nat c); lia).
    clear -Hn. do 32 (destruct n as [|n]; [eexists; reflexivity|]). lia.
  - unfold json_escape. destruct (Z.eqb_spec c 34) as [->|H34]; [eexists; reflexivity|].
    destruct (Z.eqb_spec c 92) as [->|H92]; [eexists; reflexivity|].
    rewrite !(proj2 (Z.eqb_neq c _)) by lia. rewrite (proj2 (Z.ltb_ge c 32)) by lia.
    exists (u64 (o + 1)). cbn [app ParseStringToStream]. unfold pbind at 1. cbn [peek Peek src_ bind].
    rewrite (proj2 (Z.eqb_neq c 92)), (proj2 (Z.eqb_neq c 34)) by done.
    rewrite (proj2 (Z.ltb_ge (unsigned_char c) 32)); [done|].
    unfold unsigned_char, u32. destruct (Z.ltb_spec c 128); [rewrite Z.mod_small; lia|].
    rewrite <- (Z.mod_add (c - 256) 1 (2 ^ 32)), Z.mod_small by lia. lia.
Qed.

Lemma string_body fuel os s rest :
  os_ok os -> is_bytes s -> sizeZ os.(pushed_) + sizeZ s < 2 ^ 32 - 1 -> (length s < fuel)%nat ->
  exists os', os_ok os' /\ os'.(pushed_) = os.(pushed_) ++ s ++ [0] /\
    takes (ParseStringToStream kParseNoFlags fuel os) (concat (json_escape <$> s) ++ 34 :: rest) rest os' [].
Proof.
  intros Hos Hs. revert os fuel Hos. induction Hs as [|c s Hc Hs IH]; intros os fuel Hos Hsz Hf.
  - destruct fuel as [|fuel]; [cbn in Hf; lia|]. unfold sizeZ in Hsz. cbn [length] in Hsz.
    destruct (put_stack 0 os Hos ltac:(lia) ltac:(unfold sizeZ; lia)) as (os' & Hput & Hos' & Hp).
    exists os'. split; [done|]. split; [done|]. intros o h h' [= <-]. eexists.
    cbn [fmap list_fmap concat app ParseStringToStream]. unfold pbind at 1. cbn [peek Peek src_ bind Z.eqb].
    unfold pbind, put_ch, lift. cbn [take_ch Take src_ offset_ bind]. by rewrite Hput.
  - destruct fuel as [|fuel]; [cbn in Hf; lia|]. unfold sizeZ in Hsz. cbn [length] in Hsz, Hf.
    destruct (escape_step fuel os c (concat (json_escape <$> s) ++ 34 :: rest) Hc) as (os1 & Hput & Hstep).
    destruct (put_stack c os Hos Hc ltac:(unfold sizeZ; lia)) as (os1' & Hput' & Hos1 & Hp1).
    assert (os1' = os1) as -> by congruence.
    destruct (IH os1 fuel Hos1) as (os2 & Hos2 & Hp2 & Htk);
      [rewrite Hp1; unfold sizeZ; rewrite length_app; cbn [length]; lia | lia |].
    exists os2. split; [done|]. split; [rewrite Hp2, Hp1; by rewrite <- !app_assoc|].
    intros o h h' Hsend. rewrite fmap_cons. cbn [concat]. rewrite <- app_assoc.
    destruct (Hstep o h) as [o1 ->]. by apply Htk.
Qed.

Lemma escaped_length s : (length s <= length (concat (json_escape <$> s)))%nat.
Proof.
  induction s as [|c s IH]; [done|]. rewrite fmap_cons. cbn [concat length]. rewrite length_app.
  assert (1 <= length (json_escape c))%nat; [|lia]. unfold json_escape. repeat case_match; simpl; lia.
Qed.

Lemma takes_string isKey s rest :
  is_text s -> takes (ParseString kParseNoFlags isKey) (json_string s ++ rest) rest tt
    [if isKey then EKey s else EString s].
Proof.
  intros [Hb Hlen]. unfold json_string. rewrite <- !app_assoc. cbn [app]. unfold ParseString.
  apply takes_peek. rewrite Z.eqb_refl. cbn [negb]. apply takes_char.
  destruct (string_body (length (concat (json_escape <$> s) ++ 34 :: rest)) new_StackStream s rest)
    as (os & [_ Hl] & Hp & Htk); [by split | done | unfold sizeZ in *; cbn [pushed_ new_StackStream length]; lia | rewrite length_app; pose proof (escaped_length s); cbn [length]; lia |].
  eapply takes_quiet; [apply takes_bounded, Htk|].
  cbn [pushed_ new_StackStream app] in Hp. rewrite Hp in Hl.
  assert (Hsz : sizeZ (s ++ [0]) = sizeZ s + 1) by (unfold sizeZ; rewrite length_app; cbn [length]; lia).
  assert (0 <= sizeZ s) by (unfold sizeZ; lia).
  apply (takes_lift _ _ _ _ _ (s ++ [0])).
  { unfold StackStream_Pop. rewrite Hp, Hl, (proj2 (Z.ltb_ge _ _)) by lia. by rewrite Z.sub_diag. }
  assert (take (Z.to_nat (u32 (length_ os - 1))) (s ++ [0]) = s) as ->.
  { rewrite Hl, Hsz. unfold u32. rewrite Z.mod_small by lia.
    replace (Z.to_nat (sizeZ s + 1 - 1)) with (length s) by (unfold sizeZ; lia). apply take_app_length. }
  destruct isKey; apply takes_emit, takes_ret.
Qed.

(** ** Integers *)

(** The value of digits that follow [i]. *)
Definition digits_after (i : Z) (l : list Z) : Z := fold_left (fun acc c => 10 * acc + (c - 48)) l i.

Lemma digits_after_mono l : is_digits l -> forall i j, 0 <= i <= j -> digits_after i l <= digits_after j l.
Proof.
  induction 1 as [|c l Hc Hl IH]; intros i j Hij; [cbn; lia|]. cbn [digits_after fold_left]. apply IH. lia.
Qed.

Lemma digits_after_ge l : is_digits l -> forall i, 0 <= i -> i <= digits_after i l.
Proof.
  induction 1 as [|c l Hc Hl IH]; intros i Hi; [cbn; lia|]. cbn [digits_after fold_left].
  specialize (IH (10 * i + (c - 48)) ltac:(lia)). unfold digits_after in IH. lia.
Qed.

(** The loop takes the digits as long as the number stays within
    [10 * limit + (last - 48)]. *)
Lemma takes_digits wrap limit last fuel l c rest i sd :
  0 <= limit -> 48 <= last <= 57 -> is_digits l -> isdigit c = false ->
  0 <= i <= 10 * limit + (last - 48) -> (length l < fuel)%nat ->
  (forall z, 0 <= z <= 10 * limit + (last - 48) -> wrap z = z) ->
  exists l1 l2, l = l1 ++ l2 /\
    digits_after i l1 <= 10 * limit + (last - 48) /\
    match l2 with [] => True | d :: _ => 10 * limit + (last - 48) < 10 * digits_after i l1 + (d - 48) end /\
    takes (integer_digits wrap limit last fuel i sd) (l ++ c :: rest) (l2 ++ c :: rest)
      (digits_after i l1, match l2 with [] => false | _ => true end, sd + sizeZ l1) [].
Proof.
  intros Hlim Hlast Hl Hc Hi Hf Hwrap. revert i sd fuel Hi Hf.
  induction Hl as [|d l Hd Hl IH]; intros i sd fuel Hi Hf; (destruct fuel as [|fuel]; [cbn in Hf; lia|]).
  - exists [], []. split; [done|]. split; [cbn; lia|]. split; [done|]. cbn [integer_digits app].
    apply takes_peek. rewrite Hc. unfold sizeZ. cbn [length digits_after fold_left]. rewrite Z.add_0_r. apply takes_ret.
  - cbn [length] in Hf. destruct ((limit <=? i) && (negb (i =? limit) || (last <? d))) eqn:E.
    + exists [], (d :: l). split; [done|]. split; [cbn; lia|]. split; [cbn [digits_after fold_left]; lia|].
      cbn [integer_digits app]. apply takes_peek. rewrite (proj2 (isdigit_true d)) by done. rewrite E.
      unfold sizeZ. cbn [length digits_after fold_left]. rewrite Z.add_0_r. apply takes_ret.
    + destruct (IH (10 * i + (d - 48)) (sd + 1) fuel ltac:(lia) ltac:(lia)) as (l1 & l2 & -> & Hv & Hnext & Htk).
      exists (d :: l1), l2. split; [done|]. split; [exact Hv|]. split; [exact Hnext|].
      cbn [integer_digits app]. apply takes_peek. rewrite (proj2 (isdigit_true d)) by done. rewrite E.
      apply takes_char. replace (i * 10 + (d - 48)) with (10 * i + (d - 48)) by lia. rewrite Hwrap by lia.
      replace (sd + sizeZ (d :: l1)) with (sd + 1 + sizeZ l1) by (unfold sizeZ; cbn [length]; lia). exact Htk.
Qed.

Lemma digits_after_app i l l' : digits_after i (l ++ l') = digits_after (digits_after i l) l'.
Proof. apply fold_left_app. Qed.

Definition max32 (minus : bool) : Z := if minus then 2 ^ 31 else 2 ^ 32 - 1.
Definition max64 (minus : bool) : Z := if minus then 2 ^ 63 else 2 ^ 64 - 1.

Lemma takes_integer minus ds c rest :
  canonical ds -> isdigit c = false -> dec_value ds <= max64 minus ->
  exists sd, takes (parse_integer kParseNoFlags minus) (ds ++ c :: rest) (c :: rest)
    (if dec_value ds <=? max32 minus then Sig32 (dec_value ds) else Sig64 (dec_value ds), sd) [].
Proof.
  intros [Hds Hfirst] Hc Hmax. destruct ds as [|d l]; [done|]. apply Forall_cons in Hds as [Hd Hl].
  change (dec_value (d :: l)) with (digits_after (10 * 0 + (d - 48)) l) in *.
  replace (10 * 0 + (d - 48)) with (d - 48) in * by lia.
  destruct (Z.eqb_spec d 48) as [->|Hd48].
  { destruct l; [|done]. exists 0. cbn [app]. apply takes_peek. apply takes_char.
    change (digits_after (48 - 48) []) with 0. replace (0 <=? max32 minus) with true by (by destruct minus). apply takes_ret. }
  assert (H32 : exists limit last, 0 <= limit /\ 48 <= last <= 57 /\ 10 * limit + (last - 48) = max32 minus /\
    forall fuel i sd, (if minus then integer_digits u32 214748364 56 fuel i sd
      else integer_digits u32 429496729 53 fuel i sd) = integer_digits (H := H) u32 limit last fuel i sd)
    by (destruct minus; [exists 214748364, 56 | exists 429496729, 53]; split_and!; try reflexivity; lia).
  assert (H64 : exists limit last, 0 <= limit /\ 48 <= last <= 57 /\ 10 * limit + (last - 48) = max64 minus /\
    forall fuel i sd, (if minus then integer_digits u64 0x0CCCCCCCCCCCCCCC 56 fuel i sd
      else integer_digits u64 0x1999999999999999 53 fuel i sd) = integer_digits (H := H) u64 limit last fuel i sd)
    by (destruct minus; [exists 0x0CCCCCCCCCCCCCCC, 56 | exists 0x1999999999999999, 53]; split_and!; try reflexivity; lia).
  destruct H32 as (lim32 & last32 & Hl32 & Hla32 & Hm32 & He32). destruct H64 as (lim64 & last64 & Hl64 & Hla64 & Hm64 & He64).
  assert (Hw : max32 minus < 2 ^ 32 /\ max64 minus < 2 ^ 64 /\ 9 < max32 minus < max64 minus) by (destruct minus; cbn; lia).
  destruct (takes_digits u32 lim32 last32 (length (l ++ c :: rest)) l c rest (d - 48) 0) as (l1 & l2 & -> & Hv1 & Hn1 & Ht1);
    try done; [lia | rewrite length_app; cbn [length]; lia | intros z Hz; unfold u32; rewrite Z.mod_small; lia |].
  apply is_digits_app in Hl as [Hd1 Hd2]. rewrite Hm32 in *. rewrite digits_after_app in *.
  set (v1 := digits_after (d - 48) l1) in *.
  assert (0 <= v1) by (pose proof (digits_after_ge l1 Hd1 (d - 48)); lia).
  assert (Hpre : forall sig sd (k : Z * bool * Z -> parser H (significand * Z)),
    takes (k (v1, match l2 with [] => false | _ => true end, 0 + sizeZ l1)) (l2 ++ c :: rest) (c :: rest) (sig, sd) [] ->
    takes (let! r := bounded (fun fuel => if minus then integer_digits u32 214748364 56 fuel (d - 48) 0
      else integer_digits u32 429496729 53 fuel (d - 48) 0) in k r) ((l1 ++ l2) ++ c :: rest) (c :: rest) (sig, sd) []).
  { intros sig sd k Hk. eapply takes_quiet; [apply takes_bounded; rewrite He32; exact Ht1 | exact Hk]. }
  destruct l2 as [|d2 l2].
  - exists (0 + sizeZ l1). cbn [app]. apply takes_peek. rewrite (proj2 (Z.eqb_neq d 48)) by done.
    replace ((49 <=? d) && (d <=? 57)) with true by lia. apply takes_char. apply Hpre. cbn [digits_after fold_left].
    rewrite (proj2 (Z.leb_le v1 (max32 minus))) by lia. apply takes_ret.
  - assert (Hbig : max32 minus < digits_after v1 (d2 :: l2)).
    { apply Forall_cons in Hd2 as [Hd2 Hl2]. cbn [digits_after fold_left].
      pose proof (digits_after_ge l2 Hl2 (10 * v1 + (d2 - 48))) as Hge. unfold digits_after in Hge. lia. }
    destruct (takes_digits u64 lim64 last64 (length ((d2 :: l2) ++ c :: rest)) (d2 :: l2) c rest v1 (0 + sizeZ l1))
      as (m1 & m2 & Hm & Hv2 & Hn2 & Ht2);
      try done; [lia | rewrite length_app; cbn [length]; lia | intros z Hz; unfold u64; rewrite Z.mod_small; lia |].
    rewrite Hm64 in *.
    assert (m2 = []) as ->.
    { destruct m2 as [|d3 m2]; [done|]. exfalso. rewrite Hm in Hd2. apply is_digits_app in Hd2 as [Hdm1 Hdm2].
      apply Forall_cons in Hdm2 as [Hd3 Hdm2]. rewrite Hm, digits_after_app in Hmax. cbn [digits_after fold_left] in Hmax.
      pose proof (digits_after_ge m1 Hdm1 v1 ltac:(lia)).
      pose proof (digits_after_ge m2 Hdm2 (10 * digits_after v1 m1 + (d3 - 48)) ltac:(lia)) as Hge.
      unfold digits_after in *. lia. }
    rewrite app_nil_r in Hm. subst m1. eexists. cbn [app]. apply takes_peek. rewrite (proj2 (Z.eqb_neq d 48)) by done.
    replace ((49 <=? d) && (d <=? 57)) with true by lia. apply takes_char. apply Hpre.
    eapply takes_quiet; [apply takes_bounded; rewrite He64; exact Ht2|].
    rewrite (proj2 (Z.leb_gt _ (max32 minus))) by lia. apply takes_ret.
Qed.

(** A character that ends a number. *)
Definition ends_number (c : Z) : Prop := isdigit c = false /\ c <> 46 /\ c <> 101 /\ c <> 69.

Lemma takes_no_exponent sig expFrac off c rest :
  ends_number c -> takes (parse_exponent sig expFrac off) (c :: rest) (c :: rest) (sig, 0) [].
Proof.
  intros (_ & _ & He & HE). unfold parse_exponent. destruct (is_nan_or_inf sig); [apply takes_ret|].
  apply takes_consume_not; [done|]. apply takes_consume_not; [done|]. apply takes_ret.
Qed.

(** The sign, then the first digit of the integer part. *)
Lemma takes_minus {B} (k : bool -> parser H B) (minus : bool) ds src rest b es :
  is_digits ds -> ds <> [] -> takes (k minus) (ds ++ src) rest b es ->
  takes (pbind (Consume 45) k) ((if minus then [45] else []) ++ ds ++ src) rest b es.
Proof.
  intros Hds Hne Hk. destruct minus; [by apply takes_consume|]. destruct ds as [|d ds]; [done|].
  apply Forall_cons in Hds as [Hd _]. apply takes_consume_not; [lia | exact Hk].
Qed.

Definition integer_event (minus : bool) (n : Z) : event :=
  if n <=? max32 minus then (if minus then EInt (- n) else EUint n)
  else (if minus then EInt64 (- n) else EUint64 n).

Lemma negated32 n : 0 <= n <= 2 ^ 31 -> i32 (u32 (u32 (Z.lnot n) + 1)) = - n.
Proof.
  intros Hn. assert (u32 (u32 (Z.lnot n) + 1) = u32 (- n)) as ->.
  { unfold u32, Z.lnot, Z.pred. rewrite Zplus_mod_idemp_l. f_equal. lia. }
  unfold i32, u32. rewrite Zplus_mod_idemp_l, Z.mod_small; lia.
Qed.

Lemma negated64 n : 0 <= n <= 2 ^ 63 -> Prelude.i64 (u64 (u64 (Z.lnot n) + 1)) = - n.
Proof.
  intros Hn. assert (u64 (u64 (Z.lnot n) + 1) = u64 (- n)) as ->.
  { unfold u64, Z.lnot, Z.pred. rewrite Zplus_mod_idemp_l. f_equal. lia. }
  unfold Prelude.i64, u64. rewrite Zplus_mod_idemp_l, Z.mod_small; lia.
Qed.

Lemma uint_integer u : 0 <= u < 2 ^ 32 -> Value_uint u = Value_integer u.
Proof.
  intros Hu. destruct (Z.lt_ge_cases u (2 ^ 31)); [|apply Value_uint_integer; lia].
  unfold Value_uint, Value_integer, Value_uint64. replace (0 <=? u) with true by lia.
  rewrite mask63, mask32, mask31 by lia.
  change 0x80000000 with (Z.shiftl (Z.ones 1) 31). rewrite land_field by lia.
  replace (u / 2 ^ 31) with 0 by (symmetry; apply Z.div_small; lia).
  replace (u <? 2 ^ 63) with true by lia. replace (u <? 2 ^ 32) with true by lia.
  by replace (u <? 2 ^ 31) with true by lia.
Qed.

Lemma integer_event_value (minus : bool) n : 0 <= n <= max64 minus ->
  pushed (integer_event minus n) = Some (Value_integer (if minus then - n else n)).
Proof.
  intros Hn. unfold integer_event, max32, max64 in *. destruct minus.
  - destruct (Z.leb_spec n (2 ^ 31)); cbn [pushed]; f_equal; [|apply Value_int64_integer; lia].
    destruct (Z.eq_dec n (2 ^ 31)) as [->|]; [done|]. apply Value_int_integer. lia.
  - destruct (Z.leb_spec n (2 ^ 32 - 1)); cbn [pushed]; f_equal; [apply uint_integer; lia|].
    unfold Value_integer. by replace (0 <=? n) with true by lia.
Qed.

Lemma takes_number_integer (minus : bool) n c rest :
  0 <= n <= max64 minus -> ends_number c ->
  takes (ParseNumber kParseNoFlags) ((if minus then [45] else []) ++ dec n ++ c :: rest) (c :: rest) tt
    [integer_event minus n].
Proof.
  intros Hn Hc. pose proof (dec_canonical n ltac:(lia)) as Hcan. unfold ParseNumber. apply takes_tell. intros off.
  apply takes_minus; [apply Hcan | by destruct (dec n); [destruct Hcan|] |].
  destruct (takes_integer minus (dec n) c rest Hcan (proj1 Hc)) as [sd Htk]; [rewrite dec_value_dec; lia|].
  rewrite dec_value_dec in Htk by lia.
  eapply takes_quiet; [exact Htk|]. cbv beta iota.
  apply (takes_quiet _ _ _ _ _ _ (c :: rest) (if n <=? max32 minus then Sig32 n else Sig64 n, 0)).
  { unfold parse_fraction. destruct (n <=? max32 minus); (apply takes_consume_not; [apply Hc|]; apply takes_ret). }
  cbv beta iota. eapply takes_quiet; [apply takes_no_exponent, Hc|]. cbv beta iota.
  apply (takes_quiet _ _ _ _ _ _ (c :: rest) (integer_event minus n)).
  - unfold number_result, integer_event, max32, max64 in *. destruct minus, (Z.leb_spec n (2 ^ 31)), (Z.leb_spec n (2 ^ 32 - 1));
      rewrite ?negated32, ?negated64 by lia; first [apply takes_ret | lia].
  - apply takes_emit, takes_ret.
Qed.

(** ** Doubles *)
Lemma takes_fraction fuel fp c rest i e sd :
  is_digits fp -> isdigit c = false -> 0 <= i -> digits_after i fp < 2 ^ 53 -> (length fp < fuel)%nat ->
  sizeZ fp - 2 ^ 31 <= e <= 0 ->
  exists sd', takes (fraction_digits fuel i e sd) (fp ++ c :: rest) (c :: rest)
    (digits_after i fp, e - sizeZ fp, sd') [].
Proof.
  intros Hfp Hc. revert i e sd fuel. induction Hfp as [|d fp Hd Hfp IH]; intros i e sd fuel Hi Hv Hf He;
    (destruct fuel as [|fuel]; [cbn in Hf; lia|]); cbn [fraction_digits app].
  - exists sd. apply takes_peek. rewrite Hc. unfold sizeZ. cbn [length digits_after fold_left]. rewrite Z.sub_0_r.
    apply takes_ret.
  - cbn [digits_after fold_left length] in Hv, Hf. fold (digits_after (10 * i + (d - 48)) fp) in Hv.
    pose proof (digits_after_ge fp Hfp (10 * i + (d - 48)) ltac:(lia)).
    destruct (IH (10 * i + (d - 48)) (e - 1)
      (if negb (10 * i + (d - 48) =? 0) then sd + 1 else sd) fuel ltac:(lia) Hv ltac:(lia)
      ltac:(unfold sizeZ in *; cbn [length] in He; lia)) as [sd' Htk].
    exists sd'. apply takes_peek. rewrite (proj2 (isdigit_true d)) by done.
    replace (i >? 0x1FFFFFFFFFFFFF) with false by lia. apply takes_char.
    replace (i * 10 + (d - 48)) with (10 * i + (d - 48)) by lia. rewrite u64_small by lia.
    replace (e - sizeZ (d :: fp)) with (e - 1 - sizeZ fp) by (unfold sizeZ; cbn [length]; lia).
    cbv zeta. eapply takes_lift; [apply int_result_fits; unfold sizeZ in He; cbn [length] in He; lia|]. exact Htk.
Qed.

Lemma takes_no_rest fuel d e sd c rest :
  isdigit c = false -> takes (fraction_rest (S fuel) d e sd) (c :: rest) (c :: rest) (d, e) [].
Proof. intros Hc. cbn [fraction_rest]. apply takes_peek. rewrite Hc. apply takes_ret. Qed.

Lemma round_quotient_sign num den : round_quotient true num den = SFopp (round_quotient false num den).
Proof.
  unfold round_quotient. destruct (SFdiv_core_binary _ _ _ _ _ _) as [[q e] l]. unfold binary_round_aux.
  destruct (shr_fexp _ _ q e l) as [mrs e1]. destruct (shr_fexp _ _ _ e1 loc_Exact) as [mrs' e2].
  destruct (shr_m mrs'); [done | by destruct (_ <=? _) | done].
Qed.

Lemma scale_round_sign (neg : bool) m e :
  (scale_round neg 10 m e).1 = if neg then SFopp (scale_round false 10 m e).1 else (scale_round false 10 m e).1.
Proof.
  destruct neg; [|done]. unfold scale_round, round_erange. repeat case_match; try done; apply round_quotient_sign.
Qed.

Lemma finite_below_max d : is_double d -> is_finite d = true -> dltb double_max d = false.
Proof.
  intros Hd Hf. destruct d as [s| | |s m e]; try done. apply is_double_finite in Hd.
  unfold dltb, SFltb, double_max, SFcompare. destruct s; [done|].
  destruct (Z.compare_spec 971 e); [|lia|done].
  change (Pos.compare_cont Eq 9007199254740991 m) with (Pos.compare 9007199254740991 m).
  destruct (Pos.compare_spec 9007199254740991 m); [done | lia | done].
Qed.

(** The text is digits, a point and at most 22 digits, together below 2^53. *)
Definition short_text (t : list Z) : Prop :=
  exists (neg : bool) ip fp, t = (if neg then [45] else []) ++ ip ++ [46] ++ fp /\
    canonical ip /\ is_digits fp /\ 1 <= sizeZ fp <= 22 /\ dec_value (ip ++ fp) < 2 ^ 53.

(** A double printed with few digits. *)
Definition short_double (d : double) : Prop := short_text (json_double d).

(** The fraction of a number whose digits fit the 64-bit significand. *)
Lemma takes_fraction_part sig i sd fp c rest :
  sig = Sig32 i \/ sig = Sig64 i -> is_digits fp -> isdigit c = false -> 0 <= i -> digits_after i fp < 2 ^ 53 ->
  0 < sizeZ fp <= 2 ^ 31 ->
  takes (parse_fraction sig sd) (46 :: fp ++ c :: rest) (c :: rest) (SigDouble (double_of_Z (digits_after i fp)), - sizeZ fp) [].
Proof.
  intros Hsig Hfp Hc Hi Hv Hk.
  destruct (takes_fraction (length (fp ++ c :: rest)) fp c rest i 0 sd) as [sd' Hfr];
    [done | done | done | done | rewrite length_app; cbn [length]; lia | lia |].
  rewrite Z.sub_0_l in Hfr. unfold parse_fraction.
  assert (is_nan_or_inf sig = false) as -> by (by destruct Hsig as [->| ->]). apply takes_consume.
  destruct fp as [|x fp]; [unfold sizeZ in Hk; cbn in Hk; lia|].
  assert (Hx : isdigit x = true) by (apply Forall_cons in Hfp as [? _]; by apply isdigit_true).
  cbn [app] in *. apply takes_peek. rewrite Hx. cbn [negb].
  apply (takes_quiet _ _ _ _ _ _ (c :: rest) (double_of_Z (digits_after i (x :: fp)), - sizeZ (x :: fp), sd')).
  - destruct Hsig as [-> | ->]; (eapply takes_quiet; [apply takes_bounded, Hfr|]; apply takes_ret).
  - cbv beta iota. eapply takes_quiet; [apply takes_bounded, takes_no_rest, Hc|]. apply takes_ret.
Qed.

Lemma takes_number_double d c rest :
  is_double d -> is_finite d = true -> short_double d -> ends_number c ->
  takes (ParseNumber kParseNoFlags) (json_double d ++ c :: rest) (c :: rest) tt [EDouble d].
Proof.
  intros Hd Hf (neg & ip & fp & Ht & Hip & Hfp & Hk & HV) Hc.
  destruct (dtoa_reads d Hd Hf) as (text & er & Htext & _ & Hread & _).
  assert (json_double d = text) as Hj by (unfold json_double; by rewrite Htext). rewrite Hj in *. clear Hj Htext.
  assert (Hval : d = (scale_round neg 10 (dec_value (ip ++ fp)) (- sizeZ fp)).1).
  { destruct (reads_point ip fp []) as [Hplain Hdec]; [apply Hip | done | done | |].
    - destruct Hip as [_ Hip]. destruct ip as [|x [|y ip]]; [done | by right | by left].
    - rewrite app_nil_r in *. rewrite Ht, strtod_signed, Hdec in Hread by done. cbn [read_exponent] in Hread.
      rewrite Z.sub_0_l in Hread. injection Hread as Hread. by rewrite Hread. }
  rewrite scale_round_sign in Hval. set (V := dec_value (ip ++ fp)) in *.
  assert (HV0 : 0 <= V) by (apply dec_value_bound, is_digits_app; by split; [apply Hip|]).
  assert (Hsplit : V = digits_after (dec_value ip) fp).
  { unfold V, dec_value, digits_after. apply fold_left_app. }
  assert (Hip0 : 0 <= dec_value ip) by (apply dec_value_bound, Hip).
  assert (dec_value ip <= V) by (rewrite Hsplit; by apply digits_after_ge).
  rewrite Ht, <- !app_assoc. unfold ParseNumber. apply takes_tell. intros off.
  apply takes_minus; [apply Hip | by destruct ip; [destruct Hip|] |].
  destruct (takes_integer neg ip 46 (fp ++ c :: rest) Hip) as [sd Htk]; [done | destruct neg; cbn; lia |].
  eapply takes_quiet; [exact Htk|]. cbv beta iota.
  apply (takes_quiet _ _ _ _ _ _ (c :: rest) (SigDouble (double_of_Z V), - sizeZ fp)).
  { rewrite Hsplit. apply takes_fraction_part; [|done | apply Hc | done | by rewrite <- Hsplit | lia].
    destruct (_ <=? _); [by left | by right]. }
  cbv beta iota. eapply takes_quiet; [apply takes_no_exponent, Hc|]. cbv beta iota.
  apply (takes_quiet _ _ _ _ _ _ (c :: rest) (EDouble d)); [|apply takes_emit, takes_ret].
  unfold number_result. rewrite Z.add_0_l. eapply takes_lift; [apply int_result_fits; lia|].
  apply (takes_lift _ _ _ _ _ _ _ (fast_path_correct V (sizeZ fp) ltac:(lia) ltac:(lia))).
  set (x := (scale_round false 10 V (- sizeZ fp)).1) in *.
  assert (Hxd : is_double x /\ is_finite x = true) by (destruct neg; subst d; [destruct x|]; done).
  rewrite finite_below_max by apply Hxd. rewrite Hval. destruct neg; apply takes_ret.
Qed.
End Takes.

(** ** Values *)

(** Every double is finite and printed with few digits. *)
#[local] Set Warnings "-register-all".
Inductive parsable : Value -> Prop :=
  | pa_null : parsable VNull
  | pa_bool b : parsable (VBool b)
  | pa_object c ms : Forall (fun m => parsable m.2) ms -> parsable (VObject c ms)
  | pa_array c es : Forall parsable es -> parsable (VArray c es)
  | pa_string s : parsable (VString s)
  | pa_number f n : (forall d, number_event (VNumber f n) n = EDouble d -> is_finite d = true /\ short_double d) ->
      parsable (VNumber f n).

(** What follows a value in a text without white space. *)
Definition delimiter (c : Z) : Prop := c = 44 \/ c = 93 \/ c = 125 \/ c = 0.

Lemma delimiter_ends c : delimiter c -> ends_number c /\ not_space c.
Proof. unfold delimiter, ends_number, not_space. intros [->|[->|[->| ->]]]; repeat split; done || lia. Qed.

(** The first character of a value's text. *)
Definition value_start (c : Z) : Prop :=
  c = 110 \/ c = 116 \/ c = 102 \/ c = 34 \/ c = 123 \/ c = 91 \/ c = 45 \/ 48 <= c <= 57.

Definition starts_value (t : list Z) : Prop := match t with [] => False | c :: _ => value_start c end.

Lemma digits_start (minus : bool) ds t : is_digits ds -> ds <> [] -> starts_value ((if minus then [45] else []) ++ ds ++ t).
Proof.
  intros Hds Hne. unfold starts_value, value_start. destruct minus; [cbn; lia|]. destruct ds as [|d ds]; [done|].
  apply Forall_cons in Hds as [Hd _]. cbn. lia.
Qed.

Lemma number_text f n :
  wf_number (VNumber f n) -> parsable (VNumber f n) ->
  (exists minus k, 0 <= k <= max64 minus /\ json_text (VNumber f n) = (if minus then [45] else []) ++ dec k /\
     VNumber f n = Value_integer (if minus : bool then - k else k)) \/
  (exists d, is_double d /\ is_finite d = true /\ short_double d /\ json_text (VNumber f n) = json_double d /\
     VNumber f n = Value_double d).
Proof.
  intros Hwf Hp. inversion Hp as [| | | | |? ? Hd]; subst. destruct Hwf as [(z & Hz & He) | (d & Hdd & He)].
  - left. pose proof (number_event_integer z Hz) as Hev. rewrite <- He in Hev.
    exists (z <? 0), (Z.abs z). split; [unfold max64; destruct (Z.ltb_spec z 0); lia|]. split.
    + cbn [json_text]. assert (json_number (VNumber f n) n = json_integer z) as ->.
      { unfold json_number. rewrite Hev. by repeat case_bool_decide. }
      unfold json_integer. destruct (Z.ltb_spec z 0); [by rewrite Z.abs_neq by lia | by rewrite Z.abs_eq by lia].
    + rewrite He. f_equal. destruct (Z.ltb_spec z 0); lia.
  - right. exists d.
    assert (Hev : number_event (VNumber f n) n = EDouble d).
    { injection He as -> ->. unfold number_event.
      change (IsDouble (VNumber kNumberDoubleFlag (bits_of_double d))) with true. cbv iota. by rewrite double_bits_roundtrip. }
    destruct (Hd d Hev) as [Hf Hs]. split_and!; try done. cbn [json_text]. unfold json_number. by rewrite Hev.
Qed.

Lemma text_starts v : wf_value v -> parsable v -> starts_value (json_text v).
Proof.
  intros Hwf Hp. destruct v as [|[]|c ms|c es|s|f n]; try (cbn; unfold value_start; lia).
  inversion Hwf; subst. destruct (number_text f n) as [(minus & k & Hk & -> & _) | (d & _ & _ & Hs & -> & _)]; [done | done | |].
  - rewrite <- (app_nil_r (dec k)). pose proof (dec_canonical k ltac:(lia)) as [Hd Hne].
    apply digits_start; [done | by destruct (dec k)].
  - destruct Hs as (neg & ip & fp & -> & [Hd Hne] & _). apply digits_start; [done | by destruct ip].
Qed.

Section Values.
Context {H : Type} `{Handler H}.

(** The parser turns the text [t] into [es], whatever delimiter follows. *)
Definition parses (t : list Z) (es : list event) : Prop := forall n c rest,
  delimiter c -> (length (t ++ c :: rest) <= n)%nat ->
  takes (H := H) (parse_value kParseNoFlags n) (t ++ c :: rest) (c :: rest) tt es.

Lemma start_not_space c : value_start c -> not_space c.
Proof. unfold value_start, not_space. lia. Qed.

Lemma join_cons sep t t2 ts : join sep (t :: t2 :: ts) = t ++ sep ++ join sep (t2 :: ts).
Proof. done. Qed.

Lemma takes_elements n ts ess : Forall2 parses ts ess -> Forall starts_value ts ->
  forall fuel count rest, ts <> [] -> (length (join [44%Z] ts ++ 93%Z :: rest) <= n)%nat ->
  (length ts <= fuel)%nat -> 0 <= count -> count + sizeZ ts < 2 ^ 32 ->
  takes (H := H) (parse_elements kParseNoFlags (parse_value kParseNoFlags n) fuel count)
    (join [44] ts ++ 93 :: rest) rest tt (concat ess ++ [EEndArray (count + sizeZ ts)]).
Proof.
  induction 1 as [|t es ts ess Ht Hts IH]; intros Hst fuel count rest Hne Hn Hf Hc0 Hc; [done|].
  apply Forall_cons in Hst as [Hst1 Hst]. rewrite sizeZ_cons in *. pose proof (Nat2Z.is_nonneg (length ts)).
  assert (Hcount : u32 (count + 1) = count + 1) by (unfold u32, sizeZ in *; rewrite Z.mod_small; lia).
  destruct fuel as [|fuel]; [cbn in Hf; lia|]. cbn [length] in Hf. cbn [parse_elements concat].
  destruct ts as [|t2 ts].
  - apply Forall2_nil_inv_l in Hts as ->. cbn [join concat] in *. rewrite app_nil_r.
    eapply takes_bind; [apply Ht; [by right; left | done]|].
    cbv zeta. rewrite Hcount. apply takes_skip; [done|]. apply takes_consume_not; [done|]. apply takes_consume.
    rewrite sizeZ_nil, Z.add_0_l. apply takes_finish.
  - rewrite join_cons in *. rewrite <- !app_assoc in *. cbn [app] in *. rewrite length_app in Hn. cbn [length] in Hn.
    eapply takes_bind; [apply Ht; [by left | rewrite length_app; cbn [length]; lia]|].
    cbv zeta. rewrite Hcount. apply takes_skip; [done|]. apply takes_consume.
    assert (Hjoin : starts_value (join [44] (t2 :: ts) ++ 93 :: rest)).
    { apply Forall_cons in Hst as [Hst2 _]. destruct t2; [done|]. by destruct ts. }
    destruct (join [44] (t2 :: ts) ++ 93 :: rest) as [|c2 src] eqn:Esrc; [done|]. cbn in Hjoin.
    apply takes_skip; [by apply start_not_space|]. change (flag_set kParseNoFlags kParseTrailingCommasFlag) with false.
    cbv iota. rewrite <- Esrc. replace (count + (sizeZ (t2 :: ts) + 1)) with (count + 1 + sizeZ (t2 :: ts)) by lia.
    apply IH; [done | done | rewrite Esrc in *; lia | lia | lia | lia].
Qed.

Definition member_text (m : list Z * list Z) : list Z := json_string m.1 ++ [58] ++ m.2.

Lemma member_tail k t src : (length (t ++ src) <= length (member_text (k, t) ++ src))%nat.
Proof. unfold member_text. cbn [fst snd]. rewrite !length_app. lia. Qed.

Lemma takes_members n ms ess : Forall2 (fun m es => parses m.2 es) ms ess ->
  Forall (fun m => is_text m.1 /\ starts_value m.2) ms ->
  forall fuel count rest, ms <> [] -> (length (join [44%Z] (member_text <$> ms) ++ 125%Z :: rest) <= n)%nat ->
  (length ms <= fuel)%nat -> 0 <= count -> count + sizeZ ms < 2 ^ 32 ->
  takes (H := H) (parse_members kParseNoFlags (parse_value kParseNoFlags n) fuel count)
    (join [44] (member_text <$> ms) ++ 125 :: rest) rest tt
    (concat (zip_with (fun m es => EKey m.1 :: es) ms ess) ++ [EEndObject (count + sizeZ ms)]).
Proof.
  induction 1 as [|[k t] es ms ess Ht Hts IH]; intros Hst fuel count rest Hne Hn Hf Hc0 Hc; [done|].
  apply Forall_cons in Hst as [[Hk Hst1] Hst]. cbn [fst snd] in *. rewrite sizeZ_cons in *.
  pose proof (Nat2Z.is_nonneg (length ms)).
  assert (Hcount : u32 (count + 1) = count + 1) by (unfold u32, sizeZ in *; rewrite Z.mod_small; lia).
  destruct fuel as [|fuel]; [cbn in Hf; lia|]. cbn [length] in Hf. cbn [parse_members concat zip_with].
  assert (Hname : forall tail es', (forall src, takes (H := H) (let! _ := SkipWhitespaceAndComments kParseNoFlags in
      let! colon := Consume 58 in
      if negb colon then fail_here kParseErrorObjectMissColon
      else let! _ := SkipWhitespaceAndComments kParseNoFlags in tail) ([58] ++ t ++ src) rest tt es' ->
      takes (H := H) (let! c := peek in
        if negb (c =? 34) then fail_here kParseErrorObjectMissName
        else let! _ := ParseString kParseNoFlags true in
        let! _ := SkipWhitespaceAndComments kParseNoFlags in
        let! colon := Consume 58 in
        if negb colon then fail_here kParseErrorObjectMissColon
        else let! _ := SkipWhitespaceAndComments kParseNoFlags in tail)
      (member_text (k, t) ++ src) rest tt (EKey k :: es'))).
  { intros tail es' src Htail. unfold member_text. cbn [fst snd]. rewrite <- !app_assoc.
    change (json_string k ++ [58] ++ t ++ src) with (34 :: (concat (json_escape <$> k) ++ [34]) ++ [58] ++ t ++ src).
    apply takes_peek. cbn [Z.eqb negb Pos.eqb]. 
    change (34 :: (concat (json_escape <$> k) ++ [34]) ++ [58] ++ t ++ src) with (json_string k ++ [58] ++ t ++ src).
    apply (takes_bind _ _ _ _ _ _ _ _ [EKey k] (takes_string true k ([58] ++ t ++ src) Hk)). exact Htail. }
  assert (Hvalue : forall (f : unit -> parser H unit) src es', takes (f tt) (t ++ src) rest tt es' ->
    takes (H := H) (let! _ := SkipWhitespaceAndComments kParseNoFlags in
      let! colon := Consume 58 in
      if negb colon then fail_here kParseErrorObjectMissColon
      else let! x := SkipWhitespaceAndComments kParseNoFlags in f x) ([58] ++ t ++ src) rest tt es').
  { intros f src es' Hf'. cbn [app]. apply takes_skip; [done|]. apply takes_consume. cbn [negb].
    destruct t as [|c0 t]; [done|]. cbn [app] in *. apply takes_skip; [by apply start_not_space | exact Hf']. }
  destruct ms as [|[k2 t2] ms].
  - apply Forall2_nil_inv_l in Hts as ->. cbn [zip_with concat fmap list_fmap join fst] in *. rewrite app_nil_r. cbn [app].
    apply Hname, (Hvalue (fun _ => _)). eapply takes_bind.
    { apply Ht; [by right; right; left|]. by etrans; [apply member_tail|]. }
    cbv zeta. rewrite Hcount. apply takes_skip; [done|]. apply takes_peek. cbn [Z.eqb Pos.eqb]. apply takes_char.
    rewrite sizeZ_nil, Z.add_0_l. apply takes_finish.
  - rewrite !fmap_cons, join_cons, <- fmap_cons in *. cbn [fst snd] in *. rewrite <- !app_assoc in *. cbn [app] in *.
    apply Hname, (Hvalue (fun _ => _)). eapply takes_bind.
    { apply Ht; [by left|]. by etrans; [apply member_tail|]. }
    cbv zeta. rewrite Hcount. apply takes_skip; [done|]. apply takes_peek. cbn [Z.eqb Pos.eqb]. apply takes_char.
    destruct (join [44] (member_text <$> (k2, t2) :: ms) ++ 125 :: rest) as [|c2 src] eqn:Esrc.
    { by destruct ms. }
    assert (c2 = 34) as -> by (destruct ms; cbn in Esrc; by injection Esrc as <-).
    apply takes_skip; [done|]. change (flag_set kParseNoFlags kParseTrailingCommasFlag) with false. cbv iota.
    rewrite <- Esrc.
    replace (count + (sizeZ ((k2, t2) :: ms) + 1)) with (count + 1 + sizeZ ((k2, t2) :: ms)) by lia.
    apply IH; [done | done | rewrite Esrc in *; rewrite length_app in Hn; cbn [length] in *; lia | cbn [length] in *; lia | lia | lia].
Qed.
End Values.

(** ** From a value to its events *)
Lemma choose_all {A B} (P : A -> B -> Prop) l : Forall (fun x => exists y, P x y) l -> exists l', Forall2 P l l'.
Proof.
  induction 1 as [|x l [y Hy] _ [l' IH]]; [exists []; by apply Forall2_nil | exists (y :: l'); by apply Forall2_cons].
Qed.

Lemma elements_events es ess pre ws :
  Forall2 (fun v l => value_events l (CopyFrom v)) es ess -> element_events pre ws ->
  element_events (pre ++ concat ess) (ws ++ (CopyFrom <$> es)).
Proof.
  intros Hes. revert pre ws. induction Hes as [|v l es ess Hv _ IH]; intros pre ws Hpre; [by rewrite !app_nil_r|].
  rewrite fmap_cons. cbn [concat]. rewrite app_assoc, (cons_middle (CopyFrom v)), app_assoc. by apply IH, ee_snoc.
Qed.

Definition copy_member (m : list Z * Value) : list Z * Value := let '(n, w) := m in (n, CopyFrom w).
Definition text_member (m : list Z * Value) : list Z * list Z := (m.1, json_text m.2).

Lemma members_events (ms : list (list Z * Value)) ess pre ws :
  Forall2 (fun m l => value_events l (CopyFrom m.2)) ms ess -> member_events pre ws ->
  member_events (pre ++ concat (zip_with (fun m l => EKey m.1 :: l) (text_member <$> ms) ess)) (ws ++ (copy_member <$> ms)).
Proof.
  intros Hms. revert pre ws. induction Hms as [|[n v] l ms ess Hv _ IH]; intros pre ws Hpre; [by rewrite !app_nil_r|].
  rewrite !fmap_cons. cbn [zip_with concat copy_member text_member fst snd] in *.
  rewrite app_assoc, (cons_middle (n, CopyFrom v)), app_assoc. by apply IH, me_snoc.
Qed.

Lemma join_length ts : Forall starts_value ts -> (length ts <= length (join [44%Z] ts))%nat.
Proof.
  induction 1 as [|t ts Ht Hts IH]; [done|]. assert (1 <= length t)%nat by (destruct t; [done | cbn; lia]).
  destruct ts as [|t2 ts]; [cbn; lia|]. rewrite join_cons, !length_app. cbn [length] in *. lia.
Qed.

Lemma member_starts m : starts_value (member_text m).
Proof. cbn. unfold value_start. lia. Qed.

Lemma members_text c (ms : list (list Z * Value)) :
  json_text (VObject c ms) = [123] ++ join [44] (member_text <$> (text_member <$> ms)) ++ [125].
Proof. cbn [json_text]. do 3 f_equal. rewrite <- list_fmap_compose. by apply list_fmap_ext; intros _ [n w] _. Qed.

Section Compounds.
Context {H : Type} `{Handler H}.

Lemma array_parses ts ess : Forall2 (parses (H := H)) ts ess -> Forall starts_value ts -> sizeZ ts < 2 ^ 31 ->
  parses (H := H) ([91] ++ join [44] ts ++ [93]) (EStartArray :: concat ess ++ [EEndArray (sizeZ ts)]).
Proof.
  intros Hts Hst Hsz n c rest Hc Hn. rewrite <- !app_assoc in *. cbn [app] in *.
  destruct n as [|n]; [cbn in Hn; lia|]. cbn [length] in Hn. cbn [parse_value].
  apply takes_peek. cbn [Z.eqb Pos.eqb]. unfold ParseArray. apply takes_peek. cbn [Z.eqb Pos.eqb negb].
  apply takes_char. apply (takes_bind _ _ _ _ _ _ _ _ [EStartArray] (takes_finish EStartArray _)).
  destruct ts as [|t ts].
  - apply Forall2_nil_inv_l in Hts as ->. cbn [join app concat]. apply takes_skip; [done|]. apply takes_consume. apply takes_finish.
  - pose proof (join_length _ Hst) as Hlen. pose proof Hst as [Ht _]%Forall_cons.
    destruct (join [44] (t :: ts) ++ 93 :: c :: rest) as [|x src] eqn:E; [by destruct t, ts|].
    assert (Hx : value_start x) by (destruct t as [|y t]; [done|]; destruct ts; cbn in E; by injection E as <- _).
    apply takes_skip; [by apply start_not_space|]. apply takes_consume_not; [unfold value_start in Hx; lia|]. apply takes_bounded.
    rewrite <- E in *. eapply (takes_elements n); try done; [lia | rewrite length_app; lia | lia].
Qed.

Lemma object_parses ms ess : Forall2 (fun m es => parses (H := H) m.2 es) ms ess ->
  Forall (fun m => is_text m.1 /\ starts_value m.2) ms -> sizeZ ms < 2 ^ 31 ->
  parses (H := H) ([123] ++ join [44] (member_text <$> ms) ++ [125])
    (EStartObject :: concat (zip_with (fun m es => EKey m.1 :: es) ms ess) ++ [EEndObject (sizeZ ms)]).
Proof.
  intros Hms Hst Hsz n c rest Hc Hn. rewrite <- !app_assoc in *. cbn [app] in *.
  destruct n as [|n]; [cbn in Hn; lia|]. cbn [length] in Hn. cbn [parse_value].
  apply takes_peek. cbn [Z.eqb Pos.eqb]. unfold ParseObject. apply takes_peek. cbn [Z.eqb Pos.eqb negb].
  apply takes_char. apply (takes_bind _ _ _ _ _ _ _ _ [EStartObject] (takes_finish EStartObject _)).
  destruct ms as [|m ms].
  - apply Forall2_nil_inv_l in Hms as ->. cbn [fmap list_fmap join app concat zip_with].
    apply takes_skip; [done|]. apply takes_consume. apply takes_finish.
  - assert (Hlen : (length (m :: ms) <= length (join [44%Z] (member_text <$> m :: ms)))%nat).
    { rewrite <- (length_fmap member_text). apply join_length, Forall_fmap, Forall_true. intros ?. apply member_starts. }
    destruct (join [44] (member_text <$> m :: ms) ++ 125 :: c :: rest) as [|x src] eqn:E; [by destruct ms|].
    assert (x = 34) as -> by (destruct ms; cbn in E; by injection E as <- _).
    apply takes_skip; [done|]. apply takes_consume_not; [done|]. apply takes_bounded.
    rewrite <- E in *. eapply (takes_members n); try done; [lia | rewrite length_app; lia | lia].
Qed.

Lemma takes_literal first l e rest : takes (H := H) (parse_literal first l e) (first :: l ++ rest) rest tt [e].
Proof.
  unfold parse_literal. apply takes_peek. rewrite Z.eqb_refl. cbn [negb]. apply takes_char.
  apply (takes_quiet _ _ _ _ _ _ rest true); [|apply takes_finish].
  induction l as [|c l IH]; [apply takes_ret|]. cbn [consume_all app]. by apply takes_consume.
Qed.

Lemma parses_scalar t es : starts_value t -> hd 0 t <> 123 -> hd 0 t <> 91 ->
  (forall c rest, delimiter c -> takes (H := H) (let! x := peek in
     if x =? 110 then ParseNull
      else if x =? 116 then ParseTrue
      else if x =? 102 then ParseFalse
      else if x =? 34 then ParseString kParseNoFlags false else ParseNumber kParseNoFlags) (t ++ c :: rest) (c :: rest) tt es) ->
  parses (H := H) t es.
Proof.
  intros Hst H1 H2 Hk n c rest Hc Hn. destruct t as [|x t]; [done|]. destruct n as [|n]; [cbn in Hn; lia|].
  cbn [parse_value app hd] in *. apply takes_peek. rewrite (proj2 (Z.eqb_neq x 123)), (proj2 (Z.eqb_neq x 91)) by done.
  apply (Hk c rest Hc).
Qed.
End Compounds.

Lemma value_parses {H} `{Handler H} v :
  wf_value v -> parsable v -> exists es, value_events es (CopyFrom v) /\ parses (H := H) (json_text v) es.
Proof.
  induction v as [| b | c ms IH | c es IH | s | f n] using value_ind; intros Hwf Hp.
  - exists [ENull]. split; [by apply ve_scalar|]. apply parses_scalar; [by left | done | done |].
    intros c rest _. apply takes_peek. exact (takes_literal 110 (str "ull") ENull (c :: rest)).
  - exists [EBool b]. split; [by apply ve_scalar|]. apply parses_scalar; destruct b; cbn [str json_text]; try done.
    + by right; left.
    + by right; right; left.
    + intros c rest _. apply takes_peek. exact (takes_literal 116 (str "rue") (EBool true) (c :: rest)).
    + intros c rest _. apply takes_peek. exact (takes_literal 102 (str "alse") (EBool false) (c :: rest)).
  - inversion Hwf as [| |? ? Hk Hms Hsz| | |]; subst. inversion Hp as [| |? ? Hps| | |]; subst.
    destruct (choose_all (fun m es => value_events es (CopyFrom m.2) /\ parses (H := H) (json_text m.2) es) ms)
      as [ess Hess].
    { rewrite Forall_forall in *. auto. }
    rewrite members_text. eexists. split.
    + apply ve_object, (members_events ms ess [] []), me_nil. eapply Forall2_impl; [exact Hess|]. by intros ? ? [? _].
    + replace (sizeZ (copy_member <$> ms)) with (sizeZ (text_member <$> ms)) by (unfold sizeZ; by rewrite !length_fmap).
      apply object_parses; [| |unfold sizeZ in *; by rewrite length_fmap].
      * apply Forall2_fmap_l. eapply Forall2_impl; [exact Hess|]. by intros ? ? [_ ?].
      * apply Forall_fmap. rewrite Forall_forall in *. intros m Hm. split; [by apply Hk|]. by apply text_starts; auto.
  - inversion Hwf as [| | |? ? Hes Hsz| |]; subst. inversion Hp as [| | |? ? Hps| |]; subst.
    destruct (choose_all (fun v es => value_events es (CopyFrom v) /\ parses (H := H) (json_text v) es) es) as [ess Hess].
    { rewrite Forall_forall in *. auto. }
    eexists. split.
    + apply ve_array, (elements_events es ess [] []), ee_nil. eapply Forall2_impl; [exact Hess|]. by intros ? ? [? _].
    + replace (sizeZ (CopyFrom <$> es)) with (sizeZ (json_text <$> es)) by (unfold sizeZ; by rewrite !length_fmap).
      apply array_parses; [| |unfold sizeZ in *; by rewrite length_fmap].
      * apply Forall2_fmap_l. eapply Forall2_impl; [exact Hess|]. by intros ? ? [_ ?].
      * apply Forall_fmap. rewrite Forall_forall in *. intros v Hv. by apply text_starts; auto.
  - inversion Hwf; subst. exists [EString s]. split; [by apply ve_scalar|].
    apply parses_scalar; [unfold starts_value, value_start; cbn; lia | done | done |].
    intros c rest _. apply takes_peek. cbn [Z.eqb Pos.eqb]. by apply (takes_string false).
  - inversion Hwf as [| | | | |? ? Hn]; subst. pose proof (text_starts _ Hwf Hp) as Hst.
    assert (Hrest : forall es, (forall c rest, delimiter c ->
      takes (H := H) (ParseNumber kParseNoFlags) (json_text (VNumber f n) ++ c :: rest) (c :: rest) tt es) ->
      (hd 0 (json_text (VNumber f n)) = 45 \/ 48 <= hd 0 (json_text (VNumber f n)) <= 57) -> parses (H := H) (json_text (VNumber f n)) es).
    { intros es Hes Hhd. apply parses_scalar; [done | lia | lia |]. intros c rest Hc.
      destruct (json_text (VNumber f n)) as [|x t]; [done|]. cbn [hd app] in *. apply takes_peek.
      rewrite !(proj2 (Z.eqb_neq x _)) by lia. by apply Hes. }
    destruct (number_text f n Hn Hp) as [(minus & k & Hk & Ht & Hv) | (d & Hd & Hf & Hs & Ht & Hv)]; rewrite Ht in *.
    + exists [integer_event minus k]. cbn [CopyFrom]. rewrite Hv. split.
      { apply ve_scalar. pose proof (integer_event_value minus k Hk) as He.
        unfold integer_event in *. by destruct (k <=? max32 minus), minus. }
      apply Hrest.
      * intros c rest Hc. rewrite <- app_assoc. apply takes_number_integer; [done | by apply delimiter_ends].
      * pose proof (dec_canonical k ltac:(lia)) as [Hdk Hne]. destruct minus; [by left|]. right.
        destruct (dec k) as [|x l]; [done|]. apply Forall_cons in Hdk as [? _]. cbn. lia.
    + exists [EDouble d]. rewrite Hv. split; [by apply ve_scalar|]. apply Hrest.
      * intros c rest Hc. apply takes_number_double; try done. by apply delimiter_ends.
      * destruct Hs as (neg & ip & fp & -> & [Hdk Hne] & _). destruct neg; [by left|]. right.
        destruct ip as [|x l]; [done|]. apply Forall_cons in Hdk as [? _]. cbn. lia.
Qed.

Lemma document_takes {H} `{Handler H} v es :
  starts_value (json_text v) -> parses (H := H) (json_text v) es ->
  takes (H := H) (parse_document kParseNoFlags) (json_text v ++ [0]) [0] tt es.
Proof.
  intros Hst Hes. specialize (Hes (length (json_text v ++ [0])) 0 [] ltac:(by right; right; right) ltac:(done)).
  destruct (json_text v) as [|x t]; [done|]. cbn in Hst. cbn [app] in *. unfold parse_document.
  apply takes_skip; [by apply start_not_space|]. apply takes_peek.
  rewrite (proj2 (Z.eqb_neq x 0)) by (unfold value_start in Hst; lia).
  rewrite <- (app_nil_r es). eapply takes_bind; [apply takes_bounded, Hes|].
  change (flag_set kParseNoFlags kParseStopWhenDoneFlag) with false. cbv iota.
  apply takes_skip; [done|]. apply takes_peek. apply takes_ret.
Qed.

Lemma document_reads v v0 : wf_value v -> parsable v ->
  Document_Parse kParseNoFlags (json_text v) (mkDocument v0 []) =
  Ret (mkParseResult kParseErrorNone 0, mkDocument (CopyFrom v) []).
Proof.
  intros Hwf Hp. destruct (value_parses (H := Document) v Hwf Hp) as (es & Hev & Hes).
  destruct (document_takes v es (text_starts v Hwf Hp) Hes 0 (mkDocument v0 []) _
    (proj1 json_events_build _ _ Hev v0 [])) as [o' Hrun].
  unfold Document_Parse, ParseStream, Parse. change (flag_set kParseNoFlags kParseInsituFlag) with false. change (flag_set kParseNoFlags kParseIterativeFlag) with false. cbv iota.
  unfold new_StringStream. by rewrite Hrun.
Qed.

(** C30. Parsing what the writer prints gives the value back.  For every
    value whose doubles are finite and printed with at most 22 decimals and a
    significand below 2^53, writing it with [Accept] into an empty buffer and
    parsing the text with the default flags succeeds and leaves in the document
    a deep copy of the value: names and strings byte for byte whatever they
    hold, integers with their flags, doubles bit for bit. *)
Theorem parse_print_roundtrip (v v0 : Value) (sb : Stack) :
  wf_value v -> printable v -> parsable v -> stack_wf sb -> content sb = [] ->
  stackTop sb + weight v <= 2 ^ 60 ->
  exists w, Accept v (new_Writer sb) = Ret (true, w) /\
    Document_Parse kParseNoFlags (content w.(os)) (mkDocument v0 []) =
    Ret (mkParseResult kParseErrorNone 0, mkDocument (CopyFrom v) []).
Proof.
  intros Hwf Hpr Hp Hsb Hempty Hmax. destruct (writer_accepts v sb Hwf Hpr Hsb Hmax) as (w & Hw & Ht & _).
  exists w. split; [done|]. rewrite Ht, Hempty. cbn [app]. by apply document_reads.
Qed.

Lemma sample_parsable : parsable sample_value.
Proof.
  constructor. repeat (apply List.Forall_cons || apply List.Forall_nil); cbn [snd]; try (by constructor).
  - constructor. repeat (apply List.Forall_cons || apply List.Forall_nil); constructor. done.
  - constructor. intros d [= <-]. split; [reflexivity|]. exists false, [51], [48].
    split; [vm_compute; reflexivity|]. split_and!; try (vm_compute; done).
    all: repeat constructor; done.
Qed.

Lemma parse_print_roundtrip_witness :
  exists w, Accept sample_value (new_Writer new_StringBuffer) = Ret (true, w) /\
    Document_Parse kParseNoFlags (content w.(os)) new_Document =
    Ret (mkParseResult kParseErrorNone 0, mkDocument (CopyFrom sample_value) []).
Proof.
  apply (parse_print_roundtrip sample_value VNull new_StringBuffer);
    [exact sample_wf | exact sample_printable | exact sample_parsable | exact new_StringBuffer_wf | reflexivity
    | vm_compute; congruence].
Defined.

(** ** A fraction too long

    [maxExp = 308 - expFrac] grows with the number of fraction digits, and once
    it passes a tenth of [INT_MAX] the digits of the exponent overflow [exp]
    before they are compared with it. *)
Section Overflow.
Context {H : Type} `{Handler H}.

Lemma after_takes {A B} (m : parser H A) (k : A -> parser H B) src mid a o h r :
  takes m src mid a [] -> (forall o', k a (mkStream mid o') h = r) -> pbind m k (mkStream src o) h = r.
Proof. intros Hm Hk. destruct (Hm o h h eq_refl) as [o' Ho]. unfold pbind. rewrite Ho. apply Hk. Qed.

Lemma exponent_step maxExp off fuel exp d l o (h : H) :
  isdigit d = true -> 0 <= exp * 10 < 2 ^ 31 -> exp * 10 + (d - 48) <= maxExp -> exp * 10 + (d - 48) < 2 ^ 31 ->
  exponent_digits false maxExp off (S fuel) exp (mkStream (d :: l) o) h =
  exponent_digits false maxExp off fuel (exp * 10 + (d - 48)) (mkStream l (u64 (o + 1))) h.
Proof.
  intros Hd He Hm Hf. pose proof (proj1 (isdigit_true d) Hd). cbn [exponent_digits]. unfold pbind at 1.
  cbn [peek Peek src_ bind]. rewrite Hd. unfold pbind, int_op, lift. cbn [take_ch Take src_ offset_ bind].
  rewrite int_result_fits by lia. cbn [bind]. rewrite int_result_fits by lia. cbn [bind].
  by replace (exp * 10 + (d - 48) >? maxExp) with false by lia.
Qed.

Lemma exponent_overflow maxExp off fuel exp d l o (h : H) :
  isdigit d = true -> 0 <= exp * 10 < 2 ^ 31 -> 2 ^ 31 <= exp * 10 + (d - 48) ->
  exponent_digits false maxExp off (S fuel) exp (mkStream (d :: l) o) h = Undefined SignedOverflow.
Proof.
  intros Hd He Hf. cbn [exponent_digits]. unfold pbind at 1.
  cbn [peek Peek src_ bind]. rewrite Hd. unfold pbind, int_op, lift. cbn [take_ch Take src_ offset_ bind].
  rewrite int_result_fits by lia. cbn [bind]. unfold int_result. by replace ((_ <=? _) && _) with false by lia.
Qed.

Lemma long_exponent_overflows sig n off rest o (h : H) :
  is_nan_or_inf sig = false -> 214748056 <= n < 2 ^ 31 - 308 ->
  parse_exponent sig (- n) off (mkStream (str "e2147483648" ++ rest) o) h = Undefined SignedOverflow.
Proof.
  intros Hsig Hn. unfold parse_exponent. rewrite Hsig.
  apply (after_takes _ _ _ (str "2147483648" ++ rest) true); [intros ? ? ? [= <-]; by eexists|]. intros o1.
  apply (after_takes _ _ _ (str "2147483648" ++ rest) true); [intros ? ? ? [= <-]; by eexists|]. intros o2.
  apply (after_takes _ _ _ (str "2147483648" ++ rest) false); [intros ? ? ? [= <-]; by eexists|]. intros o3.
  apply (after_takes _ _ _ (str "2147483648" ++ rest) false); [intros ? ? ? [= <-]; by eexists|]. intros o4.
  apply (after_takes _ _ _ (str "2147483648" ++ rest) 50); [intros ? ? ? [= <-]; by eexists|]. intros o5.
  change (isdigit 50) with true. cbv iota.
  apply (after_takes _ _ _ (str "147483648" ++ rest) 50); [intros ? ? ? [= <-]; by eexists|]. intros o6.
  apply (after_takes _ _ _ (str "147483648" ++ rest) (308 + n)).
  { intros o0 ? ? [= <-]. exists o0. replace (308 + n) with (308 - - n) by lia. unfold int_op, lift. by rewrite int_result_fits by lia. }
  intros o7. unfold pbind, bounded.
  change (str "147483648" ++ rest) with ([49; 52; 55; 52; 56; 51; 54; 52; 56] ++ rest). cbn [src_ length app].
  do 8 (rewrite exponent_step by (reflexivity || lia)). by rewrite exponent_overflow by (reflexivity || lia).
Qed.

Lemma long_number_overflows n rest o (h : H) :
  214748056 <= Z.of_nat n < 2 ^ 31 - 308 ->
  ParseNumber kParseNoFlags (mkStream (str "0." ++ replicate n 48 ++ str "e2147483648" ++ rest) o) h = Undefined SignedOverflow.
Proof.
  intros Hn. unfold ParseNumber. set (tail := str "e2147483648" ++ rest).
  assert (Hz : is_digits (replicate n 48)) by (apply Forall_replicate; lia).
  assert (Hsz : sizeZ (replicate n 48) = Z.of_nat n) by (unfold sizeZ; by rewrite length_replicate).
  assert (Hval : digits_after 0 (replicate n 48) = 0) by (clear; by induction n).
  unfold pbind at 1. cbn [tell Tell offset_ bind].
  apply (after_takes _ _ _ (str "0." ++ replicate n 48 ++ tail) false); [intros ? ? ? [= <-]; by eexists|]. intros o2.
  apply (after_takes _ _ _ (46 :: replicate n 48 ++ tail) (Sig32 0, 0)); [intros ? ? ? [= <-]; by eexists|]. intros o3.
  cbv beta iota. eapply after_takes.
  { apply (takes_fraction_part _ 0 _ _ 101); [by left|done|done|lia|by rewrite Hval|by rewrite Hsz; lia]. }
  intros o4. cbv beta iota. unfold pbind at 1. rewrite Hsz.
  change (101 :: _) with tail. by rewrite (long_exponent_overflows _ _ _ rest).
Qed.
End Overflow.

(** The text "0." with [n] zeros and "e2147483648" overflows, for every [n] from
    214748056 on. *)
Theorem long_fraction_overflows (n : nat) (d : Document) :
  214748056 <= Z.of_nat n < 2 ^ 31 - 308 ->
  Document_Parse kParseNoFlags (str "0." ++ replicate n 48 ++ str "e2147483648") d = Undefined SignedOverflow.
Proof.
  intros Hn. unfold Document_Parse, ParseStream, Parse, new_StringStream. rewrite <- !app_assoc.
  change (flag_set kParseNoFlags kParseInsituFlag) with false. change (flag_set kParseNoFlags kParseIterativeFlag) with false.
  cbv iota. enough (Hp : parse_document kParseNoFlags (mkStream (str "0." ++ replicate n 48 ++ str "e2147483648" ++ [0]) 0) d =
    Undefined SignedOverflow) by (by rewrite Hp).
  unfold parse_document. set (src := str "0." ++ _).
  apply (after_takes _ _ _ src tt); [intros ? ? ? [= <-]; by eexists|]. intros o1.
  apply (after_takes _ _ _ src 48); [intros ? ? ? [= <-]; by eexists|]. intros o2.
  change (48 =? 0) with false. cbv iota. unfold pbind at 1, ParseValue, bounded. cbn [src_].
  change (length src) with (S (length (46 :: replicate n 48 ++ str "e2147483648" ++ [0]))). cbn [parse_value].
  unfold pbind at 1. change (peek (mkStream src o2) d) with (Ret (POk (A := Z) 48 (mkStream src o2) d)). cbn [bind].
  cbn [Z.eqb Pos.eqb]. unfold src. by rewrite long_number_overflows.
Qed.
