(* ===== verification/WorkerQueue.v ===== *)
(** * The per-worker ring buffer (struct WorkerQueue, enqueue, fetch_next)

    Each worker thread owns a [WorkerQueue]: a vector of fixed size indexed
    modulo that size by two counters that only grow.  The file models the two
    operations, gives the abstract FIFO they are meant to implement as a type
    class, and proves that the ring buffer implements it as long as the number
    of outstanding payments stays below the vector's size; it also proves what
    happens past that bound, where [enqueue] has no check. *)
From S2P Require Import Prelude Types.

(** ** The data structure and its operations *)
Record WorkerQueue := mkWorkerQueue { queue : list RawPayment; head : Z; tail : Z }.

(** [PaymentService::enqueue] on the selected queue:
    [pos = q.tail++; q.queue[pos % q.queue.size()] = r]. *)
Definition enqueue (q : WorkerQueue) (r : RawPayment) : outcome WorkerQueue :=
  let pos := q.(tail) in
  if sizeZ q.(queue) =? 0 then Undefined DivisionByZero
  else
    let* queue' := storeZ q.(queue) (pos mod sizeZ q.(queue)) r in
    Ret (mkWorkerQueue queue' q.(head) (u64 (pos + 1))).

(** [PaymentService::fetch_next]: [None] is the [false] return, which leaves
    the out-parameter alone. *)
Definition fetch_next (running : bool) (q : WorkerQueue)
  : outcome (option (RawPayment * WorkerQueue)) :=
  if negb running || (q.(head) >=? q.(tail)) then Ret None
  else
    let idx := q.(head) in
    if sizeZ q.(queue) =? 0 then Undefined DivisionByZero
    else
      let* r := lookupZ q.(queue) (idx mod sizeZ q.(queue)) in
      Ret (Some (r, mkWorkerQueue q.(queue) (u64 (idx + 1)) q.(tail))).

(** The constructor's [q->queue.resize(QUEUE_CAPACITY)]. *)
Definition new_queue (capacity : nat) : WorkerQueue :=
  mkWorkerQueue (replicate capacity raw_empty) 0 0.

(** ** The abstract queue *)
Class Fifo (Q A : Type) := {
  fifo_wf : Q -> Prop;
  fifo_items : Q -> list A;
  fifo_room : Q -> Prop;
  fifo_push : Q -> A -> outcome Q;
  fifo_pop : Q -> outcome (option (A * Q));
}.

Class FifoLaws (Q A : Type) `{Fifo Q A} := {
  fifo_push_spec q a :
    fifo_wf q -> fifo_room q ->
    exists q', fifo_push q a = Ret q' /\ fifo_wf q' /\
               fifo_items q' = fifo_items q ++ [a];
  fifo_pop_nil q :
    fifo_wf q -> fifo_items q = [] -> fifo_pop q = Ret None;
  fifo_pop_cons q a rest :
    fifo_wf q -> fifo_items q = a :: rest ->
    exists q', fifo_pop q = Ret (Some (a, q')) /\ fifo_wf q' /\ fifo_items q' = rest;
}.

(** ** The ring buffer as a FIFO *)
Definition capacityZ (q : WorkerQueue) : Z := sizeZ q.(queue).

Definition slot (q : WorkerQueue) (i : Z) : option RawPayment :=
  q.(queue) !! Z.to_nat (i mod capacityZ q).

(** The outstanding payments, oldest first. *)
Definition pending (q : WorkerQueue) : list RawPayment :=
  omap (slot q) (seqZ q.(head) (q.(tail) - q.(head))).

Record queue_wf (q : WorkerQueue) : Prop := {
  wf_capacity : 0 < capacityZ q;
  wf_head : 0 <= q.(head) <= q.(tail);
  wf_tail : q.(tail) < 2 ^ 64;
  wf_occupancy : q.(tail) - q.(head) <= capacityZ q;
}.

Definition queue_room (q : WorkerQueue) : Prop :=
  q.(tail) - q.(head) < capacityZ q /\ q.(tail) + 1 < 2 ^ 64.

#[export] Instance ring_fifo : Fifo WorkerQueue RawPayment := {|
  fifo_wf := queue_wf;
  fifo_items := pending;
  fifo_room := queue_room;
  fifo_push := enqueue;
  fifo_pop := fetch_next true;
|}.

(** ** Lemmas on the slots *)
Lemma mod_distinct c i t : 0 < c -> 0 < t - i < c -> i mod c <> t mod c.
Proof.
  intros Hc Hd Heq.
  assert (Hz : (t - i) mod c = 0).
  { rewrite Zminus_mod, Heq, Z.sub_diag. apply Z.mod_0_l. lia. }
  rewrite Z.mod_small in Hz; lia.
Qed.

Lemma mod_in_capacity q i : 0 < capacityZ q -> 0 <= i mod capacityZ q < capacityZ q.
Proof. intros. apply Z.mod_pos_bound. done. Qed.

Lemma slot_is_Some q i : 0 < capacityZ q -> is_Some (slot q i).
Proof.
  intros Hc. apply lookup_lt_is_Some_2.
  pose proof (mod_in_capacity q i Hc). unfold capacityZ, sizeZ in *. lia.
Qed.

Definition put (q : WorkerQueue) (r : RawPayment) : WorkerQueue :=
  mkWorkerQueue (<[Z.to_nat (q.(tail) mod capacityZ q) := r]> q.(queue)) q.(head)
    (u64 (q.(tail) + 1)).

Lemma capacity_put q r : capacityZ (put q r) = capacityZ q.
Proof. unfold capacityZ, sizeZ. simpl. by rewrite length_insert. Qed.

Lemma enqueue_put q r : 0 < capacityZ q -> enqueue q r = Ret (put q r).
Proof.
  intros Hc. unfold enqueue. destruct (Z.eqb_spec (sizeZ (queue q)) 0).
  - unfold capacityZ in Hc. lia.
  - rewrite storeZ_total by (apply mod_in_capacity, Hc). done.
Qed.

Lemma slot_put_same q r i :
  0 < capacityZ q -> i mod capacityZ q = q.(tail) mod capacityZ q -> slot (put q r) i = Some r.
Proof.
  intros Hc Hi. unfold slot. rewrite capacity_put, Hi. apply list_lookup_insert_eq.
  pose proof (mod_in_capacity q (q.(tail)) Hc). unfold capacityZ, sizeZ in *. lia.
Qed.

Lemma slot_put_other q r i :
  0 < capacityZ q -> i mod capacityZ q <> q.(tail) mod capacityZ q -> slot (put q r) i = slot q i.
Proof.
  intros Hc Hi. unfold slot. rewrite capacity_put. apply list_lookup_insert_ne.
  pose proof (mod_in_capacity q i Hc). pose proof (mod_in_capacity q (q.(tail)) Hc). lia.
Qed.

Lemma omap_ext_in {A B} (f g : A -> option B) (l : list A) :
  (forall x, x ∈ l -> f x = g x) -> omap f l = omap g l.
Proof.
  induction l as [|x l IH]; intros H; [done|]. csimpl.
  rewrite (H x) by set_solver. rewrite IH by set_solver. done.
Qed.

Lemma pending_length q : 0 < capacityZ q -> length (pending q) = Z.to_nat (q.(tail) - q.(head)).
Proof.
  intros Hc. unfold pending. rewrite <- (length_seqZ (head q) (tail q - head q)).
  induction (seqZ _ _) as [|x l IH]; [done|]. csimpl.
  destruct (slot_is_Some q x Hc) as [r ->]. csimpl. by rewrite IH.
Qed.

Lemma pending_snoc_range q h n :
  0 <= n -> omap (slot q) (seqZ h (n + 1)) = omap (slot q) (seqZ h n) ++ omap (slot q) [h + n].
Proof. intros. rewrite seqZ_app by lia. rewrite omap_app. done. Qed.

(** Writing at the tail keeps every outstanding slot but the oldest one of a
    full buffer. *)
Lemma slots_put_range q r h n :
  0 < capacityZ q -> h + n = q.(tail) -> 0 <= n < capacityZ q ->
  omap (slot (put q r)) (seqZ h n) = omap (slot q) (seqZ h n).
Proof.
  intros Hc Hn Hcap. apply omap_ext_in. intros i Hi%elem_of_seqZ.
  apply slot_put_other; [done|]. apply mod_distinct; lia.
Qed.

Lemma pending_put q r :
  queue_wf q -> queue_room q -> pending (put q r) = pending q ++ [r].
Proof.
  intros [Hc Hh Ht Ho] [Hroom Hmax]. unfold pending at 1. simpl.
  rewrite u64_small by lia.
  replace (tail q + 1 - head q) with (tail q - head q + 1) by lia.
  rewrite pending_snoc_range by lia.
  rewrite slots_put_range by lia. f_equal. simpl.
  rewrite slot_put_same; [done..|]. f_equal. lia.
Qed.

Lemma pending_cons q :
  queue_wf q -> q.(head) < q.(tail) ->
  exists r, slot q q.(head) = Some r /\
    pending q = r :: pending (mkWorkerQueue q.(queue) (q.(head) + 1) q.(tail)).
Proof.
  intros [Hc Hh Ht Ho] Hlt. destruct (slot_is_Some q (head q) Hc) as [r Hr].
  exists r. split; [done|]. unfold pending at 1.
  rewrite seqZ_cons by lia. csimpl. rewrite Hr. unfold pending. csimpl.
  replace (Z.pred (tail q - head q)) with (tail q - (head q + 1)) by lia. done.
Qed.

Lemma pending_nil q : queue_wf q -> pending q = [] <-> q.(head) = q.(tail).
Proof.
  intros Hwf. pose proof (wf_head q Hwf) as Hh.
  rewrite <- length_zero_iff_nil, pending_length by apply Hwf. lia.
Qed.

Lemma queue_wf_put q r : queue_wf q -> queue_room q -> queue_wf (put q r).
Proof.
  intros [Hc Hh Ht Ho] [Hroom Hmax].
  split; rewrite ?capacity_put; simpl; rewrite ?u64_small; lia.
Qed.

Lemma fetch_next_empty running q :
  running = false \/ q.(tail) <= q.(head) -> fetch_next running q = Ret None.
Proof.
  intros H. unfold fetch_next. destruct H as [-> | H]; [done|].
  replace (head q >=? tail q) with true by lia. by rewrite orb_true_r.
Qed.

Lemma fetch_next_head q r :
  queue_wf q -> q.(head) < q.(tail) -> slot q q.(head) = Some r ->
  fetch_next true q = Ret (Some (r, mkWorkerQueue q.(queue) (q.(head) + 1) q.(tail))).
Proof.
  intros [Hc Hh Ht Ho] Hlt Hr. unfold fetch_next.
  replace (head q >=? tail q) with false by lia. simpl.
  unfold capacityZ in Hc. replace (sizeZ (queue q) =? 0) with false by lia.
  assert (lookupZ (queue q) (head q mod sizeZ (queue q)) = Ret r) as ->.
  { apply lookupZ_Ret. split; [apply mod_in_capacity, Hc | exact Hr]. }
  simpl. rewrite u64_small by lia. done.
Qed.

#[export] Instance ring_fifo_laws : FifoLaws WorkerQueue RawPayment.
Proof.
  split; simpl.
  - intros q r Hwf Hroom. exists (put q r).
    auto using enqueue_put, wf_capacity, queue_wf_put, pending_put.
  - intros q Hwf Hnil%pending_nil; [|done]. apply fetch_next_empty. lia.
  - intros q a rest Hwf Hcons.
    assert (Hlt : head q < tail q).
    { pose proof (pending_nil q Hwf). pose proof (wf_head q Hwf).
      destruct (decide (head q = tail q)); [intuition congruence | lia]. }
    destruct (pending_cons q Hwf Hlt) as (r & Hr & Hpend).
    rewrite Hpend in Hcons. injection Hcons as -> <-.
    eexists. split; [by apply fetch_next_head|]. split; [|done].
    destruct Hwf. split; unfold capacityZ in *; simpl; lia.
Qed.

(** ** Sequences of operations *)
Inductive qop := Push (r : RawPayment) | Pop.

(** The ring buffer driven by a sequence of calls, with the results of the
    [fetch_next] calls. *)
Fixpoint run_ring (q : WorkerQueue) (ops : list qop)
  : outcome (list (option RawPayment) * WorkerQueue) :=
  match ops with
  | [] => Ret ([], q)
  | Push r :: ops =>
      let* q' := enqueue q r in run_ring q' ops
  | Pop :: ops =>
      let* o := fetch_next true q in
      match o with
      | None => let* (outs, q') := run_ring q ops in Ret (None :: outs, q')
      | Some (r, q1) => let* (outs, q') := run_ring q1 ops in Ret (Some r :: outs, q')
      end
  end.

(** The reference: an unbounded list. *)
Fixpoint run_list (l : list RawPayment) (ops : list qop)
  : list (option RawPayment) * list RawPayment :=
  match ops with
  | [] => ([], l)
  | Push r :: ops => run_list (l ++ [r]) ops
  | Pop :: ops =>
      match l with
      | [] => let '(outs, l') := run_list [] ops in (None :: outs, l')
      | r :: l => let '(outs, l') := run_list l ops in (Some r :: outs, l')
      end
  end.

(** No [enqueue] of the sequence meets [capacity] outstanding payments. *)
Fixpoint fits (capacity : nat) (pending : nat) (ops : list qop) : bool :=
  match ops with
  | [] => true
  | Push _ :: ops => (pending <? capacity)%nat && fits capacity (S pending) ops
  | Pop :: ops => fits capacity (pred pending) ops
  end.

Lemma fetch_next_capacity q r q' :
  fetch_next true q = Ret (Some (r, q')) -> queue q' = queue q /\ tail q' = tail q.
Proof.
  unfold fetch_next. repeat case_match; intros; try discriminate; inv_outcome.
  by simplify_eq.
Qed.

Lemma run_ring_spec ops q :
  queue_wf q -> q.(tail) + Z.of_nat (length ops) < 2 ^ 64 ->
  fits (length q.(queue)) (length (pending q)) ops = true ->
  exists q', run_ring q ops = Ret ((run_list (pending q) ops).1, q') /\
             queue_wf q' /\ pending q' = (run_list (pending q) ops).2.
Proof.
  revert q. induction ops as [|[r|] ops IH]; intros q Hwf Hmax Hfits; simpl in *.
  - eauto.
  - apply andb_true_iff in Hfits as [Hlt%Nat.ltb_lt Hfits].
    assert (Hroom : queue_room q).
    { pose proof Hwf as [Hc ? ? ?]. rewrite pending_length in Hlt by done.
      unfold queue_room, capacityZ, sizeZ in *. lia. }
    rewrite enqueue_put by apply Hwf. simpl.
    rewrite <- pending_put by done. apply IH.
    + by apply queue_wf_put.
    + simpl. destruct Hwf. rewrite u64_small; lia.
    + rewrite pending_put, length_app, Nat.add_comm by done. simpl.
      by rewrite length_insert.
  - destruct (pending q) as [|r rest] eqn:Hp.
    + pose proof (fifo_pop_nil (H := ring_fifo) q Hwf Hp) as Hpop. simpl in Hpop.
      rewrite Hpop. simpl.
      destruct (IH q) as (q' & Hrun & Hwf' & Hq'); [done | lia | by rewrite Hp|].
      rewrite Hrun, Hp in *. simpl. exists q'. by destruct (run_list [] ops).
    + destruct (fifo_pop_cons (H := ring_fifo) q r rest Hwf Hp) as (q1 & Hpop & Hwf1 & Hp1).
      change (fetch_next true q = Ret (Some (r, q1))) in Hpop.
      change (pending q1 = rest) in Hp1. rewrite Hpop. simpl.
      destruct (fetch_next_capacity _ _ _ Hpop) as [Hqq Htt].
      destruct (IH q1) as (q' & Hrun & Hwf' & Hq'); [done | lia | by rewrite Hp1, Hqq|].
      rewrite Hrun, Hp1 in *. simpl. exists q'. by destruct (run_list rest ops).
Qed.

(** C7. Refinement of the abstract queue: on every sequence of [enqueue] and
    [fetch_next] calls that never finds the vector full (and stays below
    2^64 calls), the ring buffer neither divides by zero nor reads out of
    bounds, returns to the worker exactly the payments an unbounded FIFO list
    returns, in the same order and with the same empty polls, and ends with
    the same outstanding payments. *)
Theorem ring_refines_fifo (ops : list qop) (q : WorkerQueue) :
  queue_wf q -> q.(tail) + Z.of_nat (length ops) < 2 ^ 64 ->
  fits (length q.(queue)) (length (pending q)) ops = true ->
  exists q', run_ring q ops = Ret ((run_list (pending q) ops).1, q') /\
             queue_wf q' /\ pending q' = (run_list (pending q) ops).2.
Proof. apply run_ring_spec. Qed.

Lemma new_queue_wf (capacity : nat) : (0 < capacity)%nat -> queue_wf (new_queue capacity).
Proof.
  intros. unfold new_queue.
  split; unfold capacityZ, sizeZ; simpl; rewrite ?length_replicate; lia.
Qed.

Definition sample_payment (b : Z) : RawPayment := mkRaw (b :: replicate 69 0) 1.

Lemma ring_refines_fifo_witness :
  let ops := [Push (sample_payment 1); Push (sample_payment 2); Pop;
              Push (sample_payment 3); Pop; Pop; Pop] in
  let q := new_queue 2 in
  exists q', run_ring q ops = Ret ((run_list (pending q) ops).1, q') /\
             queue_wf q' /\ pending q' = (run_list (pending q) ops).2.
Proof.
  intros ops q. apply (ring_refines_fifo ops q).
  - apply new_queue_wf. lia.
  - vm_compute. reflexivity.
  - vm_compute. reflexivity.
Defined.

(** [enqueue] on a full ring buffer is not refused: the oldest outstanding
    payment is overwritten, and the new payment is now outstanding twice,
    first in the place of the lost one and again at the end. *)
Theorem enqueue_full_overwrites (q : WorkerQueue) (r : RawPayment) :
  queue_wf q -> q.(tail) - q.(head) = capacityZ q -> q.(tail) + 1 < 2 ^ 64 ->
  exists q', enqueue q r = Ret q' /\ pending q' = r :: drop 1 (pending q) ++ [r].
Proof.
  intros Hwf Hfull Hmax. pose proof Hwf as [Hc Hh Ht Ho].
  exists (put q r). split; [by apply enqueue_put|].
  destruct (pending_cons q Hwf) as (r0 & Hr0 & ->); [lia|].
  unfold pending at 1. simpl. rewrite u64_small, seqZ_cons by lia. csimpl.
  rewrite slot_put_same; [|done|].
  2: { replace (tail q) with (head q + 1 * capacityZ q) by lia.
       rewrite Z.mod_add by lia. done. }
  f_equal. rewrite drop_0.
  replace (Z.pred (tail q + 1 - head q)) with (tail q - Z.succ (head q) + 1) by lia.
  rewrite pending_snoc_range, slots_put_range by lia. csimpl.
  rewrite slot_put_same; [done..|]. f_equal. lia.
Qed.

Lemma enqueue_full_overwrites_witness :
  let q := put (put (new_queue 2) (sample_payment 1)) (sample_payment 2) in
  exists q', enqueue q (sample_payment 3) = Ret q' /\
             pending q' = sample_payment 3 :: drop 1 (pending q) ++ [sample_payment 3].
Proof.
  intros q. apply (enqueue_full_overwrites q (sample_payment 3)).
  - split; vm_compute; intuition congruence.
  - reflexivity.
  - reflexivity.
Defined.
