(* ===== verification/EnqueueRace.v ===== *)
(** * enqueue under concurrent requests

    [enqueue] runs in the REST worker threads without a lock and its counters
    are plain [size_t]s.  Its three memory accesses (the load and the store of
    [q.tail++], the store of the slot) are the micro-steps of this file; two
    threads interleave them on one queue.  Run alone, the micro-steps are
    [enqueue]; interleaved, they lose a payment. *)
From S2P Require Import Prelude Types WorkerQueue.

(** Where a thread is inside [enqueue(_, r)]. *)
Inductive pc :=
  | Start (r : RawPayment)
  | Loaded (r : RawPayment) (pos : Z)
  | Bumped (r : RawPayment) (pos : Z)
  | Finished.

(** One memory access. *)
Definition micro_step (t : pc) (q : WorkerQueue) : outcome (pc * WorkerQueue) :=
  match t with
  | Start r => Ret (Loaded r q.(tail), q)
  | Loaded r pos => Ret (Bumped r pos, mkWorkerQueue q.(queue) q.(head) (u64 (pos + 1)))
  | Bumped r pos =>
      if sizeZ q.(queue) =? 0 then Undefined DivisionByZero
      else
        let* queue' := storeZ q.(queue) (pos mod sizeZ q.(queue)) r in
        Ret (Finished, mkWorkerQueue queue' q.(head) q.(tail))
  | Finished => Ret (Finished, q)
  end.

(** Two threads; [true] in the schedule runs the first one. *)
Fixpoint interleave (schedule : list bool) (t1 t2 : pc) (q : WorkerQueue)
  : outcome (pc * pc * WorkerQueue) :=
  match schedule with
  | [] => Ret (t1, t2, q)
  | true :: schedule =>
      let* (t1, q) := micro_step t1 q in interleave schedule t1 t2 q
  | false :: schedule =>
      let* (t2, q) := micro_step t2 q in interleave schedule t1 t2 q
  end.

Lemma interleave_app sch sch' t1 t2 q :
  interleave (sch ++ sch') t1 t2 q =
  let* (t1, t2, q) := interleave sch t1 t2 q in interleave sch' t1 t2 q.
Proof.
  revert t1 t2 q. induction sch as [|[] sch IH]; intros t1 t2 q; [done| |];
    cbn [app interleave]; destruct (micro_step _ q) as [[t q']| |]; cbn [bind]; auto.
Qed.

Lemma micro_alone r t2 q :
  0 < capacityZ q -> interleave [true; true; true] (Start r) t2 q = Ret (Finished, t2, put q r).
Proof.
  intros Hc. cbn [interleave micro_step bind queue head tail]. unfold capacityZ in Hc.
  replace (sizeZ (queue q) =? 0) with false by lia.
  rewrite storeZ_total by (apply mod_in_capacity, Hc). done.
Qed.

Lemma micro_alone2 r t1 q :
  0 < capacityZ q -> interleave [false; false; false] t1 (Start r) q = Ret (t1, Finished, put q r).
Proof.
  intros Hc. cbn [interleave micro_step bind queue head tail]. unfold capacityZ in Hc.
  replace (sizeZ (queue q) =? 0) with false by lia.
  rewrite storeZ_total by (apply mod_in_capacity, Hc). done.
Qed.

(** ** Every schedule *)
Definition steps_left (t : pc) : nat :=
  match t with Start _ => 3 | Loaded _ _ => 2 | Bumped _ _ => 1 | Finished => 0 end.

(** The interleavings of [n] steps of the first thread and [m] of the second. *)
Fixpoint schedules (n : nat) : nat -> list (list bool) :=
  fix go m :=
    match n, m with
    | O, O => [[]]
    | S n', O => cons true <$> schedules n' O
    | O, S m' => cons false <$> go m'
    | S n', S m' => (cons true <$> schedules n' m) ++ (cons false <$> go m')
    end.

Lemma schedules_true n m sch : sch ∈ schedules n m -> true :: sch ∈ schedules (S n) m.
Proof. intros H. destruct m; cbn [schedules]; [|apply elem_of_app; left]; by apply list_elem_of_fmap_2. Qed.

Lemma schedules_false n m sch : sch ∈ schedules n m -> false :: sch ∈ schedules n (S m).
Proof. intros H. destruct n; cbn [schedules]; [|apply elem_of_app; right]; by apply list_elem_of_fmap_2. Qed.

Lemma micro_step_left t q t' q' : micro_step t q = Ret (t', q') ->
  (t = Finished /\ t' = t /\ q' = q) \/ steps_left t = S (steps_left t').
Proof.
  destruct t; cbn [micro_step]; [| |destruct (_ =? 0); [done|]|]; intros; inv_outcome; simplify_eq; auto.
Qed.

(** Steps of a thread that has finished do nothing, so that one of finitely
    many schedules has the same result. *)
Lemma interleave_schedules sch t1 t2 q q' :
  interleave sch t1 t2 q = Ret (Finished, Finished, q') ->
  exists sch', sch' ∈ schedules (steps_left t1) (steps_left t2) /\
               interleave sch' t1 t2 q = Ret (Finished, Finished, q').
Proof.
  revert t1 t2 q. induction sch as [|[] sch IH]; intros t1 t2 q Hrun; cbn [interleave] in Hrun.
  - inv_outcome. simplify_eq. exists []. split; [by apply list_elem_of_singleton|done].
  - apply bind_Ret in Hrun as ([t1' q1] & Hstep & Hrun).
    destruct (IH _ _ _ Hrun) as (sch' & Hin & Hrun').
    destruct (micro_step_left _ _ _ _ Hstep) as [(-> & -> & ->)|Hl]; [by exists sch'|].
    exists (true :: sch'). rewrite Hl. split; [by apply schedules_true|]. cbn [interleave]. by rewrite Hstep.
  - apply bind_Ret in Hrun as ([t2' q1] & Hstep & Hrun).
    destruct (IH _ _ _ Hrun) as (sch' & Hin & Hrun').
    destruct (micro_step_left _ _ _ _ Hstep) as [(-> & -> & ->)|Hl]; [by exists sch'|].
    exists (false :: sch'). rewrite Hl. split; [by apply schedules_false|]. cbn [interleave]. by rewrite Hstep.
Qed.

Lemma micro_step_total t q : 0 < capacityZ q ->
  exists t' q', micro_step t q = Ret (t', q') /\ capacityZ q' = capacityZ q.
Proof.
  intros Hc. destruct t; cbn [micro_step]; eauto. unfold capacityZ in Hc.
  replace (sizeZ (queue q) =? 0) with false by lia. rewrite storeZ_total by (apply mod_in_capacity, Hc).
  do 2 eexists. split; [done|]. unfold capacityZ, sizeZ. cbn. by rewrite length_insert.
Qed.

Lemma interleave_total sch t1 t2 q : 0 < capacityZ q ->
  exists t1' t2' q', interleave sch t1 t2 q = Ret (t1', t2', q') /\ capacityZ q' = capacityZ q.
Proof.
  revert t1 t2 q. induction sch as [|[] sch IH]; intros t1 t2 q Hc; cbn [interleave]; [eauto|..].
  - destruct (micro_step_total t1 q Hc) as (t & q' & -> & Hq). cbn [bind]. rewrite <- Hq. apply IH. by rewrite Hq.
  - destruct (micro_step_total t2 q Hc) as (t & q' & -> & Hq). cbn [bind]. rewrite <- Hq. apply IH. by rewrite Hq.
Qed.

(** What two finished calls leave behind: both payments, in either order, or
    only one of them. *)
Lemma finished_calls sch q r1 r2 q' :
  1 < capacityZ q -> 0 <= q.(tail) -> q.(tail) + 2 < 2 ^ 64 ->
  interleave sch (Start r1) (Start r2) q = Ret (Finished, Finished, q') ->
  q' = put (put q r1) r2 \/ q' = put (put q r2) r1 \/ q' = put q r1 \/ q' = put q r2.
Proof.
  intros H1 H0 Hmax Hrun. assert (Hc : 0 < capacityZ q) by lia. apply interleave_schedules in Hrun as (sch' & Hin & Hrun). clear sch.
  cbn [steps_left] in Hin.
  set (l := schedules 3 3) in Hin. vm_compute in l. subst l.
  assert (Hu : u64 (tail q + 1) = tail q + 1) by (apply u64_small; lia).
  assert (Hu2 : u64 (tail q + 1 + 1) = tail q + 1 + 1) by (apply u64_small; lia).
  assert (Hne : Z.to_nat (tail q mod capacityZ q) <> Z.to_nat ((tail q + 1) mod capacityZ q)).
  { pose proof (mod_distinct (capacityZ q) (tail q) (tail q + 1)). pose proof (mod_in_capacity q (tail q) Hc).
    pose proof (mod_in_capacity q (tail q + 1) Hc). lia. }
  assert (Hput : forall r r', put (put q r) r' = mkWorkerQueue (<[Z.to_nat ((tail q + 1) mod capacityZ q) := r']> (<[Z.to_nat (tail q mod capacityZ q) := r]> (queue q))) (head q) (tail q + 1 + 1)).
  { intros r r'. unfold put at 1. rewrite capacity_put. cbn [put tail queue head]. by rewrite Hu, Hu2. }
  assert (Hput1 : forall r, put q r = mkWorkerQueue (<[Z.to_nat (tail q mod capacityZ q) := r]> (queue q)) (head q) (tail q + 1)).
  { intros r. unfold put. by rewrite Hu. }
  assert (Hstore : forall (qs : list RawPayment) i r, length qs = length (queue q) -> storeZ qs (i mod capacityZ q) r = Ret (<[Z.to_nat (i mod capacityZ q) := r]> qs)).
  { intros qs i r Hqs. apply storeZ_total. unfold sizeZ. rewrite Hqs. apply mod_in_capacity, Hc. }
  assert (Hsize : forall i r, sizeZ (<[i := r]> (queue q)) = capacityZ q) by (intros; unfold sizeZ; by rewrite length_insert).
  assert (Hsize2 : sizeZ (queue q) = capacityZ q) by done.
  rewrite !Hput, !Hput1.
  assert (Hz : (capacityZ q =? 0) = false) by lia.
  repeat match type of Hin with
  | _ ∈ _ :: _ => apply elem_of_cons in Hin as [->|Hin];
     [do 2 (cbn [interleave micro_step bind queue head tail] in Hrun; rewrite ?Hu, ?Hu2, ?Hsize, ?Hsize2, Hz in Hrun;
            rewrite Hstore in Hrun by (rewrite ?length_insert; done));
      cbn [interleave micro_step bind queue head tail] in Hrun; injection Hrun as <-;
      rewrite ?list_insert_insert_eq; rewrite ?Hu; auto;
      rewrite list_insert_insert_ne by auto; auto|]
  end.
  by apply not_elem_of_nil in Hin.
Qed.

Lemma pending_put_twice q r r' :
  queue_wf q -> q.(tail) - q.(head) + 1 < capacityZ q -> q.(tail) + 2 < 2 ^ 64 ->
  pending (put (put q r) r') = pending q ++ [r; r'].
Proof.
  intros Hwf Hroom Hmax. pose proof Hwf as [Hc Hh Ht Ho]. assert (Hr1 : queue_room q) by (split; lia).
  rewrite !pending_put; try done; [by rewrite <- app_assoc | by apply queue_wf_put |].
  split; rewrite ?capacity_put; simpl; rewrite u64_small; lia.
Qed.

Lemma overlapping_loads q r1 r2 :
  queue_wf q -> q.(tail) - q.(head) + 1 < capacityZ q -> q.(tail) + 2 < 2 ^ 64 ->
  exists q', interleave [true; false; true; false; true; false] (Start r1) (Start r2) q =
               Ret (Finished, Finished, q') /\ pending q' = pending q ++ [r2].
Proof.
  intros Hwf Hroom Hmax. pose proof Hwf as [Hc Hh Ht Ho]. exists (put q r2). split; [|by apply pending_put; [|split; lia]].
  cbn [interleave micro_step bind queue head tail].
  unfold capacityZ in *. replace (sizeZ (queue q) =? 0) with false by lia.
  rewrite storeZ_total by (apply mod_in_capacity, Hc). cbn [bind queue head tail].
  assert (Hs : sizeZ (<[Z.to_nat (tail q mod sizeZ (queue q)) := r1]> (queue q)) = sizeZ (queue q))
    by (unfold sizeZ; by rewrite length_insert).
  rewrite Hs. replace (sizeZ (queue q) =? 0) with false by lia.
  rewrite storeZ_total by (rewrite Hs; apply mod_in_capacity, Hc). cbn [bind].
  unfold put. by rewrite list_insert_insert_eq.
Qed.


(** Two requests to the same queue at once: if one call of [enqueue] runs
    before the other both payments are outstanding afterwards, in that order;
    if the loads of [q.tail] overlap, both calls finish, and only the payment
    written last is outstanding: the other one is lost. *)
Theorem concurrent_enqueue (q : WorkerQueue) (r1 r2 : RawPayment) :
  queue_wf q -> q.(tail) - q.(head) + 1 < capacityZ q -> q.(tail) + 2 < 2 ^ 64 ->
  (exists q', interleave [true; true; true; false; false; false] (Start r1) (Start r2) q =
                Ret (Finished, Finished, q') /\ pending q' = pending q ++ [r1; r2]) /\
  (exists q', interleave [true; false; true; false; true; false] (Start r1) (Start r2) q =
                Ret (Finished, Finished, q') /\ pending q' = pending q ++ [r2]).
Proof.
  intros Hwf Hroom Hmax. pose proof Hwf as [Hc Hh Ht Ho].
  split; [|by apply overlapping_loads].
  exists (put (put q r1) r2).
  change [true; true; true; false; false; false] with ([true; true; true] ++ [false; false; false]).
  rewrite interleave_app, micro_alone by done. cbn [bind].
  rewrite micro_alone2 by (by rewrite capacity_put). split; [done|]. by apply pending_put_twice.
Qed.

Lemma concurrent_enqueue_witness :
  let q := new_queue 4 in
  (exists q', interleave [true; true; true; false; false; false]
                (Start (sample_payment 1)) (Start (sample_payment 2)) q =
                Ret (Finished, Finished, q') /\
              pending q' = pending q ++ [sample_payment 1; sample_payment 2]) /\
  (exists q', interleave [true; false; true; false; true; false]
                (Start (sample_payment 1)) (Start (sample_payment 2)) q =
                Ret (Finished, Finished, q') /\ pending q' = pending q ++ [sample_payment 2]).
Proof.
  intros q. apply (concurrent_enqueue q (sample_payment 1) (sample_payment 2)).
  - apply new_queue_wf. lia.
  - reflexivity.
  - reflexivity.
Defined.

Lemma enqueue_finished q r1 r2 sch q' :
  queue_wf q -> q.(tail) - q.(head) + 1 < capacityZ q -> q.(tail) + 2 < 2 ^ 64 ->
  interleave sch (Start r1) (Start r2) q = Ret (Finished, Finished, q') ->
  exists new, pending q' = pending q ++ new /\ new ∈ [[r1; r2]; [r2; r1]; [r1]; [r2]].
Proof.
  intros Hwf Hroom Hmax Hrun. pose proof Hwf as [Hc Hh Ht Ho].
  assert (Hput2 : forall r r', pending (put (put q r) r') = pending q ++ [r; r'])
    by (intros; by apply pending_put_twice).
  assert (Hroom1 : queue_room q) by (split; lia).
  apply finished_calls in Hrun as [->|[->|[->| ->]]]; [..|lia|lia|lia];
    (eexists; split; [first [apply Hput2|by apply pending_put]|]); rewrite !elem_of_cons; tauto.
Qed.

Definition both_finished (t1 t2 : pc) : bool :=
  match t1, t2 with Finished, Finished => true | _, _ => false end.

(** C25. Two requests to the same queue at once, with room for both, under every schedule of their
    memory accesses: nothing undefined happens, and when both calls have
    finished the outstanding payments are those before and either both new ones,
    in one of the two orders, or only one of them.  The loss is real: when the
    loads of [q.tail] overlap, both calls finish and the payment written first
    is gone. *)
Theorem enqueue_interleavings (q : WorkerQueue) (r1 r2 : RawPayment) :
  queue_wf q -> q.(tail) - q.(head) + 1 < capacityZ q -> q.(tail) + 2 < 2 ^ 64 ->
  (forall schedule, exists t1 t2 q', interleave schedule (Start r1) (Start r2) q = Ret (t1, t2, q') /\
     (both_finished t1 t2 = true ->
      exists new, pending q' = pending q ++ new /\ new ∈ [[r1; r2]; [r2; r1]; [r1]; [r2]])) /\
  (exists q', interleave [true; false; true; false; true; false] (Start r1) (Start r2) q =
                Ret (Finished, Finished, q') /\ pending q' = pending q ++ [r2]).
Proof.
  intros Hwf Hroom Hmax. split; [|by apply overlapping_loads].
  intros sch. pose proof Hwf as [Hc Hh Ht Ho].
  destruct (interleave_total sch (Start r1) (Start r2) q Hc) as (t1 & t2 & q' & Hrun & _).
  exists t1, t2, q'. split; [done|]. intros Hf. destruct t1, t2; try discriminate. by eapply enqueue_finished.
Qed.

Lemma enqueue_interleavings_witness :
  let q := new_queue 4 in let r1 := sample_payment 1 in let r2 := sample_payment 2 in
  (forall schedule, exists t1 t2 q', interleave schedule (Start r1) (Start r2) q = Ret (t1, t2, q') /\
     (both_finished t1 t2 = true ->
      exists new, pending q' = pending q ++ new /\ new ∈ [[r1; r2]; [r2; r1]; [r1]; [r2]])) /\
  (exists q', interleave [true; false; true; false; true; false] (Start r1) (Start r2) q =
                Ret (Finished, Finished, q') /\ pending q' = pending q ++ [r2]).
Proof.
  intros q r1 r2. apply (enqueue_interleavings q r1 r2).
  - apply new_queue_wf. lia.
  - reflexivity.
  - reflexivity.
Defined.
