(* ===== verification/Calendar.v ===== *)
(** * Timestamps: parse_timestamp_ms and the requestedAt text

    [parse_timestamp_ms] reads the bounds of a summary query with [sscanf] and
    [timegm]; [create_processor_payload] prints the time of a payment with
    [gmtime_r] and [snprintf].  The library functions are modelled from their
    documented behaviour: the proleptic Gregorian calendar for [timegm] and
    [gmtime_r], the directives [%nd] and literal characters for [sscanf], and
    [%0nd] for [snprintf]. *)
From S2P Require Import Prelude Decimal.

(** ** struct tm and the Gregorian calendar *)
Record tm := mkTm {
  tm_year : Z; tm_mon : Z; tm_mday : Z; tm_hour : Z; tm_min : Z; tm_sec : Z }.

Definition leap (y : Z) : bool :=
  (y mod 4 =? 0) && (negb (y mod 100 =? 0) || (y mod 400 =? 0)).

Definition year_len (y : Z) : Z := if leap y then 366 else 365.

Definition month_lens (y : Z) : list Z :=
  [31; if leap y then 29 else 28; 31; 30; 31; 30; 31; 31; 30; 31; 30; 31].

(** Leap years up to and including year [y]. *)
Definition leaps (y : Z) : Z := y / 4 - y / 100 + y / 400.

(** Days from 1970-01-01 to the first of January of year [y]. *)
Definition days_before_year (y : Z) : Z :=
  365 * (y - 1970) + leaps (y - 1) - leaps 1969.

Definition days_before_month (y m : Z) : Z := foldr Z.add 0 (take (Z.to_nat m) (month_lens y)).

(** [timegm]: seconds since the epoch of a broken-down UTC time; a month out
    of 0..11 is carried into the year, the other fields just add up. *)
Definition timegm (t : tm) : Z :=
  let y := t.(tm_year) + 1900 + t.(tm_mon) / 12 in
  let m := t.(tm_mon) mod 12 in
  let days := days_before_year y + days_before_month y m + (t.(tm_mday) - 1) in
  days * 86400 + t.(tm_hour) * 3600 + t.(tm_min) * 60 + t.(tm_sec).

(** [gmtime_r] on a time at or after the epoch: the year and then the month
    are found by subtracting their lengths. *)
Fixpoint split_year (fuel : nat) (y d : Z) : Z * Z :=
  match fuel with
  | O => (y, d)
  | S fuel => if d <? year_len y then (y, d) else split_year fuel (y + 1) (d - year_len y)
  end.

Fixpoint split_month (lens : list Z) (m d : Z) : Z * Z :=
  match lens with
  | [] => (m, d)
  | l :: lens => if d <? l then (m, d) else split_month lens (m + 1) (d - l)
  end.

Definition gmtime (t : Z) : tm :=
  let days := t / 86400 in
  let rem := t mod 86400 in
  let '(y, yday) := split_year (Z.to_nat (days / 365 + 1)) 1970 days in
  let '(m, d) := split_month (month_lens y) 0 yday in
  mkTm (y - 1900) m (d + 1) (rem / 3600) (rem mod 3600 / 60) (rem mod 60).

(** ** sscanf *)
Inductive directive := ScanInt (width : nat) | ScanChar (c : Z).

Fixpoint take_digits (width : nat) (s : list Z) : list Z * list Z :=
  match width, s with
  | S width, c :: s' =>
      if isdigit c then let '(ds, rest) := take_digits width s' in (c :: ds, rest)
      else ([], s)
  | _, _ => ([], s)
  end.

Fixpoint skip_spaces (s : list Z) : list Z :=
  match s with
  | c :: s' => if isspace c then skip_spaces s' else s
  | [] => []
  end.

(** [%<width>d]: white space is skipped, a sign counts towards the width and
    at least one digit is needed. *)
Definition scan_int (width : nat) (s : list Z) : option (Z * list Z) :=
  let s := skip_spaces s in
  let '(neg, width, s) :=
    match s with
    | c :: s' => if c =? 45 then (true, pred width, s')
                 else if c =? 43 then (false, pred width, s')
                 else (false, width, s)
    | [] => (false, width, s)
    end in
  let '(ds, rest) := take_digits width s in
  match ds with
  | [] => None
  | _ => Some ((if neg : bool then - dec_value ds else dec_value ds), rest)
  end.

(** The values assigned, in order, up to the first failure; their number is
    what [sscanf] returns (or [EOF], which no caller takes for a full match). *)
Fixpoint sscanf (fmt : list directive) (s : list Z) : list Z :=
  match fmt with
  | [] => []
  | ScanInt w :: fmt =>
      match scan_int w s with
      | Some (v, rest) => v :: sscanf fmt rest
      | None => []
      end
  | ScanChar c :: fmt =>
      match s with
      | c' :: rest => if c' =? c then sscanf fmt rest else []
      | [] => []
      end
  end.

(** [std::string::c_str] as a C function reads it: up to the first NUL. *)
Fixpoint c_str (s : list Z) : list Z :=
  match s with
  | [] => []
  | c :: s => if c =? 0 then [] else c :: c_str s
  end.

(** ["%4d-%2d-%2dT%2d:%2d:%2d.%3dZ"] *)
Definition timestamp_format : list directive :=
  [ScanInt 4; ScanChar 45; ScanInt 2; ScanChar 45; ScanInt 2; ScanChar 84;
   ScanInt 2; ScanChar 58; ScanInt 2; ScanChar 58; ScanInt 2; ScanChar 46;
   ScanInt 3; ScanChar 90].

(** [parse_timestamp_ms] *)
Definition parse_timestamp_ms (ts : list Z) : Z :=
  match sscanf timestamp_format (c_str ts) with
  | [year; mon; mday; hour; min; sec; ms] =>
      let seconds := timegm (mkTm (year - 1900) (mon - 1) mday hour min sec) in
      u64 (u64 (u64 seconds * 1000) + u64 ms)
  | _ => 0
  end.

(** The [snprintf] of [create_processor_payload]:
    ["%04d-%02d-%02dT%02d:%02d:%02d.000Z"]. *)
Definition requestedAt (now : Z) : list Z :=
  let t := gmtime now in
  pad0 4 (t.(tm_year) + 1900) ++ 45 :: pad0 2 (t.(tm_mon) + 1) ++ 45 :: pad0 2 t.(tm_mday)
  ++ 84 :: pad0 2 t.(tm_hour) ++ 58 :: pad0 2 t.(tm_min) ++ 58 :: pad0 2 t.(tm_sec)
  ++ str ".000Z".

Example requestedAt_sample : requestedAt 1751371506 = str "2025-07-01T12:05:06.000Z".
Proof. vm_compute. reflexivity. Qed.

Example parse_sample : parse_timestamp_ms (str "2025-07-01T12:05:06.789Z") = 1751371506789.
Proof. vm_compute. reflexivity. Qed.

(** ** The calendar functions are inverse to each other *)

Lemma days_before_year_succ y : days_before_year (y + 1) = days_before_year y + year_len y.
Proof.
  unfold days_before_year, year_len, leaps, leap.
  replace (y + 1 - 1) with y by lia.
  destruct (Z.eqb_spec (y mod 4) 0), (Z.eqb_spec (y mod 100) 0), (Z.eqb_spec (y mod 400) 0);
    simpl; lia_div.
Qed.

Lemma days_before_year_mono y y' : y <= y' -> days_before_year y <= days_before_year y'.
Proof. intros. unfold days_before_year, leaps. lia_div. Qed.

Lemma year_len_bounds y : 365 <= year_len y <= 366.
Proof. unfold year_len. case_match; lia. Qed.

Lemma split_year_spec fuel y d :
  0 <= d < 365 * Z.of_nat fuel ->
  let '(y', d') := split_year fuel y d in
  y <= y' /\ 0 <= d' < year_len y' /\ days_before_year y' + d' = days_before_year y + d.
Proof.
  revert y d. induction fuel as [|fuel IH]; intros y d Hd; [lia|].
  cbn [split_year]. pose proof (year_len_bounds y).
  destruct (Z.ltb_spec d (year_len y)); [lia|].
  specialize (IH (y + 1) (d - year_len y) ltac:(lia)).
  destruct (split_year _ _ _) as [y' d']. rewrite days_before_year_succ in IH. lia.
Qed.

Lemma split_month_spec lens m d :
  Forall (fun l => 0 < l) lens -> 0 <= d < foldr Z.add 0 lens ->
  let '(m', d') := split_month lens m d in
  exists k, m' = m + Z.of_nat k /\ (k < length lens)%nat /\ 0 <= d' /\
            (exists l, lens !! k = Some l /\ d' < l) /\
            foldr Z.add 0 (take k lens) + d' = d.
Proof.
  revert m d. induction lens as [|l lens IH]; intros m d Hpos Hd; [simpl in Hd; lia|].
  inversion Hpos as [|? ? Hl Hrest]; subst. cbn [split_month]. simpl in Hd.
  destruct (Z.ltb_spec d l).
  - exists 0%nat. simpl. split_and!; [lia | lia | lia | eauto | lia].
  - specialize (IH (m + 1) (d - l) Hrest ltac:(lia)).
    destruct (split_month _ _ _) as [m' d']. destruct IH as (k & -> & Hk & H0 & Hl' & Hsum).
    exists (S k). simpl. split_and!; [lia | lia | lia | eauto | lia].
Qed.

Lemma month_lens_bounds y : Forall (fun l => 0 < l <= 31) (month_lens y).
Proof. unfold month_lens. repeat constructor; try case_match; lia. Qed.

Lemma month_lens_sum y : foldr Z.add 0 (month_lens y) = year_len y.
Proof. unfold month_lens, year_len. case_match; reflexivity. Qed.

(** What [gmtime] returns, field by field. *)
Record tm_in_range (t : tm) : Prop := {
  range_mon : 0 <= t.(tm_mon) <= 11;
  range_mday : 1 <= t.(tm_mday) <= 31;
  range_hour : 0 <= t.(tm_hour) <= 23;
  range_min : 0 <= t.(tm_min) <= 59;
  range_sec : 0 <= t.(tm_sec) <= 59;
}.

Lemma gmtime_spec t :
  0 <= t -> tm_in_range (gmtime t) /\ timegm (gmtime t) = t /\
            1970 <= tm_year (gmtime t) + 1900 /\
            days_before_year (tm_year (gmtime t) + 1900) <= t / 86400.
Proof.
  intros Ht. unfold gmtime.
  pose proof (split_year_spec (Z.to_nat (t / 86400 / 365 + 1)) 1970 (t / 86400)) as HY.
  destruct (split_year _ _ _) as [y yd].
  destruct HY as (Hy & Hyd & Hsum); [lia_div|].
  pose proof (split_month_spec (month_lens y) 0 yd) as HM.
  destruct (split_month _ _ _) as [m d].
  destruct HM as (k & -> & Hk & Hd & (l & Hl & Hdl) & Hms).
  { eapply Forall_impl; [apply month_lens_bounds | simpl; lia]. }
  { by rewrite month_lens_sum. }
  assert (Hl31 : 0 < l <= 31).
  { pose proof (month_lens_bounds y) as HF. by apply (Forall_lookup_1 _ _ _ _ HF Hl). }
  change (length (month_lens y)) with 12%nat in Hk.
  change (days_before_year 1970) with 0 in Hsum. simpl.
  replace (y - 1900 + 1900) with y by lia.
  split; [split; simpl; lia_div|]. split; [|split; lia].
  unfold timegm. simpl. rewrite ?Z.add_0_l.
  rewrite (Z.div_small (Z.of_nat k) 12), (Z.mod_small (Z.of_nat k) 12) by lia.
  replace (y - 1900 + 1900 + 0) with y by lia.
  unfold days_before_month. rewrite Nat2Z.id. lia_div.
Qed.

Definition year_10000 : Z := 253402300800.

Lemma gmtime_year t : 0 <= t < year_10000 -> tm_year (gmtime t) + 1900 <= 9999.
Proof.
  intros Ht. destruct (gmtime_spec t) as (_ & _ & _ & Hd); [lia|].
  destruct (Z_le_gt_dec (tm_year (gmtime t) + 1900) 9999); [done|].
  pose proof (days_before_year_mono 10000 (tm_year (gmtime t) + 1900) ltac:(lia)).
  assert (days_before_year 10000 = 2932897) by reflexivity.
  unfold year_10000 in *. lia_div.
Qed.

(** ** Scanning what was printed *)
Lemma take_digits_run ds rest :
  is_digits ds -> take_digits (length ds) (ds ++ rest) = (ds, rest).
Proof.
  induction ds as [|c ds IH]; intros Hd; [by destruct rest|].
  inversion Hd; subst. simpl. rewrite (proj2 (isdigit_true c)) by done.
  by rewrite IH.
Qed.

Lemma digit_not_space c : 48 <= c <= 57 -> isspace c = false.
Proof. unfold isspace. lia. Qed.

Lemma scan_int_run ds rest :
  is_digits ds -> ds <> [] -> scan_int (length ds) (ds ++ rest) = Some (dec_value ds, rest).
Proof.
  intros Hd Hne. destruct ds as [|c ds]; [done|]. unfold scan_int.
  inversion Hd; subst. simpl skip_spaces.
  rewrite digit_not_space by done.
  change (c :: ds ++ rest) with ((c :: ds) ++ rest).
  cbv beta iota zeta. simpl app.
  replace (c =? 45) with false by lia. replace (c =? 43) with false by lia.
  change (c :: ds ++ rest) with ((c :: ds) ++ rest). by rewrite take_digits_run.
Qed.

Lemma scan_int_pad w n rest :
  0 <= n -> (0 < w)%nat -> n < 10 ^ Z.of_nat w ->
  scan_int w (pad0 w n ++ rest) = Some (n, rest).
Proof.
  intros Hn Hw Hlt. pose proof (pad0_length w n Hn Hw Hlt) as Hlen.
  rewrite <- Hlen at 1. rewrite scan_int_run; [by rewrite pad0_value|auto with cpp|].
  intros Hnil. rewrite Hnil in Hlen. simpl in Hlen. lia.
Qed.

Lemma c_str_no_nul s : Forall (fun c => c <> 0) s -> c_str s = s.
Proof.
  induction 1 as [|c s Hc Hs IH]; [done|]. simpl.
  replace (c =? 0) with false by lia. by rewrite IH.
Qed.

(** The text of second [now] and millisecond [ms]; [requestedAt] is the case
    [ms = 0]. *)
Definition timestamp_text (now ms : Z) : list Z :=
  let t := gmtime now in
  pad0 4 (t.(tm_year) + 1900) ++ 45 :: pad0 2 (t.(tm_mon) + 1) ++ 45 :: pad0 2 t.(tm_mday)
  ++ 84 :: pad0 2 t.(tm_hour) ++ 58 :: pad0 2 t.(tm_min) ++ 58 :: pad0 2 t.(tm_sec)
  ++ 46 :: pad0 3 ms ++ [90].

Lemma digits_no_nul s : is_digits s -> Forall (fun c => c <> 0) s.
Proof. intros Hs. eapply Forall_impl; [exact Hs | simpl; lia]. Qed.

Lemma timestamp_text_no_nul now ms :
  0 <= now -> 0 <= ms -> Forall (fun c => c <> 0) (timestamp_text now ms).
Proof.
  intros Hn Hm. destruct (gmtime_spec now) as ([] & _ & Hy & _); [done|].
  unfold timestamp_text.
  repeat match goal with
  | |- Forall _ (pad0 _ _ ++ _) =>
      apply Forall_app; split; [apply digits_no_nul, pad0_digits; lia|]
  | |- Forall _ (_ :: _) => constructor; [lia|]
  end.
  constructor.
Qed.

Lemma sscanf_timestamp y mo d h mi s ms :
  0 <= y < 10000 -> 0 <= mo < 100 -> 0 <= d < 100 -> 0 <= h < 100 -> 0 <= mi < 100 ->
  0 <= s < 100 -> 0 <= ms < 1000 ->
  sscanf timestamp_format
    (pad0 4 y ++ 45 :: pad0 2 mo ++ 45 :: pad0 2 d ++ 84 :: pad0 2 h ++ 58 :: pad0 2 mi
     ++ 58 :: pad0 2 s ++ 46 :: pad0 3 ms ++ [90]) = [y; mo; d; h; mi; s; ms].
Proof.
  intros. unfold timestamp_format.
  repeat (cbn [sscanf]; rewrite scan_int_pad by lia; cbn [sscanf];
          rewrite Z.eqb_refl).
  reflexivity.
Qed.

Lemma timegm_nonneg t :
  0 <= t < year_10000 -> timegm (gmtime t) = t /\ 0 <= tm_year (gmtime t) + 1900 < 10000.
Proof.
  intros Ht. destruct (gmtime_spec t) as (_ & Heq & Hy & _); [lia|].
  pose proof (gmtime_year t Ht). lia.
Qed.

Lemma parse_timestamp_text now ms :
  0 <= now < year_10000 -> 0 <= ms < 1000 ->
  parse_timestamp_ms (timestamp_text now ms) = 1000 * now + ms.
Proof.
  intros Hn Hm. destruct (timegm_nonneg now Hn) as [Heq Hy].
  destruct (gmtime_spec now) as ([] & _); [lia|].
  unfold parse_timestamp_ms. rewrite c_str_no_nul by (apply timestamp_text_no_nul; lia).
  unfold timestamp_text. rewrite sscanf_timestamp by lia.
  replace (tm_year (gmtime now) + 1900 - 1900) with (tm_year (gmtime now)) by lia.
  replace (tm_mon (gmtime now) + 1 - 1) with (tm_mon (gmtime now)) by lia.
  replace (mkTm _ _ _ _ _ _) with (gmtime now) by (by destruct (gmtime now)).
  unfold year_10000 in *. rewrite Heq, (u64_small now), (u64_small ms), (u64_small (now * 1000)) by lia.
  rewrite u64_small; lia.
Qed.

Lemma requestedAt_text now : requestedAt now = timestamp_text now 0.
Proof. reflexivity. Qed.

(** C20. Round trip of timestamps: for every second of the years 1970 to 9999
    and every millisecond, the text [yyyy-mm-ddThh:mm:ss.mmmZ] of that instant
    is read back by [parse_timestamp_ms] as exactly its milliseconds since the
    epoch; in particular the [requestedAt] text the service sends with a
    payment is read back as the payment's second. *)
Theorem timestamp_roundtrip (now ms : Z) :
  0 <= now < year_10000 -> 0 <= ms < 1000 ->
  parse_timestamp_ms (timestamp_text now ms) = 1000 * now + ms /\
  parse_timestamp_ms (requestedAt now) = 1000 * now.
Proof.
  intros Hn Hm. rewrite requestedAt_text, !parse_timestamp_text by lia. lia.
Qed.

Lemma timestamp_roundtrip_witness :
  parse_timestamp_ms (timestamp_text 1751371506 789) = 1000 * 1751371506 + 789 /\
  parse_timestamp_ms (requestedAt 1751371506) = 1000 * 1751371506.
Proof. apply (timestamp_roundtrip 1751371506 789); unfold year_10000; lia. Defined.
