(* ===== verification/Processed.v ===== *)
(** * The processed-payment buckets: store_processed and query

    The service keeps, per processor, one [Summary] for each second since it
    was started, in two vectors of [PROCESSED_CAPACITY] elements.  The file
    models [store_processed] (with its search for the amount in the JSON text)
    and [query], gives the abstract log of stored payments they stand for, and
    proves the refinement, the exact set of payments a query counts, and the
    behaviour at the edges of the buffer. *)
From S2P Require Import Prelude Decimal Types Doubles Calendar.
From Stdlib Require Import SpecFloat.

Definition PROCESSED_CAPACITY : Z := 3000.

(** ** std::string searches *)
Fixpoint is_prefix (pat s : list Z) : bool :=
  match pat, s with
  | [], _ => true
  | p :: pat, c :: s => (p =? c) && is_prefix pat s
  | _ :: _, [] => false
  end.

(** [s.find(pat)] *)
Fixpoint find (pat s : list Z) : option nat :=
  if is_prefix pat s then Some O
  else match s with
       | [] => None
       | _ :: s => S <$> find pat s
       end.

(** [s.find_first_of(set, start)] *)
Fixpoint find_first_of (set s : list Z) : option nat :=
  match s with
  | [] => None
  | c :: s => if existsb (Z.eqb c) set then Some O else S <$> find_first_of set s
  end.

Definition find_first_of_from (set s : list Z) (start : nat) : option nat :=
  (fun i => start + i)%nat <$> find_first_of set (drop start s).

Definition substr (s : list Z) (pos len : nat) : list Z := take len (drop pos s).

(** ** The buckets *)
Record Processed := mkProcessed {
  processed_default : list Summary;
  processed_fallback : list Summary;
  processed_start : Z }.

(** The constructor's [emplace_back(Summary{})] loop. *)
Definition new_processed (base : Z) : Processed :=
  let empty := replicate (Z.to_nat PROCESSED_CAPACITY) summary_zero in
  mkProcessed empty empty (u64 base).

Definition amount_key : list Z := jstr "'amount':".

(** The first half of [store_processed]: the text between ["amount":] and the
    next comma or brace, through [std::stod]; 0.0 when there is no such text. *)
Definition extract_amount (json : list Z) : outcome double :=
  match find amount_key json with
  | None => Ret dzero
  | Some amount_pos =>
      let start_pos := (amount_pos + 9)%nat in
      match find_first_of_from (str ",}") json start_pos with
      | None => Ret dzero
      | Some end_pos => stod (substr json start_pos (end_pos - start_pos))
      end
  end.

(** [s.totalRequests++; s.totalAmount += amount] *)
Definition bump (a : double) (s : Summary) : Summary :=
  mkSummary (u64 (s.(totalRequests) + 1)) (dadd s.(totalAmount) a).

(** Which vector a payment goes to. *)
Definition to_fallback_buffer (fallback_enabled : bool) (processor : ProcessorResult) : bool :=
  if fallback_enabled then bool_decide (processor = Fallback) else false.

Definition bump_at (buffer : list Summary) (i : Z) (a : double) : outcome (list Summary) :=
  let* s := lookupZ buffer i in storeZ buffer i (bump a s).

(** [store_processed] *)
Definition store_processed (fallback_enabled : bool) (json : list Z)
    (processor : ProcessorResult) (timestamp : Z) (p : Processed) : outcome Processed :=
  let* a := extract_amount json in
  let i := u64 (timestamp - p.(processed_start)) in
  if to_fallback_buffer fallback_enabled processor then
    let* b := bump_at p.(processed_fallback) i a in
    Ret (mkProcessed p.(processed_default) b p.(processed_start))
  else
    let* b := bump_at p.(processed_default) i a in
    Ret (mkProcessed b p.(processed_fallback) p.(processed_start)).

(** ** query *)
Definition add_summary (acc s : Summary) : Summary :=
  mkSummary (u64 (acc.(totalRequests) + s.(totalRequests)))
            (dadd acc.(totalAmount) s.(totalAmount)).

(** The loop [for (uint64_t index = from_sec; index <= to_sec; index++)]. *)
Fixpoint query_loop (fuel : nat) (p : Processed) (index to_sec : Z) (result : SummaryPair)
  : outcome SummaryPair :=
  if index <=? to_sec then
    match fuel with
    | O => Undefined FuelExhausted
    | S fuel =>
        let* d := lookupZ p.(processed_default) index in
        let* f := lookupZ p.(processed_fallback) index in
        query_loop fuel p (u64 (index + 1)) to_sec
          (mkSummaryPair (add_summary result.(def) d) (add_summary result.(fb) f))
    end
  else Ret result.

(** The bucket indices the loop runs between: [from_sec] is an [int64_t] and
    [to_sec] a [uint64_t]. *)
Definition from_index (p : Processed) (from_ms : Z) : Z :=
  let from_sec := i64 (u64 (from_ms + 1000) / 1000) in
  let from_sec := i64 (u64 (u64 from_sec - p.(processed_start))) in
  if from_sec <? 0 then 0 else from_sec.

Definition to_index (p : Processed) (to_ms : Z) : Z :=
  let to_sec := u64 (to_ms / 1000 - p.(processed_start)) in
  if to_sec >=? PROCESSED_CAPACITY then PROCESSED_CAPACITY - 1 else to_sec.

Definition query_fuel : nat := Z.to_nat PROCESSED_CAPACITY.

(** [query] once the two bounds are parsed. *)
Definition query_ms (p : Processed) (from_ms to_ms : Z) : outcome SummaryPair :=
  if to_ms <? from_ms then Ret pair_zero
  else query_loop query_fuel p (from_index p from_ms) (to_index p to_ms) pair_zero.

Definition query (p : Processed) (from to : list Z) : outcome SummaryPair :=
  query_ms p (parse_timestamp_ms from) (parse_timestamp_ms to).

(** ** The abstract log of stored payments *)
Record entry := mkEntry { e_fallback : bool; e_sec : Z; e_amount : double }.

Definition in_window (fallback : bool) (lo hi : Z) (e : entry) : bool :=
  Bool.eqb e.(e_fallback) fallback && (lo <=? e.(e_sec)) && (e.(e_sec) <=? hi).

Definition hits (fallback : bool) (lo hi : Z) (log : list entry) : list entry :=
  List.filter (in_window fallback lo hi) log.

(** The bucket of one second: the payments of that second, in order. *)
Definition bucket (fallback : bool) (log : list entry) (sec : Z) : Summary :=
  fold_left (fun s e => bump e.(e_amount) s) (hits fallback sec sec log) summary_zero.

(** The vector of the buckets from second [start] on. *)
Definition buckets (fallback : bool) (log : list entry) (start : Z) : list Summary :=
  bucket fallback log <$> seqZ start PROCESSED_CAPACITY.

(** [p] holds exactly the payments of [log]. *)
Record represents (p : Processed) (log : list entry) : Prop := {
  rep_start : 0 <= p.(processed_start) < 2 ^ 50;
  rep_default : p.(processed_default) = buckets false log p.(processed_start);
  rep_fallback : p.(processed_fallback) = buckets true log p.(processed_start);
  rep_range : Forall (fun e => p.(processed_start) <= e.(e_sec) <
                               p.(processed_start) + PROCESSED_CAPACITY) log;
}.

(** ** Facts on the log *)
Lemma hits_app k lo hi log log' : hits k lo hi (log ++ log') = hits k lo hi log ++ hits k lo hi log'.
Proof. apply List.filter_app. Qed.

Lemma bucket_snoc k log e sec :
  bucket k (log ++ [e]) sec =
  if in_window k sec sec e then bump e.(e_amount) (bucket k log sec) else bucket k log sec.
Proof.
  unfold bucket. rewrite hits_app. simpl.
  case_match; [by rewrite fold_left_app | by rewrite app_nil_r].
Qed.

Lemma buckets_length k log start : length (buckets k log start) = Z.to_nat PROCESSED_CAPACITY.
Proof. unfold buckets. by rewrite length_fmap, length_seqZ. Qed.

Lemma buckets_nth k log start i :
  Z.of_nat i < PROCESSED_CAPACITY ->
  buckets k log start !! i = Some (bucket k log (start + Z.of_nat i)).
Proof. intros Hi. unfold buckets. by rewrite list_lookup_fmap, lookup_seqZ_lt. Qed.

Lemma buckets_lookup k log start i :
  0 <= i < PROCESSED_CAPACITY ->
  lookupZ (buckets k log start) i = Ret (bucket k log (start + i)).
Proof.
  intros Hi. apply lookupZ_Ret. split; [lia|]. rewrite buckets_nth by lia.
  by rewrite Z2Nat.id by lia.
Qed.

Lemma buckets_ext k log log' start :
  (forall i, 0 <= i < PROCESSED_CAPACITY -> bucket k log (start + i) = bucket k log' (start + i)) ->
  buckets k log start = buckets k log' start.
Proof.
  intros Heq. unfold buckets. apply list_fmap_ext. intros i x Hx%lookup_seqZ.
  destruct Hx as [-> Hi]. apply Heq. lia.
Qed.

(** A payment touches the bucket of its second in its own vector only. *)
Lemma buckets_other k log e start :
  e.(e_fallback) <> k -> buckets k (log ++ [e]) start = buckets k log start.
Proof.
  intros Hk. apply buckets_ext. intros i _. rewrite bucket_snoc. unfold in_window.
  destruct (Bool.eqb_spec (e_fallback e) k); [done|reflexivity].
Qed.

Lemma buckets_bump log e start :
  start <= e.(e_sec) < start + PROCESSED_CAPACITY ->
  bump_at (buckets e.(e_fallback) log start) (e.(e_sec) - start) e.(e_amount) =
  Ret (buckets e.(e_fallback) (log ++ [e]) start).
Proof.
  intros Hr. unfold bump_at. rewrite buckets_lookup by lia. cbn [bind].
  rewrite storeZ_total by (unfold sizeZ; rewrite buckets_length; lia). f_equal.
  apply list_eq. intros i.
  destruct (decide (Z.of_nat i < PROCESSED_CAPACITY)) as [Hi|Hi].
  2: { rewrite !lookup_ge_None_2; rewrite ?length_insert, ?buckets_length; [done|lia..]. }
  rewrite buckets_nth, bucket_snoc by done.
  rewrite list_lookup_insert, buckets_nth, buckets_length by done. unfold in_window.
  destruct (Bool.eqb_spec (e_fallback e) (e_fallback e)); [|done].
  case_decide as Hd.
  - replace (start + Z.of_nat i) with (e_sec e) by lia.
    replace (start + (e_sec e - start)) with (e_sec e) by lia.
    by rewrite Z.leb_refl.
  - by replace (_ && _ && _) with false by lia.
Qed.

(** ** store_processed appends to the log *)
Lemma bump_at_Ret buffer i a buffer' : bump_at buffer i a = Ret buffer' ->
  exists s, buffer !! Z.to_nat i = Some s /\ buffer' = <[Z.to_nat i := bump a s]> buffer.
Proof.
  intros Hb. apply bind_Ret in Hb as (s & Hl%lookupZ_Ret & Hs). exists s. split; [by destruct Hl|].
  unfold storeZ in Hs. destruct (_ && _); [by injection Hs|discriminate].
Qed.

Lemma store_processed_spec p log fallback_enabled json processor timestamp a :
  represents p log -> extract_amount json = Ret a ->
  p.(processed_start) <= timestamp < p.(processed_start) + PROCESSED_CAPACITY ->
  exists p', store_processed fallback_enabled json processor timestamp p = Ret p' /\
    represents p' (log ++ [mkEntry (to_fallback_buffer fallback_enabled processor) timestamp a]).
Proof.
  intros [Hs Hd Hf Hr] Ha Ht. unfold store_processed. rewrite Ha. cbn [bind].
  unfold PROCESSED_CAPACITY in *. rewrite u64_small by lia.
  set (e := mkEntry _ _ _). rewrite Hd, Hf.
  assert (Hrange : Forall (fun e => processed_start p <= e_sec e <
                                    processed_start p + PROCESSED_CAPACITY) (log ++ [e])).
  { apply Forall_app. split; [done|]. by apply Forall_singleton. }
  pose proof (buckets_bump log e (processed_start p) Ht) as Hb.
  change (e_sec e) with timestamp in Hb. change (e_amount e) with a in Hb.
  change (e_fallback e) with (to_fallback_buffer fallback_enabled processor) in Hb.
  destruct (to_fallback_buffer fallback_enabled processor) eqn:E; rewrite Hb; cbn [bind].
  - eexists; split; [done|]. split; simpl; try done. by rewrite buckets_other.
  - eexists; split; [done|]. split; simpl; try done. by rewrite buckets_other.
Qed.

(** ** What query adds up *)
Definition window_summary (k : bool) (log : list entry) (lo hi : Z) (acc : Summary) : Summary :=
  fold_left add_summary (bucket k log <$> seqZ lo (hi - lo + 1)) acc.

Lemma query_loop_spec p log fuel index to_sec acc :
  represents p log -> 0 <= index -> to_sec < PROCESSED_CAPACITY ->
  to_sec - index + 1 <= Z.of_nat fuel ->
  query_loop fuel p index to_sec acc =
  Ret (mkSummaryPair
    (window_summary false log (p.(processed_start) + index) (p.(processed_start) + to_sec) acc.(def))
    (window_summary true log (p.(processed_start) + index) (p.(processed_start) + to_sec) acc.(fb))).
Proof.
  intros Hrep. pose proof Hrep as [Hs Hd Hf _].
  revert index acc. induction fuel as [|fuel IH]; intros index acc Hi Ht Hfuel;
    cbn [query_loop]; destruct (Z.leb_spec index to_sec) as [Hle|Hle]; [lia| | |].
  1, 3: unfold window_summary; rewrite seqZ_nil by lia; by destruct acc.
  rewrite Hd, Hf, !buckets_lookup by lia. cbn [bind]. unfold PROCESSED_CAPACITY in *.
  rewrite u64_small, IH by lia. cbn [def fb]. unfold window_summary.
  rewrite (seqZ_cons (processed_start p + index)) by lia. csimpl.
  by replace (processed_start p + to_sec - (processed_start p + (index + 1)) + 1)
    with (Z.pred (processed_start p + to_sec - (processed_start p + index) + 1)) by lia;
    replace (processed_start p + (index + 1)) with (Z.succ (processed_start p + index)) by lia.
Qed.

(** The indices, in the range of dates that do not wrap around. *)
Lemma from_index_spec p from_ms :
  0 <= p.(processed_start) < 2 ^ 50 -> 0 <= from_ms < 2 ^ 62 ->
  p.(processed_start) + from_index p from_ms = Z.max p.(processed_start) (from_ms / 1000 + 1).
Proof.
  intros Hs Hf. unfold from_index.
  assert (Hq : (from_ms + 1000) / 1000 = from_ms / 1000 + 1) by
    (replace (from_ms + 1000) with (from_ms + 1 * 1000) by lia; apply Z.div_add; lia).
  assert (0 <= from_ms / 1000 <= from_ms) by lia_div.
  rewrite (u64_small (from_ms + 1000)), Hq, (i64_small (_ + 1)), (u64_small (_ + 1)) by lia.
  set (x := from_ms / 1000 + 1 - processed_start p).
  assert (Hx : i64 (u64 x) = x).
  { unfold i64, u64. rewrite Zplus_mod_idemp_l, Z.mod_small; lia. }
  rewrite Hx. destruct (Z.ltb_spec x 0); lia.
Qed.

Lemma to_index_spec p to_ms :
  0 <= p.(processed_start) < 2 ^ 50 -> 0 <= to_ms < 2 ^ 62 ->
  p.(processed_start) <= to_ms / 1000 ->
  p.(processed_start) + to_index p to_ms =
  Z.min (to_ms / 1000) (p.(processed_start) + PROCESSED_CAPACITY - 1).
Proof.
  intros Hs Ht Hge. unfold to_index.
  assert (0 <= to_ms / 1000 <= to_ms) by lia_div.
  rewrite u64_small by lia.
  destruct (Z.geb_spec (to_ms / 1000 - processed_start p) PROCESSED_CAPACITY); lia.
Qed.

(** A bound before the start wraps around to the last bucket. *)
Lemma to_index_wraps p to_ms :
  0 <= p.(processed_start) < 2 ^ 50 -> 0 <= to_ms -> to_ms / 1000 < p.(processed_start) ->
  to_index p to_ms = PROCESSED_CAPACITY - 1.
Proof.
  intros Hs Ht Hlt. unfold to_index.
  assert (0 <= to_ms / 1000) by lia_div.
  assert (Hu : u64 (to_ms / 1000 - processed_start p) =
               to_ms / 1000 - processed_start p + 2 ^ 64).
  { unfold u64. symmetry. apply (Z.mod_unique _ _ (-1)); lia. }
  rewrite Hu. unfold PROCESSED_CAPACITY in *.
  by replace (_ >=? 3000) with true by lia.
Qed.

(** ** Counting *)
Lemma in_window_unfold k lo hi e :
  in_window k lo hi e = Bool.eqb e.(e_fallback) k && (lo <=? e.(e_sec)) && (e.(e_sec) <=? hi).
Proof. done. Qed.

Lemma hits_split k lo mid hi log :
  lo <= mid <= hi ->
  length (hits k lo hi log) =
  (length (hits k lo mid log) + length (hits k (mid + 1) hi log))%nat.
Proof.
  intros Hm. induction log as [|e log IH]; [done|]. unfold hits in *. simpl.
  rewrite !in_window_unfold. destruct (Bool.eqb (e_fallback e) k); simpl; [|exact IH].
  destruct (Z.leb_spec lo (e_sec e)), (Z.leb_spec (e_sec e) hi), (Z.leb_spec (e_sec e) mid),
    (Z.leb_spec (mid + 1) (e_sec e)); simpl; lia.
Qed.

Lemma bucket_count k log sec : totalRequests (bucket k log sec) = u64 (Z.of_nat (length (hits k sec sec log))).
Proof.
  unfold bucket. induction (hits k sec sec log) as [|e l IH] using rev_ind; [done|].
  rewrite fold_left_app, length_app. simpl. rewrite IH. unfold u64.
  rewrite Zplus_mod_idemp_l. f_equal. lia.
Qed.

Lemma window_count_from k log lo n acc :
  0 <= n ->
  totalRequests (fold_left add_summary (bucket k log <$> seqZ lo n) acc) mod 2 ^ 64 =
  (totalRequests acc + Z.of_nat (length (hits k lo (lo + n - 1) log))) mod 2 ^ 64.
Proof.
  intros Hn. revert lo acc. pattern n. apply natlike_ind; [| |done]; clear n Hn.
  - intros lo acc. simpl. replace (hits k lo (lo + 0 - 1) log) with (@nil entry).
    + f_equal. simpl. lia.
    + unfold hits. symmetry. induction log as [|e log IH]; [done|]. simpl. rewrite in_window_unfold.
      replace (_ && _ && _) with false by lia. exact IH.
  - intros n Hn IH lo acc. rewrite seqZ_cons by lia. csimpl. rewrite Z.pred_succ, IH.
    unfold add_summary. simpl. rewrite bucket_count. unfold u64.
    rewrite (hits_split k lo lo (lo + Z.succ n - 1)) by lia.
    replace (Z.succ lo + n - 1) with (lo + Z.succ n - 1) by lia.
    change (lo + 1) with (Z.succ lo).
    rewrite Zplus_mod_idemp_r, Zplus_mod_idemp_l. f_equal. lia.
Qed.

Lemma window_summary_u64 k log lo hi acc :
  0 <= totalRequests acc < 2 ^ 64 -> 0 <= totalRequests (window_summary k log lo hi acc) < 2 ^ 64.
Proof.
  unfold window_summary. generalize (bucket k log <$> seqZ lo (hi - lo + 1)). intros l.
  revert acc. induction l as [|s l IH]; intros acc Hacc; [done|]. simpl. apply IH, u64_range.
Qed.

Lemma hits_empty k lo hi log : hi < lo -> hits k lo hi log = [].
Proof.
  intros. unfold hits. induction log as [|e log IH]; [done|]. simpl.
  rewrite in_window_unfold. by replace (_ && _ && _) with false by lia.
Qed.

Lemma window_count k log lo hi :
  totalRequests (window_summary k log lo hi summary_zero) =
  u64 (Z.of_nat (length (hits k lo hi log))).
Proof.
  rewrite <- (u64_small _ (window_summary_u64 k log lo hi summary_zero ltac:(simpl; lia))).
  unfold window_summary, u64. destruct (Z_le_gt_dec lo (hi + 1)).
  - rewrite window_count_from by lia. simpl. by replace (lo + (hi - lo + 1) - 1) with hi by lia.
  - rewrite seqZ_nil, hits_empty by lia. done.
Qed.

(** The payments of [log] with a second strictly after [from_ms] and not after
    [to_ms]. *)
Definition counted (k : bool) (from_ms to_ms : Z) (log : list entry) : Z :=
  Z.of_nat (length (List.filter (fun e =>
    Bool.eqb e.(e_fallback) k && (from_ms <? 1000 * e.(e_sec)) && (1000 * e.(e_sec) <=? to_ms)) log)).

Lemma hits_counted k start from_ms to_ms log :
  Forall (fun e => start <= e.(e_sec) < start + PROCESSED_CAPACITY) log ->
  Z.of_nat (length (hits k (Z.max start (from_ms / 1000 + 1))
                          (Z.min (to_ms / 1000) (start + PROCESSED_CAPACITY - 1)) log)) =
  counted k from_ms to_ms log.
Proof.
  intros HF. unfold counted, hits. do 2 f_equal. apply List.filter_ext_in. intros e He.
  rewrite List.Forall_forall in HF. specialize (HF e He). rewrite in_window_unfold.
  destruct (Bool.eqb (e_fallback e) k); [|done].
  assert ((from_ms <? 1000 * e_sec e) = (from_ms / 1000 + 1 <=? e_sec e)) as -> by lia_div.
  assert ((1000 * e_sec e <=? to_ms) = (e_sec e <=? to_ms / 1000)) as -> by lia_div.
  lia.
Qed.

Lemma query_ms_spec p log from_ms to_ms :
  represents p log -> 0 <= from_ms <= to_ms -> to_ms < 2 ^ 62 ->
  p.(processed_start) <= to_ms / 1000 ->
  let lo := Z.max p.(processed_start) (from_ms / 1000 + 1) in
  let hi := Z.min (to_ms / 1000) (p.(processed_start) + PROCESSED_CAPACITY - 1) in
  query_ms p from_ms to_ms = Ret (mkSummaryPair (window_summary false log lo hi summary_zero)
                                                (window_summary true log lo hi summary_zero)).
Proof.
  intros Hrep Hft Ht Hge lo hi. pose proof Hrep as [Hs _ _ _]. unfold query_ms.
  replace (to_ms <? from_ms) with false by lia.
  pose proof (from_index_spec p from_ms Hs ltac:(lia)) as Hfi.
  pose proof (to_index_spec p to_ms Hs ltac:(lia) Hge) as Hti.
  rewrite (query_loop_spec p log) by (done || unfold query_fuel, PROCESSED_CAPACITY in *; lia).
  by rewrite Hfi, Hti.
Qed.

(** ** Initial state and samples *)
Lemma new_processed_represents base :
  0 <= base < 2 ^ 50 -> represents (new_processed base) [].
Proof.
  intros Hb.
  assert (HE : forall k, buckets k [] base = replicate (Z.to_nat PROCESSED_CAPACITY) summary_zero).
  { intros k. unfold buckets. rewrite <- (length_seqZ base PROCESSED_CAPACITY).
    generalize (seqZ base PROCESSED_CAPACITY). intros l.
    induction l as [|x l IH]; [done|]. csimpl. by rewrite IH. }
  split; simpl; rewrite ?u64_small by lia; [lia | by rewrite HE.. | constructor].
Qed.

(** A state that holds a given log by construction. *)
Definition processed_of (start : Z) (log : list entry) : Processed :=
  mkProcessed (buckets false log start) (buckets true log start) start.

Definition sample_start : Z := 1751371500.
Definition sample_log : list entry :=
  [mkEntry false 1751371506 (double_of_Z 20); mkEntry true 1751371507 (double_of_Z 5);
   mkEntry false 1751371510 (double_of_Z 7)].

Lemma sample_represents : represents (processed_of sample_start sample_log) sample_log.
Proof.
  split; simpl; [unfold sample_start; lia | done | done |].
  repeat constructor; simpl; unfold sample_start, PROCESSED_CAPACITY; lia.
Qed.

(** ** Theorems *)

(** C10. Refinement: storing a payment of a second covered by the buckets adds
    one to the count (modulo 2^64) and [a] to the amount of the bucket of that
    second, in the vector of the fallback processor when the fallback is enabled
    and that processor accepted it, in the default vector in every other case; no
    other bucket of either vector changes, nothing is read or written out of
    bounds, and the abstract log is extended by the payment. *)
Theorem store_processed_refines (p : Processed) (log : list entry) (fallback_enabled : bool)
    (json : list Z) (processor : ProcessorResult) (timestamp : Z) (a : double) :
  represents p log -> extract_amount json = Ret a ->
  p.(processed_start) <= timestamp < p.(processed_start) + PROCESSED_CAPACITY ->
  let to_fallback := match fallback_enabled, processor with true, Fallback => true | _, _ => false end in
  let i := Z.to_nat (timestamp - p.(processed_start)) in
  exists p' n x, store_processed fallback_enabled json processor timestamp p = Ret p' /\
    represents p' (log ++ [mkEntry to_fallback timestamp a]) /\
    (if to_fallback then p.(processed_fallback) else p.(processed_default)) !! i = Some (mkSummary n x) /\
    p' = if to_fallback
         then mkProcessed p.(processed_default) (<[i := mkSummary (u64 (n + 1)) (dadd x a)]> p.(processed_fallback)) p.(processed_start)
         else mkProcessed (<[i := mkSummary (u64 (n + 1)) (dadd x a)]> p.(processed_default)) p.(processed_fallback) p.(processed_start).
Proof.
  intros Hrep Ha Ht to_fallback i.
  destruct (store_processed_spec p log fallback_enabled json processor timestamp a Hrep Ha Ht) as (p' & Hstore & Hrep').
  assert (Hf : to_fallback_buffer fallback_enabled processor = to_fallback) by (by destruct fallback_enabled, processor).
  rewrite Hf in Hrep'. pose proof Hstore as Hrun. unfold store_processed in Hrun. rewrite Ha, Hf in Hrun. cbn [bind] in Hrun.
  rewrite u64_small in Hrun by (destruct Hrep as [? _ _ _]; unfold PROCESSED_CAPACITY in *; lia). fold i in Hrun.
  destruct to_fallback; apply bind_Ret in Hrun as (b & Hb & [= <-]); apply bump_at_Ret in Hb as ([n x] & Hl & ->);
    by eexists _, n, x.
Qed.

Lemma store_processed_refines_witness :
  exists p' n x, store_processed true (jstr "{'correlationId':'a','amount':19.90}") Fallback
               (sample_start + 8) (processed_of sample_start sample_log) = Ret p' /\
    represents p' (sample_log ++ [mkEntry true (sample_start + 8) (S754_finite false 0x13E66666666666 (-48))]) /\
    processed_fallback (processed_of sample_start sample_log) !! Z.to_nat (sample_start + 8 - sample_start) = Some (mkSummary n x) /\
    p' = mkProcessed (processed_default (processed_of sample_start sample_log))
           (<[Z.to_nat (sample_start + 8 - sample_start) := mkSummary (u64 (n + 1)) (dadd x (S754_finite false 0x13E66666666666 (-48)))]>
              (processed_fallback (processed_of sample_start sample_log))) sample_start.
Proof.
  apply (store_processed_refines (processed_of sample_start sample_log) sample_log true
    (jstr "{'correlationId':'a','amount':19.90}") Fallback).
  - apply sample_represents.
  - vm_compute. reflexivity.
  - simpl. unfold PROCESSED_CAPACITY. lia.
Defined.



(** A query for a window that ends before the service was started does not
    return an empty summary: the unsigned subtraction wraps around and the
    query adds up every bucket of the service. *)
Theorem query_before_start_returns_all (p : Processed) (log : list entry) (from to : list Z) :
  represents p log ->
  0 <= parse_timestamp_ms from <= parse_timestamp_ms to ->
  parse_timestamp_ms to / 1000 < p.(processed_start) ->
  exists r, query p from to = Ret r /\
    totalRequests r.(def) = u64 (Z.of_nat (length (List.filter (fun e => negb e.(e_fallback)) log))) /\
    totalRequests r.(fb) = u64 (Z.of_nat (length (List.filter e_fallback log))).
Proof.
  intros Hrep Hft Hlt. pose proof Hrep as [Hs _ _ HF].
  set (from_ms := parse_timestamp_ms from) in *. set (to_ms := parse_timestamp_ms to) in *.
  assert (from_ms / 1000 <= to_ms / 1000) by (apply Z.div_le_mono; lia).
  assert (to_ms < 2 ^ 62) by lia_div.
  pose proof (from_index_spec p from_ms Hs ltac:(lia)) as Hfi.
  assert (HQ : query p from to = Ret (mkSummaryPair
    (window_summary false log p.(processed_start) (p.(processed_start) + (PROCESSED_CAPACITY - 1)) summary_zero)
    (window_summary true log p.(processed_start) (p.(processed_start) + (PROCESSED_CAPACITY - 1)) summary_zero))).
  { unfold query, query_ms. fold from_ms to_ms. replace (to_ms <? from_ms) with false by lia.
    rewrite to_index_wraps by lia.
    rewrite (query_loop_spec p log) by (done || unfold query_fuel, PROCESSED_CAPACITY in *; lia).
    by rewrite Hfi, Z.max_l by lia. }
  eexists. split; [exact HQ|]. cbn [def fb]. rewrite !window_count.
  split; do 3 f_equal; unfold hits; apply List.filter_ext_in; intros e He;
    rewrite List.Forall_forall in HF; specialize (HF e He); rewrite in_window_unfold;
    destruct (e_fallback e); simpl; lia.
Qed.

Lemma query_before_start_returns_all_witness :
  let p := processed_of sample_start sample_log in
  exists r, query p (str "2020-01-01T00:00:00.000Z") (str "2020-01-02T00:00:00.000Z") = Ret r /\
    totalRequests r.(def) = u64 (Z.of_nat (length (List.filter (fun e => negb e.(e_fallback)) sample_log))) /\
    totalRequests r.(fb) = u64 (Z.of_nat (length (List.filter e_fallback sample_log))).
Proof.
  intros p. apply (query_before_start_returns_all p sample_log).
  - apply sample_represents.
  - vm_compute. intuition congruence.
  - vm_compute. reflexivity.
Defined.

(** The loop ends within the fuel and in bounds on any state with vectors of
    the full size. *)
Lemma query_loop_total p fuel index to_sec acc :
  sizeZ p.(processed_default) = PROCESSED_CAPACITY ->
  sizeZ p.(processed_fallback) = PROCESSED_CAPACITY ->
  0 <= index -> to_sec < PROCESSED_CAPACITY -> to_sec - index + 1 <= Z.of_nat fuel ->
  exists r, query_loop fuel p index to_sec acc = Ret r.
Proof.
  intros Hd Hf. revert index acc. induction fuel as [|fuel IH]; intros index acc Hi Ht Hn;
    cbn [query_loop]; destruct (Z.leb_spec index to_sec); [lia|eauto| |eauto].
  destruct (lookupZ_total (processed_default p) index) as [d ->]; [lia|].
  destruct (lookupZ_total (processed_fallback p) index) as [f ->]; [lia|].
  cbn [bind]. unfold PROCESSED_CAPACITY in *. rewrite u64_small by lia. apply IH; lia.
Qed.

Lemma from_index_nonneg p from_ms : 0 <= from_index p from_ms.
Proof. unfold from_index. case_match; lia. Qed.

Lemma to_index_bound p to_ms : 0 <= to_index p to_ms < PROCESSED_CAPACITY.
Proof.
  unfold to_index, PROCESSED_CAPACITY. pose proof (u64_range (to_ms / 1000 - processed_start p)).
  case_match; lia.
Qed.

(** C34. [query] is total: whatever the two texts are (malformed, negative,
    reversed, beyond the buffer) and wherever the clock was at the start, the
    loop ends and no bucket is read out of bounds. *)
Theorem query_total (p : Processed) (from to : list Z) :
  sizeZ p.(processed_default) = PROCESSED_CAPACITY ->
  sizeZ p.(processed_fallback) = PROCESSED_CAPACITY ->
  exists r, query p from to = Ret r.
Proof.
  intros Hd Hf. unfold query, query_ms. case_match; [eauto|].
  pose proof (from_index_nonneg p (parse_timestamp_ms from)).
  pose proof (to_index_bound p (parse_timestamp_ms to)).
  apply query_loop_total; [done..| | |]; unfold query_fuel, PROCESSED_CAPACITY in *; lia.
Qed.

Lemma query_total_witness :
  exists r, query (new_processed 1751371500) (str "-999-99-99T99:99:99.-99Z")
              (str "9999-99-99T99:99:99.999") = Ret r.
Proof. apply query_total; reflexivity. Defined.

(** The lower bound of a query is exclusive: a query whose two bounds are
    the [requestedAt] text of second [t] returns no payment, not even the
    payments of that very second. *)
Theorem query_lower_bound_exclusive (p : Processed) (log : list entry) (t : Z) :
  represents p log -> p.(processed_start) <= t < year_10000 ->
  exists r, query p (requestedAt t) (requestedAt t) = Ret r /\
    totalRequests r.(def) = 0 /\ totalRequests r.(fb) = 0.
Proof.
  intros Hrep Ht. pose proof Hrep as [Hs _ _ _].
  assert (HP : parse_timestamp_ms (requestedAt t) = 1000 * t).
  { rewrite requestedAt_text, parse_timestamp_text; lia. }
  assert (Hq : 1000 * t / 1000 = t) by (rewrite Z.mul_comm; apply Z.div_mul; lia).
  unfold query. rewrite HP. unfold year_10000 in *. eexists.
  split; [apply query_ms_spec; [done | lia | lia | lia]|]. cbn [def fb].
  by rewrite Hq, !window_count, !hits_empty by lia.
Qed.

Lemma query_lower_bound_exclusive_witness :
  exists r, query (processed_of sample_start sample_log) (requestedAt 1751371506)
              (requestedAt 1751371506) = Ret r /\
    totalRequests r.(def) = 0 /\ totalRequests r.(fb) = 0.
Proof.
  apply (query_lower_bound_exclusive (processed_of sample_start sample_log) sample_log).
  - apply sample_represents.
  - unfold year_10000. simpl. unfold sample_start. lia.
Defined.

(** The buckets are not a ring: a payment accepted [PROCESSED_CAPACITY]
    seconds or more after the start of the service is written past the end of
    its vector. *)
Theorem store_after_capacity_undefined (p : Processed) (log : list entry) (fallback_enabled : bool)
    (json : list Z) (processor : ProcessorResult) (timestamp : Z) (a : double) :
  represents p log -> extract_amount json = Ret a ->
  p.(processed_start) + PROCESSED_CAPACITY <= timestamp < 2 ^ 64 ->
  store_processed fallback_enabled json processor timestamp p = Undefined OutOfBounds.
Proof.
  intros [Hs Hd Hf _] Ha Ht. unfold store_processed. rewrite Ha. cbn [bind].
  unfold PROCESSED_CAPACITY in Ht. rewrite u64_small by lia.
  assert (HU : forall b, bump_at (buckets b log p.(processed_start))
                           (timestamp - p.(processed_start)) a = Undefined OutOfBounds).
  { intros b. unfold bump_at, lookupZ. replace (_ <? 0) with false by lia.
    rewrite lookup_ge_None_2; [done|].
    rewrite buckets_length. unfold PROCESSED_CAPACITY. lia. }
  rewrite Hd, Hf. case_match; by rewrite HU.
Qed.

Lemma store_after_capacity_undefined_witness :
  store_processed true (jstr "{'correlationId':'a','amount':19.90}") Default
    (sample_start + 3000) (processed_of sample_start sample_log) = Undefined OutOfBounds.
Proof.
  apply (store_after_capacity_undefined _ sample_log _ _ _ _
           (S754_finite false 0x13E66666666666 (-48))).
  - apply sample_represents.
  - vm_compute. reflexivity.
  - simpl. unfold sample_start, PROCESSED_CAPACITY. lia.
Defined.
