(* ===== verification/BucketRace.v ===== *)
(** * store_processed in several threads

    The workers and the threads of the fallback pool book what a processor
    accepted with [s.totalRequests++; s.totalAmount += amount;] on the same
    bucket when they are in the same second, without a lock, and [query] copies
    the bucket meanwhile.  The memory accesses of any number of bookings are
    interleaved by a schedule; the theorem says for every schedule what the
    bucket may hold when all are done. *)
From S2P Require Import Prelude Decimal Types Doubles Calendar Processed.
From Stdlib Require Import SpecFloat.

(** Where a thread is in the two statements. *)
Inductive booking :=
  | BStart
  | BCount (n : Z)           (** [s.totalRequests] is loaded *)
  | BCounted                 (** and stored, incremented *)
  | BAmount (x : double)     (** [s.totalAmount] is loaded *)
  | BDone.                   (** and stored, with the amount added *)

(** One memory access of the booking of [a]. *)
Definition booking_step (a : double) (b : booking) (s : Summary) : booking * Summary :=
  match b with
  | BStart => (BCount s.(totalRequests), s)
  | BCount n => (BCounted, mkSummary (u64 (n + 1)) s.(totalAmount))
  | BCounted => (BAmount s.(totalAmount), s)
  | BAmount x => (BDone, mkSummary s.(totalRequests) (dadd x a))
  | BDone => (BDone, s)
  end.

(** The accesses alone are the two statements. *)
Lemma booking_alone a s :
  let '(b1, s1) := booking_step a BStart s in
  let '(b2, s2) := booking_step a b1 s1 in
  let '(b3, s3) := booking_step a b2 s2 in
  booking_step a b3 s3 = (BDone, bump a s).
Proof. reflexivity. Qed.

(** The threads by their number, each with its amount, and the bucket. *)
Record Cell := mkCell { bookings : list (double * booking); bucket : Summary }.

Definition cell_step (i : nat) (c : Cell) : Cell :=
  match c.(bookings) !! i with
  | None => c
  | Some (a, b) =>
      let '(b, s) := booking_step a b c.(bucket) in mkCell (<[i := (a, b)]> c.(bookings)) s
  end.

Definition cell_run (schedule : list nat) (c : Cell) : Cell := fold_left (fun c i => cell_step i c) schedule c.

Definition new_cell (amounts : list double) (s : Summary) : Cell := mkCell ((fun a => (a, BStart)) <$> amounts) s.

Definition all_booked (c : Cell) : bool :=
  forallb (fun t => match t.2 with BDone => true | _ => false end) c.(bookings).
Definition has_counted (b : booking) : bool := match b with BStart | BCount _ => false | _ => true end.
Definition has_added (b : booking) : bool := match b with BDone => true | _ => false end.

(** The copy [auto def = processed_default[index]] of [query]: two loads. *)
Inductive copying := CStart | CCount (n : Z) | CDone (copy : Summary).

Definition copying_step (c : copying) (s : Summary) : copying :=
  match c with
  | CStart => CCount s.(totalRequests)
  | CCount n => CDone (mkSummary n s.(totalAmount))
  | CDone copy => CDone copy
  end.

(** One booking beside one copy; [true] runs the booking. *)
Fixpoint book_and_copy (schedule : list bool) (a : double) (b : booking) (c : copying) (s : Summary)
  : booking * copying * Summary :=
  match schedule with
  | [] => (b, c, s)
  | true :: schedule => let '(b, s) := booking_step a b s in book_and_copy schedule a b c s
  | false :: schedule => book_and_copy schedule a b (copying_step c s) s
  end.

(** ** The invariant *)
Section Run.
Variables (amounts : list double) (s0 : Summary).

Definition amount_of (i : nat) : double := default dzero (amounts !! i).

(** The bucket's count after the bookings of [order], its amount after them. *)
Definition count_after (order : list nat) : Z := u64 (s0.(totalRequests) + sizeZ order).
Definition amount_after (order : list nat) : double := fold_left dadd (amount_of <$> order) s0.(totalAmount).

(** The threads that have come past [f]. *)
Definition past (f : booking -> bool) (threads : list (double * booking)) (order : list nat) : Prop :=
  NoDup order /\ forall i, i ∈ order -> exists a b, threads !! i = Some (a, b) /\ f b = true.

Record cell_ok (c : Cell) : Prop := {
  ok_amounts : c.(bookings).*1 = amounts;
  ok_count : exists order, past has_counted c.(bookings) order /\ c.(bucket).(totalRequests) = count_after order /\
    (order = [] -> forall i a b, c.(bookings) !! i = Some (a, b) -> has_counted b = false);
  ok_amount : exists order, past has_added c.(bookings) order /\ c.(bucket).(totalAmount) = amount_after order /\
    (order = [] -> forall i a b, c.(bookings) !! i = Some (a, b) -> has_added b = false);
  ok_loaded_count i a n : c.(bookings) !! i = Some (a, BCount n) ->
    exists order, past has_counted c.(bookings) order /\ n = count_after order;
  ok_loaded_amount i a x : c.(bookings) !! i = Some (a, BAmount x) ->
    exists order, past has_added c.(bookings) order /\ x = amount_after order }.

Lemma new_cell_ok : 0 <= s0.(totalRequests) < 2 ^ 64 -> cell_ok (new_cell amounts s0).
Proof.
  intros Hn. assert (Hnil : forall f l, past f l []) by (split; [constructor|set_solver]).
  assert (Hstart : forall i a b, bookings (new_cell amounts s0) !! i = Some (a, b) -> b = BStart).
  { intros i a b. cbn. rewrite list_lookup_fmap. destruct (amounts !! i); cbn; congruence. }
  split.
  - cbn. rewrite <- list_fmap_compose. apply list_fmap_id.
  - exists []. split; [done|]. split; [|intros _ i a b ->%Hstart; done].
    unfold count_after, sizeZ. cbn. by rewrite Z.add_0_r, u64_small.
  - exists []. split; [done|]. split; [done|]. intros _ i a b ->%Hstart. done.
  - by intros i a n ?%Hstart.
  - by intros i a n ?%Hstart.
Qed.

(** A thread that moves on keeps what it has come past. *)
Lemma past_insert f threads i a b b' order :
  threads !! i = Some (a, b) -> (f b = true -> f b' = true) ->
  past f threads order -> past f (<[i := (a, b')]> threads) order.
Proof.
  intros Hi Hf [Hnd Hall]. split; [done|]. intros j Hj. destruct (Hall j Hj) as (a' & b0 & Hj' & Hb0).
  destruct (decide (i = j)) as [<-|Hne].
  - rewrite Hi in Hj'. simplify_eq. rewrite list_lookup_insert_eq by (by eapply lookup_lt_Some). eauto.
  - rewrite list_lookup_insert_ne by done. eauto.
Qed.

Lemma past_snoc f threads i a b b' order :
  threads !! i = Some (a, b) -> f b = false -> f b' = true ->
  past f threads order -> past f (<[i := (a, b')]> threads) (order ++ [i]).
Proof.
  intros Hi Hf Hf' Hp. assert (Hni : i ∉ order).
  { intros Hin. destruct Hp as [_ Hall]. destruct (Hall i Hin) as (? & ? & ? & ?). simplify_eq. congruence. }
  destruct (past_insert f threads i a b b' order Hi) as [Hnd Hall]; [congruence|done|]. split.
  - apply NoDup_app. split_and!; [done| |apply NoDup_singleton]. intros x Hx ->%list_elem_of_singleton. done.
  - intros j [Hj| ->%list_elem_of_singleton]%elem_of_app; [by apply Hall|].
    rewrite list_lookup_insert_eq by (by eapply lookup_lt_Some). eauto.
Qed.

(** A step that stores nothing, or stores into one of the two fields. *)
Lemma booking_step_cases a b s b' s' : booking_step a b s = (b', s') ->
  match b with
  | BStart => b' = BCount s.(totalRequests) /\ s' = s
  | BCount n => b' = BCounted /\ s' = mkSummary (u64 (n + 1)) s.(totalAmount)
  | BCounted => b' = BAmount s.(totalAmount) /\ s' = s
  | BAmount x => b' = BDone /\ s' = mkSummary s.(totalRequests) (dadd x a)
  | BDone => b' = BDone /\ s' = s
  end.
Proof. destruct b; cbn; intros; by simplify_eq. Qed.

Lemma lookup_moved (threads : list (double * booking)) i a b' j a' b0 :
  <[i := (a, b')]> threads !! j = Some (a', b0) -> (j = i /\ (a', b0) = (a, b')) \/ (j <> i /\ threads !! j = Some (a', b0)).
Proof.
  intros Hj. destruct (decide (i = j)) as [<-|Hne]; [left|right].
  - split; [done|]. apply list_lookup_insert_Some in Hj. destruct Hj as [(_ & ? & _)|]; [by simplify_eq|tauto].
  - by rewrite list_lookup_insert_ne in Hj by done.
Qed.

Lemma count_after_snoc order i : u64 (count_after order + 1) = count_after (order ++ [i]).
Proof.
  unfold count_after. rewrite sizeZ_app. change (sizeZ [i]) with 1. unfold u64. rewrite Z.add_mod_idemp_l by lia. f_equal. lia.
Qed.

Lemma amount_after_snoc order i : amount_after (order ++ [i]) = dadd (amount_after order) (amount_of i).
Proof. unfold amount_after. by rewrite fmap_app, fold_left_app. Qed.

Lemma cell_step_ok i c : cell_ok c -> cell_ok (cell_step i c).
Proof.
  intros Hc. unfold cell_step. destruct (bookings c !! i) as [[a b]|] eqn:Hi; [|done].
  destruct (booking_step a b (bucket c)) as [b' s'] eqn:Hb. apply booking_step_cases in Hb.
  destruct Hc as [Ham (oc & Hpc & Hvc & Hec) (oa & Hpa & Hva & Hea) Hlc Hla].
  assert (Hai : amount_of i = a).
  { unfold amount_of. rewrite <- Ham, list_lookup_fmap, Hi. done. }
  assert (Hkc : forall order, past has_counted (bookings c) order -> past has_counted (<[i := (a, b')]> (bookings c)) order).
  { intros order. apply (past_insert _ _ _ _ b); [done|]. by destruct b; destruct_and?; subst. }
  assert (Hka : forall order, past has_added (bookings c) order -> past has_added (<[i := (a, b')]> (bookings c)) order).
  { intros order. apply (past_insert _ _ _ _ b); [done|]. by destruct b; destruct_and?; subst. }
  split; cbn [bookings bucket].
  - rewrite list_fmap_insert. cbn. rewrite Ham. apply list_insert_id. by rewrite <- Ham, list_lookup_fmap, Hi.
  - destruct b as [|n| |x|]; destruct Hb as [-> ->].
    2: { destruct (Hlc _ _ _ Hi) as (o & Ho & ->). exists (o ++ [i]).
         split; [by apply (past_snoc _ _ _ _ (BCount (count_after o)))|]. split; [apply count_after_snoc|].
         intros []%app_eq_nil. done. }
    all: exists oc; split; [by apply Hkc|]; split; [done|]; intros Hnil j a' b0 [[-> Heq]|[_ Hj]]%lookup_moved;
         [|by apply (Hec Hnil j a')]; injection Heq as -> ->; try done; by specialize (Hec Hnil _ _ _ Hi).
  - destruct b as [|n| |x|]; destruct Hb as [-> ->].
    4: { destruct (Hla _ _ _ Hi) as (o & Ho & ->). exists (o ++ [i]).
         split; [by apply (past_snoc _ _ _ _ (BAmount (amount_after o)))|].
         split; [cbn; by rewrite amount_after_snoc, Hai|]. intros []%app_eq_nil. done. }
    all: exists oa; split; [by apply Hka|]; split; [done|]; intros Hnil j a' b0 [[-> Heq]|[_ Hj]]%lookup_moved;
         [|by apply (Hea Hnil j a')]; injection Heq as -> ->; try done; by specialize (Hea Hnil _ _ _ Hi).
  - intros j a' n [[-> Heq]|[_ Hj]]%lookup_moved.
    + destruct b; destruct Hb as [-> ->]; simplify_eq. exists oc. auto.
    + destruct (Hlc _ _ _ Hj) as (o & Ho & ->). exists o. auto.
  - intros j a' x [[-> Heq]|[_ Hj]]%lookup_moved.
    + destruct b; destruct Hb as [-> ->]; simplify_eq. exists oa. auto.
    + destruct (Hla _ _ _ Hj) as (o & Ho & ->). exists o. auto.
Qed.

Lemma cell_run_ok schedule c : cell_ok c -> cell_ok (cell_run schedule c).
Proof.
  unfold cell_run. revert c. induction schedule as [|i schedule IH]; intros c Hc; cbn [fold_left]; [done|].
  by apply IH, cell_step_ok.
Qed.
End Run.

Lemma all_booked_lookup c i a b : all_booked c = true -> c.(bookings) !! i = Some (a, b) -> b = BDone.
Proof.
  unfold all_booked. rewrite forallb_forall. intros Hall Hi. specialize (Hall (a, b)). cbn in Hall.
  destruct b; [..|done]; discriminate Hall; eapply list_elem_of_In, list_elem_of_lookup_2, Hi.
Qed.

(** Bookings one after the other. *)
Definition in_turn (n : nat) : list nat := concat ((fun i => [i; i; i; i]) <$> seq 0 n).

Lemma cell_step_at i c a b : c.(bookings) !! i = Some (a, b) ->
  cell_step i c = mkCell (<[i := (a, (booking_step a b c.(bucket)).1)]> c.(bookings)) (booking_step a b c.(bucket)).2.
Proof. intros Hi. unfold cell_step. rewrite Hi. by destruct (booking_step _ _ _). Qed.

Lemma cell_step_insert i a b l s : (i < length l)%nat ->
  cell_step i (mkCell (<[i := (a, b)]> l) s) =
  mkCell (<[i := (a, (booking_step a b s).1)]> l) (booking_step a b s).2.
Proof.
  intros Hi. rewrite (cell_step_at _ _ a b) by (by apply list_lookup_insert_eq).
  cbn [bookings bucket]. by rewrite list_insert_insert_eq.
Qed.

Lemma cell_run_one i c a : c.(bookings) !! i = Some (a, BStart) ->
  cell_run [i; i; i; i] c = mkCell (<[i := (a, BDone)]> c.(bookings)) (bump a c.(bucket)).
Proof.
  intros Hi. assert (Hl : (i < length (bookings c))%nat) by (by eapply lookup_lt_Some).
  unfold cell_run. cbn [fold_left]. rewrite (cell_step_at i c a BStart Hi). cbn [booking_step fst snd].
  rewrite !cell_step_insert by done. reflexivity.
Qed.

Lemma cell_run_in_turn amounts s done_ :
  bucket (fold_left (fun c i => cell_step i c) (concat ((fun i => [i; i; i; i]) <$> seq (length done_) (length amounts)))
    (mkCell (((fun a => (a, BDone)) <$> done_) ++ ((fun a => (a, BStart)) <$> amounts)) s)) =
  fold_left (fun s a => bump a s) amounts s.
Proof.
  revert done_ s. induction amounts as [|a amounts IH]; intros done_ s; [done|].
  cbn [length seq fmap list_fmap concat]. rewrite fold_left_app.
  change (fold_left _ [?i; ?i; ?i; ?i] ?c) with (cell_run [i; i; i; i] c).
  rewrite (cell_run_one _ _ a).
  - cbn [bookings bucket]. rewrite <- (length_fmap (fun a => (a, BDone)) done_) at 2.
    rewrite insert_app_r_alt by lia. rewrite Nat.sub_diag. cbn [list_insert].
    specialize (IH (done_ ++ [a]) (bump a s)). rewrite length_app, Nat.add_1_r, fmap_app, <- app_assoc in IH. exact IH.
  - cbn [bookings]. rewrite lookup_app_r by (by rewrite length_fmap). by rewrite length_fmap, Nat.sub_diag.
Qed.

(** C11. Payments booked in one bucket by any number of threads: when the
    threads take turns the bucket holds all of them, as [store_processed] one
    after the other; under any other schedule the count and the sum are each
    those of some of the payments, at least one, in some order, and not
    necessarily of the same ones: no payment is counted twice or invented, but
    an update can be lost, and two that overlap count as one. *)
Theorem concurrent_bookings (amounts : list double) (s : Summary) :
  0 <= s.(totalRequests) -> s.(totalRequests) + sizeZ amounts < 2 ^ 64 -> amounts <> [] ->
  (cell_run (in_turn (length amounts)) (new_cell amounts s)).(bucket) = fold_left (fun s a => bump a s) amounts s /\
  (forall schedule, let c := cell_run schedule (new_cell amounts s) in all_booked c = true ->
     exists counted summed,
       NoDup counted /\ NoDup summed /\ counted <> [] /\ summed <> [] /\
       Forall (fun i => i < length amounts)%nat (counted ++ summed) /\
       c.(bucket).(totalRequests) = s.(totalRequests) + sizeZ counted /\
       c.(bucket).(totalAmount) = fold_left dadd (amount_of amounts <$> summed) s.(totalAmount)) /\
  (forall a b, amounts = [a; b] ->
     (cell_run [0; 1; 0; 1; 0; 1; 0; 1]%nat (new_cell amounts s)).(bucket) = bump b s).
Proof.
  intros Hn Hmax Hne. split; [|split].
  - exact (cell_run_in_turn amounts s []).
  - intros schedule c Hdone. assert (Hsz : 0 < sizeZ amounts) by (destruct amounts; [done|unfold sizeZ; cbn; lia]).
    destruct (cell_run_ok amounts s schedule (new_cell amounts s)) as [Ham (oc & [Hndc Hpc] & Hvc & Hec) (oa & [Hnda Hpa] & Hva & Hea) _ _];
      [apply new_cell_ok; lia|]. fold c in Ham, Hpc, Hvc, Hec, Hpa, Hva, Hea.
    assert (Hlen : length (bookings c) = length amounts) by (by rewrite <- Ham, length_fmap).
    assert (Hfirst : exists a b, bookings c !! 0%nat = Some (a, b)).
    { destruct (lookup_lt_is_Some_2 (bookings c) 0) as [[a b] H0]; [unfold sizeZ in *; lia|eauto]. }
    destruct Hfirst as (a & b & H0). pose proof (all_booked_lookup _ _ _ _ Hdone H0) as ->.
    assert (Hlt : Forall (fun i => i < length amounts)%nat (oc ++ oa)).
    { apply Forall_forall. intros i [Hi|Hi]%elem_of_app; rewrite <- Hlen;
        [destruct (Hpc i Hi) as (? & ? & Hl & _)|destruct (Hpa i Hi) as (? & ? & Hl & _)]; by eapply lookup_lt_Some. }
    exists oc, oa. split_and!; try done.
    + intros Hnil. by specialize (Hec Hnil _ _ _ H0).
    + intros Hnil. by specialize (Hea Hnil _ _ _ H0).
    + rewrite Hvc. unfold count_after. apply u64_small.
      enough (length oc <= length amounts)%nat by (unfold sizeZ in *; lia).
      rewrite <- (length_seq (length amounts) 0). apply submseteq_length, NoDup_submseteq; [done|].
      intros i Hi. apply elem_of_seq. apply Forall_app in Hlt as [Hlt _]. rewrite Forall_forall in Hlt. specialize (Hlt i Hi). lia.
  - intros a b ->. reflexivity.
Qed.

Lemma concurrent_bookings_witness :
  let amounts := [double_of_Z 3; double_of_Z 4] in let s := summary_zero in
  (cell_run (in_turn 2) (new_cell amounts s)).(bucket) = fold_left (fun s a => bump a s) amounts s /\
  (forall schedule, let c := cell_run schedule (new_cell amounts s) in all_booked c = true ->
     exists counted summed,
       NoDup counted /\ NoDup summed /\ counted <> [] /\ summed <> [] /\
       Forall (fun i => i < 2)%nat (counted ++ summed) /\
       c.(bucket).(totalRequests) = 0 + sizeZ counted /\
       c.(bucket).(totalAmount) = fold_left dadd (amount_of amounts <$> summed) s.(totalAmount)) /\
  (forall a b, amounts = [a; b] ->
     (cell_run [0; 1; 0; 1; 0; 1; 0; 1]%nat (new_cell amounts s)).(bucket) = bump b s).
Proof.
  intros amounts s. apply (concurrent_bookings amounts s).
  - done.
  - reflexivity.
  - discriminate.
Defined.

(** ** The copy of a query *)

(** A copy beside a booking holds the count before or after it and the sum
    before or after it, in every combination: a query can report a payment
    whose amount is missing, or an amount whose payment is. *)
Theorem torn_copy (a : double) (s : Summary) :
  (forall schedule b copy s', book_and_copy schedule a BStart CStart s = (b, CDone copy, s') ->
     copy.(totalRequests) ∈ [s.(totalRequests); u64 (s.(totalRequests) + 1)] /\
     copy.(totalAmount) ∈ [s.(totalAmount); dadd s.(totalAmount) a]) /\
  (exists schedule, book_and_copy schedule a BStart CStart s =
     (BDone, CDone (mkSummary (u64 (s.(totalRequests) + 1)) s.(totalAmount)), bump a s)) /\
  (exists schedule, book_and_copy schedule a BStart CStart s =
     (BDone, CDone (mkSummary s.(totalRequests) (dadd s.(totalAmount) a)), bump a s)).
Proof.
  split; [|split].
  - intros schedule.
    assert (Hgen : forall b c s1 b' copy s',
      s1.(totalRequests) ∈ [s.(totalRequests); u64 (s.(totalRequests) + 1)] ->
      s1.(totalAmount) ∈ [s.(totalAmount); dadd s.(totalAmount) a] ->
      match b with BStart => s1 = s | BCount n => s1 = s /\ n = s.(totalRequests)
                 | BCounted => s1.(totalAmount) = s.(totalAmount) | BAmount x => x = s.(totalAmount) | BDone => True end ->
      match c with CStart => True | CCount n => n ∈ [s.(totalRequests); u64 (s.(totalRequests) + 1)]
                 | CDone cp => cp.(totalRequests) ∈ [s.(totalRequests); u64 (s.(totalRequests) + 1)] /\
                               cp.(totalAmount) ∈ [s.(totalAmount); dadd s.(totalAmount) a] end ->
      book_and_copy schedule a b c s1 = (b', CDone copy, s') ->
      copy.(totalRequests) ∈ [s.(totalRequests); u64 (s.(totalRequests) + 1)] /\
      copy.(totalAmount) ∈ [s.(totalAmount); dadd s.(totalAmount) a]).
    { induction schedule as [|[] schedule IH]; intros b c s1 b' copy s' Hn Hx Hb Hc Hrun; cbn [book_and_copy] in Hrun.
      - by simplify_eq.
      - destruct (booking_step a b s1) as [b1 s2] eqn:Hstep. apply booking_step_cases in Hstep.
        apply (IH b1 c s2 b' copy s'); try done; destruct b; destruct_and?; subst; cbn; try done;
          try (by rewrite !elem_of_cons; auto).
      - apply (IH b (copying_step c s1) s1 b' copy s'); try done. by destruct c. }
    intros b copy s' Hrun. apply (Hgen BStart CStart s b copy s'); try done; rewrite elem_of_cons; auto.
  - by exists [true; true; false; false; true; true].
  - by exists [false; true; true; true; true; false].
Qed.
