(* ===== verification/Routing.v ===== *)
(** * Choosing the processor: handle_response, update_time, trigger_switch,
      evaluate_switch

    The service sends payments to a primary processor and keeps the other one
    as secondary; the two are swapped on failures, recoveries and timings.
    The members of [PaymentService] these functions read and write are the
    record [Routing]; the functions pass it explicitly.  Sleeping changes no
    member: it is returned as an [event]. *)
From S2P Require Import Prelude Types Doubles.
From Stdlib Require Import SpecFloat.

(** ** State *)
Record Routing := mkRouting {
  default_processor : list Z;
  fallback_processor : list Z;
  main_url : list Z;
  test_url : list Z;
  default_time_ms : double;
  fallback_time_ms : double;
  fallback_down : bool;
  default_down : bool;
  fee_difference : double;
  fallback_interval_ms : Z;
  fallback_enabled : bool;
  fallback_evaluated : bool;
  primary_label : ProcessorResult;
  secondary_label : ProcessorResult }.

(** What the code does besides changing members. *)
Inductive event :=
  | SleptMs (ms : Z)
  | SleptUs (us : Z)
  | Sent (processor : ProcessorResult) (payload : list Z).

#[export] Instance event_eq_dec : EqDecision event.
Proof. solve_decision. Defined.

(** Assignments to single members. *)
Definition set_default_down (b : bool) (r : Routing) : Routing :=
  mkRouting r.(default_processor) r.(fallback_processor) r.(main_url) r.(test_url)
    r.(default_time_ms) r.(fallback_time_ms) r.(fallback_down) b r.(fee_difference)
    r.(fallback_interval_ms) r.(fallback_enabled) r.(fallback_evaluated)
    r.(primary_label) r.(secondary_label).

Definition set_fallback_down (b : bool) (r : Routing) : Routing :=
  mkRouting r.(default_processor) r.(fallback_processor) r.(main_url) r.(test_url)
    r.(default_time_ms) r.(fallback_time_ms) b r.(default_down) r.(fee_difference)
    r.(fallback_interval_ms) r.(fallback_enabled) r.(fallback_evaluated)
    r.(primary_label) r.(secondary_label).

Definition set_fallback_evaluated (b : bool) (r : Routing) : Routing :=
  mkRouting r.(default_processor) r.(fallback_processor) r.(main_url) r.(test_url)
    r.(default_time_ms) r.(fallback_time_ms) r.(fallback_down) r.(default_down)
    r.(fee_difference) r.(fallback_interval_ms) r.(fallback_enabled) b
    r.(primary_label) r.(secondary_label).

(** ** Operations *)

(** [update_time] *)
Definition update_time (processor : ProcessorResult) (elapsed : double) (r : Routing) : Routing :=
  if bool_decide (processor = Default) then
    mkRouting r.(default_processor) r.(fallback_processor) r.(main_url) r.(test_url)
      elapsed r.(fallback_time_ms) r.(fallback_down) r.(default_down) r.(fee_difference)
      r.(fallback_interval_ms) r.(fallback_enabled) r.(fallback_evaluated)
      r.(primary_label) r.(secondary_label)
  else
    mkRouting r.(default_processor) r.(fallback_processor) r.(main_url) r.(test_url)
      r.(default_time_ms) elapsed r.(fallback_down) r.(default_down) r.(fee_difference)
      r.(fallback_interval_ms) r.(fallback_enabled) r.(fallback_evaluated)
      r.(primary_label) r.(secondary_label).

(** [trigger_switch]; its log line is compiled out. *)
Definition trigger_switch (r : Routing) : Routing :=
  if negb r.(fallback_enabled) then r
  else
    mkRouting r.(default_processor) r.(fallback_processor) r.(test_url) r.(main_url)
      r.(default_time_ms) r.(fallback_time_ms) r.(fallback_down) r.(default_down)
      r.(fee_difference) r.(fallback_interval_ms) r.(fallback_enabled) r.(fallback_evaluated)
      r.(secondary_label) r.(primary_label).

(** [evaluate_switch] *)
Definition evaluate_switch (r : Routing) : Routing :=
  if negb r.(fallback_enabled) || r.(fallback_evaluated) then r
  else
    let r := set_fallback_evaluated true r in
    let def := r.(default_time_ms) in
    let fb := r.(fallback_time_ms) in
    if deqb def dzero || deqb fb dzero then r
    else
      let improvement := ddiv def fb in
      let using_default := bytes_eqb r.(main_url) r.(default_processor) in
      if dltb fb def && dleb r.(fee_difference) improvement then
        if using_default then trigger_switch r else r
      else
        if negb using_default then trigger_switch r else r.

(** [handle_response] *)
Definition handle_response (processor : ProcessorResult) (elapsed : double) (code : Z)
    (r : Routing) : Routing * list event :=
  if r.(fallback_enabled) then
    let using_default_as_main := bool_decide (r.(primary_label) = Default) in
    let default_called := bool_decide (processor = Default) in
    if code =? 500 then
      let r := if default_called then set_default_down true r else set_fallback_down true r in
      if r.(default_down) && r.(fallback_down) then
        (r, [SleptMs (Z.quot r.(fallback_interval_ms) 2)])
      else if r.(default_down) && negb r.(fallback_down) && using_default_as_main then
        (trigger_switch r, [])
      else if negb r.(default_down) && r.(fallback_down) && negb using_default_as_main then
        (trigger_switch r, [])
      else (r, [])
    else
      let r :=
        if default_called && r.(default_down) then
          let r := set_default_down false r in
          if r.(fallback_down) then trigger_switch r else r
        else if negb default_called && r.(fallback_down) then
          let r := set_fallback_down false r in
          if r.(default_down) then trigger_switch r else r
        else r in
      (evaluate_switch (update_time processor elapsed r), [])
  else (r, []).

(** The members as the constructor leaves them. *)
Definition new_routing (default_url fallback_url : list Z) (fee : double)
    (interval : Z) (enabled : bool) : Routing :=
  mkRouting default_url fallback_url default_url fallback_url dzero dzero
    (negb enabled) false fee interval enabled true Default Fallback.

(** ** Reachable states

    A step is one response handled for one of the two processors, or the
    [fallback_evaluated = false] of [process_payment] in the fallback pool. *)
Inductive routing_step : Routing -> Routing -> Prop :=
  | step_response r p elapsed code :
      p = Default \/ p = Fallback ->
      routing_step r (handle_response p elapsed code r).1
  | step_pool r : routing_step r (set_fallback_evaluated false r).

Inductive reachable (r0 : Routing) : Routing -> Prop :=
  | reach_init : reachable r0 r0
  | reach_step r r' : reachable r0 r -> routing_step r r' -> reachable r0 r'.

(** Labels and URLs move together. *)
Definition routing_wf (r : Routing) : Prop :=
  (r.(primary_label) = Default /\ r.(secondary_label) = Fallback /\
   r.(main_url) = r.(default_processor) /\ r.(test_url) = r.(fallback_processor)) \/
  (r.(primary_label) = Fallback /\ r.(secondary_label) = Default /\
   r.(main_url) = r.(fallback_processor) /\ r.(test_url) = r.(default_processor)).

(** The members no operation assigns. *)
Definition same_config (r r' : Routing) : Prop :=
  r'.(default_processor) = r.(default_processor) /\
  r'.(fallback_processor) = r.(fallback_processor) /\
  r'.(fee_difference) = r.(fee_difference) /\
  r'.(fallback_interval_ms) = r.(fallback_interval_ms) /\
  r'.(fallback_enabled) = r.(fallback_enabled).

#[export] Instance same_config_preorder : PreOrder same_config.
Proof.
  split; [done|].
  intros a b c (H1 & H2 & H3 & H4 & H5) (? & ? & ? & ? & ?). unfold same_config.
  by rewrite <- H1, <- H2, <- H3, <- H4, <- H5.
Qed.

Lemma wf_trigger r : routing_wf r -> routing_wf (trigger_switch r).
Proof. unfold routing_wf, trigger_switch. case_match; simpl; tauto. Qed.

Lemma config_trigger r : same_config r (trigger_switch r).
Proof. unfold trigger_switch. by case_match. Qed.

(** Each operation is built from assignments that keep an [R]-invariant and
    from [trigger_switch]. *)
Ltac routing_cases :=
  repeat (case_match; simplify_eq/=; try done).

Lemma evaluate_cases r :
  evaluate_switch r = r \/ evaluate_switch r = set_fallback_evaluated true r \/
  evaluate_switch r = trigger_switch (set_fallback_evaluated true r).
Proof. unfold evaluate_switch. repeat case_match; auto. Qed.

Lemma wf_evaluate r : routing_wf r -> routing_wf (evaluate_switch r).
Proof.
  intros H. destruct (evaluate_cases r) as [-> | [-> | ->]]; [done | done |].
  by apply wf_trigger.
Qed.

Lemma config_evaluate r : same_config r (evaluate_switch r).
Proof.
  destruct (evaluate_cases r) as [-> | [-> | ->]]; [done | done |].
  etrans; [|apply config_trigger]. done.
Qed.

Lemma wf_update_time p e r : routing_wf r -> routing_wf (update_time p e r).
Proof. unfold update_time. by case_match. Qed.

Lemma config_update_time p e r : same_config r (update_time p e r).
Proof. unfold update_time. by case_match. Qed.

(** The part of [handle_response] before the timings. *)
Definition recover (p : ProcessorResult) (r : Routing) : Routing :=
  if bool_decide (p = Default) && r.(default_down) then
    let r := set_default_down false r in
    if r.(fallback_down) then trigger_switch r else r
  else if negb (bool_decide (p = Default)) && r.(fallback_down) then
    let r := set_fallback_down false r in
    if r.(default_down) then trigger_switch r else r
  else r.

Definition mark_down (p : ProcessorResult) (r : Routing) : Routing :=
  if bool_decide (p = Default) then set_default_down true r else set_fallback_down true r.

Lemma handle_response_ok p e code r :
  r.(fallback_enabled) = true -> code <> 500 ->
  handle_response p e code r = (evaluate_switch (update_time p e (recover p r)), []).
Proof.
  intros Hen Hc. unfold handle_response. rewrite Hen.
  by replace (code =? 500) with false by lia.
Qed.

Lemma handle_response_disabled p e code r :
  r.(fallback_enabled) = false -> handle_response p e code r = (r, []).
Proof. intros H. unfold handle_response. by rewrite H. Qed.

Lemma handle_response_500 p e r :
  r.(fallback_enabled) = true ->
  (handle_response p e 500 r).1 = mark_down p r \/
  (handle_response p e 500 r).1 = trigger_switch (mark_down p r).
Proof.
  intros Hen. unfold handle_response, mark_down. rewrite Hen, Z.eqb_refl.
  destruct (bool_decide (p = Default)); repeat case_match; auto.
Qed.

Lemma wf_mark_down p r : routing_wf r -> routing_wf (mark_down p r).
Proof. unfold mark_down. by case_match. Qed.

Lemma config_mark_down p r : same_config r (mark_down p r).
Proof. unfold mark_down. by case_match. Qed.

Lemma recover_cases p r :
  recover p r = r \/
  exists r', (r' = set_default_down false r \/ r' = set_fallback_down false r) /\
             (recover p r = r' \/ recover p r = trigger_switch r').
Proof. unfold recover. repeat case_match; eauto 6. Qed.

Lemma wf_recover p r : routing_wf r -> routing_wf (recover p r).
Proof.
  intros H. destruct (recover_cases p r) as [-> | (r' & [-> | ->] & [-> | ->])];
    [done|done| |done|]; by apply wf_trigger.
Qed.

Lemma config_recover p r : same_config r (recover p r).
Proof.
  destruct (recover_cases p r) as [-> | (r' & [-> | ->] & [-> | ->])];
    [done|done| |done|]; (etrans; [|apply config_trigger]); done.
Qed.

Lemma wf_handle_response p e code r :
  routing_wf r -> routing_wf (handle_response p e code r).1.
Proof.
  intros H. destruct (fallback_enabled r) eqn:Hen; [|by rewrite handle_response_disabled].
  destruct (decide (code = 500)) as [->|Hc].
  - destruct (handle_response_500 p e r Hen) as [-> | ->]; auto using wf_mark_down, wf_trigger.
  - rewrite handle_response_ok by done. simpl. auto using wf_evaluate, wf_update_time, wf_recover.
Qed.

Lemma config_handle_response p e code r : same_config r (handle_response p e code r).1.
Proof.
  destruct (fallback_enabled r) eqn:Hen; [|by rewrite handle_response_disabled].
  destruct (decide (code = 500)) as [->|Hc].
  - destruct (handle_response_500 p e r Hen) as [-> | ->]; [apply config_mark_down|].
    etrans; [apply config_mark_down | apply config_trigger].
  - rewrite handle_response_ok by done. simpl.
    etrans; [apply config_recover|]. etrans; [apply config_update_time | apply config_evaluate].
Qed.

(** ** Theorems *)

(** C17. Invariant: in every state reachable from the constructor's, by any
    sequence of responses (any code, any time, either processor) and pool
    rounds, the primary and the secondary label are the two processors, the
    main and the test URL are the URLs of those labels, and the configuration
    is the constructor's. *)
Theorem routing_invariant (default_url fallback_url : list Z) (fee : double) (interval : Z)
    (enabled : bool) (r : Routing) :
  reachable (new_routing default_url fallback_url fee interval enabled) r ->
  routing_wf r /\ same_config (new_routing default_url fallback_url fee interval enabled) r.
Proof.
  induction 1 as [|r r' _ [IHwf IHc] Hstep]; [split; [left|]; done|].
  destruct Hstep as [r p e code _ | r]; [|done].
  split; [by apply wf_handle_response|]. etrans; [exact IHc | apply config_handle_response].
Qed.

Definition url_d : list Z := str "http://default:8080/payments".
Definition url_f : list Z := str "http://fallback:8080/payments".
Definition sample_routing : Routing := new_routing url_d url_f (double_of_Z 3) 1000 true.

Lemma routing_invariant_witness :
  routing_wf (handle_response Default (double_of_Z 7) 500 sample_routing).1 /\
  same_config sample_routing (handle_response Default (double_of_Z 7) 500 sample_routing).1.
Proof.
  apply (routing_invariant url_d url_f (double_of_Z 3) 1000 true).
  apply (reach_step _ sample_routing); [apply reach_init | apply step_response; auto].
Defined.

Lemma wf_using_default r :
  routing_wf r -> r.(default_processor) <> r.(fallback_processor) ->
  bytes_eqb r.(main_url) r.(default_processor) = bool_decide (r.(primary_label) = Default).
Proof.
  unfold bytes_eqb. intros [(-> & _ & -> & _) | (-> & _ & -> & _)] Hne.
  - by rewrite !bool_decide_eq_true_2.
  - by rewrite !bool_decide_eq_false_2.
Qed.

Lemma wf_primary r : routing_wf r -> r.(primary_label) = Default \/ r.(primary_label) = Fallback.
Proof. intros [(-> & _) | (-> & _)]; auto. Qed.

Lemma trigger_primary r :
  r.(fallback_enabled) = true -> primary_label (trigger_switch r) = r.(secondary_label).
Proof. intros H. unfold trigger_switch. by rewrite H. Qed.

(** C18. The decision of [evaluate_switch]: with distinct URLs, once per pool
    round (both timings known), the fallback becomes or stays primary exactly
    when it was faster and the ratio of the timings reaches
    [FEE_DIFFERENCE]; otherwise the default is primary afterwards. *)
Theorem evaluate_switch_decision (r : Routing) :
  routing_wf r -> r.(default_processor) <> r.(fallback_processor) ->
  r.(fallback_enabled) = true -> r.(fallback_evaluated) = false ->
  deqb r.(default_time_ms) dzero = false -> deqb r.(fallback_time_ms) dzero = false ->
  let better := dltb r.(fallback_time_ms) r.(default_time_ms) &&
                dleb r.(fee_difference) (ddiv r.(default_time_ms) r.(fallback_time_ms)) in
  primary_label (evaluate_switch r) = (if better then Fallback else Default) /\
  fallback_evaluated (evaluate_switch r) = true.
Proof.
  intros Hwf Hne Hen Hev Hd Hf better. unfold evaluate_switch. rewrite Hen, Hev. simpl.
  rewrite Hd, Hf. simpl. rewrite (wf_using_default r Hwf Hne). fold better.
  unfold trigger_switch. simpl. rewrite Hen. simpl.
  destruct Hwf as [(HP & HS & _ & _) | (HP & HS & _ & _)], better; rewrite HP; simpl; auto.
Qed.

Definition timed_routing : Routing :=
  set_fallback_evaluated false
    (update_time Fallback (double_of_Z 2) (update_time Default (double_of_Z 6) sample_routing)).

Lemma evaluate_switch_decision_witness :
  primary_label (evaluate_switch timed_routing) = Fallback /\
  fallback_evaluated (evaluate_switch timed_routing) = true.
Proof.
  apply (evaluate_switch_decision timed_routing);
    [left; done | vm_compute; discriminate | reflexivity..].
Defined.

(** The processor a label names, in the two down flags. *)
Definition down_flag (p : ProcessorResult) (r : Routing) : bool :=
  if bool_decide (p = Default) then r.(default_down) else r.(fallback_down).

Definition other (p : ProcessorResult) : ProcessorResult :=
  match p with Default => Fallback | _ => Default end.

(** C19. Failover, with the fallback enabled: a response with code 500 marks its
    processor as down; if the other processor is not down it is primary afterwards, and if both are
    down the primary is left alone and the thread sleeps half the fallback
    interval. *)
Theorem failover_on_500 (p : ProcessorResult) (elapsed : double) (r : Routing) :
  routing_wf r -> r.(fallback_enabled) = true -> p = Default \/ p = Fallback ->
  let '(r', evs) := handle_response p elapsed 500 r in
  down_flag p r' = true /\ down_flag (other p) r' = down_flag (other p) r /\
  (if down_flag (other p) r
   then r'.(primary_label) = r.(primary_label) /\ evs = [SleptMs (Z.quot r.(fallback_interval_ms) 2)]
   else r'.(primary_label) = other p /\ evs = []).
Proof.
  intros Hwf Hen Hp. unfold handle_response. rewrite Hen, Z.eqb_refl.
  destruct Hwf as [(HP & HS & _ & _) | (HP & HS & _ & _)], Hp as [-> | ->];
    rewrite HP; simpl; unfold trigger_switch, down_flag; simpl;
    destruct (default_down r) eqn:HD, (fallback_down r) eqn:HF; simpl; rewrite ?Hen, ?HD, ?HF;
    simpl; auto.
Qed.

Lemma failover_on_500_witness :
  let '(r', evs) := handle_response Default (double_of_Z 9) 500 sample_routing in
  down_flag Default r' = true /\ down_flag Fallback r' = down_flag Fallback sample_routing /\
  (if down_flag Fallback sample_routing
   then r'.(primary_label) = sample_routing.(primary_label) /\ evs = [SleptMs 500]
   else r'.(primary_label) = Fallback /\ evs = []).
Proof.
  apply (failover_on_500 Default (double_of_Z 9) sample_routing);
    [left; done | reflexivity | left; reflexivity].
Defined.

Lemma down_flags_evaluate r q : down_flag q (evaluate_switch r) = down_flag q r.
Proof.
  destruct (evaluate_cases r) as [-> | [-> | ->]]; [done..|].
  unfold trigger_switch. by case_match.
Qed.

Lemma down_flags_update_time p e r q : down_flag q (update_time p e r) = down_flag q r.
Proof. unfold update_time. by case_match. Qed.

Lemma down_flags_trigger r q : down_flag q (trigger_switch r) = down_flag q r.
Proof. unfold trigger_switch. by case_match. Qed.

(** What a down flag means: after any response of a processor its flag is
    set exactly when the response had code 500, and the other flag is as it
    was.  In particular every other failure, code 0 of a refused connection
    included, marks the processor as up. *)
Theorem down_flag_is_last_500 (p : ProcessorResult) (elapsed : double) (code : Z) (r : Routing) :
  r.(fallback_enabled) = true -> p = Default \/ p = Fallback ->
  down_flag p (handle_response p elapsed code r).1 = (code =? 500) /\
  down_flag (other p) (handle_response p elapsed code r).1 = down_flag (other p) r.
Proof.
  intros Hen Hp. destruct (Z.eqb_spec code 500) as [->|Hc].
  - destruct (handle_response_500 p elapsed r Hen) as [-> | ->]; rewrite ?down_flags_trigger;
      unfold mark_down; by destruct Hp as [-> | ->].
  - rewrite handle_response_ok by done. simpl.
    rewrite !down_flags_evaluate, !down_flags_update_time. unfold recover, trigger_switch.
    destruct Hp as [-> | ->], (default_down r) eqn:HD, (fallback_down r) eqn:HF; simpl;
      repeat case_match; simpl; unfold down_flag; simpl; by rewrite ?HD, ?HF.
Qed.

Lemma down_flag_is_last_500_witness :
  let r := (handle_response Default (double_of_Z 9) 500 sample_routing).1 in
  down_flag Default (handle_response Default (double_of_Z 1) 0 r).1 = (0 =? 500) /\
  down_flag Fallback (handle_response Default (double_of_Z 1) 0 r).1 = down_flag Fallback r.
Proof. intros r. apply (down_flag_is_last_500 Default (double_of_Z 1) 0 r); auto. Defined.

(** A run of responses; a response of the fallback pool is preceded by the
    reset of [fallback_evaluated]. *)
Record answer := mkAnswer { from_pool : bool; rp : ProcessorResult; re : double; rc : Z }.

Fixpoint run_responses (r : Routing) (l : list answer) : Routing :=
  match l with
  | [] => r
  | x :: l =>
      let r := if x.(from_pool) then set_fallback_evaluated false r else r in
      run_responses (handle_response x.(rp) x.(re) x.(rc) r).1 l
  end.

Lemma run_responses_reachable r0 r l :
  Forall (fun x => x.(rp) = Default \/ x.(rp) = Fallback) l -> reachable r0 r ->
  reachable r0 (run_responses r l).
Proof.
  intros HF. revert r. induction HF as [|x l Hx _ IH]; intros r Hr; [done|]. simpl. apply IH.
  eapply reach_step; [|by apply step_response]. case_match; [|done].
  eapply reach_step; [exact Hr | apply step_pool].
Qed.

(** Both processors fail, the fallback first; then the default recovers. *)
Definition recovery_run : list answer :=
  [mkAnswer true Fallback (double_of_Z 4) 500; mkAnswer false Default (double_of_Z 4) 500;
   mkAnswer false Default (double_of_Z 4) 200].

(** The fallback answers a pool round fast, then fails in the next one. *)
Definition timing_run : list answer :=
  [mkAnswer true Fallback (double_of_Z 1) 200; mkAnswer true Fallback (double_of_Z 1) 500;
   mkAnswer false Default (double_of_Z 9) 200].

(** A processor that is down can be made primary while the other one is
    up: by the unconditional swap on a recovery, and by the timings, which
    [evaluate_switch] compares without looking at the down flags. *)
Theorem down_processor_promoted :
  forall run, run = recovery_run \/ run = timing_run ->
  reachable sample_routing (run_responses sample_routing run) /\
  primary_label (run_responses sample_routing run) = Fallback /\
  fallback_down (run_responses sample_routing run) = true /\
  default_down (run_responses sample_routing run) = false.
Proof.
  intros run [-> | ->]; (split; [|split_and!; vm_compute; reflexivity]);
    (apply run_responses_reachable; [|apply reach_init]);
    repeat (apply Forall_cons_2; [simpl; auto|]); apply Forall_nil_2; done.
Qed.

Lemma down_processor_promoted_witness :
  reachable sample_routing (run_responses sample_routing recovery_run) /\
  primary_label (run_responses sample_routing recovery_run) = Fallback /\
  fallback_down (run_responses sample_routing recovery_run) = true /\
  default_down (run_responses sample_routing recovery_run) = false.
Proof. apply (down_processor_promoted recovery_run). left. reflexivity. Defined.

(** With [FALLBACK_ENABLED=0] the routing never changes: in every
    reachable state the default processor is primary under its own URL and the
    fallback is marked as down. *)
Theorem disabled_fallback_never_used (default_url fallback_url : list Z) (fee : double)
    (interval : Z) (r : Routing) :
  reachable (new_routing default_url fallback_url fee interval false) r ->
  r.(primary_label) = Default /\ r.(main_url) = default_url /\ r.(fallback_down) = true /\
  r.(default_time_ms) = dzero /\ r.(fallback_time_ms) = dzero.
Proof.
  intros H. enough (r.(fallback_enabled) = false /\ r.(primary_label) = Default /\
    r.(main_url) = default_url /\ r.(fallback_down) = true /\
    r.(default_time_ms) = dzero /\ r.(fallback_time_ms) = dzero) by tauto.
  induction H as [|r r' _ (Hen & IH) Hstep]; [done|].
  destruct Hstep as [r p e code _ | r]; [|done]. by rewrite handle_response_disabled.
Qed.

Lemma disabled_fallback_never_used_witness :
  let r := (handle_response Default (double_of_Z 9) 500
              (new_routing url_d url_f (double_of_Z 3) 1000 false)).1 in
  r.(primary_label) = Default /\ r.(main_url) = url_d /\ r.(fallback_down) = true /\
  r.(default_time_ms) = dzero /\ r.(fallback_time_ms) = dzero.
Proof.
  intros r. apply (disabled_fallback_never_used url_d url_f (double_of_Z 3) 1000 r).
  apply (reach_step _ (new_routing url_d url_f (double_of_Z 3) 1000 false));
    [apply reach_init | apply step_response; auto].
Defined.
