(* ===== verification/Payload.v ===== *)
(** * The text sent to a processor: create_processor_payload

    The body of a payment request loses its last character (the closing
    brace) and gains a [requestedAt] member.  The time is formatted once per
    second and thread: the [thread_local] variables of the function are the
    record [ts_cache].  The file proves that the cache is transparent and that
    [store_processed] finds in the payload the amount of the request. *)
From S2P Require Import Prelude Decimal Types Doubles Calendar Processed.

(** ** The function *)

(** [thread_local char requestedAt[32]; time_t last_sec = 0; size_t ts_len = 0]:
    [cached] is the [ts_len] first bytes of the buffer. *)
Record ts_cache := mkCache { last_sec : Z; cached : list Z }.

Definition new_cache : ts_cache := mkCache 0 [].

(** The [if (now != last_sec)] block. *)
Definition refresh (now : Z) (c : ts_cache) : ts_cache :=
  if now =? c.(last_sec) then c else mkCache now (requestedAt now).

(** [create_processor_payload] at time [now]: the payload and
    [sec_since_epoch]. *)
Definition create_processor_payload (now : Z) (c : ts_cache) (json : list Z)
  : outcome (list Z * Z * ts_cache) :=
  let c := refresh now c in
  match json with
  | [] => Undefined PopBackOnEmpty
  | _ =>
      Ret (removelast json ++ jstr ",'requestedAt':'" ++ c.(cached) ++ jstr "'}", u64 now, c)
  end.

(** ** The cache *)
Definition cache_ok (c : ts_cache) : Prop := c.(last_sec) <> 0 -> c.(cached) = requestedAt c.(last_sec).

Lemma new_cache_ok : cache_ok new_cache.
Proof. by intros H. Qed.

Lemma refresh_ok now c : cache_ok c -> cache_ok (refresh now c).
Proof. intros H. unfold refresh. case_match; [done|]. by intros _. Qed.

Lemma refresh_cached now c : cache_ok c -> now <> 0 -> cached (refresh now c) = requestedAt now.
Proof.
  intros H Hn. unfold refresh. destruct (Z.eqb_spec now (last_sec c)) as [->|]; [by apply H|done].
Qed.

(** The payload of a body ending in [last], at a time after the epoch. *)
Lemma payload_text now c body last :
  cache_ok c -> now <> 0 ->
  create_processor_payload now c (body ++ [last]) =
  Ret (body ++ jstr ",'requestedAt':'" ++ requestedAt now ++ jstr "'}", u64 now, refresh now c).
Proof.
  intros Hc Hn. unfold create_processor_payload.
  destruct (body ++ [last]) eqn:E; [by destruct body|].
  by rewrite <- E, removelast_last, refresh_cached.
Qed.

(** ** Searching the payload *)
Lemma find_cons_skip pat c s :
  is_prefix pat (c :: s) = false -> find pat (c :: s) = S <$> find pat s.
Proof. intros H. cbn [find]. by rewrite H. Qed.

Lemma is_prefix_app pat s : is_prefix pat (pat ++ s) = true.
Proof. induction pat as [|p pat IH]; [done|]. simpl. by rewrite Z.eqb_refl. Qed.

Lemma find_here pat s : find pat (pat ++ s) = Some 0%nat.
Proof.
  assert (H : is_prefix pat (pat ++ s) = true) by apply is_prefix_app.
  by destruct (pat ++ s); cbn [find]; rewrite H.
Qed.

(** No match starts at a character other than the pattern's first one. *)
Lemma find_skip_run p pat s t :
  Forall (fun c => c <> p) s -> find (p :: pat) (s ++ t) = (Nat.add (length s)) <$> find (p :: pat) t.
Proof.
  induction 1 as [|c s Hc _ IH]; cbn [app length]; [by destruct (find _ t)|].
  rewrite find_cons_skip by (simpl; replace (p =? c) with false by lia; done).
  rewrite IH. by destruct (find _ t).
Qed.

Lemma find_amount_skip s t :
  Forall (fun c => c <> 34) s -> find amount_key (s ++ t) = (Nat.add (length s)) <$> find amount_key t.
Proof. apply (find_skip_run 34 (jstr "amount':")). Qed.

Lemma find_first_of_run set s c t :
  Forall (fun x => existsb (Z.eqb x) set = false) s -> existsb (Z.eqb c) set = true ->
  find_first_of set (s ++ c :: t) = Some (length s).
Proof.
  intros HF Hc. induction HF as [|x s Hx _ IH]; simpl; [by rewrite Hc|].
  by rewrite Hx, IH.
Qed.

(** A match of a pattern with an inner quote cannot span an identifier without
    quotes that is followed by other text. *)
Lemma is_prefix_quote_run a b id t :
  Forall (fun c => c <> 34) id -> Forall (fun c => c <> 34) a ->
  is_prefix (a ++ 34 :: b) (id ++ 34 :: t) = true -> is_prefix b t = true.
Proof.
  intros Hid Ha. revert id Hid. induction Ha as [|x a Hx _ IH]; intros id Hid Hp; cbn [app is_prefix] in Hp.
  - inversion Hid as [|y id' Hy _]; subst; cbn [app is_prefix] in Hp.
    { apply andb_true_iff in Hp as [_ Hp]. done. }
    apply andb_true_iff in Hp as [Hp%Z.eqb_eq _]. congruence.
  - inversion Hid as [|y id' Hy Hid']; subst; cbn [app is_prefix] in Hp.
    + apply andb_true_iff in Hp as [Hp%Z.eqb_eq _]. congruence.
    + apply andb_true_iff in Hp as [_ Hp]. by eapply IH.
Qed.

(** The request the service is written for:
    [{"correlationId":"<id>","amount":<num>}]. *)
Definition payment_open (id num : list Z) : list Z :=
  jstr "{'correlationId':'" ++ id ++ jstr "','amount':" ++ num.

Definition payment_body (id num : list Z) : list Z := payment_open id num ++ str "}".

Lemma find_amount_key id tl :
  Forall (fun c => c <> 34) id ->
  find amount_key (jstr "{'correlationId':'" ++ id ++ jstr "','amount':" ++ tl) =
  Some (20 + length id)%nat.
Proof.
  intros Hid.
  change (jstr "{'correlationId':'") with (jstr "{'correlationId':" ++ [34]).
  change (jstr "','amount':" ++ tl) with (34 :: 44 :: amount_key ++ tl).
  rewrite <- app_assoc.
  assert (Hskip : forall t, find amount_key (jstr "{'correlationId':" ++ 34 :: t) =
                  (fun n => 17 + n)%nat <$> find amount_key (34 :: t)).
  { intros t. change (jstr "{'correlationId':") with ([123] ++ 34 :: jstr "correlationId" ++ 34 :: [58]).
    rewrite <- app_assoc, (find_amount_skip [123]) by by_decide.
    cbn [app]. rewrite find_cons_skip by reflexivity. rewrite <- app_assoc.
    rewrite (find_amount_skip (jstr "correlationId")) by by_decide. cbn [app].
    rewrite find_cons_skip by reflexivity. rewrite find_cons_skip by reflexivity.
    by destruct (find _ _). }
  cbn [app]. rewrite Hskip.
  rewrite find_cons_skip.
  2: { destruct (is_prefix amount_key _) eqn:E; [|done]. exfalso.
       change (is_prefix (str "amount" ++ 34 :: [58]) (id ++ 34 :: 44 :: amount_key ++ tl) = true) in E.
       apply is_prefix_quote_run in E; [done | done | by_decide]. }
  rewrite find_amount_skip by done.
  rewrite find_cons_skip by reflexivity. rewrite find_cons_skip by reflexivity.
  rewrite find_here. simpl. f_equal. lia.
Qed.

Lemma payload_extracts (now : Z) (c : ts_cache) (id num : list Z) :
  cache_ok c -> now <> 0 ->
  Forall (fun x => x <> 34) id -> Forall (fun x => existsb (Z.eqb x) (str ",}") = false) num ->
  exists payload c',
    create_processor_payload now c (payment_body id num) = Ret (payload, u64 now, c') /\
    cache_ok c' /\
    payload = payment_open id num ++ jstr ",'requestedAt':'" ++ requestedAt now ++ jstr "'}" /\
    extract_amount payload = stod num.
Proof.
  intros Hc Hn Hid Hnum. eexists _, _. split; [by apply payload_text|].
  split; [by apply refresh_ok|]. split; [done|].
  unfold extract_amount, payment_open. rewrite <- !app_assoc, find_amount_key by done.
  set (text := jstr "{'correlationId':'" ++ _).
  assert (Hdrop : drop (20 + length id + 9) text =
                  num ++ jstr ",'requestedAt':'" ++ requestedAt now ++ jstr "'}").
  { unfold text. generalize (num ++ jstr ",'requestedAt':'" ++ requestedAt now ++ jstr "'}").
    intros rest. rewrite !app_assoc. apply drop_app_length'. rewrite !length_app. simpl. lia. }
  unfold find_first_of_from. rewrite Hdrop.
  change (jstr ",'requestedAt':'" ++ requestedAt now ++ jstr "'}")
    with (44 :: jstr "'requestedAt':'" ++ requestedAt now ++ jstr "'}").
  rewrite find_first_of_run by done. unfold substr. cbv beta iota delta [fmap option_fmap option_map].
  rewrite Hdrop, take_app_length'; [done|lia].
Qed.

(** The amount the service books is the amount of the request: for a body
    of the expected shape (an identifier without quotes, a number without
    comma or brace) and whatever the time and the state of the thread's cache,
    the payload is the body with a [requestedAt] member added, and the amount
    [store_processed] extracts from it is [stod] of the number's text. *)
Theorem payload_amount (now : Z) (c : ts_cache) (id num : list Z) :
  cache_ok c -> now <> 0 ->
  Forall (fun x => x <> 34) id -> Forall (fun x => existsb (Z.eqb x) (str ",}") = false) num ->
  exists payload c',
    create_processor_payload now c (payment_body id num) = Ret (payload, u64 now, c') /\
    cache_ok c' /\
    payload = payment_open id num ++ jstr ",'requestedAt':'" ++ requestedAt now ++ jstr "'}" /\
    extract_amount payload = stod num.
Proof. apply payload_extracts. Qed.

Definition sample_id : list Z := str "4a7901b8-7d26-4d9d-aa19-4dc1c7cf60b3".

Lemma payload_amount_witness :
  exists payload c',
    create_processor_payload 1751371506 new_cache (payment_body sample_id (str "19.9")) =
      Ret (payload, u64 1751371506, c') /\
    cache_ok c' /\
    payload = payment_open sample_id (str "19.9") ++ jstr ",'requestedAt':'" ++
              requestedAt 1751371506 ++ jstr "'}" /\
    extract_amount payload = stod (str "19.9").
Proof.
  apply (payload_amount 1751371506 new_cache sample_id (str "19.9")).
  - apply new_cache_ok.
  - lia.
  - by_decide.
  - by_decide.
Defined.
