(* ===== verification/Processing.v ===== *)
(** * Sending a payment: CurlHandle, send_to_processor, process_payment

    The clocks and libcurl are the outside world: the class [World] names the
    three observations the code makes of it.  A worker thread owns two
    [CurlHandle]s and the timestamp cache; [Ctx] gathers what one call of
    [process_payment] reads and writes, with the trace of its events. *)
From S2P Require Import Prelude Decimal Types Doubles Calendar Processed Routing Payload.
From Stdlib Require Import SpecFloat.

(** ** CurlHandle *)
Record CurlHandle := mkCurlHandle {
  handle : bool;             (** [handle != nullptr] *)
  headers : list (list Z);
  url : list Z;
  keepalive : bool;
  postfields : list Z;
  response_buffer : list Z }.

(** The constructor; [init] tells whether [curl_easy_init] gave a handle. *)
Definition new_CurlHandle (init : bool) (u : list Z) : CurlHandle :=
  if init then mkCurlHandle true [str "Content-Type: application/json"] u true [] []
  else mkCurlHandle false [] [] false [] [].

Definition clear_response (h : CurlHandle) : CurlHandle :=
  mkCurlHandle h.(handle) h.(headers) h.(url) h.(keepalive) h.(postfields) [].

Definition response (h : CurlHandle) : list Z := h.(response_buffer).

(** [CURLOPT_POSTFIELDS] takes a C string. *)
Definition set_payload (body : list Z) (h : CurlHandle) : CurlHandle :=
  mkCurlHandle h.(handle) h.(headers) h.(url) h.(keepalive) (c_str body) h.(response_buffer).

(** The libcurl callbacks: [write_callback] returns the buffer it appended to
    and the bytes it took, [ignore_write_callback] only the latter. *)
Definition write_callback (contents : list Z) (size nmemb : Z) (userp : list Z) : list Z * Z :=
  (userp ++ take (Z.to_nat (u64 (size * nmemb))) contents, u64 (size * nmemb)).

Definition ignore_write_callback (size nmemb : Z) : Z := u64 (size * nmemb).

(** ** The world *)
Record perform_result := mkPerform {
  curl_ok : bool;            (** [curl_easy_perform] returned [CURLE_OK] *)
  response_code : Z;         (** [CURLINFO_RESPONSE_CODE] *)
  elapsed_ms : double }.     (** the [steady_clock] difference *)

Class World (W : Type) := {
  time_now : W -> Z;                                          (** [time(nullptr)] *)
  clock_ns : W -> Z;                                          (** [get_now()] *)
  curl_easy_perform : W -> CurlHandle -> W * perform_result;
}.

Record Thread := mkThread { h_default : CurlHandle; h_fallback : CurlHandle; cache : ts_cache }.

Record Ctx (W : Type) := mkCtx { thr : Thread; rt : Routing; world : W; evs : list event }.
Arguments mkCtx {W}.
Arguments thr {W}.
Arguments rt {W}.
Arguments world {W}.
Arguments evs {W}.

Section Processing.
Context {W : Type} `{World W}.

(** The handle of a processor, ready for the payload. *)
Definition armed (t : Thread) (processor : ProcessorResult) (payload : list Z) : CurlHandle :=
  set_payload payload (clear_response
    (if bool_decide (processor = Default) then t.(h_default) else t.(h_fallback))).

Definition put_handle (t : Thread) (processor : ProcessorResult) (h : CurlHandle) : Thread :=
  if bool_decide (processor = Default) then mkThread h t.(h_fallback) t.(cache)
  else mkThread t.(h_default) h t.(cache).

(** [send_to_processor]: the returned flag, [elapsed], [code]. *)
Definition send_to_processor (processor : ProcessorResult) (payload : list Z) (c : Ctx W)
  : bool * double * Z * Ctx W :=
  let h := armed c.(thr) processor payload in
  if negb h.(handle) then (false, dzero, 0, c)
  else
    let '(w, res) := curl_easy_perform c.(world) h in
    (res.(curl_ok) && (res.(response_code) =? 200), res.(elapsed_ms), res.(response_code),
     mkCtx (put_handle c.(thr) processor h) c.(rt) w
       (c.(evs) ++ [Sent processor h.(postfields)])).

Definition respond (processor : ProcessorResult) (elapsed : double) (code : Z) (c : Ctx W) : Ctx W :=
  let '(r, es) := handle_response processor elapsed code c.(rt) in
  mkCtx c.(thr) r c.(world) (c.(evs) ++ es).

(** [fallback_evaluated = false] *)
Definition reset_evaluated (c : Ctx W) : Ctx W :=
  mkCtx c.(thr) (set_fallback_evaluated false c.(rt)) c.(world) c.(evs).

(** [process_payment] *)
Definition process_payment (json : list Z) (isFallbackPool : bool) (c : Ctx W)
  : outcome (ProcessorResult * Z * list Z * Ctx W) :=
  let* (payload, ts, cache') :=
    create_processor_payload (time_now c.(world)) c.(thr).(cache) json in
  let c := mkCtx (mkThread c.(thr).(h_default) c.(thr).(h_fallback) cache')
             c.(rt) c.(world) c.(evs) in
  let primary_label_local :=
    if isFallbackPool then c.(rt).(secondary_label) else c.(rt).(primary_label) in
  let secondary_label_local :=
    if isFallbackPool then c.(rt).(primary_label) else c.(rt).(secondary_label) in
  let '(ok, elapsed, code, c) := send_to_processor primary_label_local payload c in
  let c := if isFallbackPool then reset_evaluated c else c in
  let c := respond primary_label_local elapsed code c in
  if ok : bool then Ret (primary_label_local, ts, payload, c)
  else if code =? 422 then Ret (Discard, ts, payload, c)
  else if negb c.(rt).(fallback_enabled) then Ret (TryAgain, ts, payload, c)
  else
    let '(ok, elapsed2, code2, c) := send_to_processor secondary_label_local payload c in
    let c := respond secondary_label_local elapsed2 code2 c in
    if ok : bool then Ret (secondary_label_local, ts, payload, c)
    else if code =? 422 then Ret (Discard, ts, payload, c)
    else Ret (TryAgain, ts, payload, c).

(** ** What one call decides *)

Definition accepted (res : perform_result) : bool :=
  res.(curl_ok) && (res.(response_code) =? 200).

(** The verdict as a function of the answers of the processors tried. *)
Definition verdict (p1 p2 : ProcessorResult) (enabled : bool) (res1 res2 : perform_result)
  : ProcessorResult :=
  if accepted res1 then p1
  else if res1.(response_code) =? 422 then Discard
  else if negb enabled then TryAgain
  else if accepted res2 then p2
  else TryAgain.

Definition tries_second (enabled : bool) (res1 : perform_result) : bool :=
  negb (accepted res1) && negb (res1.(response_code) =? 422) && enabled.

Lemma rt_respond p e code (c : Ctx W) : rt (respond p e code c) = (handle_response p e code c.(rt)).1.
Proof. unfold respond. by destruct (handle_response _ _ _ _). Qed.

Lemma world_respond p e code (c : Ctx W) : world (respond p e code c) = world c.
Proof. unfold respond. by destruct (handle_response _ _ _ _). Qed.

Lemma thr_respond p e code (c : Ctx W) : thr (respond p e code c) = thr c.
Proof. unfold respond. by destruct (handle_response _ _ _ _). Qed.

Lemma enabled_handle_response p e code r :
  fallback_enabled (handle_response p e code r).1 = fallback_enabled r.
Proof. by destruct (config_handle_response p e code r) as (_ & _ & _ & _ & ->). Qed.

(** The requests among the events, in order. *)
Definition is_sent (e : event) : bool := match e with Sent _ _ => true | _ => false end.

Definition requests (es : list event) : list event := List.filter is_sent es.

Lemma requests_app es es' : requests (es ++ es') = requests es ++ requests es'.
Proof. apply List.filter_app. Qed.

Lemma requests_handle_response p e code r : requests (handle_response p e code r).2 = [].
Proof. unfold handle_response. by repeat case_match. Qed.

Lemma requests_respond p e code (c : Ctx W) : requests (evs (respond p e code c)) = requests (evs c).
Proof.
  unfold respond. pose proof (requests_handle_response p e code (rt c)) as Hn.
  destruct (handle_response _ _ _ _) as [r es]. simpl in *.
  by rewrite requests_app, Hn, app_nil_r.
Qed.

Lemma send_valid p payload (c : Ctx W) w res :
  handle (armed c.(thr) p payload) = true ->
  curl_easy_perform c.(world) (armed c.(thr) p payload) = (w, res) ->
  send_to_processor p payload c =
  (accepted res, res.(elapsed_ms), res.(response_code),
   mkCtx (put_handle c.(thr) p (armed c.(thr) p payload)) c.(rt) w
     (c.(evs) ++ [Sent p (c_str payload)])).
Proof. intros Hh Hp. unfold send_to_processor. by rewrite Hh, Hp. Qed.

Lemma handle_put t p q h payload :
  handle (armed t q payload) = true -> handle h = true ->
  handle (armed (put_handle t p h) q payload) = true.
Proof. unfold armed, put_handle. repeat case_match; done. Qed.

Lemma armed_put_other t p q h payload :
  bool_decide (p = Default) <> bool_decide (q = Default) ->
  armed (put_handle t p h) q payload = armed t q payload.
Proof. unfold armed, put_handle. repeat case_match; done. Qed.

Lemma cache_put t p h : cache (put_handle t p h) = cache t.
Proof. unfold put_handle. by case_match. Qed.

Lemma armed_cache t q payload c :
  armed (mkThread (h_default t) (h_fallback t) c) q payload = armed t q payload.
Proof. done. Qed.

(** The labels a call uses: the fallback pool tries the secondary first. *)
Definition first_label (isFallbackPool : bool) (r : Routing) : ProcessorResult :=
  if isFallbackPool then r.(secondary_label) else r.(primary_label).
Definition second_label (isFallbackPool : bool) (r : Routing) : ProcessorResult :=
  if isFallbackPool then r.(primary_label) else r.(secondary_label).

Lemma labels_distinct pool r :
  routing_wf r ->
  bool_decide (first_label pool r = Default) <> bool_decide (second_label pool r = Default).
Proof.
  unfold first_label, second_label.
  intros [(-> & -> & _) | (-> & -> & _)]; destruct pool; vm_compute; discriminate.
Qed.

Definition handles_valid (t : Thread) : Prop :=
  handle t.(h_default) = true /\ handle t.(h_fallback) = true.

Lemma armed_valid t p payload : handles_valid t -> handle (armed t p payload) = true.
Proof. intros [Hd Hf]. unfold armed. by case_match. Qed.

Lemma handles_valid_put t p payload :
  handles_valid t -> handles_valid (put_handle t p (armed t p payload)).
Proof.
  intros Hv. pose proof (armed_valid t p payload Hv) as Ha. destruct Hv.
  unfold put_handle. by case_match.
Qed.

(** The routing after the first, and after both answers. *)
Definition routing_after (pool : bool) (r : Routing) (res1 res2 : perform_result) : Routing :=
  let r1 := (handle_response (first_label pool r) res1.(elapsed_ms) res1.(response_code)
               (if pool then set_fallback_evaluated false r else r)).1 in
  if tries_second r.(fallback_enabled) res1
  then (handle_response (second_label pool r) res2.(elapsed_ms) res2.(response_code) r1).1
  else r1.

Lemma process_payment_spec (c : Ctx W) json pool payload ts cache' w1 res1 w2 res2 :
  let p1 := first_label pool c.(rt) in
  let p2 := second_label pool c.(rt) in
  let enabled := c.(rt).(fallback_enabled) in
  routing_wf c.(rt) -> handles_valid c.(thr) ->
  create_processor_payload (time_now c.(world)) c.(thr).(cache) json = Ret (payload, ts, cache') ->
  curl_easy_perform c.(world) (armed c.(thr) p1 payload) = (w1, res1) ->
  curl_easy_perform w1 (armed c.(thr) p2 payload) = (w2, res2) ->
  exists c', process_payment json pool c = Ret (verdict p1 p2 enabled res1 res2, ts, payload, c') /\
    requests c'.(evs) = requests c.(evs) ++ Sent p1 (c_str payload) ::
      (if tries_second enabled res1 then [Sent p2 (c_str payload)] else []) /\
    c'.(world) = (if tries_second enabled res1 then w2 else w1) /\
    c'.(rt) = routing_after pool c.(rt) res1 res2 /\
    c'.(thr).(cache) = cache' /\ handles_valid c'.(thr).
Proof.
  intros p1 p2 enabled Hwf Hv Hpay Hw1 Hw2. unfold process_payment. rewrite Hpay. cbn [bind].
  cbv zeta. cbn [rt thr world evs].
  fold (first_label pool c.(rt)) (second_label pool c.(rt)). fold p1 p2.
  set (c0 := mkCtx _ _ _ _). assert (Hrt0 : rt c0 = rt c) by done.
  rewrite (send_valid p1 payload c0 w1 res1); [|by apply armed_valid|exact Hw1].
  set (c1 := mkCtx (put_handle _ _ _) _ _ _).
  set (c2 := if pool then reset_evaluated c1 else c1).
  assert (HC2 : thr c2 = thr c1 /\ world c2 = w1 /\ requests (evs c2) = requests (evs c1) /\
                rt c2 = (if pool then set_fallback_evaluated false (rt c) else rt c)).
  { unfold c2. by destruct pool. }
  destruct HC2 as (Ht2 & Hwd2 & He2 & Hr2).
  set (c3 := respond p1 _ _ c2).
  assert (Hr3 : rt c3 = (handle_response p1 (elapsed_ms res1) (response_code res1)
                  (if pool then set_fallback_evaluated false (rt c) else rt c)).1).
  { unfold c3. by rewrite rt_respond, Hr2. }
  assert (He3 : requests (evs c3) = requests (evs c) ++ [Sent p1 (c_str payload)]).
  { unfold c3. rewrite requests_respond, He2. unfold c1. cbn [evs]. by rewrite requests_app. }
  assert (Hen : fallback_enabled (rt c3) = enabled).
  { rewrite Hr3, enabled_handle_response. by destruct pool. }
  assert (Hc1 : cache (thr c1) = cache') by (unfold c1; cbn [thr]; by rewrite cache_put).
  assert (Hv1 : handles_valid (thr c1)) by apply handles_valid_put, Hv.
  assert (Ht3 : thr c3 = thr c1) by (unfold c3; by rewrite thr_respond).
  assert (Hw3 : world c3 = w1) by (unfold c3; by rewrite world_respond).
  unfold verdict, tries_second, routing_after, tries_second.
  fold p1 p2. fold enabled.
  destruct (accepted res1) eqn:Hok1; simpl.
  { exists c3. rewrite Ht3. by split_and!. }
  destruct (response_code res1 =? 422) eqn:H422; simpl.
  { exists c3. rewrite Ht3. by split_and!. }
  rewrite Hen. destruct enabled; simpl.
  2: { exists c3. rewrite Ht3. by split_and!. }
  rewrite (send_valid p2 payload c3 w2 res2); [| by rewrite Ht3; apply armed_valid |].
  2: { rewrite Hw3, Ht3. unfold c1. cbn [thr]. rewrite armed_put_other; [exact Hw2|].
       by apply labels_distinct. }
  set (c4 := mkCtx _ _ _ _). exists (respond p2 (elapsed_ms res2) (response_code res2) c4).
  split; [by destruct (accepted res2)|].
  rewrite requests_respond, world_respond, rt_respond, thr_respond. cbn [evs world rt thr c4].
  rewrite requests_app, He3, <- app_assoc, Hr3.
  split_and!; try done.
  - by rewrite Ht3, cache_put.
  - rewrite Ht3. by apply handles_valid_put.
Qed.
End Processing.

(** ** A scripted world, for the examples *)
Record Script := mkScript { s_time : Z; s_clock : Z; s_answers : list perform_result }.

#[export] Instance script_world : World Script := {|
  time_now := s_time;
  clock_ns := s_clock;
  curl_easy_perform w _ :=
    match w.(s_answers) with
    | [] => (w, mkPerform false 0 dzero)
    | a :: l => (mkScript w.(s_time) w.(s_clock) l, a)
    end;
|}.

Definition sample_thread : Thread :=
  mkThread (new_CurlHandle true url_d) (new_CurlHandle true url_f) new_cache.

Definition sample_ctx (answers : list perform_result) : Ctx Script :=
  mkCtx sample_thread sample_routing (mkScript 1751371506 0 answers) [].

Definition answer_500 : perform_result := mkPerform true 500 (double_of_Z 3).
Definition answer_422 : perform_result := mkPerform true 422 (double_of_Z 3).
Definition answer_200 : perform_result := mkPerform true 200 (double_of_Z 3).
Definition answer_lost : perform_result := mkPerform false 0 (double_of_Z 3).

(** C16. One attempt at a payment: the processor of the first label (the
    secondary one in the fallback pool) gets the payload; only when it neither
    accepts nor answers 422, and the fallback is enabled, the other processor
    gets the very same payload, and never a third request is made.  The
    verdict is the label that accepted, [Discard] for a first answer 422, and
    [TryAgain] otherwise; the routing is updated by the answers in order. *)
Theorem process_payment_outcome {W : Type} `{World W} (c : Ctx W) (json : list Z) (pool : bool)
    (payload : list Z) (ts : Z) (cache' : ts_cache) (w1 w2 : W) (res1 res2 : perform_result) :
  let p1 := first_label pool c.(rt) in
  let p2 := second_label pool c.(rt) in
  let enabled := c.(rt).(fallback_enabled) in
  routing_wf c.(rt) -> handles_valid c.(thr) ->
  create_processor_payload (time_now c.(world)) c.(thr).(cache) json = Ret (payload, ts, cache') ->
  curl_easy_perform c.(world) (armed c.(thr) p1 payload) = (w1, res1) ->
  curl_easy_perform w1 (armed c.(thr) p2 payload) = (w2, res2) ->
  exists c', process_payment json pool c = Ret (verdict p1 p2 enabled res1 res2, ts, payload, c') /\
    requests c'.(evs) = requests c.(evs) ++ Sent p1 (c_str payload) ::
      (if tries_second enabled res1 then [Sent p2 (c_str payload)] else []) /\
    c'.(rt) = routing_after pool c.(rt) res1 res2.
Proof.
  intros p1 p2 enabled Hwf Hv Hpay Hw1 Hw2.
  destruct (process_payment_spec c json pool payload ts cache' w1 res1 w2 res2)
    as (c' & Hres & Hreq & _ & Hrt & _); [done..|]. eauto.
Qed.

Lemma process_payment_outcome_witness :
  let c := sample_ctx [answer_500; answer_200] in
  let json := payment_body sample_id (str "19.9") in
  let payload := payment_open sample_id (str "19.9") ++ jstr ",'requestedAt':'" ++
                 requestedAt 1751371506 ++ jstr "'}" in
  exists c', process_payment json false c =
      Ret (verdict Default Fallback true answer_500 answer_200, 1751371506, payload, c') /\
    requests c'.(evs) = requests c.(evs) ++ Sent Default (c_str payload) ::
      (if tries_second true answer_500 then [Sent Fallback (c_str payload)] else []) /\
    c'.(rt) = routing_after false c.(rt) answer_500 answer_200.
Proof.
  intros c json payload.
  apply (process_payment_outcome c json false payload 1751371506
           (mkCache 1751371506 (requestedAt 1751371506))
           (mkScript 1751371506 0 [answer_200]) (mkScript 1751371506 0 [])
           answer_500 answer_200).
  - left. vm_compute. auto.
  - split; reflexivity.
  - vm_compute. reflexivity.
  - vm_compute. reflexivity.
  - vm_compute. reflexivity.
Defined.

(** A rejection by the second processor is not final: when the first
    processor fails (not with 422) and the second one answers 422, the verdict
    is [TryAgain], because the second test of the code looks at the first
    answer again; the payment will be sent once more. *)
Theorem secondary_422_is_retried {W : Type} `{World W} (c : Ctx W) (json : list Z) (pool : bool)
    (payload : list Z) (ts : Z) (cache' : ts_cache) (w1 w2 : W) (res1 res2 : perform_result) :
  let p1 := first_label pool c.(rt) in
  let p2 := second_label pool c.(rt) in
  routing_wf c.(rt) -> handles_valid c.(thr) -> c.(rt).(fallback_enabled) = true ->
  create_processor_payload (time_now c.(world)) c.(thr).(cache) json = Ret (payload, ts, cache') ->
  curl_easy_perform c.(world) (armed c.(thr) p1 payload) = (w1, res1) ->
  curl_easy_perform w1 (armed c.(thr) p2 payload) = (w2, res2) ->
  accepted res1 = false -> res1.(response_code) <> 422 -> res2.(response_code) = 422 ->
  exists c', process_payment json pool c = Ret (TryAgain, ts, payload, c').
Proof.
  intros p1 p2 Hwf Hv Hen Hpay Hw1 Hw2 Ha1 Hc1 Hc2.
  destruct (process_payment_spec c json pool payload ts cache' w1 res1 w2 res2)
    as (c' & Hres & _); [done..|]. exists c'. rewrite Hres. unfold verdict.
  rewrite Ha1, Hen. replace (response_code res1 =? 422) with false by lia. simpl.
  unfold accepted. rewrite Hc2. by rewrite andb_false_r.
Qed.

Lemma secondary_422_is_retried_witness :
  exists c', process_payment (payment_body sample_id (str "19.9")) false
               (sample_ctx [answer_lost; answer_422]) =
    Ret (TryAgain, 1751371506,
         payment_open sample_id (str "19.9") ++ jstr ",'requestedAt':'" ++
         requestedAt 1751371506 ++ jstr "'}", c').
Proof.
  apply (secondary_422_is_retried (sample_ctx [answer_lost; answer_422])
           (payment_body sample_id (str "19.9")) false _ 1751371506
           (mkCache 1751371506 (requestedAt 1751371506))
           (mkScript 1751371506 0 [answer_422]) (mkScript 1751371506 0 [])
           answer_lost answer_422).
  - left. vm_compute. auto.
  - split; reflexivity.
  - reflexivity.
  - vm_compute. reflexivity.
  - vm_compute. reflexivity.
  - vm_compute. reflexivity.
  - reflexivity.
  - vm_compute. discriminate.
  - reflexivity.
Defined.
