(* ===== verification/Service.v ===== *)
(** * The payment service: constructor, process, worker_loop and the POST
      handler

    [Service] holds the members of [PaymentService]; the detached threads of
    the fallback pool that have not run yet are [spawned].  One iteration of a
    worker's loop, one detached thread and one POST request are functions from
    state to state; the system is their interleaving at that grain, with the
    world changing arbitrarily in between. *)
From S2P Require Import Prelude Decimal Types Doubles Calendar WorkerQueue Processed Routing Payload Processing.
From Stdlib Require Import SpecFloat.

Definition QUEUE_CAPACITY : Z := 100_000.

(** ** State *)
Record Service := mkService {
  routing : Routing;
  queues : list WorkerQueue;
  processed : Processed;
  threads : list Thread;
  running : bool;
  fallback_is_running : bool;
  last_fallback : Z;
  inter_interval : Z;
  empty_interval : Z;
  spawned : list (nat * RawPayment) }.

(** Functional updates of the members that change. *)
Definition with_queue (i : nat) (q : WorkerQueue) (s : Service) : Service :=
  mkService s.(routing) (<[i := q]> s.(queues)) s.(processed) s.(threads) s.(running)
    s.(fallback_is_running) s.(last_fallback) s.(inter_interval) s.(empty_interval) s.(spawned).

Definition with_processed (p : Processed) (s : Service) : Service :=
  mkService s.(routing) s.(queues) p s.(threads) s.(running)
    s.(fallback_is_running) s.(last_fallback) s.(inter_interval) s.(empty_interval) s.(spawned).

Definition with_attempt (r : Routing) (i : nat) (t : Thread) (s : Service) : Service :=
  mkService r s.(queues) s.(processed) (<[i := t]> s.(threads)) s.(running)
    s.(fallback_is_running) s.(last_fallback) s.(inter_interval) s.(empty_interval) s.(spawned).

Definition with_pool (b : bool) (last : Z) (sp : list (nat * RawPayment)) (s : Service) : Service :=
  mkService s.(routing) s.(queues) s.(processed) s.(threads) s.(running)
    b last s.(inter_interval) s.(empty_interval) sp.

(** ** Operations *)

(** [enqueue(queue_idx, r)] *)
Definition service_enqueue (i : nat) (r : RawPayment) (s : Service) : outcome Service :=
  match s.(queues) !! i with
  | None => Undefined OutOfBounds
  | Some q => let* q' := enqueue q r in Ret (with_queue i q' s)
  end.

(** [string(json, r.size)] *)
Definition raw_string (r : RawPayment) : outcome (list Z) :=
  if r.(size) <=? sizeZ r.(data) then Ret (take (Z.to_nat r.(size)) r.(data))
  else Undefined OutOfBounds.

(** [RawPayment r; r.size = body.size(); memcpy(r.data.data(), ...)] *)
Definition make_raw (body : list Z) : outcome RawPayment :=
  if (length body <=? raw_capacity)%nat
  then Ret (mkRaw (body ++ replicate (raw_capacity - length body) 0) (sizeZ body))
  else Undefined OutOfBounds.

Section Operations.
Context {W : Type} `{World W}.

(** [process]; the verdict is returned for the record.  The detached thread
    of the pool starts with fresh [thread_local] variables. *)
Definition process (worker : nat) (r : RawPayment) (isFallbackPool : bool) (s : Service) (w : W)
  : outcome (ProcessorResult * Service * W * list event) :=
  let* json := raw_string r in
  let* t := match s.(threads) !! worker with
            | Some t => Ret t
            | None => Throw StdOutOfRange
            end in
  let t0 := if isFallbackPool then mkThread t.(h_default) t.(h_fallback) new_cache else t in
  let* (processor, ts, payload, c) :=
    process_payment json isFallbackPool (mkCtx t0 s.(routing) w []) in
  let t1 := mkThread c.(thr).(h_default) c.(thr).(h_fallback)
              (if isFallbackPool then t.(cache) else c.(thr).(cache)) in
  let s := with_attempt c.(rt) worker t1 s in
  let* s :=
    match processor with
    | TryAgain => service_enqueue worker r s
    | Discard => Ret s
    | _ => let* p := store_processed s.(routing).(fallback_enabled) payload processor ts
                       s.(processed) in
           Ret (with_processed p s)
    end in
  let s := if isFallbackPool then with_pool false (clock_ns c.(world)) s.(spawned) s else s in
  let es := if (0 <? s.(inter_interval)) && negb isFallbackPool
            then c.(evs) ++ [SleptUs s.(inter_interval)] else c.(evs) in
  Ret (processor, s, c.(world), es).

(** What one iteration of the loop did with the queue. *)
Inductive iteration := Idle | Spawned (r : RawPayment) | Done (v : ProcessorResult) (r : RawPayment).

(** The body of [while (running)] in [worker_loop]. *)
Definition worker_iteration (worker : nat) (s : Service) (w : W)
  : outcome (iteration * Service * W * list event) :=
  match s.(queues) !! worker with
  | None => Undefined OutOfBounds
  | Some q =>
      let* o := fetch_next s.(running) q in
      match o with
      | None => Ret (Idle, s, w, [SleptMs s.(empty_interval)])
      | Some (r, q') =>
          let s := with_queue worker q' s in
          let elapsed := i32 (Z.quot (clock_ns w - s.(last_fallback)) 1_000_000) in
          if s.(routing).(fallback_enabled) && negb s.(fallback_is_running)
             && (s.(routing).(fallback_interval_ms) <=? elapsed)
          then Ret (Spawned r,
                    with_pool true s.(last_fallback) (s.(spawned) ++ [(worker, r)]) s, w, [])
          else
            let* (v, s, w, es) := process worker r false s w in
            Ret (Done v r, s, w, es)
      end
  end.

(** The [k]-th detached thread runs [process(worker_id, r, true)]. *)
Definition pool_run (k : nat) (s : Service) (w : W)
  : outcome (iteration * Service * W * list event) :=
  match s.(spawned) !! k with
  | None => Undefined OutOfBounds
  | Some (worker, r) =>
      let s := with_pool s.(fallback_is_running) s.(last_fallback)
                 (delete k s.(spawned)) s in
      let* (v, s, w, es) := process worker r true s w in
      Ret (Done v r, s, w, es)
  end.
End Operations.

(** ** The POST handler

    [queue_index] and [queue_size] are the handler's static variables. *)
Record Server := mkServer { service : Service; queue_index : Z; queue_size : Z }.

Definition queue_count (s : Service) : Z := sizeZ s.(queues).

(** The callback of [post_payment_handler] on the fetched body; the response
    is always [202] with an empty body. *)
Definition post_payment_handler (body : list Z) (srv : Server) : outcome (RawPayment * Server) :=
  let* r := make_raw body in
  if srv.(queue_size) =? 0 then Undefined DivisionByZero
  else
    let idx := srv.(queue_index) mod srv.(queue_size) in
    let* s := service_enqueue (Z.to_nat idx) r srv.(service) in
    Ret (r, mkServer s (u64 (srv.(queue_index) + 1)) srv.(queue_size)).

(** The first request initialises the statics. *)
Definition new_server (s : Service) : Server := mkServer s 0 (queue_count s).

(** A small service for the examples: two workers, four slots each. *)
Definition sample_service : Service :=
  mkService sample_routing [new_queue 4; new_queue 4] (new_processed 1751371500)
    [sample_thread; sample_thread] true false 0 0 100 [].
