(* ===== verification/PostHandler.v ===== *)
(** * POST /payments: copying the body and dealing the queues

    Theorems on [post_payment_handler] of src/src/main.cpp: the copy of the
    body into the fixed-size [RawPayment], and the round-robin choice of the
    worker queue. *)
From S2P Require Import Prelude Decimal Types Doubles Calendar WorkerQueue Processed Routing Payload Processing Service.

(** ** The copied body *)
Lemma make_raw_fits (body : list Z) : (length body <= 70)%nat ->
  exists r, make_raw body = Ret r /\ raw_string r = Ret body /\ length r.(data) = 70%nat.
Proof.
  intros Hlen. unfold make_raw, raw_capacity. rewrite (proj2 (Nat.leb_le _ _) Hlen). eexists. split; [done|].
  unfold raw_string, sizeZ. cbn [data Types.size].
  assert (HL : length (body ++ replicate (70 - length body) 0) = 70%nat).
  { rewrite length_app, length_replicate. lia. }
  split; [|done]. rewrite HL, (proj2 (Z.leb_le _ _)) by lia.
  by rewrite Nat2Z.id, take_app_length.
Qed.

(** C35. The copy into [RawPayment]: a body of at most 70 bytes is read back
    unchanged when the payment is processed; a longer body is written past
    the end of the array, and no check prevents it. *)
Theorem raw_payment_roundtrip (body : list Z) :
  ((length body <= 70)%nat ->
   exists r, make_raw body = Ret r /\ raw_string r = Ret body /\ length r.(data) = 70%nat) /\
  ((70 < length body)%nat -> make_raw body = Undefined OutOfBounds).
Proof.
  split; [apply make_raw_fits|]. intros Hlen. unfold make_raw, raw_capacity. by rewrite (proj2 (Nat.leb_gt _ _) Hlen).
Qed.

Lemma raw_payment_roundtrip_witness :
  (exists r, make_raw (payment_body sample_id (str "19.9")) = Ret r /\
     raw_string r = Ret (payment_body sample_id (str "19.9")) /\ length r.(data) = 70%nat) /\
  make_raw (payment_body sample_id (str "19.90")) = Undefined OutOfBounds.
Proof.
  split.
  - apply (raw_payment_roundtrip (payment_body sample_id (str "19.9"))). vm_compute. lia.
  - apply (raw_payment_roundtrip (payment_body sample_id (str "19.90"))). vm_compute. lia.
Defined.

(** A payment without a body: [json.pop_back()] on an empty string. *)
Lemma process_raw_empty {V} `{World V} worker t pool s (v : V) :
  s.(threads) !! worker = Some t -> process worker raw_empty pool s v = Undefined PopBackOnEmpty.
Proof.
  intros Ht. unfold process. change (raw_string raw_empty) with (Ret ([] : list Z)). cbn [bind]. by rewrite Ht.
Qed.

(** ** Dealing the queues *)
Fixpoint post_all (bodies : list (list Z)) (srv : Server) : outcome Server :=
  match bodies with
  | [] => Ret srv
  | b :: bodies => let* (_, srv) := post_payment_handler b srv in post_all bodies srv
  end.

(** The payments of [rs] dealt to queue [j] of [k] when the first one has
    number [idx]. *)
Fixpoint dealt (k idx j : Z) (rs : list RawPayment) : list RawPayment :=
  match rs with
  | [] => []
  | r :: rs => (if idx mod k =? j then [r] else []) ++ dealt k (idx + 1) j rs
  end.

Lemma div_step k x : 0 < k -> (x + 1) / k = x / k + (if (x + 1) mod k =? 0 then 1 else 0).
Proof.
  intros Hk. pose proof (Z.div_mod (x + 1) k ltac:(lia)) as Hdm.
  pose proof (Z.mod_pos_bound (x + 1) k Hk) as Hb.
  destruct (Z.eqb_spec ((x + 1) mod k) 0) as [He|He].
  - enough (x / k = (x + 1) / k - 1) by lia.
    symmetry. apply (Z.div_unique_pos x k _ (k - 1)); lia.
  - enough (x / k = (x + 1) / k) by lia.
    symmetry. apply (Z.div_unique_pos x k _ ((x + 1) mod k - 1)); lia.
Qed.

Lemma mod_sub_zero k i j : 0 < k -> 0 <= j < k -> ((i - j) mod k =? 0) = (i mod k =? j).
Proof.
  intros Hk Hj. apply eq_true_iff_eq. rewrite !Z.eqb_eq. split; intros Heq.
  - replace i with (j + (i - j)) by lia.
    rewrite Z.add_mod, Heq, Z.add_0_r, Z.mod_mod, Z.mod_small; lia.
  - by rewrite Zminus_mod, Heq, (Z.mod_small j), Z.sub_diag, Z.mod_0_l by lia.
Qed.

Lemma dealt_length k idx j rs :
  0 < k -> 0 <= j < k ->
  Z.of_nat (length (dealt k idx j rs)) = (idx + Z.of_nat (length rs) - 1 - j) / k - (idx - 1 - j) / k.
Proof.
  intros Hk Hj. revert idx. induction rs as [|r rs IH]; intros idx; cbn [dealt length].
  - replace (idx + Z.of_nat 0 - 1 - j) with (idx - 1 - j) by lia. lia.
  - rewrite length_app, Nat2Z.inj_add, IH.
    replace (idx + 1 - 1 - j) with (idx - 1 - j + 1) by lia.
    rewrite (div_step k (idx - 1 - j)) by done.
    replace (idx - 1 - j + 1) with (idx - j) by lia. rewrite mod_sub_zero by done.
    replace (idx + 1 + Z.of_nat (length rs) - 1 - j)
      with (idx + Z.of_nat (S (length rs)) - 1 - j) by lia.
    case_match; simpl; lia.
Qed.

Definition fair_share (n k j : Z) : Z := (n - 1 - j) / k + 1.

(** Queues with space for [n] more payments. *)
Definition space_for (n : nat) (q : WorkerQueue) : Prop :=
  queue_wf q /\ q.(tail) - q.(head) + Z.of_nat n <= capacityZ q /\ q.(tail) + Z.of_nat n < 2 ^ 64.

Lemma space_push n q r : space_for (S n) q -> space_for n (put q r) /\ space_for n q.
Proof.
  intros (Hwf & Hs & Ht). split; [|split; [done|lia]].
  assert (Hroom : queue_room q) by (split; lia).
  split; [by apply queue_wf_put|]. rewrite capacity_put. simpl. destruct Hwf.
  rewrite u64_small by lia. lia.
Qed.

Lemma service_enqueue_at i r s q :
  s.(queues) !! i = Some q -> queue_wf q -> service_enqueue i r s = Ret (with_queue i (put q r) s).
Proof. intros Hi Hq. unfold service_enqueue. rewrite Hi, enqueue_put by apply Hq. done. Qed.

(** The effect of a run of requests on queue [j]. *)
Lemma post_all_spec bodies srv rs :
  let k := srv.(queue_size) in
  0 < k -> sizeZ srv.(service).(queues) = k ->
  0 <= srv.(queue_index) -> srv.(queue_index) + Z.of_nat (length bodies) < 2 ^ 64 ->
  Forall (space_for (length bodies)) srv.(service).(queues) ->
  Forall2 (fun b r => make_raw b = Ret r) bodies rs ->
  exists srv', post_all bodies srv = Ret srv' /\
    forall j q, srv.(service).(queues) !! j = Some q ->
      exists q', srv'.(service).(queues) !! j = Some q' /\
        pending q' = pending q ++ dealt k srv.(queue_index) (Z.of_nat j) rs.
Proof.
  intros k Hk Hsize Hidx Hmax Hspace Hraw. unfold k in *. clear k.
  revert srv Hk Hsize Hidx Hmax Hspace.
  induction Hraw as [|b r bodies rs Hbr _ IH]; intros srv Hk Hsize Hidx Hmax Hspace; cbn [post_all dealt].
  { eexists. split; [done|]. intros j q Hj. exists q. by rewrite app_nil_r. }
  set (k := queue_size srv) in *. set (idx := queue_index srv) in *.
  set (i := Z.to_nat (idx mod k)).
  assert (Hi : 0 <= idx mod k < k) by (apply Z.mod_pos_bound; done).
  destruct (lookup_lt_is_Some_2 (queues (service srv)) i) as [q Hq]; [unfold sizeZ in *; lia|].
  pose proof (Forall_lookup_1 _ _ _ _ Hspace Hq) as Hsq. cbn [length] in *.
  unfold post_payment_handler. rewrite Hbr. cbn [bind]. fold k idx.
  replace (k =? 0) with false by lia. fold i.
  rewrite (service_enqueue_at i r _ q Hq) by apply Hsq. cbn [bind].
  destruct (IH (mkServer (with_queue i (put q r) (service srv)) (u64 (idx + 1)) k)) as (srv' & Hrun & Hall).
  { done. }
  { unfold sizeZ. simpl. by rewrite length_insert. }
  { apply u64_range. }
  { simpl. rewrite u64_small; lia. }
  { simpl. apply Forall_insert; [|exact (proj1 (space_push _ _ r Hsq))].
    eapply Forall_impl; [exact Hspace|]. intros q0 Hq0. exact (proj2 (space_push _ _ r Hq0)). }
  exists srv'. split; [exact Hrun|]. intros j q0 Hj. cbn [queue_index queue_size service] in Hall.
  rewrite u64_small in Hall by lia.
  destruct (decide (i = j)) as [<-|Hne].
  - rewrite Hq in Hj. injection Hj as <-.
    destruct (Hall i (put q r)) as (q' & Hq' & Hp').
    { simpl. apply list_lookup_insert_eq. by eapply lookup_lt_Some. }
    exists q'. split; [done|]. rewrite Hp', pending_put.
    + rewrite <- app_assoc. replace (_ =? _) with true by lia. done.
    + apply Hsq.
    + destruct Hsq as (? & ? & ?). split; lia.
  - destruct (Hall j q0) as (q' & Hq' & Hp').
    { simpl. by rewrite list_lookup_insert_ne. }
    exists q'. split; [done|]. rewrite Hp'. by replace (_ =? _) with false by lia.
Qed.

(** Round robin: requests that arrive one after the other at a service
    with [k] workers and space in the queues are all accepted; worker [j] gets,
    in order, the requests whose number is [j] modulo [k], that is
    [fair_share n k j] of the first [n] requests (the shares of two workers
    differ by at most one), and no other queue entry changes. *)
Theorem round_robin (bodies : list (list Z)) (rs : list RawPayment) (s : Service) :
  let k := queue_count s in
  0 < k -> Z.of_nat (length bodies) < 2 ^ 64 ->
  Forall (space_for (length bodies)) s.(queues) ->
  Forall2 (fun b r => make_raw b = Ret r) bodies rs ->
  exists srv', post_all bodies (new_server s) = Ret srv' /\
    forall j q, s.(queues) !! j = Some q ->
      exists q', srv'.(service).(queues) !! j = Some q' /\
        pending q' = pending q ++ dealt k 0 (Z.of_nat j) rs /\
        Z.of_nat (length (dealt k 0 (Z.of_nat j) rs)) =
          fair_share (Z.of_nat (length bodies)) k (Z.of_nat j) /\
        Z.of_nat (length bodies) / k <= fair_share (Z.of_nat (length bodies)) k (Z.of_nat j)
          <= Z.of_nat (length bodies) / k + 1.
Proof.
  intros k Hk Hmax Hspace Hraw.
  destruct (post_all_spec bodies (new_server s) rs) as (srv' & Hrun & Hall); [done..|].
  exists srv'. split; [done|]. intros j q Hj. destruct (Hall j q Hj) as (q' & Hq' & Hp').
  assert (Hjk : 0 <= Z.of_nat j < k).
  { unfold k, queue_count, sizeZ. pose proof (lookup_lt_Some _ _ _ Hj). lia. }
  exists q'. split_and!; [done | done | | |].
  - rewrite dealt_length, (Forall2_length _ _ _ Hraw) by done. unfold fair_share.
    replace ((0 - 1 - Z.of_nat j) / k) with (-1); [|apply (Z.div_unique_pos _ k _ (k - 1 - Z.of_nat j)); lia].
    by replace (0 + Z.of_nat (length rs) - 1 - Z.of_nat j) with (Z.of_nat (length rs) - 1 - Z.of_nat j) by lia.
  - unfold fair_share. set (n := Z.of_nat (length bodies)).
    enough ((n - k) / k <= (n - 1 - Z.of_nat j) / k).
    { replace (n - k) with (n + (-1) * k) in * by lia. rewrite Z.div_add in * by lia. lia. }
    apply Z.div_le_mono; lia.
  - unfold fair_share. set (n := Z.of_nat (length bodies)).
    enough ((n - 1 - Z.of_nat j) / k <= n / k) by lia. apply Z.div_le_mono; lia.
Qed.

Definition sample_bodies : list (list Z) :=
  [payment_body (str "a") (str "1"); payment_body (str "b") (str "2"); payment_body (str "c") (str "3")].

Definition sample_raws : list RawPayment :=
  (fun b => mkRaw (b ++ replicate (70 - length b) 0) (sizeZ b)) <$> sample_bodies.

Lemma round_robin_witness :
  exists srv', post_all sample_bodies (new_server sample_service) = Ret srv' /\
    forall j q, sample_service.(queues) !! j = Some q ->
      exists q', srv'.(service).(queues) !! j = Some q' /\
        pending q' = pending q ++ dealt 2 0 (Z.of_nat j) sample_raws /\
        Z.of_nat (length (dealt 2 0 (Z.of_nat j) sample_raws)) = fair_share 3 2 (Z.of_nat j) /\
        3 / 2 <= fair_share 3 2 (Z.of_nat j) <= 3 / 2 + 1.
Proof.
  apply (round_robin sample_bodies sample_raws sample_service).
  - reflexivity.
  - reflexivity.
  - repeat constructor; vm_compute; intuition congruence.
  - repeat constructor.
Defined.
