(* ===== verification/PostRace.v ===== *)
(** * Two POST requests at once

    The callback of [post_payment_handler] runs in several REST worker threads;
    its static [queue_index] is a plain [size_t], incremented without a lock.
    The memory accesses of the callback, those of [enqueue] included, are
    micro-steps; two handlers interleave them.  The file says for every
    schedule which queues the two payments end in. *)
From S2P Require Import Prelude Decimal Types Doubles Calendar WorkerQueue EnqueueRace Processed Routing Payload Processing Service PostHandler.

(** Where a thread is inside the callback: before [queue_index++], between its
    load and its store, and inside [enqueue(idx, r)]. *)
Inductive handler_pc :=
  | HStart (r : RawPayment)
  | HLoaded (r : RawPayment) (index : Z)
  | HEnqueue (idx : nat) (t : pc).

Definition set_index (i : Z) (srv : Server) : Server := mkServer srv.(service) i srv.(queue_size).
Definition set_queue (i : nat) (q : WorkerQueue) (srv : Server) : Server :=
  mkServer (with_queue i q srv.(service)) srv.(queue_index) srv.(queue_size).

(** One memory access. *)
Definition handler_step (h : handler_pc) (srv : Server) : outcome (handler_pc * Server) :=
  match h with
  | HStart r => Ret (HLoaded r srv.(queue_index), srv)
  | HLoaded r i =>
      if srv.(queue_size) =? 0 then Undefined DivisionByZero
      else Ret (HEnqueue (Z.to_nat (i mod srv.(queue_size))) (Start r), set_index (u64 (i + 1)) srv)
  | HEnqueue i t =>
      match srv.(service).(queues) !! i with
      | None => Undefined OutOfBounds
      | Some q => let* (t, q) := micro_step t q in Ret (HEnqueue i t, set_queue i q srv)
      end
  end.

(** Two handlers; [true] in the schedule runs the first one. *)
Fixpoint handlers (schedule : list bool) (h1 h2 : handler_pc) (srv : Server)
  : outcome (handler_pc * handler_pc * Server) :=
  match schedule with
  | [] => Ret (h1, h2, srv)
  | true :: schedule => let* (h1, srv) := handler_step h1 srv in handlers schedule h1 h2 srv
  | false :: schedule => let* (h2, srv) := handler_step h2 srv in handlers schedule h1 h2 srv
  end.

Definition answered (h : handler_pc) : bool :=
  match h with HEnqueue _ Finished => true | _ => false end.

(** ** One handler alone *)
Lemma set_queue_twice i q q' srv : set_queue i q' (set_queue i q srv) = set_queue i q' srv.
Proof. destruct srv as [s qi qs]. unfold set_queue, with_queue. cbn. by rewrite list_insert_insert_eq. Qed.

Lemma set_queue_lookup i q q0 srv :
  srv.(service).(queues) !! i = Some q0 -> (set_queue i q srv).(service).(queues) !! i = Some q.
Proof. intros Hi. apply list_lookup_insert_eq. by eapply lookup_lt_Some. Qed.

Lemma handler_step_enqueue i t q srv : srv.(service).(queues) !! i = Some q ->
  handler_step (HEnqueue i t) srv = let* (t', q') := micro_step t q in Ret (HEnqueue i t', set_queue i q' srv).
Proof. intros Hi. cbn [handler_step]. by rewrite Hi. Qed.

(** The state of a queue on which one [enqueue] of [r] has come to [t]. *)
Definition progress (r : RawPayment) (q : WorkerQueue) (t : pc) (q' : WorkerQueue) : Prop :=
  match t with
  | Start r' => r' = r /\ q' = q
  | Loaded r' pos => r' = r /\ pos = q.(tail) /\ q' = q
  | Bumped r' pos => r' = r /\ pos = q.(tail) /\ q' = mkWorkerQueue q.(queue) q.(head) (u64 (q.(tail) + 1))
  | Finished => q' = put q r
  end.

Lemma progress_step r q t q1 : 0 < capacityZ q -> progress r q t q1 ->
  exists t' q2, micro_step t q1 = Ret (t', q2) /\ progress r q t' q2 /\
    steps_left t' = pred (steps_left t).
Proof.
  intros Hc Hp. destruct t; cbn [progress] in Hp; destruct_and?; subst; cbn [micro_step queue head tail].
  3: unfold capacityZ in Hc; replace (sizeZ (queue q) =? 0) with false by lia;
     rewrite storeZ_total by (apply mod_in_capacity, Hc); cbn [bind].
  all: do 2 eexists; split; [reflexivity|]; split; [by cbn; auto|reflexivity].
Qed.

(** The steps alone are the callback. *)
Lemma handler_alone body r srv h2 q :
  make_raw body = Ret r -> 0 < srv.(queue_size) ->
  srv.(service).(queues) !! Z.to_nat (srv.(queue_index) mod srv.(queue_size)) = Some q -> 0 < capacityZ q ->
  exists srv', handlers [true; true; true; true; true] (HStart r) h2 srv =
                 Ret (HEnqueue (Z.to_nat (srv.(queue_index) mod srv.(queue_size))) Finished, h2, srv') /\
               post_payment_handler body srv = Ret (r, srv').
Proof.
  intros Hraw Hk Hq Hc. unfold post_payment_handler, service_enqueue. rewrite Hraw. cbn [bind handlers].
  rewrite Hq, enqueue_put by done. cbn [handler_step bind]. replace (queue_size srv =? 0) with false by lia. cbn [bind].
  set (i := Z.to_nat _) in *. set (srv1 := set_index _ _).
  rewrite (handler_step_enqueue i _ q srv1) by done. cbn [micro_step bind].
  rewrite (handler_step_enqueue i _ q) by (by eapply set_queue_lookup). cbn [micro_step bind].
  erewrite (handler_step_enqueue i) by (eapply set_queue_lookup, set_queue_lookup; exact Hq).
  cbn [micro_step bind queue head tail].
  unfold capacityZ in Hc. replace (sizeZ (queue q) =? 0) with false by lia.
  rewrite storeZ_total by (apply mod_in_capacity, Hc). cbn [bind]. rewrite !set_queue_twice. eauto.
Qed.

(** Inside [enqueue] two handlers of the same queue are two calls of [enqueue]. *)
Lemma handlers_enqueue i schedule t1 t2 q t1' t2' q' srv :
  is_Some (srv.(service).(queues) !! i) -> interleave schedule t1 t2 q = Ret (t1', t2', q') ->
  handlers schedule (HEnqueue i t1) (HEnqueue i t2) (set_queue i q srv) =
    Ret (HEnqueue i t1', HEnqueue i t2', set_queue i q' srv).
Proof.
  intros [q0 Hi]. revert t1 t2 q. induction schedule as [|b schedule IH]; intros t1 t2 q; cbn [interleave handlers].
  - intros. inv_outcome. by simplify_eq.
  - destruct b; intros H; apply bind_Ret in H as ([t q1] & Hstep & H);
      rewrite (handler_step_enqueue i _ q) by (by eapply set_queue_lookup); rewrite Hstep; cbn [bind];
      rewrite set_queue_twice; by apply IH.
Qed.

Lemma set_queue_same i q srv : srv.(service).(queues) !! i = Some q -> set_queue i q srv = srv.
Proof.
  intros Hi. destruct srv as [[] ? ?]. unfold set_queue, with_queue. cbn in *. by rewrite list_insert_id.
Qed.

Lemma set_queue_commute i j q q' srv : i <> j -> set_queue i q (set_queue j q' srv) = set_queue j q' (set_queue i q srv).
Proof. intros Hij. unfold set_queue, with_queue. cbn. by rewrite list_insert_insert_ne. Qed.

Lemma interleave_swap schedule t1 t2 q t1' t2' q' :
  interleave schedule t1 t2 q = Ret (t1', t2', q') ->
  interleave (negb <$> schedule) t2 t1 q = Ret (t2', t1', q').
Proof.
  revert t1 t2 q. induction schedule as [|[] schedule IH]; intros t1 t2 q; cbn [fmap list_fmap negb interleave].
  - intros. inv_outcome. by simplify_eq.
  - intros H. apply bind_Ret in H as ([t q1] & -> & H). cbn [bind]. by apply IH.
  - intros H. apply bind_Ret in H as ([t q1] & -> & H). cbn [bind]. by apply IH.
Qed.

(** ** Two handlers *)
Section Two.
Variable srv0 : Server.
Local Abbreviation k := srv0.(queue_size).
Local Abbreviation i0 := srv0.(queue_index).
Local Abbreviation first := (Z.to_nat (i0 mod k)).
Local Abbreviation second := (Z.to_nat ((i0 + 1) mod k)).
Variables qa qb : WorkerQueue.
Hypothesis Hk : 1 < k.
Hypothesis Hqa : srv0.(service).(queues) !! first = Some qa.
Hypothesis Hqb : srv0.(service).(queues) !! second = Some qb.
Hypothesis Hca : 0 < capacityZ qa.
Hypothesis Hcb : 0 < capacityZ qb.
Hypothesis Hi0 : 0 <= i0.
Hypothesis Hmax : i0 + 2 < 2 ^ 64.

(** A handler that has read [i0] and is at [t] of its [enqueue]. *)
Definition took_first (r : RawPayment) (h : handler_pc) (t : pc) : Prop :=
  h = HLoaded r i0 /\ t = Start r \/ h = HEnqueue first t.

Definition loaded (h : handler_pc) : bool := match h with HLoaded _ _ => true | _ => false end.

(** The states of two handlers: nothing stored yet; both have read [i0]; or
    [r1]'s handler has stored its increment before the other one reads. *)
Inductive phase (r1 r2 : RawPayment) : handler_pc -> handler_pc -> Server -> Prop :=
  | phase_start : phase r1 r2 (HStart r1) (HStart r2) srv0
  | phase_first : phase r1 r2 (HLoaded r1 i0) (HStart r2) srv0
  | phase_second : phase r1 r2 (HStart r1) (HLoaded r2 i0) srv0
  | phase_same h1 h2 t1 t2 schedule q' :
      took_first r1 h1 t1 -> took_first r2 h2 t2 ->
      interleave schedule (Start r1) (Start r2) qa = Ret (t1, t2, q') ->
      phase r1 r2 h1 h2 (set_queue first q' (set_index (if loaded h1 && loaded h2 then i0 else i0 + 1) srv0))
  | phase_apart h1 h2 srv : apart r1 r2 h1 h2 srv -> phase r1 r2 h1 h2 srv
  | phase_apart' h1 h2 srv : apart r2 r1 h2 h1 srv -> phase r1 r2 h1 h2 srv
with apart (r1 r2 : RawPayment) : handler_pc -> handler_pc -> Server -> Prop :=
  | apart_before h2 t1 q1 :
      progress r1 qa t1 q1 -> h2 = HStart r2 \/ h2 = HLoaded r2 (i0 + 1) ->
      apart r1 r2 (HEnqueue first t1) h2 (set_queue first q1 (set_index (i0 + 1) srv0))
  | apart_after t1 q1 t2 q2 :
      progress r1 qa t1 q1 -> progress r2 qb t2 q2 ->
      apart r1 r2 (HEnqueue first t1) (HEnqueue second t2)
        (set_queue first q1 (set_queue second q2 (set_index (i0 + 2) srv0))).

Lemma phase_swap r1 r2 h1 h2 srv : phase r1 r2 h1 h2 srv -> phase r2 r1 h2 h1 srv.
Proof.
  intros [| | |h1' h2' t1 t2 sch q' H1 H2 Hrun|h1' h2' srv' Hap|h1' h2' srv' Hap]; try by constructor.
  - rewrite andb_comm. eapply phase_same; [done..|]. by apply interleave_swap.
Qed.

Lemma first_second : first <> second.
Proof.
  pose proof (Z.mod_pos_bound i0 k ltac:(lia)). pose proof (Z.mod_pos_bound (i0 + 1) k ltac:(lia)).
  pose proof (mod_distinct k i0 (i0 + 1)). lia.
Qed.

(** Where a handler that read [i] goes. *)
Lemma handler_step_loaded r i srv : srv.(queue_size) = k -> 0 <= i < 2 ^ 64 - 1 ->
  handler_step (HLoaded r i) srv = Ret (HEnqueue (Z.to_nat (i mod k)) (Start r), set_index (i + 1) srv).
Proof.
  intros Hs Hi. cbn [handler_step]. rewrite Hs. replace (k =? 0) with false by lia. by rewrite u64_small by lia.
Qed.

Lemma apart_step_first r1 r2 h1 h2 srv : apart r1 r2 h1 h2 srv ->
  exists h1' srv', handler_step h1 srv = Ret (h1', srv') /\ apart r1 r2 h1' h2 srv'.
Proof.
  intros [h2' t1 q1 Hp Hh|t1 q1 t2 q2 Hp Hp2]; destruct (progress_step r1 qa t1 q1 Hca Hp) as (t' & q' & Hstep & Hp' & _);
    rewrite (handler_step_enqueue first _ q1) by (eapply set_queue_lookup; cbn; rewrite ?list_lookup_insert_ne by (apply not_eq_sym, first_second); exact Hqa);
    rewrite Hstep; cbn [bind]; rewrite set_queue_twice; do 2 eexists; (split; [reflexivity|]); by constructor.
Qed.

Lemma apart_step_second r1 r2 h1 h2 srv : apart r1 r2 h1 h2 srv ->
  exists h2' srv', handler_step h2 srv = Ret (h2', srv') /\ apart r1 r2 h1 h2' srv'.
Proof.
  intros [h2' t1 q1 Hp [->| ->]|t1 q1 t2 q2 Hp Hp2].
  - do 2 eexists. split; [reflexivity|]. apply apart_before; auto.
  - rewrite handler_step_loaded by (done || lia). do 2 eexists. split; [reflexivity|].
    replace (set_index (i0 + 1 + 1) _) with (set_queue first q1 (set_queue second qb (set_index (i0 + 2) srv0))).
    { by apply apart_after. }
    rewrite (set_queue_same second) by exact Hqb. unfold set_queue, set_index. cbn. by replace (i0 + 1 + 1) with (i0 + 2) by lia.
  - destruct (progress_step r2 qb t2 q2 Hcb Hp2) as (t' & q' & Hstep & Hp' & _).
    rewrite (set_queue_commute first second) by apply first_second.
    rewrite (handler_step_enqueue second _ q2) by (eapply set_queue_lookup; cbn; rewrite list_lookup_insert_ne by apply first_second; exact Hqb).
    rewrite Hstep. cbn [bind]. rewrite set_queue_twice, (set_queue_commute second first) by (apply not_eq_sym, first_second).
    do 2 eexists. split; [reflexivity|]. by apply apart_after.
Qed.

Lemma same_step r1 r2 h1 h2 t1 t2 sch q' :
  took_first r1 h1 t1 -> took_first r2 h2 t2 -> interleave sch (Start r1) (Start r2) qa = Ret (t1, t2, q') ->
  exists h1' srv', handler_step h1 (set_queue first q' (set_index (if loaded h1 && loaded h2 then i0 else i0 + 1) srv0)) = Ret (h1', srv') /\
    phase r1 r2 h1' h2 srv'.
Proof.
  intros H1 H2 Hrun. destruct H1 as [[-> ->]| ->].
  - rewrite handler_step_loaded by (done || lia). do 2 eexists. split; [reflexivity|].
    change (set_index (i0 + 1) _) with (set_queue first q' (set_index (if loaded (HEnqueue first (Start r1)) && loaded h2 then i0 else i0 + 1) srv0)).
    eapply phase_same; [by right|exact H2|exact Hrun].
  - assert (Hcap : 0 < capacityZ q').
    { destruct (interleave_total sch (Start r1) (Start r2) qa Hca) as (? & ? & q & Hrun' & Hcap). congruence. }
    destruct (micro_step_total t1 q' Hcap) as (t' & q2 & Hstep & _).
    rewrite (handler_step_enqueue first _ q') by (eapply set_queue_lookup; exact Hqa). rewrite Hstep. cbn [bind].
    rewrite set_queue_twice. do 2 eexists. split; [reflexivity|].
    change (loaded (HEnqueue first t1)) with (loaded (HEnqueue first t')).
    eapply (phase_same _ _ _ _ t' t2 (sch ++ [true])); [by right|exact H2|].
    rewrite interleave_app, Hrun. cbn [bind interleave]. by rewrite Hstep.
Qed.

Lemma phase_step_first r1 r2 h1 h2 srv : phase r1 r2 h1 h2 srv ->
  exists h1' srv', handler_step h1 srv = Ret (h1', srv') /\ phase r1 r2 h1' h2 srv'.
Proof.
  intros [| | |h1' h2' t1 t2 sch q' H1 H2 Hrun|h1' h2' srv' Hap|h1' h2' srv' Hap].
  - do 2 eexists. split; [reflexivity|]. apply phase_first.
  - rewrite handler_step_loaded by (done || lia). do 2 eexists. split; [reflexivity|]. apply phase_apart.
    rewrite <- (set_queue_same first qa (set_index (i0 + 1) srv0)) by exact Hqa. by apply apart_before; auto.
  - do 2 eexists. split; [reflexivity|].
    assert (Hid : set_queue first qa (set_index i0 srv0) = srv0)
      by (rewrite set_queue_same by exact Hqa; by destruct srv0).
    rewrite <- Hid at 3. by apply (phase_same r1 r2 (HLoaded r1 i0) (HLoaded r2 i0) (Start r1) (Start r2) []); [left|left|].
  - by eapply same_step.
  - destruct (apart_step_first _ _ _ _ _ Hap) as (h & srv1 & Hs & Hap'). exists h, srv1. split; [done|by apply phase_apart].
  - destruct (apart_step_second _ _ _ _ _ Hap) as (h & srv1 & Hs & Hap'). exists h, srv1. split; [done|by apply phase_apart'].
Qed.

Lemma handlers_phase schedule r1 r2 h1 h2 srv : phase r1 r2 h1 h2 srv ->
  exists h1' h2' srv', handlers schedule h1 h2 srv = Ret (h1', h2', srv') /\ phase r1 r2 h1' h2' srv'.
Proof.
  revert h1 h2 srv. induction schedule as [|[] schedule IH]; intros h1 h2 srv Hp; cbn [handlers]; [eauto|..].
  - destruct (phase_step_first _ _ _ _ _ Hp) as (h & srv' & -> & Hp'). cbn [bind]. by apply IH.
  - destruct (phase_step_first _ _ _ _ _ (phase_swap _ _ _ _ _ Hp)) as (h & srv' & -> & Hp'). cbn [bind].
    by apply IH, phase_swap.
Qed.

(** What two answered handlers leave behind. *)
Lemma phase_answered r1 r2 h1 h2 srv : phase r1 r2 h1 h2 srv ->
  queue_wf qa -> qa.(tail) - qa.(head) + 1 < capacityZ qa -> qa.(tail) + 2 < 2 ^ 64 ->
  answered h1 && answered h2 = true ->
  (exists r r', srv = set_queue first (put qa r) (set_queue second (put qb r') (set_index (i0 + 2) srv0)) /\
     ((r, r') = (r1, r2) \/ (r, r') = (r2, r1))) \/
  (exists q' new, srv = set_queue first q' (set_index (i0 + 1) srv0) /\
     pending q' = pending qa ++ new /\ new ∈ [[r1; r2]; [r2; r1]; [r1]; [r2]]).
Proof.
  intros Hp Hwf Hroom Hmaxa Ha. apply andb_true_iff in Ha as [Ha1 Ha2].
  destruct Hp as [| | |h1 h2 t1 t2 sch q' H1 H2 Hrun|h1 h2 srv Hap|h1 h2 srv Hap]; try discriminate.
  - right. destruct H1 as [[-> ->]| ->]; [discriminate|]. destruct H2 as [[-> ->]| ->]; [discriminate|].
    destruct t1, t2; try discriminate. exists q'.
    destruct (enqueue_finished qa r1 r2 sch q' Hwf Hroom Hmaxa Hrun) as (new & Hnew & Hin). by exists new.
  - left. destruct Hap as [h2 t1 q1 Hp Hh|t1 q1 t2 q2 Hp Hp2]; [by destruct Hh; subst|].
    destruct t1, t2; try discriminate. cbn in Hp, Hp2. subst. eauto 10.
  - left. destruct Hap as [h1 t1 q1 Hp Hh|t1 q1 t2 q2 Hp Hp2]; [by destruct Hh; subst|].
    destruct t1, t2; try discriminate. cbn in Hp, Hp2. subst. eauto 10.
Qed.
End Two.

(** C24. Two POST requests at once, under every schedule of their memory
    accesses, with two queues or more that have room: nothing undefined happens.  When both are
    answered, either [queue_index] has advanced twice and the payments are in
    two different queues; or both handlers read the same index: it has advanced
    once, both payments went to the same queue, and that queue has both, in one
    of the two orders, or has lost one of them.  The loss happens. *)
Theorem concurrent_posts (srv : Server) (qa qb : WorkerQueue) (r1 r2 : RawPayment) :
  let i := srv.(queue_index) in
  let first := Z.to_nat (i mod srv.(queue_size)) in
  let second := Z.to_nat ((i + 1) mod srv.(queue_size)) in
  1 < srv.(queue_size) -> 0 <= i -> i + 2 < 2 ^ 64 ->
  srv.(service).(queues) !! first = Some qa -> srv.(service).(queues) !! second = Some qb ->
  space_for 2 qa -> space_for 1 qb ->
  (forall schedule, exists h1 h2 srv', handlers schedule (HStart r1) (HStart r2) srv = Ret (h1, h2, srv') /\
     (answered h1 && answered h2 = true ->
      (exists qa' qb' r r', srv' = set_queue first qa' (set_queue second qb' (set_index (i + 2) srv)) /\
         pending qa' = pending qa ++ [r] /\ pending qb' = pending qb ++ [r'] /\
         ((r, r') = (r1, r2) \/ (r, r') = (r2, r1))) \/
      (exists qa' new, srv' = set_queue first qa' (set_index (i + 1) srv) /\
         pending qa' = pending qa ++ new /\ new ∈ [[r1; r2]; [r2; r1]; [r1]; [r2]]))) /\
  (exists schedule qa', handlers schedule (HStart r1) (HStart r2) srv =
       Ret (HEnqueue first Finished, HEnqueue first Finished, set_queue first qa' (set_index (i + 1) srv)) /\
     pending qa' = pending qa ++ [r2]).
Proof.
  intros i first second Hk Hi Hmax Hqa Hqb (Hwfa & Hsa & Hta) (Hwfb & Hsb & Htb).
  pose proof (wf_capacity _ Hwfa) as Hca. pose proof (wf_capacity _ Hwfb) as Hcb. split.
  - intros schedule. destruct (handlers_phase srv qa qb Hk Hqa Hqb Hca Hcb Hi Hmax schedule r1 r2 (HStart r1) (HStart r2) srv)
      as (h1 & h2 & srv' & Hrun & Hp); [apply phase_start|].
    exists h1, h2, srv'. split; [done|]. intros Ha.
    destruct (phase_answered srv qa qb r1 r2 h1 h2 srv' Hp Hwfa) as [(r & r' & -> & Hr)|(q' & new & -> & Hnew)];
      [lia|lia|done|left|right; eauto].
    exists (put qa r), (put qb r'), r, r'. split; [done|].
    split; [apply pending_put; [done|split; lia]|]. split; [apply pending_put; [done|split; lia]|done].
  - destruct (overlapping_loads qa r1 r2 Hwfa) as (qa' & Hrun & Hpend); [lia|lia|].
    exists ([true; false; true; false] ++ [true; false; true; false; true; false]), qa'. split; [|done].
    cbn [app handlers handler_step bind]. replace (queue_size srv =? 0) with false by lia. cbn [bind].
    cbn [set_index service queue_size queue_index]. replace (queue_size srv =? 0) with false by lia. cbn [bind].
    rewrite u64_small by lia. fold first. fold i.
    change (set_index (i + 1) (set_index (i + 1) srv)) with (set_index (i + 1) srv).
    rewrite <- (set_queue_same first qa (set_index (i + 1) srv)) at 1 by exact Hqa.
    by apply (handlers_enqueue first [true; false; true; false; true; false]).
Qed.

Lemma concurrent_posts_witness :
  let srv := new_server sample_service in let r1 := sample_payment 1 in let r2 := sample_payment 2 in
  let q := new_queue 4 in
  (forall schedule, exists h1 h2 srv', handlers schedule (HStart r1) (HStart r2) srv = Ret (h1, h2, srv') /\
     (answered h1 && answered h2 = true ->
      (exists qa' qb' r r', srv' = set_queue 0 qa' (set_queue 1 qb' (set_index (0 + 2) srv)) /\
         pending qa' = pending q ++ [r] /\ pending qb' = pending q ++ [r'] /\
         ((r, r') = (r1, r2) \/ (r, r') = (r2, r1))) \/
      (exists qa' new, srv' = set_queue 0 qa' (set_index (0 + 1) srv) /\
         pending qa' = pending q ++ new /\ new ∈ [[r1; r2]; [r2; r1]; [r1]; [r2]]))) /\
  (exists schedule qa', handlers schedule (HStart r1) (HStart r2) srv =
       Ret (HEnqueue 0 Finished, HEnqueue 0 Finished, set_queue 0 qa' (set_index (0 + 1) srv)) /\
     pending qa' = pending q ++ [r2]).
Proof.
  intros srv r1 r2 q.
  apply (concurrent_posts srv q q r1 r2).
  - reflexivity.
  - done.
  - reflexivity.
  - reflexivity.
  - reflexivity.
  - split; [apply new_queue_wf; lia|]. vm_compute. intuition congruence.
  - split; [apply new_queue_wf; lia|]. vm_compute. intuition congruence.
Defined.
