(* ===== verification/QueueRace.v ===== *)
(** * fetch_next beside enqueue

    A worker takes from its queue with [fetch_next] while a request puts into
    it with [enqueue]; neither locks.  The memory accesses of [fetch_next] are
    micro-steps like those of EnqueueRace.v, and a transition system
    interleaves one thread that enqueues with one that fetches.  [enqueue]
    counts a payment before it writes it, so the queue is a queue only as long
    as no fetch gets in between. *)
From S2P Require Import Prelude Types WorkerQueue EnqueueRace Calendar Processed Routing Payload Processing Service PostHandler.

(** Where a thread is inside [fetch_next]. *)
Inductive fetch_pc :=
  | FStart
  | FHead (head : Z)             (** [q.head] of the condition is loaded *)
  | FNonempty                    (** the condition was false *)
  | FLoaded (idx : Z)            (** the load of [q.head++] *)
  | FBumped (idx : Z)            (** its store *)
  | FDone (result : option RawPayment).

(** One memory access; [running] is read as [true]. *)
Definition fetch_step (t : fetch_pc) (q : WorkerQueue) : outcome (fetch_pc * WorkerQueue) :=
  match t with
  | FStart => Ret (FHead q.(head), q)
  | FHead h => Ret (if h >=? q.(tail) then FDone None else FNonempty, q)
  | FNonempty => Ret (FLoaded q.(head), q)
  | FLoaded idx => Ret (FBumped idx, mkWorkerQueue q.(queue) (u64 (idx + 1)) q.(tail))
  | FBumped idx =>
      if sizeZ q.(queue) =? 0 then Undefined DivisionByZero
      else
        let* r := lookupZ q.(queue) (idx mod sizeZ q.(queue)) in
        Ret (FDone (Some r), q)
  | FDone result => Ret (FDone result, q)
  end.

(** The steps alone are the operation. *)
Definition fetch_alone (q : WorkerQueue) : outcome (fetch_pc * WorkerQueue) :=
  let* (t, q) := fetch_step FStart q in
  let* (t, q) := fetch_step t q in
  let* (t, q) := fetch_step t q in
  let* (t, q) := fetch_step t q in
  fetch_step t q.

Lemma fetch_alone_fetch_next q : fetch_alone q =
  let* r := fetch_next true q in
  Ret match r with Some (r, q') => (FDone (Some r), q') | None => (FDone None, q) end.
Proof.
  unfold fetch_alone, fetch_next. cbn [fetch_step bind negb orb]. rewrite Z.geb_leb.
  destruct (tail q <=? head q); cbn [fetch_step bind queue head tail]; [done|].
  destruct (sizeZ (queue q) =? 0); [done|]. by destruct (lookupZ _ _).
Qed.

(** ** One producer and one consumer *)

(** [called], [published] and [fetched] are ghost state: the payments of the
    calls of [enqueue], those whose tail store has happened, and those a fetch
    has read. *)
Record State := mkState {
  shared : WorkerQueue; producer : pc; consumer : fetch_pc;
  called : list RawPayment; published : list RawPayment; fetched : list RawPayment }.

Definition new_state (capacity : nat) : State := mkState (new_queue capacity) Finished (FDone None) [] [] [].

(** A call of [enqueue] or [fetch_next] by a thread that is in none, or one
    memory access of a thread. *)
Inductive access := Enqueue (r : RawPayment) | Fetch | Producer | Consumer.

Definition access_step (a : access) (s : State) : outcome State :=
  let '(mkState q p c called published fetched) := s in
  match a with
  | Enqueue r =>
      Ret match p with Finished => mkState q (Start r) c (called ++ [r]) published fetched | _ => s end
  | Fetch =>
      Ret match c with FDone _ => mkState q p FStart called published fetched | _ => s end
  | Producer =>
      let* (p', q) := micro_step p q in
      let published := match p with Loaded r _ => published ++ [r] | _ => published end in
      Ret (mkState q p' c called published fetched)
  | Consumer =>
      let* (c', q) := fetch_step c q in
      let fetched := match c, c' with FBumped _, FDone (Some r) => fetched ++ [r] | _, _ => fetched end in
      Ret (mkState q p c' called published fetched)
  end.

(** The step would read a slot that is counted and not written yet. *)
Definition early (a : access) (s : State) : bool :=
  match a, s.(producer), s.(consumer) with
  | Consumer, Bumped _ pos, FBumped idx => pos =? idx
  | _, _, _ => false
  end.

(** A slot is only counted when it is free: what it held has been read. *)
Definition has_space (a : access) (s : State) : bool :=
  match a, s.(producer) with
  | Producer, Loaded _ _ => sizeZ s.(published) - sizeZ s.(fetched) <? capacityZ s.(shared)
  | _, _ => true
  end.

(** A run whose accesses are neither early nor without space. *)
Fixpoint orderly (accesses : list access) (s : State) : bool :=
  match accesses with
  | [] => true
  | a :: accesses => negb (early a s) && has_space a s &&
      match access_step a s with Ret s' => orderly accesses s' | _ => true end
  end.

Fixpoint accesses_run (accesses : list access) (s : State) : outcome State :=
  match accesses with
  | [] => Ret s
  | a :: accesses => let* s := access_step a s in accesses_run accesses s
  end.

(** ** The invariant *)
Definition in_flight (t : pc) (i : Z) : Prop := match t with Bumped _ pos => pos = i | _ => False end.

(** The payment of a call that has not counted it yet. *)
Definition unpublished (t : pc) : list RawPayment :=
  match t with Start r | Loaded r _ => [r] | _ => [] end.

Definition producer_ok (s : State) : Prop :=
  match s.(producer) with
  | Loaded _ pos => pos = sizeZ s.(published)
  | Bumped r pos => exists before, s.(published) = before ++ [r] /\ pos = sizeZ before
  | _ => True
  end.

Definition consumer_ok (s : State) : Prop :=
  let n := sizeZ s.(fetched) in
  match s.(consumer) with
  | FStart | FDone _ => s.(shared).(head) = n
  | FHead h => s.(shared).(head) = n /\ h = n
  | FNonempty => s.(shared).(head) = n /\ n < sizeZ s.(published)
  | FLoaded idx => s.(shared).(head) = n /\ idx = n /\ n < sizeZ s.(published)
  | FBumped idx => s.(shared).(head) = n + 1 /\ idx = n /\ n < sizeZ s.(published)
  end.

Record state_ok (s : State) : Prop := {
  ok_capacity : 0 < capacityZ s.(shared);
  ok_tail : s.(shared).(tail) = sizeZ s.(published);
  ok_called : s.(called) = s.(published) ++ unpublished s.(producer);
  ok_prefix : exists rest, s.(published) = s.(fetched) ++ rest;
  ok_occupancy : sizeZ s.(published) - sizeZ s.(fetched) <= capacityZ s.(shared);
  ok_slots : forall (i : nat) r, sizeZ s.(fetched) <= Z.of_nat i -> s.(published) !! i = Some r ->
    ~ in_flight s.(producer) (Z.of_nat i) -> slot s.(shared) (Z.of_nat i) = Some r;
  ok_producer : producer_ok s;
  ok_consumer : consumer_ok s }.

Lemma new_state_ok capacity : (0 < capacity)%nat -> state_ok (new_state capacity).
Proof.
  intros Hc. split; try done; unfold new_state; cbn [shared published fetched].
  - unfold capacityZ, sizeZ. cbn. rewrite length_replicate. lia.
  - by exists [].
  - unfold capacityZ, sizeZ. cbn. lia.
Qed.

Lemma producer_step_ok s : state_ok s -> sizeZ s.(published) + 1 < 2 ^ 64 -> has_space Producer s = true ->
  exists s', access_step Producer s = Ret s' /\ state_ok s' /\ sizeZ s'.(published) <= sizeZ s.(published) + 1.
Proof.
  intros [Hc Ht Hca Hp Ho Hs Hpr Hcons] Hmax Hspace. destruct s as [q p c ca pu fe].
  unfold producer_ok, has_space in *. cbn [shared producer consumer called published fetched access_step] in *.
  assert (H0 : 0 <= sizeZ pu) by (unfold sizeZ; lia).
  destruct p as [r|r pos|r pos|] eqn:E; cbn [micro_step bind].
  - eexists. split; [reflexivity|]. split; [|cbn; lia]. by split.
  - subst pos. rewrite u64_small by lia. eexists. split; [reflexivity|].
    destruct Hp as [rest Hrest]. cbn [published]. rewrite sizeZ_app. change (sizeZ [r]) with 1. split; [|lia].
    split; cbn [shared published fetched queue head tail producer]; rewrite ?sizeZ_app; change (sizeZ [r]) with 1; try done.
    + by rewrite app_nil_r.
    + exists (rest ++ [r]). by rewrite Hrest, app_assoc.
    + change (capacityZ (mkWorkerQueue _ _ _)) with (capacityZ q). lia.
    + cbn [in_flight]. intros i r' Hi Hr' Hne. change (slot (mkWorkerQueue _ _ _)) with (slot q).
      apply Hs; [done| |tauto]. rewrite lookup_app_l in Hr'; [done|]. apply lookup_lt_Some in Hr'.
      rewrite length_app in Hr'. cbn in Hr'. unfold sizeZ in *. lia.
    + exists pu. done.
    + unfold consumer_ok in *. cbn [shared published fetched consumer head] in *. rewrite sizeZ_app. change (sizeZ [r]) with 1.
      destruct c; intuition lia.
  - destruct Hpr as (before & Hb & ->). unfold capacityZ in Hc. replace (sizeZ (queue q) =? 0) with false by lia.
    fold (capacityZ q) in Hc |- *. rewrite storeZ_total by (apply mod_in_capacity, Hc). cbn [bind].
    eexists. split; [reflexivity|]. cbn [published]. split; [|lia].
    set (q' := mkWorkerQueue _ _ _). assert (Hcap : capacityZ q' = capacityZ q).
    { unfold capacityZ, sizeZ, q'. cbn. by rewrite length_insert. }
    assert (Hslot : forall i, slot q' i = if decide (i mod capacityZ q = sizeZ before mod capacityZ q) then Some r else slot q i).
    { intros i. unfold slot. rewrite Hcap. pose proof (mod_in_capacity _ i Hc) as Hi. pose proof (mod_in_capacity _ (sizeZ before) Hc) as Hj.
      cbn [q' queue]. case_decide as Heq.
      - rewrite Heq. apply list_lookup_insert_eq. unfold capacityZ, sizeZ in *. lia.
      - apply list_lookup_insert_ne. lia. }
    split; cbn [shared published fetched producer]; rewrite ?Hcap; try done.
    intros i r' Hi Hr' _. rewrite Hslot. case_decide as Heq.
    + destruct (decide (Z.of_nat i = sizeZ before)) as [Hib|Hib].
      * rewrite Hb in Hr'. replace i with (length before) in Hr' by (unfold sizeZ in Hib; lia).
        by rewrite list_lookup_middle in Hr' by done.
      * exfalso. apply lookup_lt_Some in Hr'. rewrite Hb in Ho, Hr'. rewrite sizeZ_app in Ho. change (sizeZ [r]) with 1 in Ho.
        rewrite length_app in Hr'. cbn in Hr'. revert Heq. apply mod_distinct; [done|]. unfold sizeZ in *. lia.
    + apply Hs; [done..|]. cbn [in_flight]. congruence.
  - eexists. split; [reflexivity|]. split; [|cbn; lia]. by split.
Qed.

Lemma consumer_step_ok s : state_ok s -> sizeZ s.(published) + 1 < 2 ^ 64 -> early Consumer s = false ->
  exists s', access_step Consumer s = Ret s' /\ state_ok s' /\ published s' = published s.
Proof.
  intros [Hc Ht Hca Hp Ho Hs Hpr Hcons] Hmax He. destruct s as [q p c ca pu fe].
  unfold consumer_ok, early in *. cbn [shared producer consumer called published fetched access_step] in *.
  assert (H0 : 0 <= sizeZ fe) by (unfold sizeZ; lia).
  destruct c as [|h| |idx|idx|res] eqn:E; cbn [fetch_step bind].
  - eexists. split; [reflexivity|]. split; [|done]. by split.
  - destruct Hcons as [Hh ->]. destruct (Z.geb_spec (sizeZ fe) (tail q)) as [|Hlt];
      (eexists; split; [reflexivity|]; split; [|done]; split; try done; unfold consumer_ok; cbn; lia).
  - eexists. split; [reflexivity|]. split; [|done]. split; try done. unfold consumer_ok. cbn. lia.
  - destruct Hcons as (Hh & -> & Hlt). rewrite u64_small by lia. eexists. split; [reflexivity|]. split; [|done]. by split.
  - destruct Hcons as (Hh & -> & Hlt). unfold capacityZ in Hc. replace (sizeZ (queue q) =? 0) with false by lia.
    fold (capacityZ q) in Hc |- *. destruct Hp as [rest Hrest].
    destruct rest as [|r rest]; [rewrite app_nil_r in Hrest; rewrite Hrest in Hlt; lia|].
    assert (Hr : slot q (sizeZ fe) = Some r).
    { apply (Hs (length fe)); [unfold sizeZ; lia|by rewrite Hrest, list_lookup_middle|].
      destruct p as [| |r' pos|]; cbn [in_flight]; try tauto. unfold sizeZ in *. lia. }
    unfold lookupZ. pose proof (mod_in_capacity _ (sizeZ fe) Hc) as Hi.
    replace (sizeZ fe mod capacityZ q <? 0) with false by lia.
    unfold slot in Hr. rewrite Hr. cbn [bind]. eexists. split; [reflexivity|]. split; [|done].
    split; cbn [shared published fetched producer consumer]; try done.
    + exists rest. by rewrite Hrest, <- app_assoc.
    + rewrite sizeZ_app. change (sizeZ [r]) with 1. lia.
    + rewrite sizeZ_app. change (sizeZ [r]) with 1. intros i r' Hi' Hr' Hne. by apply Hs; [lia| |].
    + unfold consumer_ok. cbn. rewrite sizeZ_app. change (sizeZ [r]) with 1. lia.
  - eexists. split; [reflexivity|]. split; [|done]. by split.
Qed.

Lemma access_step_ok a s : state_ok s -> sizeZ s.(published) + 1 < 2 ^ 64 -> early a s = false -> has_space a s = true ->
  exists s', access_step a s = Ret s' /\ state_ok s' /\ sizeZ s'.(published) <= sizeZ s.(published) + 1.
Proof.
  intros Hs Hmax He Hf. destruct a as [r| | |].
  - destruct s as [q p c ca pu fe], p; (eexists; split; [reflexivity|]; split; [|cbn; lia]); try done.
    destruct Hs as [Hc Ht Hca Hp Ho Hsl Hpr Hcons]. cbn in Hca. rewrite app_nil_r in Hca. subst ca. by split.
  - destruct s as [q p c ca pu fe], c; (eexists; split; [reflexivity|]; split; [|cbn; lia]); try done.
    destruct Hs as [Hc Ht Hca Hp Ho Hsl Hpr Hcons]. by split.
  - by apply producer_step_ok.
  - destruct (consumer_step_ok s Hs Hmax He) as (s' & Hrun & Hs' & Hp). exists s'. rewrite Hp. split_and!; [done|done|lia].
Qed.

Lemma accesses_run_ok accesses s :
  state_ok s -> sizeZ s.(published) + sizeZ accesses < 2 ^ 64 -> orderly accesses s = true ->
  exists s', accesses_run accesses s = Ret s' /\ state_ok s'.
Proof.
  revert s. induction accesses as [|a accesses IH]; intros s Hs Hmax Ho; [by eexists|].
  cbn [orderly accesses_run] in *. rewrite sizeZ_cons in Hmax. apply andb_true_iff in Ho as [[He Hf]%andb_true_iff Ho].
  assert (0 <= sizeZ accesses) by (unfold sizeZ; lia).
  destruct (access_step_ok a s Hs) as (s' & Hstep & Hs' & Hle); [lia|by destruct (early a s)|done|].
  rewrite Hstep in *. apply IH; [done|lia|done].
Qed.

(** The outstanding payments are what the slots from [head] on hold. *)
Lemma pending_slots q l :
  q.(tail) = q.(head) + sizeZ l ->
  (forall (i : nat) r, l !! i = Some r -> slot q (q.(head) + Z.of_nat i) = Some r) -> pending q = l.
Proof.
  intros Ht. unfold pending. replace (tail q - head q) with (sizeZ l) by lia. clear Ht. generalize (head q) as h.
  induction l as [|r l IH]; intros h Hl; [done|].
  rewrite sizeZ_cons, seqZ_cons by (unfold sizeZ; lia). csimpl.
  specialize (Hl 0%nat r eq_refl) as Hr. rewrite Z.add_0_r in Hr. rewrite Hr. f_equal.
  replace (Z.pred (sizeZ l + 1)) with (sizeZ l) by lia. apply IH. intros i r' Hi.
  replace (Z.succ h + Z.of_nat i) with (h + Z.of_nat (S i)) by lia. by apply Hl.
Qed.

(** Both threads are outside their operations. *)
Definition idle (s : State) : bool :=
  match s.(producer), s.(consumer) with Finished, FDone _ => true | _, _ => false end.

Lemma state_ok_idle s : state_ok s -> idle s = true -> s.(called) = s.(fetched) ++ pending s.(shared).
Proof.
  intros [Hc Ht Hca (rest & Hrest) Ho Hs Hpr Hcons] Hi. unfold idle, consumer_ok in *.
  destruct (producer s), (consumer s); try discriminate. rewrite Hca, app_nil_r, Hrest. f_equal. symmetry.
  rewrite Hrest, sizeZ_app in Ht. apply pending_slots; [lia|]. intros i r Hr.
  rewrite Hcons. unfold sizeZ. rewrite <- Nat2Z.inj_add. apply Hs; [unfold sizeZ; lia| |tauto].
  by rewrite Hrest, lookup_app_r, Nat.add_comm, Nat.add_sub by lia.
Qed.

(** C8. One request thread and one worker share a queue: whatever the order of
    their memory accesses, as long as no read of a slot gets between the
    counting and the writing of its payment and no payment is counted into a
    slot that is not read yet, nothing undefined happens, and whenever both
    are outside their operations the payments given to [enqueue] are those
    [fetch_next] returned followed by those outstanding, in order: the two
    counters need no lock. *)
Theorem spsc_linearizable (capacity : nat) (accesses : list access) :
  (0 < capacity)%nat -> sizeZ accesses < 2 ^ 64 -> orderly accesses (new_state capacity) = true ->
  exists s, accesses_run accesses (new_state capacity) = Ret s /\
            (exists rest, s.(called) = s.(fetched) ++ rest) /\
            (idle s = true -> s.(called) = s.(fetched) ++ pending s.(shared)).
Proof.
  intros Hc Hmax Ho. destruct (accesses_run_ok accesses (new_state capacity)) as (s & Hrun & Hs);
    [by apply new_state_ok|done|done|].
  exists s. split_and!; [done| |by apply state_ok_idle].
  destruct Hs as [_ _ Hca [rest Hrest] _ _ _ _]. exists (rest ++ unpublished (producer s)). by rewrite Hca, Hrest, app_assoc.
Qed.

Lemma spsc_linearizable_witness :
  let accesses := [Enqueue (sample_payment 1); Producer; Fetch; Consumer; Producer; Producer; Consumer; Fetch;
                   Consumer; Enqueue (sample_payment 2); Consumer; Producer; Consumer; Consumer; Producer; Consumer; Producer] in
  exists s, accesses_run accesses (new_state 2) = Ret s /\
            (exists rest, s.(called) = s.(fetched) ++ rest) /\
            (idle s = true -> s.(called) = s.(fetched) ++ pending s.(shared)).
Proof.
  intros accesses. apply (spsc_linearizable 2 accesses).
  - lia.
  - reflexivity.
  - vm_compute. reflexivity.
Defined.

(** C23. The read that is excluded there: [enqueue] counts a payment before it
    writes it, and a worker that polls in between takes what the slot held
    before.  The new payment is written behind the worker's back, into a slot
    that is no longer outstanding: [enqueue] has returned, the request is
    answered, and the payment is never fetched.  A slot that was never written
    holds an empty payment, and processing that is undefined. *)
Theorem early_fetch_loses_payment (q : WorkerQueue) (r : RawPayment) ca pu fe :
  queue_wf q -> pending q = [] -> q.(tail) + 1 < 2 ^ 64 ->
  exists stale q', slot q q.(tail) = Some stale /\
    accesses_run [Enqueue r; Producer; Producer; Fetch; Consumer; Consumer; Consumer; Consumer; Consumer; Producer]
      (mkState q Finished (FDone None) ca pu fe) =
    Ret (mkState q' Finished (FDone (Some stale)) (ca ++ [r]) (pu ++ [r]) (fe ++ [stale])) /\
    pending q' = [] /\ fetch_next true q' = Ret None /\
    (stale = raw_empty -> forall V (world : World V) worker t pool s (v : V), s.(threads) !! worker = Some t ->
       process worker stale pool s v = Undefined PopBackOnEmpty).
Proof.
  intros Hwf Hnil Hmax. pose proof Hwf as [Hc Hh Htl Ho]. apply pending_nil in Hnil; [|done].
  destruct (slot_is_Some q (tail q) Hc) as [stale Hst].
  exists stale. eexists. split; [done|].
  cbn [accesses_run access_step micro_step fetch_step bind queue head tail]. rewrite Hnil, u64_small by lia.
  replace (tail q >=? tail q + 1) with false by lia.
  cbn [accesses_run access_step micro_step fetch_step bind queue head tail].
  unfold capacityZ in Hc. replace (sizeZ (queue q) =? 0) with false by lia. fold (capacityZ q) in *.
  pose proof (mod_in_capacity q (tail q) Hc) as Hm. rewrite (proj2 (lookupZ_Ret _ _ stale)) by (split; [lia|exact Hst]).
  cbn [accesses_run access_step micro_step fetch_step bind queue head tail].
  replace (sizeZ (queue q) =? 0) with false by (unfold capacityZ in *; lia). fold (capacityZ q).
  rewrite storeZ_total by done. cbn [bind]. rewrite u64_small by lia.
  split; [reflexivity|]. split.
  - unfold pending. cbn [head tail]. by rewrite Z.sub_diag.
  - split; [apply fetch_next_empty; right; cbn; lia|]. intros ->. intros. by eapply process_raw_empty.
Qed.

Lemma early_fetch_loses_payment_witness :
  let q := new_queue 3 in
  exists stale q', slot q q.(tail) = Some stale /\
    accesses_run [Enqueue (sample_payment 7); Producer; Producer; Fetch; Consumer; Consumer; Consumer; Consumer; Consumer; Producer]
      (mkState q Finished (FDone None) [] [] []) =
    Ret (mkState q' Finished (FDone (Some stale)) ([] ++ [sample_payment 7]) ([] ++ [sample_payment 7]) ([] ++ [stale])) /\
    pending q' = [] /\ fetch_next true q' = Ret None /\
    (stale = raw_empty -> forall V (world : World V) worker t pool s (v : V), s.(threads) !! worker = Some t ->
       process worker stale pool s v = Undefined PopBackOnEmpty).
Proof.
  intros q. apply (early_fetch_loses_payment q (sample_payment 7) [] [] []).
  - apply new_queue_wf. lia.
  - vm_compute. reflexivity.
  - reflexivity.
Defined.
