(* ===== verification/System.v ===== *)
(** * The whole service as a transition system

    Requests, worker iterations and pool threads interleave; the theorems
    follow every accepted payment through the queues, the pool and the
    processors to the buckets. *)
From S2P Require Import Prelude Decimal Types Doubles Calendar WorkerQueue Processed Routing Payload Processing Service.
From Stdlib Require Import SpecFloat.

(** ** Steps *)
Inductive label := Accepted (r : RawPayment) | Iter (it : iteration) | Tick.

Section System.
Context {W : Type} `{World W}.

(** One step of the system at the grain of whole handlers: a POST request, an
    iteration of a worker, a detached pool thread, or a change of the world
    (time passes, processors go up and down). *)
Inductive sys_step : Server * W -> label -> Server * W -> Prop :=
  | step_post body srv w r srv' :
      post_payment_handler body srv = Ret (r, srv') ->
      sys_step (srv, w) (Accepted r) (srv', w)
  | step_worker i srv w it s' w' es :
      worker_iteration i srv.(service) w = Ret (it, s', w', es) ->
      sys_step (srv, w) (Iter it) (mkServer s' srv.(queue_index) srv.(queue_size), w')
  | step_pool_run k srv w it s' w' es :
      pool_run k srv.(service) w = Ret (it, s', w', es) ->
      sys_step (srv, w) (Iter it) (mkServer s' srv.(queue_index) srv.(queue_size), w')
  | step_tick srv w w' : sys_step (srv, w) Tick (srv, w').

(** No queue is full when a step is taken. *)
Definition room (srv : Server) : Prop := Forall queue_room srv.(service).(queues).

Inductive run (st0 : Server * W) : list label -> Server * W -> Prop :=
  | run_nil : run st0 [] st0
  | run_snoc tr st l st' :
      run st0 tr st -> room st.1 -> sys_step st l st' -> run st0 (tr ++ [l]) st'.

(** ** What a trace says of the payments *)
Definition accepted_by (l : label) : list RawPayment :=
  match l with Accepted r => [r] | _ => [] end.

Definition stored_by (l : label) : list RawPayment :=
  match l with
  | Iter (Done Default r) | Iter (Done Fallback r) => [r]
  | _ => []
  end.

Definition discarded_by (l : label) : list RawPayment :=
  match l with Iter (Done Discard r) => [r] | _ => [] end.

Definition collect (f : label -> list RawPayment) (tr : list label) : list RawPayment :=
  concat (f <$> tr).

Lemma collect_snoc f tr l : collect f (tr ++ [l]) = collect f tr ++ f l.
Proof. unfold collect. rewrite fmap_app, concat_app. simpl. by rewrite app_nil_r. Qed.

(** Every outstanding payment of every queue. *)
Definition all_pending (s : Service) : list RawPayment := concat (pending <$> s.(queues)).

(** The payments taken from a queue by a pool thread that has not run. *)
Definition in_pool (s : Service) : list RawPayment := s.(spawned).*2.

(** ** Queues *)
Lemma concat_insert_perm (l : list WorkerQueue) i q q' x y :
  l !! i = Some q -> x ++ pending q ≡ₚ y ++ pending q' ->
  x ++ concat (pending <$> l) ≡ₚ y ++ concat (pending <$> <[i := q']> l).
Proof.
  intros Hi Hq. rewrite <- (take_drop_middle l i q Hi) at 1.
  rewrite insert_take_drop by (by eapply lookup_lt_Some).
  rewrite !fmap_app, !concat_app. csimpl.
  rewrite (Permutation_app_comm (concat (pending <$> take i l))),
    (Permutation_app_comm (concat (pending <$> take i l))), <- !app_assoc, !(app_assoc x), !(app_assoc y).
  by rewrite Hq.
Qed.

Record queues_ok (s : Service) : Prop := {
  ok_wf : Forall queue_wf s.(queues);
  ok_room : Forall queue_room s.(queues);
}.

Lemma service_enqueue_spec i r s s' :
  queues_ok s -> service_enqueue i r s = Ret s' ->
  Forall queue_wf s'.(queues) /\ all_pending s' ≡ₚ r :: all_pending s /\
  s'.(spawned) = s.(spawned) /\ s'.(processed) = s.(processed).
Proof.
  intros [Hwf Hroom]. unfold service_enqueue. destruct (queues s !! i) as [q|] eqn:Hi; [|done].
  intros He. inv_outcome.
  pose proof (Forall_lookup_1 _ _ _ _ Hwf Hi) as Hq.
  pose proof (Forall_lookup_1 _ _ _ _ Hroom Hi) as Hr.
  match goal with Hx : enqueue q r = Ret ?q' |- _ =>
    rewrite enqueue_put in Hx by apply Hq; injection Hx as <- end.
  subst s'. simpl. split_and!; [|symmetry|done|done].
  - apply Forall_insert; [done|]. by apply queue_wf_put.
  - apply (concat_insert_perm (queues s) i q _ [r] []); [done|].
    rewrite pending_put by done. by rewrite Permutation_app_comm.
Qed.

(** Taking the head of a queue. *)
Lemma fetch_spec s i q r q' :
  queues_ok s -> s.(queues) !! i = Some q -> fetch_next s.(running) q = Ret (Some (r, q')) ->
  queues_ok (with_queue i q' s) /\ r :: all_pending (with_queue i q' s) ≡ₚ all_pending s.
Proof.
  intros [Hwf Hroom] Hi Hf.
  pose proof (Forall_lookup_1 _ _ _ _ Hwf Hi) as Hq.
  pose proof (Forall_lookup_1 _ _ _ _ Hroom Hi) as [Hr Ht].
  destruct (running s) eqn:Hrun.
  2: { rewrite fetch_next_empty in Hf by auto. discriminate. }
  destruct (Z_lt_le_dec (head q) (tail q)) as [Hlt|Hle].
  2: { rewrite fetch_next_empty in Hf by auto. discriminate. }
  destruct (pending_cons q Hq Hlt) as (r0 & Hr0 & Hpend).
  rewrite (fetch_next_head q r0) in Hf by done. injection Hf as <- <-.
  destruct Hq as [Hc Hh Hm Ho]. unfold capacityZ in *.
  split; [split; simpl; apply Forall_insert; try done|].
  - split; unfold capacityZ; simpl; lia.
  - split; unfold capacityZ; simpl; lia.
  - symmetry. apply (concat_insert_perm (queues s) i q _ [] [r0]); [done|]. by rewrite Hpend.
Qed.

(** ** process *)
Lemma process_payment_ts json pool (c : Ctx W) v ts payload c' :
  process_payment json pool c = Ret (v, ts, payload, c') -> 0 <= ts < 2 ^ 64.
Proof.
  unfold process_payment. intros Hp. apply bind_Ret in Hp as ([[pl ts'] ca] & Hpay & Hp).
  assert (ts' = ts) as ->.
  { destruct (send_to_processor _ _ _) as [[[ok1 e1] code1] c1].
    repeat (case_match; simplify_eq; try done).
    all: destruct (send_to_processor _ _ _) as [[[ok2 e2] code2] c2];
      repeat (case_match; simplify_eq; try done). }
  unfold create_processor_payload in Hpay. destruct json; [done|]. simplify_eq.
  apply u64_range.
Qed.

Lemma store_processed_Ret p log en json proc ts p' :
  represents p log -> 0 <= ts < 2 ^ 64 -> store_processed en json proc ts p = Ret p' ->
  exists e, represents p' (log ++ [e]) /\ e.(e_sec) = ts.
Proof.
  intros Hrep Hts Hst. pose proof Hrep as [Hs Hd Hf _].
  destruct (extract_amount json) as [a| |] eqn:Ha;
    [|unfold store_processed in Hst; rewrite Ha in Hst; discriminate..].
  assert (Hrange : processed_start p <= ts < processed_start p + PROCESSED_CAPACITY).
  { unfold store_processed in Hst. rewrite Ha, Hd, Hf in Hst. cbn [bind] in Hst.
    assert (HB : forall k b, bump_at (buckets k log p.(processed_start)) (u64 (ts - processed_start p)) a
                  = Ret b -> u64 (ts - processed_start p) < PROCESSED_CAPACITY).
    { intros k b Hb. unfold bump_at in Hb. inv_outcome.
      match goal with Hx : storeZ _ _ _ = Ret _ |- _ => apply storeZ_Ret in Hx as [[_ Hx] _] end.
      unfold sizeZ in *. rewrite buckets_length in *. unfold PROCESSED_CAPACITY in *; lia. }
    assert (HU : u64 (ts - processed_start p) < PROCESSED_CAPACITY).
    { destruct (to_fallback_buffer en proc); inv_outcome; eauto. }
    unfold PROCESSED_CAPACITY in *. destruct (Z_lt_le_dec ts (processed_start p)).
    - unfold u64 in HU. rewrite <- (Z.mod_unique _ (2 ^ 64) (-1) (ts - processed_start p + 2 ^ 64)) in HU; lia.
    - rewrite u64_small in HU; lia. }
  destruct (store_processed_spec p log en json proc ts a Hrep Ha Hrange) as (p2 & Hst2 & Hrep2).
  rewrite Hst in Hst2. injection Hst2 as <-. by eexists.
Qed.

Definition requeued (v : ProcessorResult) (r : RawPayment) : list RawPayment :=
  if bool_decide (v = TryAgain) then [r] else [].

Lemma process_spec worker r pool s (w : W) v s' w' es log :
  queues_ok s -> represents s.(processed) log -> process worker r pool s w = Ret (v, s', w', es) ->
  Forall queue_wf s'.(queues) /\ all_pending s' ≡ₚ requeued v r ++ all_pending s /\
  s'.(spawned) = s.(spawned) /\
  exists log', represents s'.(processed) (log ++ log') /\
    length log' = length (stored_by (Iter (Done v r))).
Proof.
  intros Hok Hrep Hp. unfold process in Hp.
  apply bind_Ret in Hp as (json & _ & Hp). apply bind_Ret in Hp as (t & _ & Hp).
  apply bind_Ret in Hp as ([[[v0 ts] payload] c] & Hpp & Hp).
  apply process_payment_ts in Hpp.
  set (s1 := with_attempt _ _ _ s) in Hp.
  assert (Hok1 : queues_ok s1) by (destruct Hok; by split).
  apply bind_Ret in Hp as (s2 & Hs2 & Hp). injection Hp as <- <- _ _.
  set (s3 := if pool then _ else s2).
  assert (H3 : queues s3 = queues s2 /\ spawned s3 = spawned s2 /\ processed s3 = processed s2)
    by (unfold s3; by destruct pool).
  unfold all_pending. destruct H3 as (-> & -> & ->).
  assert (Hsame : s2 = s1 -> requeued v0 r = [] -> stored_by (Iter (Done v0 r)) = [] ->
    Forall queue_wf (queues s2) /\ concat (pending <$> queues s2) ≡ₚ requeued v0 r ++ concat (pending <$> queues s) /\
    spawned s2 = spawned s /\
    exists log', represents (processed s2) (log ++ log') /\ length log' = length (stored_by (Iter (Done v0 r)))).
  { intros -> -> ->. destruct Hok. split_and!; [done..|]. exists []. by rewrite app_nil_r. }
  assert (Hstore : forall proc, v0 = proc -> proc = Default \/ proc = Fallback ->
    bind (store_processed (fallback_enabled (routing s1)) payload proc ts (processed s1))
      (fun p => Ret (with_processed p s1)) = Ret s2 ->
    Forall queue_wf (queues s2) /\ concat (pending <$> queues s2) ≡ₚ requeued v0 r ++ concat (pending <$> queues s) /\
    spawned s2 = spawned s /\
    exists log', represents (processed s2) (log ++ log') /\ length log' = length (stored_by (Iter (Done v0 r)))).
  { intros proc -> Hproc Hst. apply bind_Ret in Hst as (p & Hst & Hs). injection Hs as <-.
    destruct (store_processed_Ret _ log _ _ _ _ _ Hrep Hpp Hst) as (e & Hrep' & _).
    destruct Hok. simpl. split_and!; [done| |done|].
    - by destruct Hproc as [-> | ->].
    - exists [e]. by destruct Hproc as [-> | ->]. }
  destruct v0; [by eapply Hstore; eauto | by eapply Hstore; eauto | injection Hs2 as <-; by apply Hsame |].
  destruct (service_enqueue_spec _ _ _ _ Hok1 Hs2) as (Hwf & Hperm & Hsp & Hpr).
  rewrite Hpr, Hsp. split_and!; [done | exact Hperm | done |].
  exists []. by rewrite app_nil_r.
Qed.

(** ** The invariant *)
Record accounted (tr : list label) (s : Service) : Prop := {
  acc_wf : Forall queue_wf s.(queues);
  acc_perm : collect accepted_by tr ≡ₚ
             all_pending s ++ in_pool s ++ collect stored_by tr ++ collect discarded_by tr;
  acc_log : exists log, represents s.(processed) log /\
                        length log = length (collect stored_by tr);
}.

Lemma accounted_silent tr s l :
  accepted_by l = [] -> stored_by l = [] -> discarded_by l = [] ->
  accounted tr s -> accounted (tr ++ [l]) s.
Proof. intros Ha Hs Hd [Hwf Hp Hl]. split; rewrite ?collect_snoc, ?Ha, ?Hs, ?Hd, ?app_nil_r; done. Qed.

(** A processed payment [r] that was outside the queues. *)
Lemma accounted_process tr worker r pool s (w : W) v s' w' es :
  queues_ok s -> (exists log, represents s.(processed) log /\ length log = length (collect stored_by tr)) ->
  collect accepted_by tr ≡ₚ r :: all_pending s ++ in_pool s ++ collect stored_by tr ++ collect discarded_by tr ->
  process worker r pool s w = Ret (v, s', w', es) ->
  accounted (tr ++ [Iter (Done v r)]) s'.
Proof.
  intros Hok (log & Hrep & Hlen) Hperm Hp.
  destruct (process_spec _ _ _ _ _ _ _ _ _ log Hok Hrep Hp) as (Hwf & Hpend & Hsp & log' & Hrep' & Hlen').
  split; [done| |].
  - rewrite !collect_snoc. simpl accepted_by. rewrite app_nil_r, Hperm, Hpend.
    unfold in_pool. rewrite Hsp. destruct v; simpl; rewrite ?app_nil_r; try solve_Permutation.
    all: rewrite ?Permutation_middle; try done.
    all: rewrite !(app_assoc _ _ [r]), <- Permutation_cons_append; done.
  - exists (log ++ log'). split; [done|]. rewrite collect_snoc, !length_app. lia.
Qed.

Lemma accounted_step tr st l st' :
  accounted tr st.1.(service) -> room st.1 -> sys_step st l st' ->
  accounted (tr ++ [l]) st'.1.(service).
Proof.
  intros Hacc Hroom Hstep. pose proof Hacc as [Hwf Hperm Hlog].
  destruct Hstep as [body srv w r srv' Hpost | i srv w it s' w' es Hw | k srv w it s' w' es Hk | srv w w'];
    simpl in *.
  - unfold post_payment_handler in Hpost. apply bind_Ret in Hpost as (r0 & _ & Hpost).
    case_match; [done|]. apply bind_Ret in Hpost as (s' & He & Hr). injection Hr as <- <-. simpl.
    destruct (service_enqueue_spec _ _ _ _ (Build_queues_ok _ Hwf Hroom) He) as (Hwf' & Hpend & Hsp & Hpr).
    split; [done| |].
    + rewrite !collect_snoc. simpl. rewrite !app_nil_r, Hpend. unfold in_pool. rewrite Hsp.
      rewrite <- Permutation_cons_append, Hperm. done.
    + rewrite Hpr, collect_snoc. simpl. by rewrite app_nil_r.
  - unfold worker_iteration in Hw. destruct (queues (service srv) !! i) as [q|] eqn:Hi; [|done].
    apply bind_Ret in Hw as (o & Hf & Hw). destruct o as [[r q']|].
    2: { injection Hw as <- <- _ _. by apply accounted_silent. }
    destruct (fetch_spec _ _ _ _ _ (Build_queues_ok _ Hwf Hroom) Hi Hf) as [Hok' Hpend].
    case_match.
    + injection Hw as <- <- _ _. split; [apply Hok'| |].
      * rewrite !collect_snoc. simpl. rewrite !app_nil_r, Hperm, <- Hpend. unfold in_pool. simpl.
        rewrite fmap_app. simpl.
        change (all_pending (with_pool _ _ _ ?s)) with (all_pending s). solve_Permutation.
      * rewrite collect_snoc. simpl. by rewrite app_nil_r.
    + apply bind_Ret in Hw as ([[[v s1] w1] es1] & Hproc & Hw). injection Hw as <- <- _ _.
      eapply accounted_process; [exact Hok' | exact Hlog | | exact Hproc].
      by rewrite Hperm, <- Hpend.
  - unfold pool_run in Hk. destruct (spawned (service srv) !! k) as [[worker r]|] eqn:Hsp; [|done].
    apply bind_Ret in Hk as ([[[v s1] w1] es1] & Hproc & Hk). injection Hk as <- <- _ _.
    revert Hproc. set (s0 := with_pool _ _ _ _). intros Hproc.
    apply (accounted_process tr worker r true s0 w v s1 w1 es1); [by split | exact Hlog | | exact Hproc].
    rewrite Hperm. unfold in_pool. simpl.
    assert (Hd : (spawned (service srv)).*2 ≡ₚ r :: (delete k (spawned (service srv))).*2).
    { by rewrite (delete_Permutation _ _ _ Hsp) at 1. }
    change (all_pending (with_pool _ _ _ ?s)) with (all_pending s). rewrite Hd. solve_Permutation.
  - by apply accounted_silent.
Qed.
End System.

(** C1. No payment is lost, duplicated or made up: in every run of the
    service from a fresh state, with any interleaving of requests, worker
    iterations and pool threads and any behaviour of the processors, as long
    as no queue is full when a step is taken, the payments accepted so far are
    (as a multiset) exactly those outstanding in the queues, those held by the
    fallback pool, those stored after a processor accepted them and those
    discarded; and the buckets hold exactly as many payments as were stored. *)
Theorem payments_conserved {W : Type} `{World W} (st0 st : Server * W) (tr : list label) :
  Forall queue_wf st0.1.(service).(queues) ->
  all_pending st0.1.(service) = [] -> st0.1.(service).(spawned) = [] ->
  represents st0.1.(service).(processed) [] ->
  run st0 tr st ->
  collect accepted_by tr ≡ₚ all_pending st.1.(service) ++ in_pool st.1.(service) ++
                            collect stored_by tr ++ collect discarded_by tr /\
  exists log, represents st.1.(service).(processed) log /\
              length log = length (collect stored_by tr).
Proof.
  intros Hwf Hnil Hsp Hrep Hrun.
  enough (accounted tr st.1.(service)) as [_ Hp Hl] by done.
  induction Hrun as [|tr st l st' _ IH Hroom Hstep]; [|by eapply accounted_step].
  split; [done | by unfold in_pool; rewrite Hnil, Hsp | by exists []].
Qed.

(** ** A run of the sample service *)
Definition ret_or {A} (d : A) (o : outcome A) : A := match o with Ret a => a | _ => d end.

Definition demo_body : list Z := payment_body (str "a") (str "19.9").
Definition demo_world : Script := mkScript 1751371506 0 [answer_500; answer_200].
Definition demo0 : Server * Script := (new_server sample_service, demo_world).
Definition demo_post : RawPayment * Server :=
  ret_or (raw_empty, demo0.1) (post_payment_handler demo_body demo0.1).
Definition demo_iter : iteration * Service * Script * list event :=
  ret_or (Idle, sample_service, demo_world, [])
    (worker_iteration 0 demo_post.2.(service) demo_world).
Definition demo2 : Server * Script :=
  (mkServer demo_iter.1.1.2 demo_post.2.(queue_index) demo_post.2.(queue_size), demo_iter.1.2).

Lemma demo_run : run demo0 [Accepted demo_post.1; Iter demo_iter.1.1.1] demo2.
Proof.
  apply (run_snoc demo0 [Accepted demo_post.1] (demo_post.2, demo_world)).
  - apply (run_snoc demo0 [] demo0); [apply run_nil | | apply (step_post demo_body)].
    + repeat constructor; vm_compute; intuition congruence.
    + vm_compute. reflexivity.
  - repeat constructor; vm_compute; intuition congruence.
  - apply (step_worker 0 demo_post.2 demo_world _ _ _ demo_iter.2). vm_compute. reflexivity.
Qed.

Lemma payments_conserved_witness :
  collect accepted_by [Accepted demo_post.1; Iter demo_iter.1.1.1] ≡ₚ
    all_pending demo2.1.(service) ++ in_pool demo2.1.(service) ++
    collect stored_by [Accepted demo_post.1; Iter demo_iter.1.1.1] ++
    collect discarded_by [Accepted demo_post.1; Iter demo_iter.1.1.1] /\
  exists log, represents demo2.1.(service).(processed) log /\
    length log = length (collect stored_by [Accepted demo_post.1; Iter demo_iter.1.1.1]).
Proof.
  apply (payments_conserved demo0 demo2).
  - repeat constructor; vm_compute; intuition congruence.
  - vm_compute. reflexivity.
  - reflexivity.
  - apply new_processed_represents. lia.
  - apply demo_run.
Defined.
