(* ===== verification/Profiler.v ===== *)
(** * The profiler (main.cpp): buckets, counters and the textual report

    Two maps from feature names to atomic counters.  The report is modelled to
    the character, with the default formatting of floating point numbers by
    [operator<<]; the local time and the iteration order of the unordered map
    are arguments. *)
From Stdlib Require Import SpecFloat.
From stdpp Require Import gmap.
From S2P Require Import Prelude Decimal Types Doubles.

Record Profiler := mkProfiler { performance_data : gmap (list Z) Z; count_perf_data : gmap (list Z) Z }.

Definition no_profiler : Profiler := mkProfiler ∅ ∅.

Definition feature_names : list (list Z) :=
  str <$> ["parsing"%string; "put-queue"%string; "fetch-queue"%string; "process_payment"%string;
           "create_processor_payload"%string; "send_to_processor"%string; "store_processed"%string;
           "evaluate_switch"%string; "handle_response"%string].

(** [emplace]: an existing key keeps its value. *)
Definition emplace (key : list Z) (v : Z) (m : gmap (list Z) Z) : gmap (list Z) Z :=
  match m !! key with Some _ => m | None => <[key := v]> m end.

Definition init_profiler (p : Profiler) : Profiler :=
  fold_left (fun p key => mkProfiler (emplace key 0 p.(performance_data)) (emplace key 0 p.(count_perf_data)))
    feature_names p.

(** [at(key)], then a change of the counter. *)
Definition update_at (m : gmap (list Z) Z) (key : list Z) (f : Z -> Z) : outcome (gmap (list Z) Z) :=
  match m !! key with Some v => Ret (<[key := f v]> m) | None => Throw StdOutOfRange end.

Fixpoint reset_keys (keys : list (list Z)) (p : Profiler) : outcome Profiler :=
  match keys with
  | [] => Ret p
  | key :: keys =>
      let* a := update_at p.(performance_data) key (fun _ => 0) in
      let* b := update_at p.(count_perf_data) key (fun _ => 0) in
      reset_keys keys (mkProfiler a b)
  end.

Definition reset_profiler : Profiler -> outcome Profiler := reset_keys feature_names.

(** [const_performance_metrics_enabled] *)
Definition const_performance_metrics_enabled : bool := false.

(** [duration] is the time since [start] in microseconds. *)
Definition record_profiler_value (enabled : bool) (featureName : list Z) (duration : Z) (p : Profiler) : outcome Profiler :=
  if negb enabled then Ret p
  else
    let* a := update_at p.(performance_data) featureName (fun v => i64 (v + duration)) in
    let* b := update_at p.(count_perf_data) featureName (fun v => i64 (v + 1)) in
    Ret (mkProfiler a b).

(** ** Formatting *)
(** The greatest exponent [x] below [top] with [10^x <= n / d]. *)
Fixpoint leading_exponent (fuel : nat) (top n d : Z) : Z :=
  match fuel with
  | O => top
  | S fuel =>
      if (if 0 <=? top then d * 10 ^ top <=? n else d <=? n * 10 ^ (- top)) then top
      else leading_exponent fuel (top - 1) n d
  end.

(** Trailing zeros of the decimals are dropped, and the point after them. *)
Fixpoint drop_zeros (l : list Z) : list Z :=
  match l with c :: l' => if c =? 48 then drop_zeros l' else l | [] => [] end.

Definition fraction (digits : list Z) : list Z :=
  match drop_zeros (rev digits) with [] => [] | l => 46 :: rev l end.

(** [%g] with precision 6 of the positive number [n / d]. *)
Definition put_ratio (n d : Z) : list Z :=
  let x := leading_exponent 700 310 n d in
  let scaled := if 0 <=? x - 5 then half_even n (d * 10 ^ (x - 5)) else half_even (n * 10 ^ (5 - x)) d in
  let x := if scaled =? 10 ^ 6 then x + 1 else x in
  let digits := dec (if scaled =? 10 ^ 6 then 10 ^ 5 else scaled) in
  if (x <? -4) || (6 <=? x) then
    take 1 digits ++ fraction (drop 1 digits) ++ [101; if x <? 0 then 45 else 43] ++ pad0 2 (Z.abs x)
  else if 0 <=? x then
    take (Z.to_nat (x + 1)) digits ++ fraction (drop (Z.to_nat (x + 1)) digits)
  else str "0" ++ fraction (replicate (Z.to_nat (- x - 1)) 48 ++ digits).

(** [operator<<(double)] *)
Definition put_double (v : double) : list Z :=
  match v with
  | S754_zero s => (if s then [45] else []) ++ str "0"
  | S754_infinity s => (if s then [45] else []) ++ str "inf"
  | S754_nan => str "nan"
  | S754_finite s m e =>
      (if s then [45] else []) ++
      put_ratio (if 0 <=? e then Zpos m * 2 ^ e else Zpos m) (if 0 <=? e then 1 else 2 ^ (- e))
  end.

Definition newline : list Z := [10].

(** ** The report *)
Definition report_row (key : list Z) (total count : Z) : list Z :=
  jstr "'" ++ key ++ jstr "'(" ++ put_long count ++ str "): " ++ put_double (ddiv (double_of_Z total) (double_of_Z count)) ++
  str " - total: " ++ put_long total ++ newline.

(** The rows, [keys] being the order in which [performance_data] is iterated.
    [count_perf_data[key]] is zero for a missing key. *)
Definition report_rows (keys : list (list Z)) (p : Profiler) : list Z :=
  concat ((fun key =>
    match p.(performance_data) !! key with
    | Some total =>
        let count := default 0 (p.(count_perf_data) !! key) in
        if 0 <? count then report_row key total count else []
    | None => []
    end) <$> keys).

Definition get_profiler_result (local_time : list Z) (keys : list (list Z)) (p : Profiler) : outcome (list Z * Profiler) :=
  let rows := report_rows keys p in
  let* p := reset_profiler p in
  Ret (str "# Performance by features in total micros)" ++ newline ++
       str "# Generated at: " ++ local_time ++ newline ++ newline ++ rows, p).

Example put_double_ratio : put_double (ddiv (double_of_Z 1234567) (double_of_Z 10)) = str "123457".
Proof. vm_compute. reflexivity. Qed.

Example put_double_large : put_double (double_of_Z 1234567) = str "1.23457e+06".
Proof. vm_compute. reflexivity. Qed.

Example put_double_small : put_double (ddiv (double_of_Z 1) (double_of_Z 4)) = str "0.25".
Proof. vm_compute. reflexivity. Qed.

Example put_double_tiny : put_double (ddiv (double_of_Z 1) (double_of_Z 100000)) = str "1e-05".
Proof. vm_compute. reflexivity. Qed.

Example put_double_integer : put_double (double_of_Z 999999) = str "999999".
Proof. vm_compute. reflexivity. Qed.

(** ** What a report says *)

(** One recorded value. *)
Definition sample : Type := (list Z * Z)%type.

Definition total_of (key : list Z) (log : list sample) : Z :=
  fold_left (fun acc '(k, d) => if bool_decide (k = key) then i64 (acc + d) else acc) log 0.

Definition count_of (key : list Z) (log : list sample) : Z :=
  fold_left (fun acc '(k, _) => if bool_decide (k = key) then i64 (acc + 1) else acc) log 0.

(** The maps hold, for each feature, the sum and the number of the values. *)
Definition holds (p : Profiler) (log : list sample) : Prop := forall key,
  p.(performance_data) !! key = (if bool_decide (key ∈ feature_names) then Some (total_of key log) else None) /\
  p.(count_perf_data) !! key = (if bool_decide (key ∈ feature_names) then Some (count_of key log) else None).

Fixpoint record_all (log : list sample) (p : Profiler) : outcome Profiler :=
  match log with
  | [] => Ret p
  | (key, d) :: log => let* p := record_profiler_value true key d p in record_all log p
  end.

Lemma holds_unique p q log : holds p log -> holds q log -> p = q.
Proof.
  destruct p as [a b], q as [a' b']. intros Hp Hq. f_equal; apply map_eq; intros key;
    specialize (Hp key); specialize (Hq key); cbn in *; destruct Hp, Hq; congruence.
Qed.

Lemma table_lookup (f : list Z -> Z) keys key :
  (list_to_map ((fun k => (k, f k)) <$> keys) : gmap (list Z) Z) !! key =
  if bool_decide (key ∈ keys) then Some (f key) else None.
Proof.
  induction keys as [|k keys IH]; [done|]. rewrite fmap_cons. cbn [list_to_map foldr fst snd curry].
  destruct (decide (k = key)) as [->|Hne].
  - rewrite lookup_insert_eq, bool_decide_eq_true_2 by set_solver. done.
  - rewrite lookup_insert_ne, IH by done. by rewrite (bool_decide_ext _ (key ∈ k :: keys)) by set_solver.
Qed.

Lemma init_holds : holds (init_profiler no_profiler) [].
Proof.
  assert (init_profiler no_profiler =
    mkProfiler (list_to_map ((fun k => (k, 0)) <$> feature_names)) (list_to_map ((fun k => (k, 0)) <$> feature_names))) as ->
    by (vm_compute; reflexivity).
  intros key. cbn [performance_data count_perf_data]. by rewrite !(table_lookup (fun _ => 0)).
Qed.

Lemma record_holds p log key d : holds p log -> key ∈ feature_names ->
  exists p', record_profiler_value true key d p = Ret p' /\ holds p' (log ++ [(key, d)]).
Proof.
  intros Hp Hk. unfold record_profiler_value, update_at. cbn [negb].
  destruct (Hp key) as [-> ->]. rewrite bool_decide_eq_true_2 by done. cbn [bind]. eexists. split; [done|].
  intros key'. cbn [performance_data count_perf_data]. unfold total_of, count_of. rewrite !fold_left_app.
  fold (total_of key' log) (count_of key' log). cbn [fold_left].
  destruct (decide (key = key')) as [<-|Hne].
  - rewrite !lookup_insert_eq, !bool_decide_eq_true_2 by done. done.
  - rewrite !lookup_insert_ne by done. rewrite (bool_decide_eq_false_2 (key = key')) by done. apply Hp.
Qed.

Lemma record_all_holds log : Forall (fun s => s.1 ∈ feature_names) log -> forall p log0, holds p log0 ->
  exists p', record_all log p = Ret p' /\ holds p' (log0 ++ log).
Proof.
  induction 1 as [|[key d] log Hk _ IH]; intros p log0 Hp; [exists p; by rewrite app_nil_r|].
  destruct (record_holds p log0 key d Hp Hk) as (p1 & E & Hp1). cbn [record_all]. rewrite E. cbn [bind].
  destruct (IH p1 _ Hp1) as (p2 & E2 & Hp2). exists p2. split; [done|]. by rewrite <- app_assoc in Hp2.
Qed.

Lemma reset_keys_zero keys : forall p,
  (forall key, key ∈ keys -> is_Some (p.(performance_data) !! key) /\ is_Some (p.(count_perf_data) !! key)) ->
  exists p', reset_keys keys p = Ret p' /\ forall key,
    p'.(performance_data) !! key = (if bool_decide (key ∈ keys) then Some 0 else p.(performance_data) !! key) /\
    p'.(count_perf_data) !! key = (if bool_decide (key ∈ keys) then Some 0 else p.(count_perf_data) !! key).
Proof.
  induction keys as [|k keys IH]; intros p Hp; [by exists p|]. cbn [reset_keys]. unfold update_at.
  destruct (Hp k ltac:(set_solver)) as [[a ->] [b ->]]. cbn [bind].
  destruct (IH (mkProfiler (<[k := 0]> p.(performance_data)) (<[k := 0]> p.(count_perf_data)))) as (p' & -> & Hp').
  { intros key Hk. cbn [performance_data count_perf_data]. rewrite !lookup_insert_is_Some'.
    destruct (Hp key ltac:(set_solver)). auto. }
  exists p'. split; [done|]. intros key. destruct (Hp' key) as [-> ->]. cbn [performance_data count_perf_data].
  destruct (decide (key ∈ keys)); [by rewrite !bool_decide_eq_true_2 by set_solver|].
  rewrite (bool_decide_eq_false_2 (key ∈ keys)) by done. destruct (decide (k = key)) as [->|Hne].
  - by rewrite !lookup_insert_eq, bool_decide_eq_true_2 by set_solver.
  - by rewrite !lookup_insert_ne, bool_decide_eq_false_2 by set_solver.
Qed.

Lemma reset_holds p log : holds p log -> reset_profiler p = Ret (init_profiler no_profiler).
Proof.
  intros Hp. destruct (reset_keys_zero feature_names p) as (p' & E & Hp').
  { intros key Hk. destruct (Hp key) as [-> ->]. rewrite bool_decide_eq_true_2 by done. by split; eexists. }
  unfold reset_profiler. rewrite E. f_equal. apply (holds_unique _ _ []); [|apply init_holds].
  intros key. destruct (Hp' key) as [-> ->]. destruct (Hp key) as [-> ->]. by case_bool_decide.
Qed.

(** The report accounts for everything recorded.  With profiling enabled,
    after any sequence of recorded values of known features, the report lists
    exactly the features that were recorded, with the number of their values
    and their sum (modulo 2^64) and mean, in whatever order the map is
    iterated, and leaves the profiler as [init_profiler] made it.  As the
    program is compiled nothing is ever recorded, and an unknown feature
    throws [std::out_of_range]. *)
Theorem profiler_reports_all (log : list sample) (order : list (list Z)) (local_time : list Z) :
  Forall (fun s => s.1 ∈ feature_names) log -> order ≡ₚ feature_names ->
  (exists p, record_all log (init_profiler no_profiler) = Ret p /\
    get_profiler_result local_time order p = Ret (
      str "# Performance by features in total micros)" ++ newline ++
      str "# Generated at: " ++ local_time ++ newline ++ newline ++
      concat ((fun key => if 0 <? count_of key log then report_row key (total_of key log) (count_of key log) else []) <$> order),
      init_profiler no_profiler)) /\
  (forall p key d, record_profiler_value const_performance_metrics_enabled key d p = Ret p) /\
  (forall p log key d, holds p log -> key ∉ feature_names -> record_profiler_value true key d p = Throw StdOutOfRange).
Proof.
  intros Hlog Horder. split; [|split; [done|]].
  - destruct (record_all_holds log Hlog _ _ init_holds) as (p & E & Hp). cbn [app] in Hp. exists p. split; [done|].
    unfold get_profiler_result. rewrite (reset_holds p log Hp). cbn [bind]. do 2 f_equal. do 6 f_equal. unfold report_rows.
    f_equal. apply list_fmap_ext. intros i key Hk. apply list_elem_of_lookup_2 in Hk. rewrite Horder in Hk.
    destruct (Hp key) as [-> ->]. by rewrite bool_decide_eq_true_2.
  - intros p l key d Hp Hk. unfold record_profiler_value, update_at. cbn [negb]. destruct (Hp key) as [-> _].
    by rewrite bool_decide_eq_false_2.
Qed.

Lemma profiler_reports_all_witness :
  let log := [(str "parsing", 10); (str "put-queue", 4); (str "parsing", 15)] in
  exists p, record_all log (init_profiler no_profiler) = Ret p /\
    get_profiler_result (str "2025-07-01 12:00:00.000") feature_names p = Ret (
      str "# Performance by features in total micros)" ++ newline ++
      str "# Generated at: 2025-07-01 12:00:00.000" ++ newline ++ newline ++
      jstr "'parsing'(2): 12.5 - total: 25" ++ newline ++ jstr "'put-queue'(1): 4 - total: 4" ++ newline,
      init_profiler no_profiler).
Proof.
  intros log. destruct (profiler_reports_all log feature_names (str "2025-07-01 12:00:00.000")) as [(p & E & Hr) _].
  - repeat (apply List.Forall_cons || apply List.Forall_nil); apply (bool_decide_eq_true_1 _); vm_compute; reflexivity.
  - reflexivity.
  - exists p. split; [exact E|]. rewrite Hr. vm_compute. reflexivity.
Defined.
