(* ===== verification/SummaryHandler.v ===== *)
(** * GET /payments-summary: payments_summary_handler, call_other_instance,
      service_health (main.cpp)

    The two services' totals, the JSON answer built with the library, and its
    reading by another instance.  [getenv], the query parameters of the request
    and libcurl's transfers are parameters: [easy_get url] is [None] when
    [curl_easy_init] returns a null pointer, otherwise whether the transfer
    succeeded, its response code and the pieces given to the write callback. *)
From S2P Require Import Calendar Processed Routing Payload Processing.
From S2P Require Import Prelude Decimal Types Doubles Ieee754 Dtoa DtoaRoundtrip StringBuffer Value Handler Document Writer WriterCorrect.
From S2P Require Import Encodings Reader ReaderLogic ReaderTotal DocumentParse ReaderRoundtrip.

(** The arguments of [session->close]. *)
Record Response := mkResponse { status : Z; body : list Z; headers : list (list Z * list Z) }.

Section Operations.
Variable getenv : list Z -> option (list Z).
Variable get_query_parameter : list Z -> list Z -> list Z.
Variable easy_get : list Z -> option (bool * Z * list (list Z)).

(** The pieces libcurl hands to [write_callback] one after the other. *)
Definition received (pieces : list (list Z)) : list Z :=
  fold_left (fun body piece => (write_callback piece 1 (sizeZ piece) body).1) pieces [].

Definition summary_url (other from to : list Z) : list Z :=
  other ++ str "/payments-summary?from=" ++ from ++ str "&to=" ++ to ++ str "&internal=true".

(** [d[name]["totalRequests"].GetUint64()] and [d[name]["totalAmount"].GetDouble()] *)
Definition read_totals (d : Value) (name : list Z) : outcome Summary :=
  let* v := at_name d name in
  let* requests := at_name v (str "totalRequests") in
  let* n := GetUint64 requests in
  let* amount := at_name v (str "totalAmount") in
  let* a := GetDouble amount in
  Ret (mkSummary n a).

Definition call_other_instance (other from to : list Z) : outcome SummaryPair :=
  let result := pair_zero in
  match easy_get (c_str (summary_url other from to)) with
  | None => Ret result
  | Some (res, code, pieces) =>
      if res && (code =? 200) then
        let* (_, doc) := Document_Parse kParseNoFlags (c_str (received pieces)) new_Document in
        let d := doc.(doc_value) in
        let* has_default := HasMember d (str "default") in
        let* result :=
          if has_default : bool then
            let* s := read_totals d (str "default") in Ret (mkSummaryPair s result.(Types.fb))
          else Ret result in
        let* has_fallback := HasMember d (str "fallback") in
        if has_fallback : bool then
          let* s := read_totals d (str "fallback") in Ret (mkSummaryPair result.(Types.def) s)
        else Ret result
      else Ret result
  end.

Definition add_totals (a b : Summary) : Summary :=
  mkSummary (u64 (a.(totalRequests) + b.(totalRequests))) (dadd a.(totalAmount) b.(totalAmount)).

(** The totals the handler answers with; the call to the other instance runs
    concurrently with [query] and shares nothing with it. *)
Definition handler_totals (p : Processed) : outcome SummaryPair :=
  let from := get_query_parameter (str "from") [] in
  let to := get_query_parameter (str "to") [] in
  let internal := get_query_parameter (str "internal") (str "false") in
  let other_url := if bytes_eqb internal (str "true") then None else getenv (str "OTHER_INSTANCE_URL") in
  let* res := query p from to in
  match other_url with
  | None => Ret res
  | Some other =>
      let* otherRes := call_other_instance other from to in
      Ret (mkSummaryPair (add_totals res.(Types.def) otherRes.(Types.def)) (add_totals res.(Types.fb) otherRes.(Types.fb)))
  end.

(** The value [def] or [fb] of the answer. *)
Definition totals_object (s : Summary) : outcome Value :=
  let* v := AddMember (Value_of_type kObjectType) (str "totalRequests") (Value_uint64 s.(totalRequests)) in
  AddMember v (str "totalAmount") (Value_double s.(totalAmount)).

(** The thread's document after [SetObject] and the two [AddMember]s. *)
Definition summary_document (res : SummaryPair) : outcome Value :=
  let* def := totals_object res.(Types.def) in
  let* fb := totals_object res.(Types.fb) in
  let* d := AddMember (Value_of_type kObjectType) (str "default") def in
  AddMember d (str "fallback") fb.

(** The serialisation; [sb] is the thread's string buffer, kept between
    requests.  The result of [Accept] is ignored. *)
Definition summary_reply (res : SummaryPair) (sb : Stack) : outcome (Stack * Response) :=
  let* d := summary_document res in
  let sb := Clear sb in
  let* (_, w) := Accept d (new_Writer sb) in
  let* (sb, text) := GetString w.(os) in
  Ret (sb, mkResponse 200 text
    [(str "Content-Type", str "application/json"); (str "Content-Length", dec (GetSize sb))]).

Definition payments_summary_handler (p : Processed) (sb : Stack) : outcome (Stack * Response) :=
  let* res := handler_totals p in summary_reply res sb.

(** ** service_health *)
Definition service_health (base_url : list Z) : outcome Value :=
  let result := mkDocument (Value_of_type kObjectType) [] in
  match easy_get (c_str (base_url ++ str "/payments/service-health")) with
  | None => Ret result.(doc_value)
  | Some (res, _, pieces) =>
      if res : bool then
        let* (_, result) := Document_Parse kParseNoFlags (c_str (received pieces)) result in
        Ret result.(doc_value)
      else Ret result.(doc_value)
  end.
End Operations.

(** ** The text of the answer *)
Definition totals_text (s : Summary) : list Z :=
  jstr "{'totalRequests':" ++ dec s.(totalRequests) ++ jstr ",'totalAmount':" ++ json_double s.(totalAmount) ++ str "}".

Definition summary_text (res : SummaryPair) : list Z :=
  jstr "{'default':" ++ totals_text res.(Types.def) ++ jstr ",'fallback':" ++ totals_text res.(Types.fb) ++ str "}".

(** A 64-bit count, and a finite amount. *)
Definition totals_wf (s : Summary) : Prop :=
  0 <= s.(totalRequests) < 2 ^ 64 /\ is_double s.(totalAmount) /\ is_finite s.(totalAmount) = true.

Definition pair_wf (res : SummaryPair) : Prop := totals_wf res.(Types.def) /\ totals_wf res.(Types.fb).

Definition totals_value (s : Summary) : Value :=
  VObject 16 [(str "totalRequests", Value_uint64 s.(totalRequests)); (str "totalAmount", Value_double s.(totalAmount))].

Definition summary_value (res : SummaryPair) : Value :=
  VObject 16 [(str "default", totals_value res.(Types.def)); (str "fallback", totals_value res.(Types.fb))].

Lemma summary_document_value res : summary_document res = Ret (summary_value res).
Proof. reflexivity. Qed.

Lemma uint64_integer u : 0 <= u -> Value_uint64 u = Value_integer u.
Proof. intros Hu. unfold Value_integer. by replace (0 <=? u) with true by lia. Qed.

Lemma uint64_text u : 0 <= u < 2 ^ 64 -> json_text (Value_uint64 u) = dec u.
Proof.
  intros Hu. pose proof (number_event_integer u ltac:(lia)) as He. rewrite <- uint64_integer in He by lia.
  unfold Value_uint64 in He |- *. cbn [json_text]. unfold json_number. rewrite He.
  unfold json_integer. repeat case_bool_decide; replace (u <? 0) with false by lia; done.
Qed.

Lemma double_event d : is_double d -> number_event (Value_double d) (bits_of_double d) = EDouble d.
Proof.
  intros Hd. unfold number_event. change (IsDouble (Value_double d)) with true. cbv iota. by rewrite double_bits_roundtrip.
Qed.

Lemma double_text d : is_double d -> json_text (Value_double d) = json_double d.
Proof. intros Hd. unfold Value_double at 1. cbn [json_text]. unfold json_number. fold (Value_double d). by rewrite double_event. Qed.

Lemma totals_json s : totals_wf s -> json_text (totals_value s) = totals_text s.
Proof.
  intros (Hn & Hd & _). unfold totals_value, totals_text. cbn [json_text fmap list_fmap join].
  rewrite uint64_text, double_text by done. rewrite <- !app_assoc. reflexivity.
Qed.

Lemma summary_json res : pair_wf res -> json_text (summary_value res) = summary_text res.
Proof.
  intros [Hdef Hfb]. unfold summary_value, summary_text. cbn [json_text fmap list_fmap join].
  rewrite !totals_json by done. rewrite <- !app_assoc. reflexivity.
Qed.

Lemma totals_value_wf s : totals_wf s -> wf_value (totals_value s).
Proof.
  intros (Hn & Hd & _). apply wf_object; [| |done].
  - repeat (apply List.Forall_cons || apply List.Forall_nil); by_bytes.
  - repeat (apply List.Forall_cons || apply List.Forall_nil); cbn [snd]; apply wf_num.
    + left. exists s.(totalRequests). split; [lia|]. by rewrite <- uint64_integer by lia.
    + right. by eexists.
Qed.

Lemma summary_value_wf res : pair_wf res -> wf_value (summary_value res).
Proof.
  intros [Hdef Hfb]. apply wf_object; [| |done].
  - repeat (apply List.Forall_cons || apply List.Forall_nil); by_bytes.
  - repeat (apply List.Forall_cons || apply List.Forall_nil); by apply totals_value_wf.
Qed.

Lemma uint64_not_double u : 0 <= u < 2 ^ 64 -> forall d, number_event (Value_uint64 u) u <> EDouble d.
Proof.
  intros Hu d. pose proof (number_event_integer u ltac:(lia)) as He. rewrite <- uint64_integer in He by lia.
  unfold Value_uint64 in He |- *. rewrite He. by repeat case_bool_decide.
Qed.

Lemma summary_value_printable res : pair_wf res -> printable (summary_value res).
Proof.
  assert (Ht : forall s, totals_wf s -> printable (totals_value s)).
  { intros s (Hn & Hd & Hf). constructor. repeat (apply List.Forall_cons || apply List.Forall_nil); cbn [snd]; constructor.
    - pose proof (uint64_not_double _ Hn) as He. unfold printable_number. unfold Value_uint64 in *.
      by destruct number_event as [| | | | | |d| | | | | | |]; try exact I; destruct (He d).
    - unfold printable_number. fold (Value_double s.(totalAmount)). by rewrite double_event. }
  intros [Hdef Hfb]. constructor. repeat (apply List.Forall_cons || apply List.Forall_nil); by apply Ht.
Qed.

(** ** Sending the answer *)
Lemma json_text_size v : wf_value v -> printable v -> weight v <= 2 ^ 59 -> 1 + sizeZ (json_text v) <= weight v.
Proof.
  intros Hwf Hp Hw. apply (value_prints v Hwf Hp (new_Writer new_StringBuffer)); [|cbn; lia].
  split; [apply new_StringBuffer_wf | done].
Qed.

Lemma summary_weight res : weight (summary_value res) <= 1000.
Proof.
  unfold summary_value, totals_value, Value_uint64, Value_double. cbn [weight fmap list_fmap].
  generalize res. vm_compute. congruence.
Qed.

Lemma totals_text_no_nul s : totals_wf s -> no_nul (totals_text s).
Proof.
  intros (Hn & Hd & Hf). unfold totals_text. assert (Hdec : no_nul (dec s.(totalRequests))).
  { apply digits_no_zero, dec_digits. lia. }
  assert (Hdbl : no_nul (json_double s.(totalAmount))).
  { unfold json_double. destruct (dtoa_text _ Hd Hf) as (text & Ht & _). rewrite Ht. by apply (dtoa_no_nul _ _ Hd Hf). }
  unfold no_nul in *. no_nul_parts.
Qed.

Lemma summary_text_no_nul res : pair_wf res -> no_nul (summary_text res).
Proof.
  intros [Hdef%totals_text_no_nul Hfb%totals_text_no_nul]. unfold summary_text, no_nul in *. no_nul_parts.
Qed.

Lemma summary_reply_text res sb : pair_wf res -> stack_wf sb ->
  exists sb', stack_wf sb' /\ summary_reply res sb = Ret (sb', mkResponse 200 (summary_text res)
    [(str "Content-Type", str "application/json"); (str "Content-Length", dec (sizeZ (summary_text res)))]).
Proof.
  intros Hres Hsb. unfold summary_reply. rewrite summary_document_value. cbn [bind].
  destruct (Clear_empties sb Hsb) as (Hsb0 & Hc0 & Ht0). pose proof (summary_weight res).
  pose proof (summary_value_wf res Hres) as Hwf. pose proof (summary_value_printable res Hres) as Hp.
  destruct (writer_accepts (summary_value res) (Clear sb) Hwf Hp Hsb0 ltac:(lia)) as (w & -> & Hc & _ & Hsb1).
  cbn [bind]. rewrite Hc0, summary_json in Hc by done. cbn [app] in Hc.
  pose proof (json_text_size _ Hwf Hp ltac:(lia)) as Hsize. rewrite summary_json in Hsize by done.
  pose proof (content_size _ Hsb1) as Htop. rewrite Hc in Htop.
  destruct (GetString_content w.(os) Hsb1) as (sb' & -> & Hsb' & Hc'); [lia | rewrite Hc; by apply summary_text_no_nul |].
  cbn [bind]. exists sb'. split; [done|]. rewrite Hc in *. pose proof (content_size _ Hsb') as Htop'. rewrite Hc' in Htop'.
  unfold GetSize. by rewrite <- Htop'.
Qed.

(** ** Reading another instance's answer *)
Lemma received_concat pieces :
  Forall (fun piece => sizeZ piece < 2 ^ 64) pieces -> received pieces = concat pieces.
Proof.
  intros Hp. unfold received. rewrite <- (app_nil_l (concat pieces)). generalize (@nil Z).
  induction Hp as [|piece pieces Hs _ IH]; intros acc; [by rewrite app_nil_r|]. cbn [fold_left concat].
  rewrite IH. unfold write_callback. cbn [fst]. rewrite Z.mul_1_l, u64_small by (unfold sizeZ in *; lia).
  unfold sizeZ. rewrite Nat2Z.id, take_ge by lia. by rewrite app_assoc.
Qed.

(** The amounts are printed with few digits. *)
Definition short_pair (res : SummaryPair) : Prop :=
  short_double res.(Types.def).(totalAmount) /\ short_double res.(Types.fb).(totalAmount).

Lemma summary_value_parsable res : pair_wf res -> short_pair res -> parsable (summary_value res).
Proof.
  assert (Ht : forall s, totals_wf s -> short_double s.(totalAmount) -> parsable (totals_value s)).
  { intros s (Hn & Hd & Hf) Hs. constructor. repeat (apply List.Forall_cons || apply List.Forall_nil); cbn [snd]; constructor.
    - intros d He. by destruct (uint64_not_double _ Hn d).
    - intros d. fold (Value_double s.(totalAmount)). rewrite double_event by done. by intros [= <-]. }
  intros [Hdef Hfb] [Hs1 Hs2]. constructor. repeat (apply List.Forall_cons || apply List.Forall_nil); by apply Ht.
Qed.

Definition copied_totals (s : Summary) : Value :=
  VObject 2 [(str "totalRequests", Value_uint64 s.(totalRequests)); (str "totalAmount", Value_double s.(totalAmount))].

Lemma copied_summary res : CopyFrom (summary_value res) =
  VObject 2 [(str "default", copied_totals res.(Types.def)); (str "fallback", copied_totals res.(Types.fb))].
Proof. reflexivity. Qed.

Lemma double_read d : is_double d -> GetDouble (Value_double d) = Ret d.
Proof.
  intros Hd. unfold GetDouble, Value_double. fold (Value_double d).
  change (negb (IsNumber (Value_double d))) with false. change (IsDouble (Value_double d)) with true. cbv iota.
  by rewrite double_bits_roundtrip.
Qed.

Lemma totals_read d name s : at_name d name = Ret (copied_totals s) -> totals_wf s -> read_totals d name = Ret s.
Proof.
  intros Hat (Hn & Hd & _). unfold read_totals. rewrite Hat. cbn [bind].
  change (at_name (copied_totals s) (str "totalRequests")) with (Ret (Value_uint64 s.(totalRequests))).
  change (at_name (copied_totals s) (str "totalAmount")) with (Ret (Value_double s.(totalAmount))). cbn [bind].
  pose proof (uint64_holds _ Hn) as (_ & _ & _ & _ & _ & -> & _). rewrite bool_decide_true by done. cbn [bind].
  rewrite double_read by done. by destruct s.
Qed.

Lemma other_instance_read easy_get other from to pieces res :
  easy_get (c_str (summary_url other from to)) = Some (true, 200, pieces) ->
  Forall (fun piece => sizeZ piece < 2 ^ 64) pieces -> concat pieces = summary_text res ->
  pair_wf res -> short_pair res ->
  call_other_instance easy_get other from to = Ret res.
Proof.
  intros Hget Hp Hbody Hres Hshort. unfold call_other_instance. rewrite Hget. cbn [andb Z.eqb Pos.eqb].
  rewrite received_concat, Hbody, c_str_no_nul by (done || by apply summary_text_no_nul).
  rewrite <- summary_json by done. unfold new_Document.
  rewrite document_reads by (by apply summary_value_wf || by apply summary_value_parsable). cbn [bind doc_value].
  rewrite copied_summary. set (d := VObject 2 _).
  change (HasMember d (str "default")) with (Ret true). change (HasMember d (str "fallback")) with (Ret true). cbn [bind].
  destruct Hres as [Hdef Hfb]. rewrite (totals_read d (str "default") res.(Types.def)) by done. cbn [bind].
  rewrite (totals_read d (str "fallback") res.(Types.fb)) by done. cbn [bind]. by destruct res.
Qed.

(** ** Amounts that are not finite *)
Definition truncated_text (res : SummaryPair) : list Z :=
  jstr "{'default':{'totalRequests':" ++ dec res.(Types.def).(totalRequests) ++ jstr ",'totalAmount':".

Lemma not_finite_bits d : is_double d -> is_finite d = false -> Double.IsNanOrInf (bits_of_double d) = true.
Proof. intros _ Hf. destruct d as [|[]| |]; try discriminate Hf; reflexivity. Qed.

Lemma not_finite_stops d w :
  is_double d -> is_finite d = false -> ready kNumberType w -> stackTop w.(os) + 1 <= 2 ^ 60 ->
  exists w', handle (EDouble d) w = Ret (false, w') /\ stack_wf w'.(os) /\
    content w'.(os) = content w.(os) ++ separator w.(level_stack).
Proof.
  intros Hd Hf Hr Hmax. destruct (Prefix_puts kNumberType w Hr Hmax) as (w1 & Hp & Hwf1 & Hc1 & _).
  cbn [handle Writer_Handler]. unfold write_value. rewrite Hp. cbn [bind]. unfold WriteDouble.
  rewrite not_finite_bits by done. unfold EndValue. cbn [bind]. eexists. split; [reflexivity|]. by split.
Qed.

(** The events before the amount of the first object. *)
Definition opening (n : Z) : list event :=
  [EStartObject; EKey (str "default"); EStartObject; EKey (str "totalRequests"); number_event (Value_uint64 n) n;
   EKey (str "totalAmount")].

Lemma opening_writes n sb : 0 <= n < 2 ^ 64 -> stack_wf sb -> stackTop sb <= 2 ^ 59 ->
  exists w, send (opening n) (new_Writer sb) = Ret (true, w) /\ stack_wf w.(os) /\
    w.(maxDecimalPlaces) = kDefaultMaxDecimalPlaces /\ w.(hasRoot) = true /\
    w.(level_stack) = [mkLevel 3 false; mkLevel 2 false] /\ stackTop w.(os) <= stackTop sb + 200 /\
    content w.(os) = content sb ++ jstr "{'default':{'totalRequests':" ++ dec n ++ jstr ",'totalAmount'".
Proof.
  intros Hn Hsb Htop. unfold opening. cbn [send].
  assert (Hw : string_weight (str "default") = 45 /\ string_weight (str "totalRequests") = 81 /\
    string_weight (str "totalAmount") = 69) by done. destruct Hw as (Hw1 & Hw2 & Hw3).
  assert (Htx : is_text (str "default") /\ is_text (str "totalRequests") /\ is_text (str "totalAmount"))
    by (split_and!; by_bytes). destruct Htx as (Hx1 & Hx2 & Hx3).
  destruct (start_wrote kObjectType false 123 (new_Writer sb)) as (w1 & E & H1 & M1 & C1 & T1 & L1 & R1);
    [done | cbn [os new_Writer]; lia |]. cbn [handle Writer_Handler] in *. rewrite E. cbn [and_then bind]. clear E.
  cbn [os new_Writer level_stack bump separator app] in *. change (sizeZ [123]) with 1 in T1.
  destruct (key_prints (str "default") w1 0 []) as (w2 & E & H2 & M2 & C2 & T2 & L2 & R2); try done; [lia|].
  cbn [handle Writer_Handler] in E. rewrite E. cbn [and_then bind]. clear E.
  match type of T2 with _ = _ + ?x => change x with 9 in T2 end.
  destruct (start_wrote kObjectType false 123 w2) as (w3 & E & H3 & M3 & C3 & T3 & L3 & R3);
    [split_and!; try done; rewrite L2; split_and!; try done; by right; left | lia |].
  rewrite E. cbn [and_then bind]. clear E. rewrite L2 in *. match type of T3 with _ = _ + ?x => change x with 2 in T3 end.
  destruct (key_prints (str "totalRequests") w3 0 [mkLevel 2 false]) as (w4 & E & H4 & M4 & C4 & T4 & L4 & R4); try done; [lia|].
  cbn [handle Writer_Handler] in E. rewrite E. cbn [and_then bind]. clear E.
  match type of T4 with _ = _ + ?x => change x with 15 in T4 end.
  assert (Hnum : printable_number (Value_uint64 n) n).
  { unfold printable_number. pose proof (uint64_not_double n Hn) as He.
    by destruct number_event as [| | | | | |d| | | | | | |]; try exact I; destruct (He d). }
  destruct (number_writes (match Value_uint64 n with VNumber f _ => f | _ => 0 end) n w4) as (w5 & E & H5 & M5 & C5 & T5 & L5 & R5);
    [by left; exists n; split; [lia | rewrite <- uint64_integer by lia] | exact Hnum
    | split_and!; try done; rewrite L4; split_and!; try done; by right; left | lia |].
  cbn [Value_uint64] in E, C5, T5. fold (Value_uint64 n) in E, C5, T5.
  rewrite E. cbn [and_then bind]. clear E.
  change (json_number (Value_uint64 n) n) with (json_text (Value_uint64 n)) in C5, T5. rewrite uint64_text in C5, T5 by done.
  rewrite L4 in *. cbn [separator bump] in *. rewrite sizeZ_app in T5.
  match type of T5 with _ = _ + (?x + _) => change x with 1 in T5 end.
  assert (Hlen : sizeZ (dec n) <= 20).
  { unfold sizeZ. pose proof (dec_length_upper 20 n ltac:(lia) ltac:(lia) ltac:(simpl; lia)). lia. }
  destruct (key_prints (str "totalAmount") w5 1 [mkLevel 2 false]) as (w6 & E & H6 & M6 & C6 & T6 & L6 & R6); try done; [lia|].
  cbn [handle Writer_Handler] in E. rewrite E. cbn [and_then bind]. clear E.
  match type of T6 with _ = _ + ?x => change x with 14 in T6 end.
  exists w6. split_and!; try done.
  - lia.
  - rewrite C6, C5, C4, C3, C2, C1. rewrite <- !app_assoc. reflexivity.
Qed.

(** The rest of the events after the first amount does not matter. *)
Lemma summary_events res : exists rest,
  is_double res.(Types.def).(totalAmount) ->
  events (summary_value res) = opening res.(Types.def).(totalRequests) ++ EDouble res.(Types.def).(totalAmount) :: rest.
Proof.
  eexists. intros Hd. unfold opening. cbn [app]. rewrite <- (double_event _ Hd). reflexivity.
Qed.

Lemma summary_reply_truncated res sb :
  0 <= res.(Types.def).(totalRequests) < 2 ^ 64 -> is_double res.(Types.def).(totalAmount) ->
  is_finite res.(Types.def).(totalAmount) = false -> stack_wf sb ->
  exists sb', stack_wf sb' /\ summary_reply res sb = Ret (sb', mkResponse 200 (truncated_text res)
    [(str "Content-Type", str "application/json"); (str "Content-Length", dec (sizeZ (truncated_text res)))]).
Proof.
  intros Hn Hd Hf Hsb. unfold summary_reply. rewrite summary_document_value. cbn [bind].
  destruct (Clear_empties sb Hsb) as (Hsb0 & Hc0 & Ht0).
  destruct (opening_writes _ (Clear sb) Hn Hsb0 ltac:(lia)) as (w1 & Hs1 & Hwf1 & Hm1 & Hr1 & Hl1 & Ht1 & Hc1).
  rewrite Accept_send. destruct (summary_events res) as [rest Hev]. rewrite Hev by done. rewrite send_app, Hs1.
  cbn [and_then bind send].
  destruct (not_finite_stops _ w1 Hd Hf) as (w2 & -> & Hwf2 & Hc2).
  { split_and!; [done | done |]. rewrite Hl1. split_and!; [done | lia | lia |]. by right; left. }
  { lia. }
  cbn [and_then bind]. rewrite Hl1, Hc1, Hc0 in Hc2. cbn [app separator] in Hc2. change (3 mod 2 =? 0) with false in Hc2.
  cbn [Z.ltb Z.compare] in Hc2. assert (Heq : content (os w2) = truncated_text res).
  { rewrite Hc2. unfold truncated_text. rewrite <- !app_assoc. reflexivity. }
  assert (Hlen2 : stackTop w2.(os) <= 300).
  { pose proof (content_size _ Hwf1) as Hw1. pose proof (content_size _ Hwf2) as Hw2. rewrite Hc1, Hc0 in Hw1. rewrite Hc2 in Hw2.
    rewrite sizeZ_app in Hw2. cbn [app] in *. unfold sizeZ in Hw2 at 2. cbn [length] in Hw2. lia. }
  destruct (GetString_content w2.(os) Hwf2) as (sb' & -> & Hsb' & Hc'); [lia | |].
  { rewrite Heq. unfold truncated_text. assert (Hdec : no_nul (dec (totalRequests (Types.def res)))).
    { apply digits_no_zero, dec_digits. lia. }
    unfold no_nul in *. no_nul_parts. }
  cbn [bind]. exists sb'. split; [done|]. pose proof (content_size _ Hsb') as Htop'. rewrite Hc', Heq in Htop'.
  unfold GetSize. by rewrite <- Htop', Heq.
Qed.

(** ** The handler *)
Definition json_headers (text : list Z) : list (list Z * list Z) :=
  [(str "Content-Type", str "application/json"); (str "Content-Length", dec (sizeZ text))].

Definition pair_sum (a b : SummaryPair) : SummaryPair :=
  mkSummaryPair (add_totals a.(Types.def) b.(Types.def)) (add_totals a.(Types.fb) b.(Types.fb)).


(** C37. An amount that is not finite breaks the answer: once the total of the
    default processor has overflowed to infinity (or is NaN) the handler still
    answers 200, with a body that stops after ["totalAmount":], because the
    writer refuses the number and the result of [Accept] is ignored. *)
Theorem summary_not_finite_truncated getenv param easy_get p sb res :
  handler_totals getenv param easy_get p = Ret res ->
  0 <= res.(Types.def).(totalRequests) < 2 ^ 64 -> is_double res.(Types.def).(totalAmount) ->
  is_finite res.(Types.def).(totalAmount) = false -> stack_wf sb ->
  exists sb', stack_wf sb' /\ payments_summary_handler getenv param easy_get p sb =
    Ret (sb', mkResponse 200 (truncated_text res) (json_headers (truncated_text res))).
Proof.
  intros Hres Hn Hd Hf Hsb. unfold payments_summary_handler. rewrite Hres. by apply summary_reply_truncated.
Qed.

Lemma c_str_prefix s : exists t, s = c_str s ++ t.
Proof.
  induction s as [|c s [t IH]]; [by exists []|]. cbn [c_str]. destruct (c =? 0); [by eexists|].
  exists t. cbn [app]. by rewrite <- IH.
Qed.

Lemma pieces_small (pieces : list (list Z)) : sizeZ (concat pieces) < 2 ^ 31 -> Forall (fun piece => sizeZ piece < 2 ^ 64) pieces.
Proof.
  induction pieces as [|piece pieces IH]; [by constructor|]. cbn [concat]. rewrite sizeZ_app. intros Hs.
  assert (0 <= sizeZ piece /\ 0 <= sizeZ (concat pieces)) by (unfold sizeZ; lia). constructor; [lia | apply IH; lia].
Qed.

(** [service_health] always returns a value, whatever the other service
    answers: the empty object when no handle can be created, when the transfer
    fails and when the answer is not JSON, otherwise the value the text
    describes.  No text below 214748000 bytes makes it fail an assertion. *)
Theorem service_health_total easy_get base_url :
  (forall url res code pieces, easy_get url = Some (res, code, pieces) ->
     Forall (fun c => 0 <= c < 256) (concat pieces) /\ sizeZ (concat pieces) < number_limit) ->
  exists v, service_health easy_get base_url = Ret v /\
    match easy_get (c_str (base_url ++ str "/payments/service-health")) with
    | Some (true, _, pieces) =>
        exists r, Document_Parse kParseNoFlags (c_str (concat pieces)) (mkDocument (VObject 0 []) []) = Ret (r, mkDocument v []) /\
          if IsError r then v = VObject 0 [] else exists es, value_events es v
    | _ => v = VObject 0 []
    end.
Proof.
  intros Hcurl. unfold service_health. destruct (easy_get _) as [[[[] code] pieces]|] eqn:E; [| by eexists..].
  destruct (Hcurl _ _ _ _ E) as [Hb Hs]. rewrite received_concat by (apply pieces_small; unfold number_limit in *; lia).
  destruct (c_str_prefix (concat pieces)) as [t Ht].
  destruct (Document_Parse_returns kParseNoFlags (c_str (concat pieces)) (VObject 0 [])) as (r & v & Hp & Hv);
    [by split_and! | done | done | rewrite Ht in Hb; by apply Forall_app in Hb as [? _]
    | rewrite Ht, sizeZ_app in Hs; pose proof (Nat2Z.is_nonneg (length t)); unfold sizeZ in *; lia |].
  change (Value_of_type kObjectType) with (VObject 0 []). rewrite Hp. cbn [bind doc_value]. exists v. split; [done|].
  exists r. split; [done|]. destruct (IsError r); [by destruct Hv | done].
Qed.

(** ** Samples *)
Definition sample_processed : Processed := processed_of sample_start sample_log.
Definition sample_from : list Z := str "2025-07-01T12:00:00.000Z".
Definition sample_to : list Z := str "2025-07-01T12:30:00.000Z".
Definition sample_param (internal : list Z) (name default : list Z) : list Z :=
  if bytes_eqb name (str "from") then sample_from else if bytes_eqb name (str "to") then sample_to
  else if bytes_eqb name (str "internal") then internal else default.
Definition sample_totals : SummaryPair :=
  match query sample_processed sample_from sample_to with Ret res => res | _ => pair_zero end.

(** Two payments of 1e308. *)
Definition overflowing_log : list entry :=
  [mkEntry false (sample_start + 6) (double_of_Z (10 ^ 308)); mkEntry false (sample_start + 7) (double_of_Z (10 ^ 308))].
Definition overflowing : SummaryPair :=
  mkSummaryPair (mkSummary 2 (SpecFloat.S754_infinity false)) summary_zero.

Definition sample_url : list Z := str "http://other".
Definition sample_getenv (name : list Z) : option (list Z) :=
  if bytes_eqb name (str "OTHER_INSTANCE_URL") then Some sample_url else None.

Lemma sample_totals_wf : pair_wf sample_totals /\ short_pair sample_totals /\ pair_wf (pair_sum sample_totals sample_totals).
Proof.
  assert (sample_totals = mkSummaryPair (mkSummary 2 (double_of_Z 27)) (mkSummary 1 (double_of_Z 5))) as ->
    by (vm_compute; reflexivity).
  assert (Hshort : forall ip : list Z, forall d, json_double d = ip ++ str ".0" -> canonical ip -> dec_value (ip ++ str "0") < 2 ^ 53 ->
    short_double d).
  { intros ip d Hd Hip Hv. exists false, ip, (str "0"). split_and!; [exact Hd | exact Hip | | done | done | exact Hv].
    apply List.Forall_cons; [vm_compute; split; congruence | apply List.Forall_nil]. }
  assert (Hwf : forall n a, 0 <= n < 2 ^ 64 -> is_double a -> is_finite a = true -> totals_wf (mkSummary n a))
    by (intros n a H1 H2 H3; exact (conj H1 (conj H2 H3))).
  split; [|split]; split; cbn [Types.def Types.fb pair_sum add_totals totalAmount totalRequests].
  1,2,5,6: apply Hwf; [vm_compute; split; congruence | vm_compute; reflexivity | vm_compute; reflexivity].
  all: [> apply (Hshort (str "27")) | apply (Hshort (str "5"))]; try (vm_compute; reflexivity).
  all: split; [vm_compute; repeat (apply List.Forall_cons || apply List.Forall_nil); split; congruence | vm_compute; first [exact I | congruence]].
Qed.


Lemma summary_not_finite_truncated_witness :
  exists sb, stack_wf sb /\
    payments_summary_handler (fun _ => None) (sample_param (str "false")) (fun _ => None)
      (processed_of sample_start overflowing_log) new_StringBuffer =
    Ret (sb, mkResponse 200 (jstr "{'default':{'totalRequests':2,'totalAmount':") (json_headers (truncated_text overflowing))).
Proof.
  apply (summary_not_finite_truncated (fun _ => None) (sample_param (str "false")) (fun _ => None) _ new_StringBuffer overflowing);
    [vm_compute; reflexivity | split; [discriminate | reflexivity] | reflexivity | reflexivity | exact new_StringBuffer_wf].
Defined.

Lemma service_health_total_witness :
  exists v, service_health (fun _ => Some (true, 500, [str "<html>"])) sample_url = Ret v /\ v = VObject 0 [].
Proof.
  destruct (service_health_total (fun _ => Some (true, 500, [str "<html>"])) sample_url) as (v & Hv & r & Hp & Hr).
  { intros url res code pieces [= <- <- <-]. split; [|reflexivity].
    repeat (apply List.Forall_cons || apply List.Forall_nil); split; vm_compute; congruence. }
  exists v. split; [exact Hv|]. vm_compute in Hp. injection Hp as <- <-. exact Hr.
Defined.
