(* ===== verification/Drain.v ===== *)
(** * Progress of a worker

    As long as the processors answer 200, a worker empties its queue: one
    iteration of [worker_loop] per payment, none lost and none retried. *)
From Stdlib Require Import SpecFloat.
From S2P Require Import Prelude Decimal Types Doubles Calendar WorkerQueue Processed Routing Payload Processing Service System.

Section Drain.
Context {W : Type} `{World W}.

(** [n] iterations of the loop of worker [i]. *)
Fixpoint worker_run (n : nat) (i : nat) (s : Service) (w : W) : outcome (list iteration * Service * W) :=
  match n with
  | O => Ret ([], s, w)
  | S n =>
      let* (it, s, w, _) := worker_iteration i s w in
      let* (its, s, w) := worker_run n i s w in
      Ret (it :: its, s, w)
  end.

(** The payment an iteration took from the queue, and whether it was booked. *)
Definition taken (it : iteration) : list RawPayment :=
  match it with Idle => [] | Spawned r | Done _ r => [r] end.

Definition handed_over (it : iteration) : bool := match it with Spawned _ => true | _ => false end.

Definition booked (it : iteration) : bool :=
  match it with Done Default _ | Done Fallback _ => true | _ => false end.

(** Both processors answer every request with 200, and the clock stays in the
    3000 seconds of the buckets: [Up] is kept by every request. *)
Definition always_up (Up : W -> Prop) (start : Z) : Prop := forall w, Up w ->
  time_now w <> 0 /\ start <= u64 (time_now w) < start + PROCESSED_CAPACITY /\
  forall h, exists w' res, curl_easy_perform w h = (w', res) /\ accepted res = true /\ Up w'.

(** A request body of the expected shape with a readable amount. *)
Definition good_payment (r : RawPayment) : Prop := exists id num a,
  raw_string r = Ret (payment_body id num) /\ Forall (fun x => x <> 34) id /\
  Forall (fun x => existsb (Z.eqb x) (str ",}") = false) num /\ stod num = Ret a.

(** Worker [i] is running and its queue holds [rs]. *)
Record working (i : nat) (rs : list RawPayment) (s : Service) (log : list entry) : Prop := {
  on : s.(running) = true;
  wk_thread : exists t, s.(threads) !! i = Some t /\ handles_valid t /\ cache_ok t.(cache);
  wk_queue : exists q, s.(queues) !! i = Some q /\ queue_wf q /\ pending q = rs;
  wk_routing : routing_wf s.(routing);
  wk_log : represents s.(processed) log
}.

(** One attempt, by a worker or by a thread of the fallback pool, that the first
    processor accepts. *)
Lemma attempt_accepted (pool : bool) (t : Thread) (r : Routing) (w : W) (Up : W -> Prop) start id num :
  always_up Up start -> Up w -> routing_wf r -> handles_valid t -> cache_ok t.(cache) ->
  Forall (fun x => x <> 34) id -> Forall (fun x => existsb (Z.eqb x) (str ",}") = false) num ->
  exists payload c, process_payment (payment_body id num) pool (mkCtx t r w []) =
      Ret (first_label pool r, u64 (time_now w), payload, c) /\
    extract_amount payload = stod num /\ Up c.(world) /\ routing_wf c.(rt) /\ handles_valid c.(thr) /\
    cache_ok c.(thr).(cache) /\ c.(rt).(fallback_enabled) = r.(fallback_enabled).
Proof.
  intros Hup Hw Hr Ht Hc Hid Hnum. destruct (Hup w Hw) as (Hnow & _ & Hperf).
  destruct (payload_extracts (time_now w) t.(cache) id num Hc Hnow Hid Hnum) as (payload & c' & Hp & Hc' & _ & Ha).
  destruct (Hperf (armed t (first_label pool r) payload)) as (w1 & res1 & Hw1 & Hok1 & Hup1).
  destruct (curl_easy_perform w1 (armed t (second_label pool r) payload)) as [w2 res2] eqn:Hw2.
  destruct (process_payment_spec (mkCtx t r w []) (payment_body id num) pool payload (u64 (time_now w)) c' w1 res1 w2 res2
    Hr Ht Hp Hw1 Hw2) as (c & Hpp & _ & Hwc & Hrt & Hcache & Hv).
  exists payload, c. cbn [rt] in *. assert (Htry : tries_second (fallback_enabled r) res1 = false) by (unfold tries_second; by rewrite Hok1).
  rewrite Htry in Hwc. unfold verdict in Hpp. rewrite Hok1 in Hpp. split; [exact Hpp|]. split; [done|].
  split; [by rewrite Hwc|]. split; [|split; [done | split; [by rewrite Hcache|]]].
  - rewrite Hrt. unfold routing_after. rewrite Htry. apply wf_handle_response. by destruct pool.
  - rewrite Hrt. unfold routing_after. rewrite Htry, enabled_handle_response. by destruct pool.
Qed.

Lemma wf_first_label pool r : routing_wf r -> first_label pool r = Default \/ first_label pool r = Fallback.
Proof. intros [(H1 & H2 & _) | (H1 & H2 & _)]; destruct pool; cbn; rewrite ?H1, ?H2; auto. Qed.

Lemma store_processed_start en json proc ts p p' :
  store_processed en json proc ts p = Ret p' -> p'.(processed_start) = p.(processed_start).
Proof.
  unfold store_processed. intros Hs. apply bind_Ret in Hs as (a & _ & Hs).
  destruct (to_fallback_buffer _ _); apply bind_Ret in Hs as (b & _ & Hs); by simplify_eq.
Qed.

(** The text of a payment and its amount. *)
Definition payment_says (r : RawPayment) (a : double) : Prop := exists id num,
  raw_string r = Ret (payment_body id num) /\ Forall (fun x => x <> 34) id /\
  Forall (fun x => existsb (Z.eqb x) (str ",}") = false) num /\ stod num = Ret a.

Lemma good_payment_says r : good_payment r -> exists a, payment_says r a.
Proof. intros (id & num & a & H1 & H2 & H3 & H4). exists a, id, num. done. Qed.

(** [process] on a good payment: it is booked with its amount in the second of
    the attempt; of the service only the worker's thread, the routing, the
    buckets and the pool's flag change. *)
Lemma process_exact (pool : bool) i r a s log (w : W) Up t :
  s.(threads) !! i = Some t -> handles_valid t -> cache_ok t.(cache) -> routing_wf s.(routing) ->
  represents s.(processed) log -> payment_says r a -> always_up Up s.(processed).(processed_start) -> Up w ->
  exists s' w' es t', process i r pool s w = Ret (first_label pool s.(routing), s', w', es) /\
    s'.(queues) = s.(queues) /\ s'.(running) = s.(running) /\ s'.(spawned) = s.(spawned) /\
    s'.(threads) = <[i := t']> s.(threads) /\ handles_valid t' /\ cache_ok t'.(cache) /\
    routing_wf s'.(routing) /\ s'.(routing).(fallback_enabled) = s.(routing).(fallback_enabled) /\
    represents s'.(processed) (log ++ [mkEntry (to_fallback_buffer s.(routing).(fallback_enabled) (first_label pool s.(routing)))
                                               (u64 (time_now w)) a]) /\
    Up w' /\ s'.(processed).(processed_start) = s.(processed).(processed_start).
Proof.
  intros Ht Hv Hc Hr Hlog (id & num & Hraw & Hid & Hnum & Ha) Hup Hw.
  destruct (Hup w Hw) as (_ & Htime & _).
  set (t0 := if pool then mkThread t.(h_default) t.(h_fallback) new_cache else t).
  assert (Hv0 : handles_valid t0) by (by unfold t0; destruct pool).
  assert (Hc0 : cache_ok t0.(cache)) by (unfold t0; destruct pool; [by intros ?|done]).
  destruct (attempt_accepted pool t0 s.(routing) w Up _ id num Hup Hw Hr Hv0 Hc0 Hid Hnum)
    as (payload & c & Hpp & Hamount & Hupc & Hrc & Hvc & Hcc & Hen).
  destruct (store_processed_spec s.(processed) log c.(rt).(fallback_enabled) payload (first_label pool s.(routing))
    (u64 (time_now w)) a Hlog ltac:(by rewrite Hamount) Htime) as (p' & Hstore & Hlog').
  unfold process. rewrite Hraw, Ht. cbn [bind]. cbv zeta. fold t0. rewrite Hpp. cbn [bind].
  set (t1 := mkThread _ _ _). set (s1 := with_attempt _ _ _ s).
  assert (Hbook : forall v, v = Default \/ v = Fallback -> forall K : outcome Service,
    match v with TryAgain => K | Discard => Ret s1 | _ =>
      let* p := store_processed s1.(routing).(fallback_enabled) payload v (u64 (time_now w)) s1.(processed) in
      Ret (with_processed p s1) end =
      let* p := store_processed s1.(routing).(fallback_enabled) payload v (u64 (time_now w)) s1.(processed) in
      Ret (with_processed p s1)) by (by intros v [-> | ->]).
  rewrite Hbook by (by apply wf_first_label).
  change (s1.(routing)) with (c.(rt)). change (s1.(processed)) with (s.(processed)). rewrite Hstore. cbn [bind].
  rewrite Hen in Hlog'. apply store_processed_start in Hstore.
  assert (Ht1 : handles_valid t1 /\ cache_ok t1.(cache)).
  { unfold t1. split; [exact Hvc|]. by destruct pool. }
  do 3 eexists. exists t1. split; [reflexivity|]. destruct Ht1. by destruct pool; split_and!.
Qed.

Lemma process_books i r rs s log (w : W) Up :
  working i rs s log -> good_payment r -> always_up Up s.(processed).(processed_start) -> Up w ->
  exists v s' w' es e, process i r false s w = Ret (v, s', w', es) /\ (v = Default \/ v = Fallback) /\
    working i rs s' (log ++ [e]) /\ Up w' /\ s'.(processed).(processed_start) = s.(processed).(processed_start).
Proof.
  intros [Hon (t & Ht & Hv & Hc) Hq Hr Hlog] (a & Ha)%good_payment_says Hup Hw.
  destruct (process_exact false i r a s log w Up t Ht Hv Hc Hr Hlog Ha Hup Hw)
    as (s' & w' & es & t' & Hrun & Hqs & Hon' & _ & Hth & Hv' & Hc' & Hr' & _ & Hlog' & Hup' & Hst).
  exists (first_label false s.(routing)), s', w', es. eexists. split; [exact Hrun|].
  split; [by apply wf_first_label|]. split; [|done]. split; rewrite ?Hqs, ?Hon'; try done.
  exists t'. split; [|done]. rewrite Hth. apply list_lookup_insert_eq. by eapply lookup_lt_Some.
Qed.

Lemma worker_takes i r rs s log (w : W) Up :
  working i (r :: rs) s log -> good_payment r -> always_up Up s.(processed).(processed_start) -> Up w ->
  exists it s' w' es log', worker_iteration i s w = Ret (it, s', w', es) /\ taken it = [r] /\
    (booked it = true \/ handed_over it = true) /\ working i rs s' (log ++ log') /\ Up w' /\
    s'.(processed).(processed_start) = s.(processed).(processed_start) /\
    length log' = (if booked it then 1 else 0)%nat.
Proof.
  intros [Hon Ht (q & Hq & Hwf & Hpend) Hr Hlog] Hgood Hup Hw.
  assert (Hlt : q.(head) < q.(tail)).
  { pose proof (wf_head q Hwf). enough (q.(head) <> q.(tail)) by lia. intros He. apply pending_nil in He; [|done]. congruence. }
  destruct (pending_cons q Hwf Hlt) as (r0 & Hslot & Hcons). rewrite Hpend in Hcons. injection Hcons as <- Hrest.
  unfold worker_iteration. rewrite Hq, Hon, (fetch_next_head q r) by done. cbn [bind].
  set (q' := mkWorkerQueue _ _ _) in *. cbv zeta. set (s1 := with_queue i q' s).
  assert (Hwf' : queue_wf q').
  { destruct Hwf. split; unfold capacityZ in *; cbn [queue head tail q'] in *; lia. }
  assert (Hs1 : working i rs s1 log).
  { split; cbn [s1 with_queue running threads queues routing processed]; try done.
    exists q'. split; [apply list_lookup_insert_eq; by apply lookup_lt_Some in Hq | done]. }
  destruct (_ && _ && _).
  - eexists _, _, _, _, []. split; [reflexivity|]. rewrite app_nil_r. split_and!; try done; [by right|].
    by destruct Hs1; split.
  - destruct (process_books i r rs s1 log w Up Hs1 Hgood Hup Hw) as (v & s' & w' & es & e & Hp & Hv & Hs' & Hup' & Hst).
    rewrite Hp. cbn [bind]. eexists _, _, _, _, [e]. split; [reflexivity|].
    assert (Hb : booked (Done v r) = true) by (by destruct Hv as [-> | ->]). rewrite Hb. split_and!; try done. by left.
Qed.

Lemma worker_drains_from rs : forall i s log (w : W) Up,
  working i rs s log -> Forall good_payment rs -> always_up Up s.(processed).(processed_start) -> Up w ->
  exists its s' w' log', worker_run (length rs) i s w = Ret (its, s', w') /\ concat (taken <$> its) = rs /\
    Forall (fun it => booked it = true \/ handed_over it = true) its /\ working i [] s' (log ++ log') /\
    length log' = length (filter (fun it => booked it = true) its).
Proof.
  induction rs as [|r rs IH]; intros i s log w Up Hs Hgood Hup Hw.
  - exists [], s, w, []. rewrite app_nil_r. split_and!; try done.
  - apply Forall_cons in Hgood as [Hr Hgood].
    destruct (worker_takes i r rs s log w Up Hs Hr Hup Hw) as (it & s1 & w1 & es & l1 & E & Ht & Hb & Hs1 & Hw1 & Hst & Hl1).
    destruct (IH i s1 (log ++ l1) w1 Up Hs1 Hgood ltac:(by rewrite Hst) Hw1) as (its & s2 & w2 & l2 & E2 & Ht2 & Hb2 & Hs2 & Hl2).
    exists (it :: its), s2, w2, (l1 ++ l2). cbn [length worker_run]. rewrite E. cbn [bind]. rewrite E2. cbn [bind].
    rewrite fmap_cons. cbn [concat]. rewrite Ht, Ht2, length_app, Hl1, Hl2, app_assoc, filter_cons.
    split_and!; [done | done | by constructor | done |]. by destruct (booked it).
Qed.
End Drain.

(** C6. While the processors answer, no payment waits for ever.  If every
    request is answered with 200 and the clock stays in the covered seconds,
    then a running worker whose queue holds [rs], all with readable bodies, returns from exactly
    [length rs] iterations with an empty queue; the iterations took the
    payments in the order of the queue, booked each one in the buckets or gave
    it to a thread of the fallback pool, and retried or discarded none. *)
Theorem worker_drains {W} `{World W} (i : nat) (rs : list RawPayment) (s : Service) (log : list entry) (w : W) (Up : W -> Prop) :
  working i rs s log -> Forall good_payment rs -> always_up Up s.(processed).(processed_start) -> Up w ->
  exists its s' w' log', worker_run (length rs) i s w = Ret (its, s', w') /\ concat (taken <$> its) = rs /\
    Forall (fun it => booked it = true \/ handed_over it = true) its /\ working i [] s' (log ++ log') /\
    length log' = length (filter (fun it => booked it = true) its).
Proof. apply worker_drains_from. Qed.

(** A world that always answers 200. *)
#[local] Instance steady : World Z := {|
  time_now := fun w => w; clock_ns := fun _ => 0; curl_easy_perform := fun w _ => (w, mkPerform true 200 dzero) |}.

Definition one_queued : Service := demo_post.2.(service).
Definition queued : RawPayment := demo_post.1.

Lemma one_queued_working : working 0 [queued] one_queued [].
Proof.
  split; [vm_compute; reflexivity | | | left; vm_compute; auto |].
  - eexists. split; [vm_compute; reflexivity|]. split; [by split | by intros ?].
  - eexists. split; [vm_compute; reflexivity|]. split; [|vm_compute; reflexivity].
    split; vm_compute; intuition congruence.
  - apply (new_processed_represents 1751371500). lia.
Qed.

Lemma worker_drains_witness :
  exists its s' w' log', worker_run 1 0 one_queued 1751371506 = Ret (its, s', w') /\ concat (taken <$> its) = [queued] /\
    Forall (fun it => booked it = true \/ handed_over it = true) its /\ working 0 [] s' ([] ++ log') /\
    length log' = length (filter (fun it => booked it = true) its).
Proof.
  apply (worker_drains 0 [queued] one_queued [] 1751371506 (fun w => w = 1751371506)).
  - exact one_queued_working.
  - apply List.Forall_cons; [|apply List.Forall_nil]. exists (str "a"), (str "19.9"). eexists.
    split; [vm_compute; reflexivity|]. split; [by_decide|]. split; [by_decide | vm_compute; reflexivity].
  - intros w ->. split; [discriminate|]. split; [vm_compute; split; congruence|].
    intros h. exists 1751371506, (mkPerform true 200 dzero). split; [reflexivity|]. split; reflexivity.
  - reflexivity.
Defined.
