(* ===== verification/Config.v ===== *)
(** * Construction and shutdown: PaymentService::PaymentService

    The constructor reads its configuration from environment variables; the
    environment, the clocks and the success of each [curl_easy_init] are its
    arguments.  [atoi] and [atof] are C's. *)
From S2P Require Import Prelude Decimal Types Doubles Calendar WorkerQueue Processed Routing Payload Processing Service System.
From Stdlib Require Import SpecFloat.

(** ** atoi and atof *)

(** [strtol] in base 10: the value clamped to 64 bits. *)
Definition strtol (s : list Z) : Z :=
  let s := skip_spaces s in
  let '(neg, s) := match s with
                   | c :: t => if c =? 45 then (true, t) else if c =? 43 then (false, t) else (false, s)
                   | [] => (false, s)
                   end in
  let v := dec_value (span isdigit s).1 in
  let v := if neg : bool then - v else v in
  Z.max (- 2 ^ 63) (Z.min (2 ^ 63 - 1) v).

Definition atoi (s : list Z) : Z := i32 (strtol (c_str s)).

Definition atof (s : list Z) : double :=
  match strtod (c_str s) with Some (d, _) => d | None => dzero end.

(** ** The constructor *)
Section Constructor.
Variable getenv : list Z -> option (list Z).
Variable curl_init : nat -> ProcessorResult -> bool.

Definition env_int (name : list Z) (d : Z) : Z :=
  match getenv name with Some v => atoi v | None => d end.

Definition default_url : list Z :=
  match getenv (str "PROCESSOR_URL") with
  | Some v => v
  | None => str "http://localhost:8001/payments"
  end.

Definition fallback_url : list Z :=
  match getenv (str "FALLBACK_PROCESSOR_URL") with Some v => v | None => default_url end.

Definition env_fee : double :=
  match getenv (str "FEE_DIFFERENCE") with Some v => atof v | None => double_of_Z 3 end.

Definition env_enabled : bool :=
  match getenv (str "FALLBACK_ENABLED") with Some v => negb (atoi v =? 0) | None => true end.

(** The handles emplaced for worker [i]. *)
Definition new_thread (i : nat) : Thread :=
  mkThread (new_CurlHandle (curl_init i Default) default_url)
           (new_CurlHandle (curl_init i Fallback) fallback_url) new_cache.

(** [PaymentService()] at second [base]; every [worker_loop] starts with
    [last_fallback = get_now()], here [now]. *)
Definition PaymentService (base now : Z) : outcome Service :=
  let workerCountInt := env_int (str "WORKER_COUNT") 1 in
  if workerCountInt <? 0 then Throw LengthError
  else
    let n := Z.to_nat workerCountInt in
    Ret (mkService
      (new_routing default_url fallback_url env_fee
         (env_int (str "FALLBACK_POOL_INTERVAL_MS") 1000) env_enabled)
      (replicate n (new_queue (Z.to_nat QUEUE_CAPACITY)))
      (new_processed base)
      (new_thread <$> seq 0 n)
      true false now
      (env_int (str "INTER_INTERVAL") 0)
      (env_int (str "EMPTY_INTERVAL") 100)
      []).
End Constructor.

(** [~PaymentService]: the workers see [running = false] and are joined. *)
Definition shutdown (s : Service) : Service :=
  mkService s.(routing) s.(queues) s.(processed) s.(threads) false
    s.(fallback_is_running) s.(last_fallback) s.(inter_interval) s.(empty_interval) s.(spawned).

(** ** Theorems *)
(** C36. The constructor establishes what the other theorems start from: for
    every environment with a non-negative [WORKER_COUNT] it yields that many
    empty, well-formed queues of 100000 slots and as many threads, 3000 empty
    buckets per processor that start at the current second [base], a routing with
    the default processor as primary, and no pool thread; a negative count throws. *)
Theorem constructor_establishes (getenv : list Z -> option (list Z))
    (curl_init : nat -> ProcessorResult -> bool) (base now : Z) :
  0 <= base < 2 ^ 50 ->
  let count := env_int getenv (str "WORKER_COUNT") 1 in
  (count < 0 -> PaymentService getenv curl_init base now = Throw LengthError) /\
  (0 <= count -> exists s, PaymentService getenv curl_init base now = Ret s /\
     Z.of_nat (length s.(queues)) = count /\ length s.(threads) = length s.(queues) /\
     Forall (fun q => queue_wf q /\ capacityZ q = QUEUE_CAPACITY) s.(queues) /\
     all_pending s = [] /\ s.(spawned) = [] /\ s.(fallback_is_running) = false /\
     s.(processed).(processed_start) = base /\
     s.(processed).(processed_default) = replicate 3000 (mkSummary 0 dzero) /\
     s.(processed).(processed_fallback) = replicate 3000 (mkSummary 0 dzero) /\
     represents s.(processed) [] /\ routing_wf s.(routing) /\
     s.(routing).(primary_label) = Default /\ s.(running) = true).
Proof.
  intros Hb count. unfold PaymentService. fold count. split; intros Hc.
  - by replace (count <? 0) with true by lia.
  - replace (count <? 0) with false by lia. eexists. split; [done|].
    cbn [queues threads processed routing spawned fallback_is_running running].
    assert (Hq : queue_wf (new_queue (Z.to_nat QUEUE_CAPACITY))) by
      (apply new_queue_wf; unfold QUEUE_CAPACITY; lia).
    split_and!; try done.
    + rewrite length_replicate. lia.
    + by rewrite length_fmap, length_seq, length_replicate.
    + apply Forall_replicate. split; [done|]. unfold capacityZ, sizeZ, new_queue, QUEUE_CAPACITY.
      cbn [queue]. rewrite length_replicate. lia.
    + unfold all_pending. cbn [queues]. generalize (Z.to_nat count) (Z.to_nat QUEUE_CAPACITY).
      intros n m. induction n as [|n IH]; [done|].
      exact IH.
    + apply u64_small. lia.
    + by apply new_processed_represents.
    + by left.
Qed.

Definition empty_env : list Z -> option (list Z) := fun _ => None.

Lemma constructor_establishes_witness :
  (env_int empty_env (str "WORKER_COUNT") 1 < 0 ->
     PaymentService empty_env (fun _ _ => true) 1751371500 0 = Throw LengthError) /\
  (0 <= env_int empty_env (str "WORKER_COUNT") 1 ->
     exists s, PaymentService empty_env (fun _ _ => true) 1751371500 0 = Ret s /\
     Z.of_nat (length s.(queues)) = env_int empty_env (str "WORKER_COUNT") 1 /\
     length s.(threads) = length s.(queues) /\
     Forall (fun q => queue_wf q /\ capacityZ q = QUEUE_CAPACITY) s.(queues) /\
     all_pending s = [] /\ s.(spawned) = [] /\ s.(fallback_is_running) = false /\
     s.(processed).(processed_start) = 1751371500 /\
     s.(processed).(processed_default) = replicate 3000 (mkSummary 0 dzero) /\
     s.(processed).(processed_fallback) = replicate 3000 (mkSummary 0 dzero) /\
     represents s.(processed) [] /\ routing_wf s.(routing) /\
     s.(routing).(primary_label) = Default /\ s.(running) = true).
Proof. apply (constructor_establishes empty_env (fun _ _ => true) 1751371500 0). lia. Defined.
