(* ===== verification/Regex.v ===== *)
(** * std::regex: the ECMAScript patterns the HTTP library uses

    [compile] reads a pattern: alternatives, groups (capturing and [?:]),
    bracket expressions with ranges and negation, [.], [^], [$], the escapes
    of punctuation and of [s], [d], [w] and their complements, and the greedy
    quantifiers [*], [+] and [?]; [None] stands for [std::regex_error] and for
    the constructs no pattern of the program has (counted repetition, lazy
    quantifiers, assertions, back references, named classes).  [run] is the
    depth-first matcher with its order of preference; [regex_match] and
    [regex_search] are the two functions built on it.  [Matches] is the
    language of a pattern as a relation, and [run_sound] and [run_complete]
    relate the two; [run_star_span] says what greedy repetition of a class
    does. *)
From S2P Require Import Prelude Decimal.

(** ** Patterns *)
Inductive re :=
  | REps
  | RCls (negated : bool) (items : list (Z * Z))
  | RSeq (a b : re)
  | RAlt (a b : re)
  | RStar (a : re)
  | RGroup (n : nat) (a : re)
  | RBol
  | REol.

Definition RChr (c : Z) : re := RCls false [(c, c)].
Definition RPlus (a : re) : re := RSeq a (RStar a).
Definition ROpt (a : re) : re := RAlt a REps.

Definition in_items (items : list (Z * Z)) (c : Z) : bool :=
  existsb (fun '(lo, hi) => (lo <=? c) && (c <=? hi)) items.

Definition class_match (icase negated : bool) (items : list (Z * Z)) (c : Z) : bool :=
  xorb negated (in_items items c || (icase && (in_items items (to_lower c) || in_items items (to_upper c)))).

(** ** Compilation *)
Definition space_items : list (Z * Z) := [(9, 13); (32, 32)].
Definition digit_items : list (Z * Z) := [(48, 57)].
Definition word_items : list (Z * Z) := [(48, 57); (65, 90); (95, 95); (97, 122)].
Definition isalnum (c : Z) : bool := in_items [(48, 57); (65, 90); (97, 122)] c.

(** A backslash escape outside a bracket expression. *)
Definition escape (c : Z) : option re :=
  if c =? 115 then Some (RCls false space_items) else if c =? 83 then Some (RCls true space_items)
  else if c =? 100 then Some (RCls false digit_items) else if c =? 68 then Some (RCls true digit_items)
  else if c =? 119 then Some (RCls false word_items) else if c =? 87 then Some (RCls true word_items)
  else if c =? 114 then Some (RChr 13) else if c =? 110 then Some (RChr 10) else if c =? 116 then Some (RChr 9)
  else if isalnum c then None else Some (RChr c).

(** One bracket item that may start or end a range. *)
Definition class_char (s : list Z) : option (Z * list Z) :=
  match s with
  | 92 :: c :: s => if isalnum c then None else Some (c, s)
  | 92 :: [] => None
  | 91 :: 58 :: _ => None
  | c :: s => Some (c, s)
  | [] => None
  end.

Fixpoint class_items (fuel : nat) (s : list Z) (items : list (Z * Z)) : option (list (Z * Z) * list Z) :=
  match fuel with
  | O => None
  | S fuel =>
      match s with
      | 93 :: s => Some (items, s)
      | 92 :: 115 :: s => class_items fuel s (items ++ space_items)
      | 92 :: 100 :: s => class_items fuel s (items ++ digit_items)
      | 92 :: 119 :: s => class_items fuel s (items ++ word_items)
      | _ =>
          match class_char s with
          | None => None
          | Some (lo, 45 :: 93 :: s) => class_items fuel (45 :: 93 :: s) (items ++ [(lo, lo)])
          | Some (lo, 45 :: s) =>
              match class_char s with
              | Some (hi, s) => if lo <=? hi then class_items fuel s (items ++ [(lo, hi)]) else None
              | None => None
              end
          | Some (lo, s) => class_items fuel s (items ++ [(lo, lo)])
          end
      end
  end.

(** The quantifier after an atom; a second one is an error. *)
Definition quantified (a : re) (s : list Z) : option (re * list Z) :=
  let next (r : re) (s : list Z) :=
    match s with
    | c :: _ => if (c =? 42) || (c =? 43) || (c =? 63) || (c =? 123) then None else Some (r, s)
    | [] => Some (r, s)
    end in
  match s with
  | 42 :: s => next (RStar a) s
  | 43 :: s => next (RPlus a) s
  | 63 :: s => next (ROpt a) s
  | 123 :: _ => None
  | _ => Some (a, s)
  end.

(** [n] groups have been opened so far. *)
Fixpoint parse_alt (fuel : nat) (s : list Z) (n : nat) : option (re * list Z * nat) :=
  match fuel with
  | O => None
  | S fuel =>
      match parse_seq fuel s n with
      | Some (a, 124 :: s, n) =>
          match parse_alt fuel s n with
          | Some (b, s, n) => Some (RAlt a b, s, n)
          | None => None
          end
      | o => o
      end
  end
with parse_seq (fuel : nat) (s : list Z) (n : nat) : option (re * list Z * nat) :=
  match fuel with
  | O => None
  | S fuel =>
      let continue (atom : re) (s : list Z) (n : nat) :=
        match parse_seq fuel s n with
        | Some (REps, s, n) => Some (atom, s, n)
        | Some (b, s, n) => Some (RSeq atom b, s, n)
        | None => None
        end in
      let atom (a : re) (s : list Z) (n : nat) :=
        match quantified a s with Some (a, s) => continue a s n | None => None end in
      match s with
      | [] | 41 :: _ | 124 :: _ => Some (REps, s, n)
      | 94 :: s => continue RBol s n
      | 36 :: s => continue REol s n
      | 46 :: s => atom (RCls true [(10, 10); (13, 13)]) s n
      | 92 :: c :: s => match escape c with Some a => atom a s n | None => None end
      | 92 :: [] => None
      | 91 :: 94 :: s =>
          match class_items fuel s [] with Some (items, s) => atom (RCls true items) s n | None => None end
      | 91 :: s =>
          match class_items fuel s [] with Some (items, s) => atom (RCls false items) s n | None => None end
      | 40 :: 63 :: 58 :: s =>
          match parse_alt fuel s n with Some (a, 41 :: s, n) => atom a s n | _ => None end
      | 40 :: 63 :: _ => None
      | 40 :: s =>
          match parse_alt fuel s (S n) with
          | Some (a, 41 :: s, n') => atom (RGroup (S n) a) s n'
          | _ => None
          end
      | c :: s =>
          if (c =? 42) || (c =? 43) || (c =? 63) || (c =? 123) then None else atom (RChr c) s n
      end
  end.

Definition compile (pattern : list Z) : option re :=
  match parse_alt (2 * length pattern + 2) pattern 0 with
  | Some (r, [], _) => Some r
  | _ => None
  end.

(** ** Matching *)

(** Captured groups, the last one first; a group that took no part reads as
    the empty string, as [sub_match::str] does. *)
Definition captures := list (nat * list Z).

Fixpoint group (n : nat) (c : captures) : list Z :=
  match c with
  | [] => []
  | (k, text) :: c => if (k =? n)%nat then text else group n c
  end.

Definition continuation (A : Type) := list Z -> captures -> option A.

(** Greedy repetition of [body]; every round has to consume something. *)
Fixpoint star_loop {A} (body : list Z -> captures -> continuation A -> option A) (k : continuation A)
    (fuel : nat) (s : list Z) (c : captures) : option A :=
  match fuel with
  | O => k s c
  | S fuel =>
      match body s c (fun s' c' =>
              if (length s' <? length s)%nat then star_loop body k fuel s' c' else None) with
      | Some x => Some x
      | None => k s c
      end
  end.

Section Matcher.
Variable icase : bool.
(** The length of the whole subject; what is left of it is an argument. *)
Variable total : nat.

Fixpoint run {A} (r : re) (s : list Z) (c : captures) (k : continuation A) : option A :=
  match r with
  | REps => k s c
  | RCls negated items =>
      match s with
      | x :: s => if class_match icase negated items x then k s c else None
      | [] => None
      end
  | RSeq a b => run a s c (fun s c => run b s c k)
  | RAlt a b => match run a s c k with Some x => Some x | None => run b s c k end
  | RStar a => star_loop (fun s c k => run a s c k) k (length s) s c
  | RGroup n a => run a s c (fun s' c' => k s' ((n, take (length s - length s') s) :: c'))
  | RBol => if (length s =? total)%nat then k s c else None
  | REol => match s with [] => k s c | _ => None end
  end.

(** The language of a pattern: [Matches r s c s' c'] when [r] matches the
    part of [s] before its suffix [s'], turning the captures [c] to [c']. *)
Inductive Matches : re -> list Z -> captures -> list Z -> captures -> Prop :=
  | MEps s c : Matches REps s c s c
  | MCls negated items x s c :
      class_match icase negated items x = true -> Matches (RCls negated items) (x :: s) c s c
  | MSeq a b s c s1 c1 s2 c2 :
      Matches a s c s1 c1 -> Matches b s1 c1 s2 c2 -> Matches (RSeq a b) s c s2 c2
  | MAltL a b s c s1 c1 : Matches a s c s1 c1 -> Matches (RAlt a b) s c s1 c1
  | MAltR a b s c s1 c1 : Matches b s c s1 c1 -> Matches (RAlt a b) s c s1 c1
  | MStarNil a s c : Matches (RStar a) s c s c
  | MStarCons a s c s1 c1 s2 c2 :
      Matches a s c s1 c1 -> (length s1 < length s)%nat -> Matches (RStar a) s1 c1 s2 c2 ->
      Matches (RStar a) s c s2 c2
  | MGroup n a s c s1 c1 :
      Matches a s c s1 c1 -> Matches (RGroup n a) s c s1 ((n, take (length s - length s1) s) :: c1)
  | MBol s c : length s = total -> Matches RBol s c s c
  | MEol c : Matches REol [] c [] c.

Lemma run_sound {A} r : forall s c (k : continuation A) x,
  run r s c k = Some x -> exists s' c', Matches r s c s' c' /\ k s' c' = Some x.
Proof.
  induction r as [|neg items|a IHa b IHb|a IHa b IHb|a IHa|n a IHa| |]; intros s c k x; cbn [run].
  - eauto using Matches.
  - destruct s as [|y s]; [done|]. case_match; [|done]. eauto using Matches.
  - intros (s1 & c1 & H1 & (s2 & c2 & H2 & Hk)%IHb)%IHa. eauto using Matches.
  - case_match eqn:E.
    + intros [= ->]. apply IHa in E as (? & ? & ? & ?). eauto using Matches.
    + intros (? & ? & ? & ?)%IHb. eauto using Matches.
  - generalize (length s) as fuel. intros fuel. revert s c. induction fuel as [|fuel IH]; intros s c; cbn [star_loop].
    + eauto using Matches.
    + case_match eqn:E; [intros [= ->]|eauto using Matches].
      apply IHa in E as (s1 & c1 & H1 & E). case_match eqn:Hlt; [|done]. apply Nat.ltb_lt in Hlt.
      apply IH in E as (s2 & c2 & H2 & Hk). eauto using Matches.
  - intros (s1 & c1 & H1 & Hk)%IHa. eauto using Matches.
  - case_match eqn:E; [|done]. apply Nat.eqb_eq in E. eauto using Matches.
  - destruct s; [|done]. eauto using Matches.
Qed.

Lemma Matches_star_inv a s c s' c' : Matches (RStar a) s c s' c' ->
  (s' = s /\ c' = c) \/
  exists s1 c1, Matches a s c s1 c1 /\ (length s1 < length s)%nat /\ Matches (RStar a) s1 c1 s' c'.
Proof. intros HM. inversion HM; subst; [by left | right; eauto]. Qed.

Lemma star_complete {A} a (k : continuation A) fuel : forall s c s' c',
  (forall s0 c0 s1 c1, Matches a s0 c0 s1 c1 -> forall k : continuation A, is_Some (k s1 c1) -> is_Some (run a s0 c0 k)) ->
  (length s <= fuel)%nat -> Matches (RStar a) s c s' c' -> is_Some (k s' c') ->
  is_Some (star_loop (fun s c k => run a s c k) k fuel s c).
Proof.
  induction fuel as [|fuel IH]; intros s c s' c' Ha Hf HM Hk; cbn [star_loop];
    apply Matches_star_inv in HM as [[-> ->]|(s1 & c1 & H1 & Hlt & H2)]; [done | lia | case_match; eauto |].
  set (body := fun _ _ => _). assert (He : is_Some (run a s c body)).
  { apply (Ha _ _ _ _ H1). unfold body. rewrite (proj2 (Nat.ltb_lt _ _) Hlt).
    eapply IH; [done|lia|done|done]. }
  destruct He as [x ->]. eauto.
Qed.

Lemma run_complete {A} r : forall s c s' c', Matches r s c s' c' ->
  forall k : continuation A, is_Some (k s' c') -> is_Some (run r s c k).
Proof.
  induction r as [|neg items|a IHa b IHb|a IHa b IHb|a IHa|n a IHa| |]; intros s c s' c' HM k Hk; cbn [run].
  - by inversion HM; subst.
  - inversion HM; subst. by case_match.
  - inversion HM; subst. eauto.
  - inversion HM; subst.
    + assert (is_Some (run a s c k)) as [x ->] by eauto. eauto.
    + case_match; eauto.
  - by eapply star_complete.
  - inversion HM; subst. by eapply IHa.
  - inversion HM; subst. by rewrite (proj2 (Nat.eqb_eq _ _)).
  - by inversion HM; subst.
Qed.

(** *** Greedy repetition of a class *)

(** The longest repetition is tried first, then the shorter ones. *)
Fixpoint longest {A} (t u : list Z) (k : list Z -> option A) : option A :=
  match t with
  | [] => k u
  | x :: t => match longest t u k with Some y => Some y | None => k (x :: t ++ u) end
  end.

Lemma run_star_span {A} neg items s c (k : continuation A) :
  run (RStar (RCls neg items)) s c k =
  let '(t, u) := span (class_match icase neg items) s in longest t u (fun s => k s c).
Proof.
  cbn [run]. enough (Hf : forall fuel, (length s <= fuel)%nat ->
    star_loop (fun s c k => run (RCls neg items) s c k) k fuel s c =
    let '(t, u) := span (class_match icase neg items) s in longest t u (fun s => k s c)) by exact (Hf _ (le_n _)).
  intros fuel. revert s. induction fuel as [|fuel IH]; intros s Hs.
  - destruct s; [done|]. cbn in Hs. lia.
  - cbn [star_loop run]. destruct s as [|x s]; [done|]. cbn [span length] in *. destruct (class_match icase neg items x); [|done].
    replace (length s <? S (length s))%nat with true by (symmetry; apply Nat.ltb_lt; lia).
    rewrite IH by lia. destruct (span_spec (class_match icase neg items) s) as (Heq & _ & _).
    destruct span as [t u]. cbn [longest fst snd] in *. by rewrite Heq.
Qed.

(** The rest of the pattern cannot start inside the repetition. *)
Definition stops_inside {A} (p : Z -> bool) (k : list Z -> option A) : Prop :=
  forall x v, p x = true -> k (x :: v) = None.

Lemma run_star_det {A} neg items s c (k : continuation A) :
  stops_inside (class_match icase neg items) (fun s => k s c) ->
  run (RStar (RCls neg items)) s c k = k (span (class_match icase neg items) s).2 c.
Proof.
  intros Hk. rewrite run_star_span. destruct (span_spec (class_match icase neg items) s) as (_ & Ht & _).
  destruct span as [t u]. cbn [fst snd] in *. induction Ht as [|x t Hx _ IH]; [done|]. cbn [longest].
  rewrite IH. by rewrite Hk; [destruct (k u c)|].
Qed.

Lemma run_plus_det {A} neg items s c (k : continuation A) :
  stops_inside (class_match icase neg items) (fun s => k s c) ->
  run (RPlus (RCls neg items)) s c k =
  let '(t, u) := span (class_match icase neg items) s in match t with [] => None | _ => k u c end.
Proof.
  intros Hk. unfold RPlus. cbn [run]. destruct s as [|x s]; [done|]. cbn [span]. destruct (class_match icase neg items x); [|done].
  change (star_loop _ k (length s) s c) with (run (RStar (RCls neg items)) s c k).
  rewrite run_star_det by done. by destruct span.
Qed.

Lemma run_star_first {A} neg items s c (k : continuation A) y :
  k (span (class_match icase neg items) s).2 c = Some y -> run (RStar (RCls neg items)) s c k = Some y.
Proof.
  rewrite run_star_span. destruct span as [t u]. cbn [snd]. intros Hk.
  induction t as [|x t IH]; cbn [longest]; [done|]. by rewrite IH.
Qed.

(** *** One step of the matcher *)
Lemma run_seq {A} a b s c (k : continuation A) : run (RSeq a b) s c k = run a s c (fun s c => run b s c k).
Proof. done. Qed.

Lemma run_group {A} n a s c (k : continuation A) :
  run (RGroup n a) s c k = run a s c (fun s' c' => k s' ((n, take (length s - length s') s) :: c')).
Proof. done. Qed.

Lemma run_opt {A} a s c (k : continuation A) :
  run (ROpt a) s c k = match run a s c k with Some x => Some x | None => k s c end.
Proof. done. Qed.

Lemma run_bol {A} s c (k : continuation A) : length s = total -> run RBol s c k = k s c.
Proof. intros Hs. cbn [run]. by apply Nat.eqb_eq in Hs as ->. Qed.

Lemma run_eol {A} s c (k : continuation A) : run REol s c k = match s with [] => k s c | _ => None end.
Proof. done. Qed.

Lemma run_cls {A} neg items s c (k : continuation A) :
  run (RCls neg items) s c k =
  match s with x :: s => if class_match icase neg items x then k s c else None | [] => None end.
Proof. done. Qed.

Lemma run_plus_first {A} neg items s c (k : continuation A) y :
  (span (class_match icase neg items) s).1 <> [] -> k (span (class_match icase neg items) s).2 c = Some y ->
  run (RPlus (RCls neg items)) s c k = Some y.
Proof.
  intros Hne Hk. unfold RPlus. rewrite run_seq, run_cls. destruct s as [|x s]; [done|]. cbn [span] in *.
  destruct (class_match icase neg items x); [|done]. apply run_star_first. by destruct span.
Qed.

Lemma run_plus_none {A} neg items s c (k : continuation A) :
  (span (class_match icase neg items) s).1 = [] -> run (RPlus (RCls neg items)) s c k = None.
Proof.
  unfold RPlus. rewrite run_seq, run_cls. destruct s as [|x s]; [done|]. cbn [span].
  destruct (class_match icase neg items x); [|done]. by destruct span.
Qed.
End Matcher.

Lemma class_chr c x : class_match false false [(c, c)] x = (x =? c).
Proof. unfold class_match, in_items. cbn. destruct (Z.eqb_spec x c); lia. Qed.

Lemma run_chr {A} total d s c (k : continuation A) :
  run false total (RChr d) s c k = match s with x :: s => if x =? d then k s c else None | [] => None end.
Proof. unfold RChr. rewrite run_cls. destruct s; [done|]. by rewrite class_chr. Qed.

Lemma take_before {A} (t s : list A) : take (length (t ++ s) - length s) (t ++ s) = t.
Proof. rewrite length_app. rewrite take_app_le by lia. apply take_ge. lia. Qed.

Lemma take_matched p s : take (length s - length (span p s).2) s = (span p s).1.
Proof.
  destruct (span_spec p s) as (Heq & _ & _). destruct span as [t u]. cbn [fst snd] in *. subst s. apply take_before.
Qed.

(** [regex_match]: the whole subject. *)
Definition regex_match (icase : bool) (r : re) (s : list Z) : option captures :=
  run icase (length s) r s [] (fun s' c => match s' with [] => Some c | _ => None end).

(** [regex_search]: the leftmost match; also the text before and after it. *)
Fixpoint search_from (icase : bool) (r : re) (total : nat) (before s : list Z)
  : option (list Z * captures * list Z) :=
  match run icase total r s [] (fun s' c => Some (c, s')) with
  | Some (c, after) => Some (before, (0%nat, take (length s - length after) s) :: c, after)
  | None =>
      match s with
      | x :: s => search_from icase r total (before ++ [x]) s
      | [] => None
      end
  end.

Definition regex_search (icase : bool) (r : re) (s : list Z) : option (list Z * captures * list Z) :=
  search_from icase r (length s) [] s.

(** *** Matching of the whole subject as membership in the language *)
Lemma regex_match_spec icase r s :
  is_Some (regex_match icase r s) <-> exists c, Matches icase (length s) r s [] [] c.
Proof.
  unfold regex_match. split.
  - intros [c Hc]. apply run_sound in Hc as (s' & c' & HM & Hk). destruct s'; [|done]. eauto.
  - intros [c HM]. eapply run_complete; [exact HM|]. eauto.
Qed.

(** Every character a pattern may consume satisfies [p]. *)
Fixpoint only (p : Z -> bool) (r : re) : bool :=
  match r with
  | REps | RBol | REol => true
  | RCls negated items => negb negated && forallb (fun '(lo, hi) => forallb p (seqZ lo (hi - lo + 1))) items
  | RSeq a b | RAlt a b => only p a && only p b
  | RStar a | RGroup _ a => only p a
  end.

Lemma in_items_only p items x :
  forallb (fun '(lo, hi) => forallb p (seqZ lo (hi - lo + 1))) items = true -> in_items items x = true -> p x = true.
Proof.
  induction items as [|[lo hi] items IH]; [done|]. cbn. intros [Hp Hi]%andb_true_iff [Hx|Hx]%orb_true_iff; [|by apply IH].
  apply (forallb_seqZ p lo (hi - lo + 1) Hp). lia.
Qed.

Definition consumes (p : Z -> bool) (s s' : list Z) : Prop :=
  exists t, s = t ++ s' /\ Forall (fun x => p x = true) t.

Lemma consumes_none p s : consumes p s s.
Proof. by exists []. Qed.

Lemma consumes_app p s s1 s2 : consumes p s s1 -> consumes p s1 s2 -> consumes p s s2.
Proof.
  intros (t1 & -> & H1) (t2 & -> & H2). exists (t1 ++ t2). rewrite <- app_assoc. split; [done|]. by apply Forall_app.
Qed.

Lemma Matches_only p total r s c s' c' :
  Matches false total r s c s' c' -> only p r = true -> consumes p s s'.
Proof.
  intros HM. induction HM; cbn [only]; intros Hr; try apply andb_true_iff in Hr as [Ha Hb];
    eauto using consumes_none, consumes_app.
  exists [x]. split; [done|]. repeat constructor. apply negb_true_iff in Ha as ->.
  eapply in_items_only; [done|]. unfold class_match in H. by rewrite orb_false_r in H.
Qed.

(** The first part of a sequence, when it is known what it consumes. *)
Lemma Matches_seq_only p total a b s c s' c' :
  Matches false total (RSeq a b) s c s' c' -> only p a = true ->
  exists s1 c1, consumes p s s1 /\ Matches false total b s1 c1 s' c'.
Proof. intros HM Ha. inversion HM; subst. eauto using Matches_only. Qed.

Lemma Matches_star_cls total neg items t s c :
  Forall (fun x => class_match false neg items x = true) t -> Matches false total (RStar (RCls neg items)) (t ++ s) c s c.
Proof.
  induction 1 as [|x t Hx _ IH]; cbn [app]; [constructor|]. eapply MStarCons; [by constructor| |done]. cbn. lia.
Qed.

Lemma Matches_chr total x s c : Matches false total (RChr x) (x :: s) c s c.
Proof. constructor. rewrite class_chr. apply Z.eqb_refl. Qed.

(** A pattern that begins with [^] matches at the beginning or not at all. *)
Lemma search_bol icase r s :
  regex_search icase (RSeq RBol r) s =
  match run icase (length s) r s [] (fun s' c => Some (c, s')) with
  | Some (c, after) => Some ([], (0%nat, take (length s - length after) s) :: c, after)
  | None => None
  end.
Proof.
  assert (Hlater : forall total s before, (length s < total)%nat -> search_from icase (RSeq RBol r) total before s = None).
  { intros total t. induction t as [|x t IH]; intros before Ht; cbn [search_from run]; cbn [length] in Ht;
      rewrite (proj2 (Nat.eqb_neq _ _)) by (cbn [length]; lia); [done|]. apply IH. lia. }
  unfold regex_search. destruct s as [|x s]; cbn [search_from]; rewrite run_seq, run_bol by done.
  - by case_match.
  - destruct run as [[c after]|]; [done|]. apply Hlater. cbn [length]. lia.
Qed.

(** ** regex_replace *)

(** The text a format string stands for, with the groups of a match. *)
Fixpoint expand (fmt before : list Z) (c : captures) (after : list Z) : list Z :=
  match fmt with
  | 36 :: 36 :: fmt => 36 :: expand fmt before c after
  | 36 :: 38 :: fmt => group 0 c ++ expand fmt before c after
  | 36 :: 96 :: fmt => before ++ expand fmt before c after
  | 36 :: 39 :: fmt => after ++ expand fmt before c after
  | 36 :: ((d :: fmt) as tail) =>
      if isdigit d then group (Z.to_nat (d - 48)) c ++ expand fmt before c after
      else 36 :: expand tail before c after
  | x :: fmt => x :: expand fmt before c after
  | [] => []
  end.

(** Every match, from left to right; the patterns used never match the empty
    string. *)
Fixpoint replace_matches (fuel : nat) (icase : bool) (r : re) (s fmt : list Z) : list Z :=
  match fuel with
  | O => s
  | S fuel =>
      match regex_search icase r s with
      | Some (before, c, after) => before ++ expand fmt before c after ++ replace_matches fuel icase r after fmt
      | None => s
      end
  end.

Definition regex_replace (icase : bool) (r : re) (s fmt : list Z) : list Z :=
  replace_matches (S (length s)) icase r s fmt.

(** ** Searching for one character *)
Lemma search_char c total before s : ~ In c s ->
  search_from false (RChr c) total before s = None.
Proof.
  revert before. induction s as [|x s IH]; intros before Hc; [done|]. cbn. unfold class_match, in_items. cbn.
  assert (x <> c) by (intros ->; apply Hc; by left).
  replace ((c <=? x) && (x <=? c)) with false by lia. cbn. apply IH. intros Hs. apply Hc. by right.
Qed.

Lemma search_char_found c total before t u : ~ In c t ->
  search_from false (RChr c) total before (t ++ c :: u) = Some (before ++ t, [(0%nat, [c])], u).
Proof.
  revert before. induction t as [|x t IH]; intros before Hc.
  - cbn. unfold class_match, in_items. cbn. rewrite !Z.leb_refl. cbn.
    pose proof (take_before [c] u) as Ht. cbn in Ht. by rewrite Ht, app_nil_r.
  - cbn. unfold class_match, in_items. cbn. assert (x <> c) by (intros ->; apply Hc; by left).
    replace ((c <=? x) && (x <=? c)) with false by lia. cbn.
    rewrite IH by (intros Ht; apply Hc; by right). by rewrite <- app_assoc.
Qed.

(** A character is replaced wherever it occurs. *)
Lemma replace_char c d s : d <> 36 -> regex_replace false (RChr c) s [d] = (fun x => if x =? c then d else x) <$> s.
Proof.
  intros Hd. unfold regex_replace. set (f := fun x => _). enough (H : forall fuel s, (length s < fuel)%nat ->
    replace_matches fuel false (RChr c) s [d] = f <$> s) by (apply H; lia).
  assert (Hid : forall t, Forall (fun x => negb (x =? c) = true) t -> f <$> t = t /\ ~ In c t).
  { induction 1 as [|x t Hx _ [IH Hn]]; [split; [done | intros []]|]. rewrite fmap_cons, IH. unfold f.
    apply negb_true_iff in Hx. rewrite Hx. apply Z.eqb_neq in Hx. split; [done|]. by intros [->|]. }
  induction fuel as [|fuel IH]; intros t Ht; [lia|]. cbn [replace_matches]. unfold regex_search.
  destruct (span_spec (fun x => negb (x =? c)) t) as (Heq & (Ht1 & Hn)%Hid & Hs). destruct span as [t1 t2].
  cbn [fst snd] in *. subst t. destruct t2 as [|x t2].
  - rewrite app_nil_r, search_char by done. done.
  - cbn [stops] in Hs. apply negb_false_iff, Z.eqb_eq in Hs as ->. rewrite search_char_found by done.
    rewrite fmap_app, fmap_cons, Ht1. cbn [app]. rewrite length_app in Ht. cbn [length] in Ht.
    rewrite IH by lia. unfold f at 2. rewrite Z.eqb_refl.
    assert (expand [d] t1 [(0%nat, [c])] t2 = [d]) as ->; [|done]. cbn [expand].
    by repeat match goal with |- context [match ?x with _ => _ end] => destruct x; try done end.
Qed.

(** ** Patterns without special characters *)
Fixpoint literal (l : list Z) : re :=
  match l with
  | [] => REps
  | [c] => RChr c
  | c :: l => RSeq (RChr c) (literal l)
  end.

Definition not_upper (c : Z) : Prop := ~ (65 <= c <= 90).

Lemma class_icase c x : not_upper c -> class_match true false [(c, c)] x = (to_lower x =? c).
Proof. unfold not_upper, class_match, in_items, to_lower, to_upper. intros Hc. cbn. repeat case_match; lia. Qed.

Lemma run_literal {A} total l s c (k : continuation A) : Forall not_upper l ->
  run true total (literal l) s c k =
  if bool_decide (to_lower <$> take (length l) s = l) then k (drop (length l) s) c else None.
Proof.
  intros Hl. revert s. induction Hl as [|x l Hx Hl IH]; intros s; [by rewrite drop_0|].
  assert (Hstep : run true total (literal (x :: l)) s c k =
    match s with y :: s => if to_lower y =? x then run true total (literal l) s c k else None | [] => None end).
  { destruct l as [|z l].
    - cbn [literal]. unfold RChr. rewrite run_cls. destruct s as [|y s]; [done|]. by rewrite class_icase.
    - change (literal (x :: z :: l)) with (RSeq (RChr x) (literal (z :: l))). rewrite run_seq. unfold RChr at 1. rewrite run_cls.
      destruct s as [|y s]; [done|]. by rewrite class_icase. }
  rewrite Hstep. destruct s as [|y s]; [by rewrite bool_decide_false|]. cbn [length take drop]. rewrite fmap_cons.
  destruct (Z.eqb_spec (to_lower y) x) as [->|Hy].
  - rewrite IH. repeat case_bool_decide; try done; exfalso; naive_solver congruence.
  - rewrite bool_decide_false; [done|]. congruence.
Qed.

Lemma match_literal l s : Forall not_upper l ->
  (if regex_match true (literal l) s is Some _ then true else false) = bool_decide (to_lower <$> s = l).
Proof.
  intros Hl. unfold regex_match. rewrite run_literal by done. case_bool_decide as Ht.
  - assert (Hlen : length l = length (take (length l) s)) by (rewrite <- Ht at 1; by rewrite length_fmap).
    rewrite length_take in Hlen. destruct (drop (length l) s) as [|x rest] eqn:E.
    + rewrite bool_decide_true; [done|]. rewrite <- (take_drop (length l) s), E, app_nil_r. done.
    + rewrite bool_decide_false; [done|]. intros Hs. apply (f_equal length) in Hs. rewrite length_fmap in Hs.
      apply (f_equal length) in E. rewrite length_drop in E. cbn in E. lia.
  - rewrite bool_decide_false; [done|]. intros Hs. apply Ht. rewrite take_ge; [done|]. subst l. by rewrite length_fmap.
Qed.
