(* ===== verification/Multimap.v ===== *)
(** * std::map and std::multimap with strings as keys

    Both are kept as the association list a traversal visits: keys ascend in
    the order of [std::string] (bytes compared as unsigned), equal keys of a
    multimap stay in the order of their insertion. *)
From S2P Require Import Prelude.
From Stdlib Require Import Sorted.

(** [operator<] on strings. *)
Fixpoint string_ltb (a b : list Z) : bool :=
  match a, b with
  | [], [] => false
  | [], _ :: _ => true
  | _ :: _, [] => false
  | x :: a, y :: b => if x <? y then true else if y <? x then false else string_ltb a b
  end.

Section Operations.
Context {A : Type}.
Implicit Types m : list (list Z * A).

(** [insert]: behind the last equal key. *)
Fixpoint mm_insert (k : list Z) (v : A) m : list (list Z * A) :=
  match m with
  | [] => [(k, v)]
  | (k', v') :: m' => if string_ltb k k' then (k, v) :: m else (k', v') :: mm_insert k v m'
  end.

(** [insert(first, last)] *)
Definition mm_insert_range (l : list (list Z * A)) m : list (list Z * A) :=
  fold_left (fun m '(k, v) => mm_insert k v m) l m.

Definition mm_erase (k : list Z) m : list (list Z * A) := filter (fun p => p.1 <> k) m.

(** The values [equal_range] visits. *)
Definition mm_equal_range (k : list Z) m : list A := snd <$> filter (fun p => p.1 = k) m.

(** [operator[]] of a map on the left of an assignment. *)
Definition map_set (k : list Z) (v : A) m : list (list Z * A) := mm_insert k v (mm_erase k m).

Definition map_get (k : list Z) m : option A := head (mm_equal_range k m).
End Operations.

(** ** The order of strings *)
Lemma string_ltb_irrefl a : string_ltb a a = false.
Proof. induction a as [|x a IH]; [done|]. cbn. by rewrite Z.ltb_irrefl. Qed.

Lemma string_ltb_trans a b c : string_ltb a b = true -> string_ltb b c = true -> string_ltb a c = true.
Proof.
  revert b c. induction a as [|x a IH]; intros [|y b] [|z c]; cbn; try done.
  destruct (Z.ltb_spec x y), (Z.ltb_spec y x), (Z.ltb_spec y z), (Z.ltb_spec z y), (Z.ltb_spec x z), (Z.ltb_spec z x);
    try done; try lia. apply IH.
Qed.

Lemma string_trichotomy a b : string_ltb a b = false -> string_ltb b a = false -> a = b.
Proof.
  revert b. induction a as [|x a IH]; intros [|y b]; cbn; try done.
  destruct (Z.ltb_spec x y), (Z.ltb_spec y x); try done. intros. f_equal; [lia|auto].
Qed.

(** ** Sortedness and the order of insertion *)
Definition key_le {A} (p q : list Z * A) : Prop := string_ltb q.1 p.1 = false.

Definition mm_sorted {A} (m : list (list Z * A)) : Prop := StronglySorted key_le m.

Section Laws.
Context {A : Type}.
Implicit Types m : list (list Z * A).

Lemma mm_insert_perm k v m : Permutation (mm_insert k v m) ((k, v) :: m).
Proof.
  induction m as [|[k' v'] m IH]; [done|]. cbn. case_match; [done|].
  rewrite IH. apply Permutation_swap.
Qed.

Lemma mm_insert_sorted k v m : mm_sorted m -> mm_sorted (mm_insert k v m).
Proof.
  induction 1 as [|[k' v'] m Hm IH Hk']; [by repeat constructor|]. cbn. case_match eqn:Hlt.
  - constructor; [by constructor|]. constructor.
    + unfold key_le; cbn. destruct (string_ltb k' k) eqn:E; [|done].
      pose proof (string_ltb_trans _ _ _ Hlt E) as C. by rewrite string_ltb_irrefl in C.
    + eapply Forall_impl; [exact Hk'|]. intros [k2 v2] H2. unfold key_le in *; cbn in *.
      destruct (string_ltb k2 k) eqn:E; [|done]. pose proof (string_ltb_trans _ _ _ E Hlt). congruence.
  - constructor; [done|]. rewrite mm_insert_perm. constructor; done.
Qed.

Lemma mm_equal_range_insert k k' v m : mm_sorted m ->
  mm_equal_range k' (mm_insert k v m) = mm_equal_range k' m ++ (if bool_decide (k = k') then [v] else []).
Proof.
  unfold mm_equal_range. induction 1 as [|[k0 v0] m Hm IH Hk0]; cbn [mm_insert].
  - rewrite filter_cons, filter_nil. cbn [fst]. by case_decide; case_bool_decide.
  - destruct (string_ltb k k0) eqn:Hlt; rewrite !filter_cons; cbn [fst].
    + destruct (decide (k = k')) as [<-|Hk];
        [rewrite bool_decide_true by done | by rewrite bool_decide_false, app_nil_r by done].
      assert (k0 <> k) by (intros ->; by rewrite string_ltb_irrefl in Hlt). rewrite decide_False by done.
      assert (Hnone : filter (fun p => p.1 = k) m = []); [|by rewrite Hnone].
      apply elem_of_nil_inv. intros [k2 v2] [Hk2 Hin]%list_elem_of_filter. cbn in Hk2. subst k2.
      rewrite Forall_forall in Hk0. specialize (Hk0 _ Hin). unfold key_le in Hk0. cbn in Hk0. congruence.
    + destruct (decide (k0 = k')); rewrite ?fmap_cons; by rewrite IH.
Qed.

Lemma mm_insert_range_sorted l m : mm_sorted m -> mm_sorted (mm_insert_range l m).
Proof.
  unfold mm_insert_range. revert m. induction l as [|[k v] l IH]; intros m Hm; [done|]. cbn. by apply IH, mm_insert_sorted.
Qed.
End Laws.

(** What is sorted already is inserted as it stands. *)
Lemma mm_insert_last {A} k (v : A) m : Forall (fun p => key_le p (k, v)) m -> mm_insert k v m = m ++ [(k, v)].
Proof. induction 1 as [|[k' v'] m Hk _ IH]; [done|]. cbn in *. unfold key_le in Hk. cbn in Hk. by rewrite Hk, IH. Qed.

Lemma mm_insert_range_app {A} (l m : list (list Z * A)) : mm_sorted (m ++ l) -> mm_insert_range l m = m ++ l.
Proof.
  revert m. induction l as [|[k v] l IH]; intros m Hs; [by rewrite app_nil_r|]. unfold mm_insert_range in *. cbn [fold_left].
  rewrite mm_insert_last.
  - rewrite IH; rewrite <- app_assoc; [done|exact Hs].
  - clear IH. induction m as [|p m IH]; [constructor|]. cbn [app] in Hs. apply StronglySorted_inv in Hs as [Hs Hp].
    constructor; [|by apply IH]. rewrite Forall_forall in Hp. apply Hp. set_solver.
Qed.

Lemma mm_insert_range_id {A} (m : list (list Z * A)) : mm_sorted m -> mm_insert_range m [] = m.
Proof. apply (mm_insert_range_app m []). Qed.
