(* ===== verification/HttpString.v ===== *)
(** * restbed: String and Common (string.cpp, common.hpp)

    Case folding, splitting, joining and replacing of strings, and the lookup
    of a parameter by a name whose case does not matter. *)
From S2P Require Import Prelude Decimal Regex Multimap.

(** ** String *)
Definition lowercase (value : list Z) : list Z := to_lower <$> value.
Definition uppercase (value : list Z) : list Z := to_upper <$> value.

(** [split]: [value] is what is left from [start] on, [text] the part of the
    token before it; empty tokens are dropped. *)
Fixpoint split_from (text value : list Z) (delimiter : Z) : list (list Z) :=
  let token := match text with [] => [] | _ => [text] end in
  match value with
  | [] => token
  | c :: value =>
      if c =? delimiter then token ++ split_from [] value delimiter
      else split_from (text ++ [c]) value delimiter
  end.

Definition split (value : list Z) (delimiter : Z) : list (list Z) := split_from [] value delimiter.

(** [substr(0, find_last_not_of(set) + 1)], the whole string when every
    character is of the set. *)
Definition strip_last_of (set s : list Z) : list Z :=
  match (span (fun c => bool_decide (c ∈ set)) (rev s)).2 with [] => s | kept => rev kept end.

Definition join (values : list (list Z * list Z)) (pair_delimiter delimiter : list Z) : list Z :=
  let result := concat ((fun '(k, v) => k ++ pair_delimiter ++ v ++ delimiter) <$> values) in
  match result with [] => [] | _ => strip_last_of delimiter result end.

Definition special_pattern : list Z := str "([.^$|()\[\]{}*+?\\])".

(** [regex_replace(target, escape, "\\$1")] *)
Definition escape_regex (target : list Z) : list Z :=
  match compile special_pattern with
  | Some escape => regex_replace false escape target (str "\$1")
  | None => target
  end.

(** The loop goes on while the target is found; nothing bounds it when the
    substitute brings the target back. *)
Fixpoint replace_loop (fuel : nat) (icase : bool) (pattern : re) (substitute result : list Z) : outcome (list Z) :=
  match regex_search icase pattern result with
  | None => Ret result
  | Some _ =>
      match fuel with
      | O => Undefined FuelExhausted
      | S fuel => replace_loop fuel icase pattern substitute (regex_replace icase pattern result substitute)
      end
  end.

Definition replace_with (fuel : nat) (target substitute value : list Z) (icase : bool) : outcome (list Z) :=
  match target with
  | [] => Ret value
  | _ =>
      match compile (escape_regex target) with
      | Some pattern => replace_loop fuel icase pattern substitute value
      | None => Throw InvalidArgument
      end
  end.

Definition replace (target substitute value : list Z) (icase : bool) : outcome (list Z) :=
  replace_with (S (length value)) target substitute value icase.

Definition remove (target value : list Z) (icase : bool) : outcome (list Z) := replace target [] value icase.

(** ** Common *)
Definition has_parameter {A} (name : list Z) (parameters : list (list Z * A)) : bool :=
  existsb (fun p => bytes_eqb (lowercase name) (lowercase p.1)) parameters.

Definition get_parameters {A} (name : list Z) (parameters : list (list Z * A)) : list (list Z * A) :=
  match name with
  | [] => parameters
  | _ =>
      mm_insert_range (List.filter (fun p => bytes_eqb (lowercase name) (lowercase p.1)) parameters) []
  end.

(** [istringstream >> int], [None] when extraction fails: white space is
    skipped, digits behind an optional sign are read, and a value that does
    not fit is a failure. *)
Definition stream_int (s : list Z) : option Z :=
  let '(_, s) := span isspace s in
  let '(neg, s) := match s with 45 :: s => (true, s) | 43 :: s => (false, s) | _ => (false, s) end in
  match (span isdigit s).1 with
  | [] => None
  | ds =>
      let v := if neg : bool then - dec_value ds else dec_value ds in
      if (- 2 ^ 31 <=? v) && (v <? 2 ^ 31) then Some v else None
  end.

Definition parse_parameter (value : list Z) (default_value : Z) : Z := default default_value (stream_int value).

(** ** split *)
Lemma split_from_text text a b d : ~ In d a -> split_from text (a ++ b) d = split_from (text ++ a) b d.
Proof.
  revert text. induction a as [|c a IH]; intros text Hd; [by rewrite app_nil_r|]. cbn [app split_from].
  assert (c <> d) by (intros ->; apply Hd; by left). replace (c =? d) with false by lia.
  rewrite IH by (intros Ha; apply Hd; by right). by rewrite <- app_assoc.
Qed.

Definition token (text : list Z) : list (list Z) := match text with [] => [] | _ => [text] end.

Lemma split_cons a b d : ~ In d a -> split (a ++ d :: b) d = token a ++ split b d.
Proof. intros Hd. unfold split. rewrite split_from_text by done. cbn. by rewrite Z.eqb_refl. Qed.

Lemma split_last a d : ~ In d a -> split a d = token a.
Proof.
  intros Hd. unfold split. rewrite <- (app_nil_r a) at 1. rewrite split_from_text by done. done.
Qed.

(** What is split into non-empty pieces without the delimiter are the pieces. *)
Lemma split_pieces (pieces : list (list Z)) d :
  Forall (fun p => p <> [] /\ ~ In d p) pieces ->
  split (concat ((fun p => d :: p) <$> pieces)) d = pieces.
Proof.
  assert (Hgen : forall pieces, Forall (fun p => p <> [] /\ ~ In d p) pieces ->
    forall p, p <> [] -> ~ In d p -> split (p ++ concat ((fun p => d :: p) <$> pieces)) d = p :: pieces).
  { induction 1 as [|q l [Hq Hdq] _ IH]; intros p Hp Hd; cbn [fmap list_fmap concat].
    - rewrite app_nil_r, split_last by done. by destruct p.
    - cbn [app]. rewrite split_cons by done. change (list_fmap _ _ ?f l) with (f <$> l). rewrite IH by done. by destruct p. }
  intros Hp. destruct pieces as [|p l]; [done|]. apply Forall_cons in Hp as [[Hp Hd] Hl].
  cbn [fmap list_fmap concat app]. change (d :: ?x) with ([] ++ d :: x). rewrite split_cons by (intros []). by apply Hgen.
Qed.

(** No piece is empty or holds the delimiter. *)
Lemma split_from_spec text value d : ~ In d text ->
  Forall (fun p => p <> [] /\ ~ In d p) (split_from text value d).
Proof.
  assert (Htoken : forall text, ~ In d text -> Forall (fun p => p <> [] /\ ~ In d p) (token text)).
  { intros [|c l] Ht; by repeat constructor. }
  revert text. induction value as [|c value IH]; intros text Ht; cbn [split_from]; [by apply Htoken|].
  destruct (Z.eqb_spec c d) as [->|Hc].
  - apply Forall_app. split; [by apply Htoken | apply IH; intros []].
  - apply IH. rewrite in_app_iff. intros [Hin|[Hin|[]]]; [by apply Ht | by subst].
Qed.

(** ** replace *)

(** The replacement of one character by another ends after one round. *)
Lemma replace_loop_char c d fuel value : c <> d -> d <> 36 ->
  replace_loop (S fuel) false (RChr c) [d] value = Ret ((fun x => if x =? c then d else x) <$> value).
Proof.
  intros Hcd Hd. cbn [replace_loop]. rewrite replace_char by done. set (w := _ <$> value).
  assert (Hw : ~ In c w).
  { unfold w. rewrite <- list_elem_of_In, list_elem_of_fmap. intros (x & Hx & _). destruct (Z.eqb_spec x c); lia. }
  destruct (regex_search false (RChr c) value) eqn:E.
  - destruct fuel; cbn [replace_loop]; unfold regex_search; by rewrite search_char.
  - f_equal. unfold w. rewrite <- replace_char by done. unfold regex_replace. cbn [replace_matches]. by rewrite E.
Qed.

Lemma replace_plus value : replace (str "+") (str " ") value false = Ret ((fun c => if c =? 43 then 32 else c) <$> value).
Proof. apply (replace_loop_char 43 32); lia. Qed.

(** A substitute that brings the target back is replaced for ever. *)
Lemma replace_diverges fuel : replace_with fuel (str "a") (str "a") (str "a") false = Undefined FuelExhausted.
Proof.
  unfold replace_with. change (compile (escape_regex (str "a"))) with (Some (RChr 97)).
  change (str "a") with [97]. cbv iota. induction fuel as [|fuel IH]; [done|]. cbn [replace_loop].
  rewrite replace_char by done. cbn. exact IH.
Qed.
