(* ===== verification/Uri.v ===== *)
(** * restbed: Uri (uri.cpp)

    Percent encoding, the validity of an URI and its parts, with the regular
    expressions of the source.  A getter that builds strings from a match
    returns the captured groups; [get_port] asks [getservbyname] for the port
    of a scheme, which is a parameter.

    The lemmas about [request_uri] describe the URIs [ServiceImpl] builds from
    the target of a request line. *)
From S2P Require Import Prelude Decimal Regex Multimap HttpString.

(** A pattern of the source; each is compiled successfully. *)
Definition pattern (p : string) : re := default REps (compile (str p)).

(** ** Percent encoding *)
Definition hex_to_dec : list Z :=
  replicate 48 (-1) ++ seqZ 0 10 ++ replicate 7 (-1) ++ seqZ 10 6 ++ replicate 26 (-1) ++ seqZ 10 6 ++
  replicate 153 (-1).

Definition hex_value (c : Z) : Z := nth (Z.to_nat c) hex_to_dec (-1).

(** [decode]: a place of the loop with two more characters behind it, or the
    tail that is copied. *)
Fixpoint decode (value : list Z) : list Z :=
  match value with
  | c :: ((x :: y :: rest) as tail) =>
      let c1 := hex_value x in
      let c2 := hex_value y in
      if (c =? 37) && negb (c1 =? -1) && negb (c2 =? -1) then u8 (Z.shiftl c1 4 + c2) :: decode rest
      else c :: decode tail
  | _ => value
  end.

Definition decode_parameter (value : list Z) : outcome (list Z) :=
  let* value := replace (str "+") (str " ") value false in Ret (decode value).

(** The rows of [unsafe_carachters]. *)
Definition unsafe_characters : list Z :=
  replicate 32 1 ++
  [1; 0; 1; 1; 1; 1; 1; 0; 0; 0; 0; 1; 1; 0; 0; 1] ++
  [0; 0; 0; 0; 0; 0; 0; 0; 0; 0; 1; 1; 1; 1; 1; 1] ++
  [1; 0; 0; 0; 0; 0; 0; 0; 0; 0; 0; 0; 0; 0; 0; 0] ++
  [0; 0; 0; 0; 0; 0; 0; 0; 0; 0; 0; 1; 1; 1; 1; 0] ++
  [1; 0; 0; 0; 0; 0; 0; 0; 0; 0; 0; 0; 0; 0; 0; 0] ++
  [0; 0; 0; 0; 0; 0; 0; 0; 0; 0; 0; 1; 1; 1; 0; 1] ++
  replicate 128 1.

Definition dec_to_hex : list Z := str "0123456789ABCDEF".

Definition encode_byte (character : Z) : list Z :=
  if nth (Z.to_nat character) unsafe_characters 0 =? 1 then
    [37; nth (Z.to_nat (Z.shiftr character 4)) dec_to_hex 0; nth (Z.to_nat (Z.land character 0x0F)) dec_to_hex 0]
  else [character].

Definition encode (value : list Z) : list Z := value ≫= encode_byte.

Definition encode_parameter (value : list Z) : list Z := encode value.

(** ** Uri *)
Record Uri := mkUri { m_uri : list Z; m_relative : bool }.

Definition is_valid (value : list Z) : bool :=
  bool_decide (is_Some (regex_match false (pattern "^[a-zA-Z][a-zA-Z0-9+\-.]*://(([a-zA-Z0-9\-._~%!$&'()*+,;=]+)(:([a-zA-Z0-9\-._~%!$&'()*+,;=]+))?@)?([a-zA-Z0-9\-._~%!$&'()*+,;=:\[\]]*(:[0-9]+)?)?[a-zA-Z0-9\-._~%!$&'()*+,;=:@/]+(\?[a-zA-Z0-9\-._~%!$&'()*+,;=:@/]*)?(#[a-zA-Z0-9\-._~%!$&'()*+,;=:@/?]*)?$") value)).

(** The constructor; [inl] is the message of its [invalid_argument]. *)
Definition new_Uri (value : list Z) (relative : bool) : list Z + Uri :=
  if is_valid value then inr (mkUri value relative)
  else inl (str "Argument is not a valid URI: " ++ value).

Definition parse (value : list Z) : list Z + Uri := new_Uri value false.

Definition is_relative (u : Uri) : bool := u.(m_relative).
Definition is_absolute (u : Uri) : bool := negb u.(m_relative).
Definition to_string (u : Uri) : list Z := u.(m_uri).

(** Group [n] of the leftmost match, empty when there is none. *)
Definition search_group (p : string) (n : nat) (s : list Z) : list Z :=
  match regex_search false (pattern p) s with Some (_, c, _) => group n c | None => [] end.

Definition get_path (u : Uri) : list Z :=
  match regex_search false (pattern "^([a-zA-Z][a-zA-Z0-9+\-.]*://([^/?#]+)?)?([a-zA-Z0-9\-._~%!$&'()*+,;=:@/]*)") u.(m_uri) with
  | Some (_, c, _) => if is_absolute u then group 3 c else group 2 c ++ group 3 c
  | None => []
  end.

Definition get_query (u : Uri) : list Z := search_group "^[^?#]+\?([^#]+)" 1 u.(m_uri).

Definition get_scheme (u : Uri) : list Z := search_group "^([a-zA-Z][a-zA-Z0-9+\-.]*):" 1 u.(m_uri).

Definition get_fragment (u : Uri) : list Z := search_group "#(.+)" 1 u.(m_uri).

Definition get_username (u : Uri) : list Z :=
  search_group "^[a-zA-Z0-9+\-.]+://([a-zA-Z0-9\-._~%!$&'()*+,;=]+)(:([a-zA-Z0-9\-._~%!$&'()*+,;=]+))?@" 1 u.(m_uri).

Definition get_password (u : Uri) : list Z :=
  search_group "^[a-zA-Z0-9+\-.]+://([a-zA-Z0-9\-._~%!$&'()*+,;=]+):([a-zA-Z0-9\-._~%!$&'()*+,;=]+)@" 2 u.(m_uri).

(** Without the brackets of an IPv6 address; the group is not empty. *)
Definition get_authority (u : Uri) : list Z :=
  if is_relative u then []
  else
    match search_group "^[a-zA-Z][a-zA-Z0-9+\-.]*://(([a-zA-Z0-9\-._~%!$&'()*+,;=]+)(:([a-zA-Z0-9\-._~%!$&'()*+,;=]+))?@)?([a-zA-Z0-9\-._~%]+|\[[a-zA-Z0-9\-._~%!$&'()*+,;=:]+\])" 5 u.(m_uri) with
    | [] => []
    | authority =>
        let authority := match authority with 91 :: a => a | a => a end in
        match last authority with Some 93 => removelast authority | _ => authority end
    end.

Section Port.
(** The port of a service in host byte order. *)
Variable getservbyname : list Z -> option Z.

(** [stoi] throws for a number that is no [int]. *)
Definition get_port (u : Uri) : outcome Z :=
  let port :=
    match regex_search false (pattern "^[a-zA-Z][a-zA-Z0-9+\-.]*://(([a-zA-Z0-9\-._~%!$&'()*+,;=]+)(:([a-zA-Z0-9\-._~%!$&'()*+,;=]+))?@)?([a-zA-Z0-9\-._~%]+|\[[a-zA-Z0-9\-._~%!$&'()*+,;=:]+\]):([0-9]+)") u.(m_uri) with
    | Some (_, c, _) => group 6 c
    | None =>
        match get_scheme u with
        | [] => []
        | scheme => match getservbyname scheme with Some p => dec p | None => [] end
        end
    end in
  match port with
  | [] => Ret 0
  | _ => if dec_value port <? 2 ^ 31 then Ret (dec_value port mod 2 ^ 16) else Throw StdOutOfRange
  end.
End Port.

(** One [name=value] of the query. *)
Definition query_parameter (parameter : list Z) : outcome (list Z * list Z) :=
  let '(name, rest) := span (fun c => negb (c =? 61)) parameter in
  let* name := decode_parameter name in
  let* value := match rest with _ :: value => decode_parameter value | [] => Ret [] end in
  Ret (name, value).

Fixpoint insert_parameters (query : list (list Z)) (parameters : list (list Z * list Z))
  : outcome (list (list Z * list Z)) :=
  match query with
  | [] => Ret parameters
  | parameter :: query =>
      let* (name, value) := query_parameter parameter in
      insert_parameters query (mm_insert name value parameters)
  end.

Definition get_query_parameters (u : Uri) : outcome (list (list Z * list Z)) :=
  insert_parameters (split (get_query u) 38) [].

(** ** Encoding and decoding *)
Definition is_byte (c : Z) : Prop := 0 <= c < 256.

Lemma encode_byte_spec c : is_byte c ->
  (encode_byte c = [c] /\ c <> 37 /\ c <> 43) \/
  exists x y, encode_byte c = [37; x; y] /\ hex_value x <> -1 /\ hex_value y <> -1 /\ x <> 43 /\ y <> 43 /\
    u8 (Z.shiftl (hex_value x) 4 + hex_value y) = c.
Proof.
  intros Hc. pose proof (forallb_seqZ (fun c =>
    match encode_byte c with
    | [d] => (d =? c) && negb (c =? 37) && negb (c =? 43)
    | [p; x; y] => (p =? 37) && negb (hex_value x =? -1) && negb (hex_value y =? -1) && negb (x =? 43) && negb (y =? 43) &&
        (u8 (Z.shiftl (hex_value x) 4 + hex_value y) =? c)
    | _ => false
    end) 0 256 eq_refl c Hc) as H. cbv beta in H.
  destruct (encode_byte c) as [|d [|x [|y [|]]]]; try done.
  - left. repeat split; try lia. f_equal. lia.
  - right. exists x, y. repeat split; try lia. repeat f_equal. lia.
Qed.

Lemma decode_cons c s : c <> 37 -> decode (c :: s) = c :: decode s.
Proof.
  intros Hc. destruct s as [|x [|y s]]; [done..|]. cbn [decode]. by replace (c =? 37) with false by lia.
Qed.

Lemma decode_escape x y s : hex_value x <> -1 -> hex_value y <> -1 ->
  decode (37 :: x :: y :: s) = u8 (Z.shiftl (hex_value x) 4 + hex_value y) :: decode s.
Proof.
  intros Hx Hy. cbn [decode]. rewrite Z.eqb_refl. apply Z.eqb_neq in Hx, Hy. by rewrite Hx, Hy.
Qed.

Lemma decode_encode value : Forall is_byte value -> decode (encode value) = value.
Proof.
  induction 1 as [|c value Hc _ IH]; [done|]. unfold encode in *. cbn [mbind list_bind].
  destruct (encode_byte_spec c Hc) as [(-> & Hp & _)|(x & y & -> & Hx & Hy & _ & _ & Hxy)]; cbn [app].
  - by rewrite decode_cons, IH.
  - by rewrite decode_escape, Hxy, IH.
Qed.

Lemma encode_no_plus value : Forall is_byte value -> Forall (fun c => c <> 43) (encode value).
Proof.
  induction 1 as [|c value Hc _ IH]; [constructor|]. unfold encode in *. cbn [mbind list_bind]. apply Forall_app. split; [|done].
  destruct (encode_byte_spec c Hc) as [(-> & ? & ?)|(x & y & -> & ? & ? & ? & ? & ?)]; by repeat constructor.
Qed.

Lemma plus_absent value : Forall (fun c => c <> 43) value -> (fun c => if c =? 43 then 32 else c) <$> value = value.
Proof.
  induction 1 as [|c value Hc _ IH]; [done|]. rewrite fmap_cons, IH. by replace (c =? 43) with false by lia.
Qed.

Lemma decode_encode_parameter value : Forall is_byte value ->
  decode_parameter (encode_parameter value) = Ret value.
Proof.
  intros Hv. unfold decode_parameter. rewrite replace_plus. cbn [bind].
  unfold encode_parameter. rewrite plus_absent by by apply encode_no_plus. by rewrite decode_encode.
Qed.

Lemma decode_parameter_total value : exists text, decode_parameter value = Ret text.
Proof. unfold decode_parameter. rewrite replace_plus. cbn. eauto. Qed.

(** ** The URI of a request target *)
Definition request_uri (target : list Z) : list Z := str "http://localhost" ++ target.

Definition path_items : list (Z * Z) :=
  [(97, 122); (65, 90); (48, 57); (45, 45); (46, 46); (95, 95); (126, 126); (37, 37); (33, 33); (36, 36); (38, 38);
   (39, 39); (40, 40); (41, 41); (42, 42); (43, 43); (44, 44); (59, 59); (61, 61); (58, 58); (64, 64); (47, 47)].

(** The characters of a path and of a query, of an authority, of what comes
    before the fragment. *)
Definition path_char : Z -> bool := class_match false false path_items.
Definition host_char : Z -> bool := class_match false true [(47, 47); (63, 63); (35, 35)].
Definition before_query : Z -> bool := class_match false true [(63, 63); (35, 35)].
Definition before_fragment : Z -> bool := class_match false true [(35, 35)].

Definition scheme_items : list (Z * Z) := [(97, 122); (65, 90); (48, 57); (43, 43); (45, 45); (46, 46)].

Lemma run_search (r : re) (s : list Z) c after :
  run false (length s) r s [] (fun s' c => Some (c, s')) = Some (c, after) ->
  regex_search false r s = Some ([], (0%nat, take (length s - length after) s) :: c, after).
Proof. intros Hr. unfold regex_search. destruct s; cbn [search_from]; by rewrite Hr. Qed.

(** The pattern of [get_path], taken apart. *)
Definition origin_re : re :=
  RSeq (RCls false [(97, 122); (65, 90)]) (RSeq (RStar (RCls false scheme_items))
    (RSeq (RChr 58) (RSeq (RChr 47) (RSeq (RChr 47) (ROpt (RGroup 2 (RPlus (RCls true [(47, 47); (63, 63); (35, 35)])))))))).

Lemma span_literal (p : Z -> bool) text target : forallb p text = true ->
  span p (text ++ target) = (text ++ (span p target).1, (span p target).2).
Proof. intros Hp. apply span_prefix, Forall_forall. intros c Hc. rewrite forallb_forall in Hp. by apply Hp, list_elem_of_In. Qed.

Lemma run_origin {A} total (target : list Z) c (k : continuation A) x :
  k (span host_char target).2 ((2%nat, str "localhost" ++ (span host_char target).1) :: c) = Some x ->
  run false total origin_re (request_uri target) c k = Some x.
Proof.
  intros Hk. unfold request_uri, origin_re. rewrite run_seq, run_cls.
  change (str "http://localhost" ++ target) with (104 :: 116 :: 116 :: 112 :: 58 :: 47 :: 47 :: (str "localhost" ++ target)).
  cbv iota. change (class_match _ _ _ 104) with true. cbv iota. rewrite run_seq. apply run_star_first.
  change ((span _ _).2) with (58 :: 47 :: 47 :: str "localhost" ++ target).
  do 3 (rewrite run_seq, run_chr; cbn [Z.eqb Pos.eqb]; cbv beta).
  rewrite run_opt, run_group. erewrite run_plus_first; [done|..]; fold host_char; [by rewrite span_literal|].
  by rewrite take_matched, span_literal.
Qed.

Lemma get_path_request target :
  get_path (mkUri (request_uri target) false) = (span path_char (span host_char target).2).1.
Proof.
  unfold get_path. cbn [m_uri].
  change (pattern _) with (RSeq RBol (RSeq (ROpt (RGroup 1 origin_re)) (RGroup 3 (RStar (RCls false path_items))))).
  erewrite run_search.
  2: { rewrite run_seq, run_bol, run_seq, run_opt, run_group by done.
       erewrite run_origin; [done|]. rewrite run_group. by apply run_star_first. }
  apply take_matched.
Qed.

Lemma get_query_request target :
  get_query (mkUri (request_uri target) false) =
  match (span before_query target).2 with 63 :: rest => (span before_fragment rest).1 | _ => [] end.
Proof.
  unfold get_query, search_group. cbn [m_uri].
  change (pattern _) with (RSeq RBol (RSeq (RPlus (RCls true [(63, 63); (35, 35)]))
    (RSeq (RChr 63) (RGroup 1 (RPlus (RCls true [(35, 35)])))))).
  rewrite search_bol, run_seq, run_plus_det; fold before_query.
  2: { intros x v Hx. rewrite run_seq, run_chr. destruct (Z.eqb_spec x 63) as [->|]; [discriminate Hx|done]. }
  unfold request_uri. rewrite (span_literal before_query) by done. cbn [fst snd].
  destruct (str "http://localhost" ++ _) eqn:E; [discriminate E|]. clear E. rewrite run_seq, run_chr.
  destruct (span before_query target).2 as [|x rest]; [done|].
  destruct (Z.eqb_spec x 63) as [->|Hx]; [|by repeat case_match].
  rewrite run_group. destruct (span before_fragment rest).1 as [|y query] eqn:E.
  - by rewrite run_plus_none.
  - erewrite run_plus_first; [| |done]; fold before_fragment; [|by rewrite E].
    cbn [group Nat.eqb]. by rewrite take_matched, E.
Qed.

(** ** Which request targets give a valid URI *)
Definition target_char (c : Z) : bool := path_char c || (c =? 35) || (c =? 63).
Definition fragment_char (c : Z) : bool := path_char c || (c =? 63).

(** A fragment starts with [#] and has no second one. *)
Definition valid_fragment (rest : list Z) : bool :=
  match rest with [] => true | c :: fragment => (c =? 35) && forallb fragment_char fragment end.

(** At most one question mark before the fragment, and something before both. *)
Definition valid_target (target : list Z) : bool :=
  let '(path, rest) := span before_query target in
  forallb path_char path &&
  match rest with
  | 63 :: rest => let '(query, rest) := span before_fragment rest in forallb path_char query && valid_fragment rest
  | _ => valid_fragment rest
  end.

Definition userinfo_items : list (Z * Z) :=
  [(97, 122); (65, 90); (48, 57); (45, 45); (46, 46); (95, 95); (126, 126); (37, 37); (33, 33); (36, 36); (38, 38);
   (39, 39); (40, 40); (41, 41); (42, 42); (43, 43); (44, 44); (59, 59); (61, 61)].

(** The end of the pattern of [is_valid]. *)
Definition query_re : re := RSeq (RChr 63) (RStar (RCls false path_items)).
Definition fragment_re : re := RSeq (RChr 35) (RStar (RCls false (path_items ++ [(63, 63)]))).

Definition valid_re : re :=
  RSeq RBol (RSeq (RCls false [(97, 122); (65, 90)]) (RSeq (RStar (RCls false scheme_items))
    (RSeq (RChr 58) (RSeq (RChr 47) (RSeq (RChr 47)
      (RSeq (ROpt (RGroup 1 (RSeq (RGroup 2 (RPlus (RCls false userinfo_items)))
         (RSeq (ROpt (RGroup 3 (RSeq (RChr 58) (RGroup 4 (RPlus (RCls false userinfo_items)))))) (RChr 64)))))
      (RSeq (ROpt (RGroup 5 (RSeq (RStar (RCls false (userinfo_items ++ [(58, 58); (91, 91); (93, 93)])))
         (ROpt (RGroup 6 (RSeq (RChr 58) (RPlus (RCls false [(48, 57)]))))))))
      (RSeq (RPlus (RCls false path_items)) (RSeq (ROpt (RGroup 7 query_re)) (RSeq (ROpt (RGroup 8 fragment_re)) REol)))))))))).

Lemma is_valid_re value : is_valid value = bool_decide (is_Some (regex_match false valid_re value)).
Proof. unfold is_valid. change (pattern _) with valid_re. done. Qed.

(** An optional group of a mark and a repeated class. *)
Lemma optional_mark total n mark items s c s' c' :
  Matches false total (ROpt (RGroup n (RSeq (RChr mark) (RStar (RCls false items))))) s c s' c' ->
  exists q, s = q ++ s' /\ (q = [] \/ exists u, q = mark :: u /\ Forall (fun x => class_match false false items x = true) u).
Proof.
  intros HM. inversion HM as [| | |? ? ? ? ? ? HG|? ? ? ? ? ? HE| | | | |]; subst.
  - inversion HG as [| | | | | | |? ? ? ? ? ? HS| |]; subst. inversion HS as [| |? ? ? ? ? ? ? ? HC HR| | | | | | |]; subst.
    inversion HC as [|? ? ? ? ? Hx| | | | | | | |]; subst. rewrite class_chr in Hx. apply Z.eqb_eq in Hx as ->.
    apply (Matches_only (class_match false false items)) in HR as (u & -> & Hu).
    + exists (mark :: u). split; [done|]. right. eauto.
    + cbn [only negb andb]. apply forallb_forall. intros [lo hi] Hin. apply forallb_forall. intros x' Hx'%list_elem_of_In%elem_of_seqZ.
      unfold class_match, in_items. rewrite orb_false_r. cbn [xorb]. destruct existsb eqn:E; [done|].
      rewrite <- not_true_iff_false in E. destruct E. apply existsb_exists. exists (lo, hi). split; [done|]. lia.
  - inversion HE; subst. exists []. split; [done|]. by left.
Qed.

Lemma valid_parts total s c c' : Matches false total valid_re s c [] c' ->
  exists a q f, s = a ++ q ++ f /\ Forall (fun x => before_query x = true) a /\
    (q = [] \/ exists u, q = 63 :: u /\ Forall (fun x => path_char x = true) u) /\
    (f = [] \/ exists u, f = 35 :: u /\ Forall (fun x => fragment_char x = true) u).
Proof.
  unfold valid_re. intros HM. pose proof (consumes_none before_query s) as Hc.
  repeat (apply (Matches_seq_only before_query) in HM as (? & ? & Hc' & HM); [|reflexivity];
          pose proof (consumes_app _ _ _ _ Hc Hc') as Hc''; clear Hc Hc'; rename Hc'' into Hc).
  destruct Hc as (a & -> & Ha). exists a.
  inversion HM as [| |? ? ? ? ? ? ? ? HQ HF| | | | | | |]; subst. apply optional_mark in HQ as (q & -> & Hq).
  inversion HF as [| |? ? ? ? ? ? ? ? HF' HE| | | | | | |]; subst. apply optional_mark in HF' as (f & -> & Hf).
  inversion HE; subst. exists q, f. rewrite app_nil_r. split_and!; [done|done|done|].
  destruct Hf as [->|(u & -> & Hu)]; [by left|right]. exists u. split; [done|]. eapply Forall_impl; [exact Hu|].
  intros y Hy. unfold fragment_char, path_char, class_match, in_items in *. rewrite orb_false_r in *. cbn [xorb] in *.
  rewrite existsb_app in Hy. cbn [existsb] in Hy. destruct existsb; [done|]. cbn [orb] in *. lia.
Qed.

Lemma Matches_optional total n r s c s' c' :
  Matches false total r s c s' c' ->
  Matches false total (ROpt (RGroup n r)) s c s' ((n, take (length s - length s') s) :: c').
Proof. intros HM. by apply MAltL, MGroup. Qed.

Lemma Matches_absent total r s c : Matches false total (ROpt r) s c s c.
Proof. apply MAltR, MEps. Qed.

Lemma request_uri_matches path q f :
  Forall (fun x => path_char x = true) path ->
  (q = [] \/ exists u, q = 63 :: u /\ Forall (fun x => path_char x = true) u) ->
  (f = [] \/ exists u, f = 35 :: u /\ Forall (fun x => fragment_char x = true) u) ->
  exists c', Matches false (length (request_uri (path ++ q ++ f))) valid_re (request_uri (path ++ q ++ f)) [] [] c'.
Proof.
  intros Hp Hq Hf. set (total := length _). unfold request_uri.
  change (str "http://localhost" ++ path ++ q ++ f) with
    (104 :: [116; 116; 112] ++ 58 :: 47 :: 47 :: 108 :: (str "ocalhost" ++ path ++ q ++ f)).
  assert (Hend : exists c', Matches false total (RSeq (ROpt (RGroup 7 query_re)) (RSeq (ROpt (RGroup 8 fragment_re)) REol)) (q ++ f) [] [] c').
  { assert (exists c', Matches false total (ROpt (RGroup 7 query_re)) (q ++ f) [] f c') as [c1 H1].
    { destruct Hq as [->|(u & -> & Hu)]; [eexists; apply Matches_absent|]. eexists. apply Matches_optional.
      eapply MSeq; [apply Matches_chr | by apply Matches_star_cls]. }
    assert (exists c', Matches false total (ROpt (RGroup 8 fragment_re)) f c1 [] c') as [c2 H2].
    { destruct Hf as [->|(u & -> & Hu)]; [eexists; apply Matches_absent|]. eexists. apply Matches_optional.
      eapply MSeq; [apply Matches_chr|]. rewrite <- (app_nil_r u) at 1. apply Matches_star_cls.
      eapply Forall_impl; [exact Hu|]. intros x. unfold fragment_char, path_char, class_match, in_items.
      rewrite !orb_false_r, existsb_app. cbn [existsb xorb]. destruct (existsb _ path_items); cbn; lia. }
    eexists. eapply MSeq; [done|]. eapply MSeq; [done|]. constructor. }
  destruct Hend as [c' Hend]. exists c'. unfold valid_re.
  eapply MSeq; [by constructor|]. eapply MSeq; [by constructor|]. eapply MSeq; [by apply Matches_star_cls; repeat constructor|].
  do 3 (eapply MSeq; [apply Matches_chr|]). do 2 (eapply MSeq; [apply Matches_absent|]).
  eapply MSeq; [|exact Hend]. eapply MSeq; [by constructor|]. rewrite app_assoc. apply Matches_star_cls.
  apply Forall_app. split; [|done]. by repeat constructor.
Qed.

Lemma path_char_before c : path_char c = true -> before_query c = true /\ before_fragment c = true.
Proof.
  unfold path_char, before_query, before_fragment, class_match, in_items. rewrite !orb_false_r. cbn [xorb]. intros Hc.
  assert (c <> 63 /\ c <> 35) as [] by (split; intros ->; discriminate Hc). cbn [existsb].
  assert ((63 <=? c) && (c <=? 63) = false /\ (35 <=? c) && (c <=? 35) = false) as [-> ->] by lia. done.
Qed.

Lemma path_chars_before l : Forall (fun c => path_char c = true) l ->
  Forall (fun c => before_query c = true) l /\ Forall (fun c => before_fragment c = true) l.
Proof. intros Hl. split; (eapply Forall_impl; [exact Hl|]); intros c Hc; by apply path_char_before. Qed.

Lemma target_char_path c : target_char c = true -> before_query c = true -> path_char c = true.
Proof.
  unfold target_char. intros [[Hc|Hc]%orb_true_iff|Hc]%orb_true_iff Hb; [done| |]; apply Z.eqb_eq in Hc as ->; discriminate Hb.
Qed.

Lemma valid_fragment_spec f : valid_fragment f = true <->
  f = [] \/ exists u, f = 35 :: u /\ Forall (fun x => fragment_char x = true) u.
Proof.
  destruct f as [|c u]; cbn [valid_fragment]; [by split; [left|]|]. rewrite andb_true_iff, forallb_forall, Z.eqb_eq. split.
  - intros [-> Hu]. right. exists u. split; [done|]. by apply List.Forall_forall.
  - intros [|(v & [= -> ->] & Hv)]; [done|]. split; [done|]. by apply List.Forall_forall.
Qed.

Lemma forallb_Forall (p : Z -> bool) l : forallb p l = true <-> Forall (fun c => p c = true) l.
Proof. by rewrite forallb_forall, List.Forall_forall. Qed.

Lemma valid_target_spec target : Forall (fun c => target_char c = true) target ->
  valid_target target = true <->
  exists path q f, target = path ++ q ++ f /\ Forall (fun x => path_char x = true) path /\
    (q = [] \/ exists u, q = 63 :: u /\ Forall (fun x => path_char x = true) u) /\
    (f = [] \/ exists u, f = 35 :: u /\ Forall (fun x => fragment_char x = true) u).
Proof.
  intros Ht. unfold valid_target. split.
  - destruct (span_spec before_query target) as (Htarget & Hp & Hstop). destruct span as [path rest]. cbn [fst snd] in *.
    intros [Hpath%forallb_Forall Hrest]%andb_true_iff.
    destruct rest as [|c rest]; [exists path, [], []; split_and!; try done; by left|].
    destruct (Z.eqb_spec c 63) as [->|Hc].
    + destruct (span_spec before_fragment rest) as (Hq & _). destruct span as [query f]. cbn [fst snd] in *.
      apply andb_true_iff in Hrest as [Hquery%forallb_Forall Hf%valid_fragment_spec].
      exists path, (63 :: query), f. split_and!; [by subst|done|right; eauto|done].
    + assert (Hf : valid_fragment (c :: rest) = true) by (by repeat case_match).
      exists path, [], (c :: rest). split_and!; [done|done|by left|by apply valid_fragment_spec].
  - intros (path & q & f & -> & Hp & Hq & Hf).
    assert (Hstop : stops before_query (q ++ f)) by (destruct Hq as [->|(u & -> & _)], Hf as [->|(v & -> & _)]; done).
    rewrite span_app; [|by eapply path_chars_before|done].
    apply andb_true_iff. split; [by apply forallb_Forall|]. destruct Hq as [->|(u & -> & Hu)]; cbn [app].
    + apply valid_fragment_spec in Hf. destruct f as [|c f]; [done|]. by apply andb_true_iff in Hf as H; destruct H as [->%Z.eqb_eq _].
    + rewrite span_app; [|by eapply path_chars_before|].
      * apply andb_true_iff. split; [by apply forallb_Forall | by apply valid_fragment_spec].
      * by destruct Hf as [->|(v & -> & _)].
Qed.

(** The targets a request line lets through are judged by their marks. *)
Lemma is_valid_request target : Forall (fun c => target_char c = true) target ->
  is_valid (request_uri target) = valid_target target.
Proof.
  intros Ht. rewrite is_valid_re. apply eq_true_iff_eq. rewrite bool_decide_eq_true, regex_match_spec, valid_target_spec by done. split.
  - intros [c (a & q & f & Heq & Ha & Hq & Hf)%valid_parts].
    assert (Hstop : stops before_query (q ++ f)) by (destruct Hq as [->|(u & -> & _)], Hf as [->|(v & -> & _)]; done).
    pose proof (span_app _ _ _ Ha Hstop) as Hspan. rewrite <- Heq in Hspan. unfold request_uri in Hspan.
    rewrite span_literal in Hspan by done. destruct (span_spec before_query target) as (Htarget & Hp & _).
    destruct (span before_query target) as [path rest]. cbn [fst snd] in *. apply (f_equal snd) in Hspan. cbn in Hspan. subst rest.
    exists path, q, f. split_and!; [done| |done|done]. subst target. apply Forall_app in Ht as [Ht _].
    rewrite Forall_forall in *. eauto using target_char_path.
  - intros (path & q & f & -> & Hp & Hq & Hf). by apply request_uri_matches.
Qed.

(** ** The query of encoded parameters *)
Fixpoint intercalate (d : Z) (pieces : list (list Z)) : list Z :=
  match pieces with
  | [] => []
  | [piece] => piece
  | piece :: pieces => piece ++ d :: intercalate d pieces
  end.

Definition encoded_parameter (p : list Z * list Z) : list Z := encode_parameter p.1 ++ 61 :: encode_parameter p.2.

Definition query_text (parameters : list (list Z * list Z)) : list Z :=
  intercalate 38 (encoded_parameter <$> parameters).

Definition byte_pair (p : list Z * list Z) : Prop := Forall is_byte p.1 /\ Forall is_byte p.2.

Definition plain_char (c : Z) : bool := path_char c && negb (c =? 38) && negb (c =? 61) && negb (c =? 43).

Lemma encode_plain value : Forall is_byte value -> Forall (fun c => plain_char c = true) (encode value).
Proof.
  induction 1 as [|c value Hc _ IH]; [constructor|]. unfold encode in *. cbn [mbind list_bind]. apply Forall_app. split; [|done].
  apply forallb_Forall. by apply (forallb_seqZ (fun c => forallb plain_char (encode_byte c)) 0 256).
Qed.

Lemma plain_not c d l : Forall (fun c => plain_char c = true) l -> plain_char d = false -> d = c -> ~ In c l.
Proof. intros Hl Hd -> Hin. rewrite List.Forall_forall in Hl. by rewrite Hl in Hd. Qed.

Lemma query_parameter_encoded p : byte_pair p -> query_parameter (encoded_parameter p) = Ret p.
Proof.
  intros [Hn Hv]. unfold query_parameter, encoded_parameter. rewrite span_app; [|eapply Forall_impl; [by apply encode_plain|]|done].
  - rewrite !decode_encode_parameter by done. by destruct p.
  - intros c Hc. unfold plain_char in Hc. lia.
Qed.

Lemma split_intercalate d pieces : Forall (fun p => p <> [] /\ ~ In d p) pieces -> split (intercalate d pieces) d = pieces.
Proof.
  induction 1 as [|p pieces [Hp Hd] Hl IH]; [done|]. assert (token p = [p]) as Ht by by destruct p.
  destruct pieces as [|q l]; [cbn [intercalate]; by rewrite split_last|].
  change (intercalate d (p :: q :: l)) with (p ++ d :: intercalate d (q :: l)). by rewrite split_cons, IH, Ht.
Qed.

Lemma encoded_parameter_chars p : byte_pair p ->
  Forall (fun c => path_char c = true) (encoded_parameter p) /\ ~ In 38 (encoded_parameter p) /\ encoded_parameter p <> [].
Proof.
  intros [Hn%encode_plain Hv%encode_plain]. unfold encoded_parameter, encode_parameter.
  assert (Hpath : forall l, Forall (fun c => plain_char c = true) l -> Forall (fun c => path_char c = true) l).
  { intros l Hl. eapply Forall_impl; [exact Hl|]. intros c Hc. unfold plain_char in Hc. by destruct (path_char c). }
  split_and!.
  - apply Forall_app. split; [by apply Hpath|]. constructor; [done|]. by apply Hpath.
  - rewrite in_app_iff. cbn [In]. intros [H|[H|H]]; [|done|]; by apply (plain_not 38 38) in H.
  - by destruct (encode p.1).
Qed.

Lemma insert_parameters_encoded ps m : Forall byte_pair ps ->
  insert_parameters (encoded_parameter <$> ps) m = Ret (mm_insert_range ps m).
Proof.
  intros Hps. revert m. induction Hps as [|[n v] ps Hp _ IH]; intros m; [done|]. rewrite fmap_cons. cbn [insert_parameters].
  rewrite query_parameter_encoded by done. cbn [bind]. by rewrite IH.
Qed.

Lemma query_text_chars ps : Forall byte_pair ps -> Forall (fun c => path_char c = true) (query_text ps).
Proof.
  unfold query_text. induction 1 as [|p ps Hp Hps IH]; [constructor|]. rewrite fmap_cons.
  destruct (encoded_parameter_chars p Hp) as (Hc & _). destruct (encoded_parameter <$> ps) eqn:E; [done|].
  change (intercalate 38 (encoded_parameter p :: _)) with (encoded_parameter p ++ 38 :: intercalate 38 (l :: l0)).
  apply Forall_app. split; [done|]. by constructor.
Qed.

Lemma split_query_text ps : Forall byte_pair ps -> split (query_text ps) 38 = encoded_parameter <$> ps.
Proof.
  intros Hps. apply split_intercalate, Forall_fmap. eapply Forall_impl; [exact Hps|].
  intros p Hp. cbn. destruct (encoded_parameter_chars p Hp) as (_ & ? & ?). done.
Qed.

(** A target made of a path and encoded parameters. *)
Definition request_target (path : list Z) (parameters : list (list Z * list Z)) : list Z :=
  path ++ match parameters with [] => [] | _ => 63 :: query_text parameters end.

Definition good_path (path : list Z) : Prop :=
  Forall (fun c => path_char c = true) path /\ exists rest, path = 47 :: rest.

(** What a target says: its path, not yet decoded, and its parameters. *)
Definition target_says (target path : list Z) (parameters : list (list Z * list Z)) : Prop :=
  Forall (fun c => target_char c = true) target /\ target <> [] /\ is_valid (request_uri target) = true /\
  get_path (mkUri (request_uri target) false) = path /\
  get_query_parameters (mkUri (request_uri target) false) = Ret parameters.

(** A path, and pieces of parameters that are text of a URI. *)
Lemma target_pieces path pieces ps : good_path path ->
  Forall (fun p => Forall (fun c => path_char c = true) p /\ ~ In 38 p /\ p <> []) pieces -> pieces <> [] ->
  insert_parameters pieces [] = Ret ps -> target_says (path ++ 63 :: intercalate 38 pieces) path ps.
Proof.
  intros [Hp [p0 Hp0]] Hpieces Hne Hps.
  assert (Hqc : Forall (fun c => path_char c = true) (intercalate 38 pieces)).
  { clear Hne Hps. induction Hpieces as [|p l (Hc & _ & _) Hl IH]; [constructor|]. destruct l as [|q l]; [done|].
    change (intercalate 38 (p :: q :: l)) with (p ++ 38 :: intercalate 38 (q :: l)). apply Forall_app. split; [done|]. by constructor. }
  assert (Hpt : forall l, Forall (fun c => path_char c = true) l -> Forall (fun c => target_char c = true) l).
  { intros l Hl. eapply Forall_impl; [exact Hl|]. intros c Hc. unfold target_char. by rewrite Hc. }
  set (q := 63 :: intercalate 38 pieces).
  assert (Ht : Forall (fun c => target_char c = true) (path ++ q)).
  { apply Forall_app. split; [by apply Hpt|]. constructor; [done|by apply Hpt]. }
  destruct (path_chars_before path Hp) as [Hpb _]. unfold target_says. split_and!; [done|by subst path| | |].
  - rewrite is_valid_request by done. apply valid_target_spec; [done|]. exists path, q, []. rewrite app_nil_r.
    split_and!; [done..|by right; exists (intercalate 38 pieces)|by left].
  - rewrite get_path_request. subst path. cbn [app span]. change (host_char 47) with false. cbv iota. cbn [snd].
    change (47 :: p0 ++ q) with ((47 :: p0) ++ q). by rewrite span_app.
  - unfold get_query_parameters. rewrite get_query_request, span_app by done. cbn [snd q].
    rewrite <- (app_nil_r (intercalate 38 pieces)), span_app by (done || by apply path_chars_before).
    cbn [fst]. rewrite split_intercalate; [done|]. eapply Forall_impl; [exact Hpieces|]. by intros p (_ & ? & ?).
Qed.

Lemma target_path path : good_path path -> target_says path path [].
Proof.
  intros [Hp [p0 Hp0]]. destruct (path_chars_before path Hp) as [Hpb _].
  assert (Ht : Forall (fun c => target_char c = true) path).
  { eapply Forall_impl; [exact Hp|]. intros c Hc. unfold target_char. by rewrite Hc. }
  unfold target_says. split_and!; [done|by subst path| | |].
  - rewrite is_valid_request by done. apply valid_target_spec; [done|]. exists path, [], []. rewrite !app_nil_r.
    split_and!; [done..|by left|by left].
  - rewrite get_path_request. subst path. cbn [span]. change (host_char 47) with false. cbv iota. cbn [snd].
    rewrite <- (app_nil_r (47 :: p0)) at 1. by rewrite span_app.
  - unfold get_query_parameters. rewrite get_query_request. rewrite <- (app_nil_r path), span_app by done. done.
Qed.

Lemma request_target_uri path parameters : good_path path -> Forall byte_pair parameters ->
  target_says (request_target path parameters) path (mm_insert_range parameters []).
Proof.
  intros Hp Hps. unfold request_target. destruct parameters as [|p ps] eqn:E; [rewrite app_nil_r; by apply target_path|].
  rewrite <- E in *. apply target_pieces; [done| | |by apply insert_parameters_encoded].
  - apply Forall_fmap. eapply Forall_impl; [exact Hps|]. apply encoded_parameter_chars.
  - by subst.
Qed.
