(* ===== verification/HttpRequest.v ===== *)
(** * restbed: requests (request.hpp, request.cpp, the parsing functions of
      detail/service_impl.cpp)

    [RequestImpl] holds the members of a request.  The parsing functions read
    lines from the bytes of the stream buffer; what they throw is an
    [http_exception], told apart by the [catch] clauses of [parse_request]. *)
From S2P Require Import Prelude Decimal Types Doubles Regex Multimap HttpString Uri.
From Stdlib Require Import SpecFloat.

(** ** Exceptions

    [RuntimeError] is [std::runtime_error], [OtherException] any other class
    derived from [std::exception]. *)
Inductive http_exception :=
  | StatusCode (code : Z)
  | RegexError (what : list Z)
  | RuntimeError (what : list Z)
  | OtherException (what : list Z).

(** ** RequestImpl *)
Record RequestImpl := mkRequest {
  m_body : list Z;
  m_port : Z;
  m_version : double;
  m_host : list Z;
  m_path : list Z;
  m_method : list Z;
  m_protocol : list Z;
  m_fragment_uri : option Uri;
  m_headers : list (list Z * list Z);
  m_path_parameters : list (list Z * list Z);
  m_query_parameters : list (list Z * list Z) }.

(** The double nearest to 1.1. *)
Definition version_1_1 : double := S754_finite false 4953959590107546 (-52).

Definition new_Request : RequestImpl :=
  mkRequest [] 80 version_1_1 [] (str "/") (str "GET") (str "HTTP") None [] [] [].

Definition with_body (body : list Z) (r : RequestImpl) : RequestImpl :=
  mkRequest body r.(m_port) r.(m_version) r.(m_host) r.(m_path) r.(m_method) r.(m_protocol) r.(m_fragment_uri)
    r.(m_headers) r.(m_path_parameters) r.(m_query_parameters).

Definition with_path_parameters (ps : list (list Z * list Z)) (r : RequestImpl) : RequestImpl :=
  mkRequest r.(m_body) r.(m_port) r.(m_version) r.(m_host) r.(m_path) r.(m_method) r.(m_protocol) r.(m_fragment_uri)
    r.(m_headers) ps r.(m_query_parameters).

(** *** Getters *)
Definition first_parameter (name default_value : list Z) (parameters : list (list Z * list Z)) : list Z :=
  match name with
  | [] => default_value
  | _ => match get_parameters name parameters with (_, value) :: _ => value | [] => default_value end
  end.

Definition has_header (r : RequestImpl) (name : list Z) : bool := has_parameter name r.(m_headers).
Definition has_query_parameter (r : RequestImpl) (name : list Z) : bool := has_parameter name r.(m_query_parameters).
Definition get_header (r : RequestImpl) (name default_value : list Z) : list Z :=
  first_parameter name default_value r.(m_headers).
Definition get_query_parameter (r : RequestImpl) (name default_value : list Z) : list Z :=
  first_parameter name default_value r.(m_query_parameters).
Definition get_path_parameter (r : RequestImpl) (name default_value : list Z) : list Z :=
  first_parameter name default_value r.(m_path_parameters).

(** The template with an arithmetic default, at [int]. *)
Definition get_header_int (r : RequestImpl) (name : list Z) (default_value : Z) : Z :=
  parse_parameter (get_header r name []) default_value.

(** *** Setters *)
Definition add_header (name value : list Z) (r : RequestImpl) : RequestImpl :=
  mkRequest r.(m_body) r.(m_port) r.(m_version) r.(m_host) r.(m_path) r.(m_method) r.(m_protocol) r.(m_fragment_uri)
    (mm_insert name value r.(m_headers)) r.(m_path_parameters) r.(m_query_parameters).

Definition set_header (name value : list Z) (r : RequestImpl) : RequestImpl :=
  mkRequest r.(m_body) r.(m_port) r.(m_version) r.(m_host) r.(m_path) r.(m_method) r.(m_protocol) r.(m_fragment_uri)
    (mm_insert name value (mm_erase name r.(m_headers))) r.(m_path_parameters) r.(m_query_parameters).

Definition set_query_parameter (name value : list Z) (r : RequestImpl) : RequestImpl :=
  mkRequest r.(m_body) r.(m_port) r.(m_version) r.(m_host) r.(m_path) r.(m_method) r.(m_protocol) r.(m_fragment_uri)
    r.(m_headers) r.(m_path_parameters) (mm_insert name value r.(m_query_parameters)).

(** ** Reading a request *)

(** [getline]: the line without its newline and the rest of the stream, or
    [None] when nothing is left. *)
Definition getline (stream : list Z) : option (list Z * list Z) :=
  match stream with
  | [] => None
  | _ =>
      let '(line, rest) := span (fun c => negb (c =? 10)) stream in
      Some (line, match rest with _ :: rest => rest | [] => [] end)
  end.

Definition CR : list Z := [13].
Definition CRLF : list Z := [13; 10].

(** One round less than the stream has characters: each line takes one. *)
Fixpoint discard_lines (fuel : nat) (stream : list Z) : list Z :=
  match fuel with
  | O => stream
  | S fuel =>
      match getline stream with
      | None => stream
      | Some (line, rest) => if bytes_eqb line CR then rest else discard_lines fuel rest
      end
  end.

Definition discard_request (stream : list Z) : list Z := discard_lines (length stream) stream.

(** The four entries of the map [parse_request_line] returns. *)
Record RequestLine := mkRequestLine { l_path : list Z; l_method : list Z; l_version : list Z; l_protocol : list Z }.

Definition malformed_line : list Z :=
  str "Your client has issued a malformed or illegal request status line. That’s all we know.".
Definition malformed_header : list Z :=
  str "Your client has issued a malformed or illegal request header. That’s all we know.".

(** [protocol] is never without the delimiter here. *)
Definition parse_request_line (stream : list Z) : (http_exception + RequestLine) * list Z :=
  let '(data, stream) := default ([], []) (getline stream) in
  match regex_match false (pattern "^([0-9a-zA-Z]*) ([a-zA-Z0-9:@_~!,;=#%&'\-\.\/\?\$\(\)\*\+]+) (HTTP\/[0-9]\.[0-9])\s*$") data with
  | None => (inl (RuntimeError malformed_line), stream)
  | Some matches =>
      let '(protocol, rest) := span (fun c => negb (c =? 47)) (group 3 matches) in
      let version := match rest with _ :: version => version | [] => [] end in
      (inr (mkRequestLine (group 2 matches) (group 1 matches) version protocol), stream)
  end.

Fixpoint parse_headers (fuel : nat) (stream : list Z) (headers : list (list Z * list Z))
  : (http_exception + list (list Z * list Z)) * list Z :=
  match fuel with
  | O => (inr headers, stream)
  | S fuel =>
      match getline stream with
      | None => (inr headers, stream)
      | Some (data, rest) =>
          if bytes_eqb data CR then (inr headers, rest)
          else
            match regex_match false (pattern "^([^:.]*): *(.*)\s*$") data with
            | None => (inl (RuntimeError malformed_header), rest)
            | Some matches => parse_headers fuel rest (mm_insert (group 1 matches) (group 2 matches) headers)
            end
      end
  end.

Definition parse_request_headers (stream : list Z) : (http_exception + list (list Z * list Z)) * list Z :=
  parse_headers (length stream) stream [].

(** The [try] block of [parse_request] up to [authenticate]: the request it
    fills in, or the exception it leaves with, and the rest of the stream.
    Members filled in before an exception are dropped: nothing reads them
    before the session is closed. *)
Definition read_request (stream : list Z) (r : RequestImpl) : outcome ((http_exception + RequestImpl) * list Z) :=
  let '(items, stream) := parse_request_line stream in
  match items with
  | inl e => Ret (inl e, stream)
  | inr items =>
      match parse (request_uri items.(l_path)) with
      | inl what => Ret (inl (OtherException what), stream)
      | inr uri =>
          let path := decode (get_path uri) in
          let '(headers, stream) := parse_request_headers stream in
          match headers with
          | inl e => Ret (inl e, stream)
          | inr headers =>
              let* query_parameters := get_query_parameters uri in
              let* version := stod items.(l_version) in
              Ret (inr (mkRequest [] r.(m_port) version r.(m_host) path items.(l_method) r.(m_protocol) r.(m_fragment_uri)
                          headers r.(m_path_parameters) query_parameters), stream)
          end
      end
  end.

(** ** Lines *)
Lemma getline_line line rest : Forall (fun c => c <> 10) line -> getline (line ++ 10 :: rest) = Some (line, rest).
Proof.
  intros Hl. unfold getline. destruct (line ++ 10 :: rest) eqn:E; [by destruct line|]. rewrite <- E.
  rewrite span_app; [done| |done]. eapply Forall_impl; [exact Hl|]. intros c Hc. cbn in *. lia.
Qed.

Lemma getline_shorter stream line rest : getline stream = Some (line, rest) -> (length rest < length stream)%nat.
Proof.
  unfold getline. destruct stream as [|c stream]; [done|]. destruct (span_spec (fun c => negb (c =? 10)) (c :: stream)) as (Heq & _ & _).
  destruct span as [a b]. cbn [fst snd] in Heq. intros [= <- <-]. rewrite Heq, length_app. destruct b; cbn [length]; [|lia].
  rewrite app_nil_r in Heq. rewrite <- Heq. cbn. lia.
Qed.

(** ** The request line *)
Definition line_items : list (Z * Z) :=
  [(97, 122); (65, 90); (48, 57); (58, 58); (64, 64); (95, 95); (126, 126); (33, 33); (44, 44); (59, 59); (61, 61);
   (35, 35); (37, 37); (38, 38); (39, 39); (45, 45); (46, 46); (47, 47); (63, 63); (36, 36); (40, 40); (41, 41);
   (42, 42); (43, 43)].

Definition protocol_re : re :=
  RSeq (RChr 72) (RSeq (RChr 84) (RSeq (RChr 84) (RSeq (RChr 80) (RSeq (RChr 47)
    (RSeq (RCls false [(48, 57)]) (RSeq (RChr 46) (RCls false [(48, 57)]))))))).

Definition request_line_re : re :=
  RSeq RBol (RSeq (RGroup 1 (RStar (RCls false [(48, 57); (97, 122); (65, 90)]))) (RSeq (RChr 32)
    (RSeq (RGroup 2 (RPlus (RCls false line_items))) (RSeq (RChr 32)
    (RSeq (RGroup 3 protocol_re) (RSeq (RStar (RCls false space_items)) REol)))))).

Definition alnum_char : Z -> bool := class_match false false [(48, 57); (97, 122); (65, 90)].
Definition line_char : Z -> bool := class_match false false line_items.
Definition space_char : Z -> bool := class_match false false space_items.

Lemma line_char_target c : line_char c = target_char c.
Proof.
  unfold line_char, target_char, path_char, class_match, in_items. rewrite !orb_false_r. cbn [xorb].
  unfold line_items, path_items. cbn [existsb]. lia.
Qed.

(** [HTTP/x.y] and what follows it. *)
Definition protocol_version (s : list Z) : option (Z * Z * list Z) :=
  match s with
  | 72 :: 84 :: 84 :: 80 :: 47 :: x :: 46 :: y :: s => if isdigit x && isdigit y then Some (x, y, s) else None
  | _ => None
  end.

(** What the pattern of the request line accepts: the method and the target
    are as long as their classes go. *)
Definition line_match (data : list Z) : option (list Z * list Z * list Z) :=
  let '(method, rest) := span alnum_char data in
  match rest with
  | 32 :: rest =>
      let '(target, rest) := span target_char rest in
      match target, rest with
      | _ :: _, 32 :: rest =>
          match protocol_version rest with
          | Some (x, y, rest) => if forallb isspace rest then Some (method, target, [x; 46; y]) else None
          | None => None
          end
      | _, _ => None
      end
  | _ => None
  end.

Lemma span_ext p q s : (forall c, p c = q c) -> span p s = span q s.
Proof. intros Hpq. induction s as [|c s IH]; [done|]. cbn. by rewrite Hpq, IH. Qed.

Lemma span_forallb p s : match (span p s).2 with [] => true | _ => false end = forallb p s.
Proof. induction s as [|c s IH]; [done|]. cbn. destruct (p c); [|done]. by destruct span. Qed.

Lemma space_char_isspace c : space_char c = isspace c.
Proof. unfold space_char, class_match, in_items, space_items, isspace. rewrite orb_false_r. cbn. lia. Qed.

(** One literal character of a pattern. *)
Ltac literal_step :=
  rewrite run_seq, run_chr; match goal with |- match ?s with _ => _ end = _ => destruct s as [|? s]; [done|] end;
  match goal with |- (if ?x =? ?d then _ else _) = _ => destruct (Z.eqb_spec x d) as [->|]; [|by repeat case_match] end.

Lemma run_protocol {A} total s c (k : continuation A) :
  run false total protocol_re s c k =
  match protocol_version s with Some (_, _, s) => k s c | None => None end.
Proof.
  unfold protocol_re, protocol_version.
  assert (Hd : forall x, class_match false false [(48, 57)] x = isdigit x).
  { intros x. unfold class_match, in_items, isdigit. cbn. by rewrite !orb_false_r. }
  do 5 literal_step. rewrite run_seq, run_cls. destruct s as [|x s]; [done|]. rewrite Hd.
  destruct (isdigit x); [|by repeat case_match]. literal_step. rewrite run_cls. destruct s as [|y s]; [done|]. rewrite Hd. by destruct (isdigit y).
Qed.

Lemma protocol_version_text s x y rest : protocol_version s = Some (x, y, rest) ->
  s = str "HTTP/" ++ [x; 46; y] ++ rest /\ isdigit x = true /\ isdigit y = true.
Proof. unfold protocol_version. intros H. repeat case_match; try discriminate H. injection H as -> -> ->. split; [done|]. by apply andb_true_iff. Qed.

Lemma run_spaces_end {A} total s c (k : continuation A) :
  run false total (RSeq (RStar (RCls false space_items)) REol) s c k = if forallb isspace s then k [] c else None.
Proof.
  rewrite run_seq, run_star_det by done. fold space_char. rewrite (span_ext _ _ s space_char_isspace), <- span_forallb.
  rewrite run_eol. by destruct (span isspace s).2.
Qed.

Lemma request_line_match data :
  match regex_match false request_line_re data, line_match data with
  | Some c, Some (method, target, version) =>
      group 1 c = method /\ group 2 c = target /\ group 3 c = str "HTTP/" ++ version
  | None, None => True
  | _, _ => False
  end.
Proof.
  unfold regex_match, request_line_re, line_match. rewrite run_seq, run_bol, run_seq, run_group by done.
  rewrite run_star_det; fold alnum_char.
  2: { intros x v Hx. rewrite run_seq, run_chr. destruct (Z.eqb_spec x 32) as [->|]; [discriminate Hx|done]. }
  rewrite take_matched. destruct (span alnum_char data) as [method rest]. cbn [fst snd]. rewrite run_seq, run_chr.
  destruct rest as [|x rest]; [done|]. destruct (Z.eqb_spec x 32) as [->|]; [|by repeat case_match].
  rewrite run_seq, run_group, run_plus_det; fold line_char.
  2: { intros x v Hx. rewrite run_seq, run_chr. destruct (Z.eqb_spec x 32) as [->|]; [discriminate Hx|done]. }
  pose proof (take_matched line_char rest) as Htake. rewrite (span_ext _ _ rest line_char_target) in *.
  destruct (span target_char rest) as [target rest']. cbn [fst snd] in Htake. destruct target as [|t target]; [done|].
  rewrite Htake, run_seq, run_chr. destruct rest' as [|x rest']; [done|].
  destruct (Z.eqb_spec x 32) as [->|]; [|by repeat case_match]. rewrite run_seq, run_group, run_protocol.
  destruct (protocol_version rest') as [[[v1 v2] tail]|] eqn:E; [|done].
  rewrite run_spaces_end. destruct (forallb isspace tail); [|done].
  apply protocol_version_text in E as (-> & _). split_and!; [done..|]. cbn [group Nat.eqb].
  change (str "HTTP/" ++ [v1; 46; v2] ++ tail) with ((str "HTTP/" ++ [v1; 46; v2]) ++ tail). apply take_before.
Qed.

Lemma parse_request_line_spec stream :
  let '(data, rest) := default ([], []) (getline stream) in
  parse_request_line stream =
  match line_match data with
  | None => (inl (RuntimeError malformed_line), rest)
  | Some (method, target, version) => (inr (mkRequestLine target method version (str "HTTP")), rest)
  end.
Proof.
  unfold parse_request_line. destruct (default ([], []) (getline stream)) as [data rest].
  change (pattern _) with request_line_re. pose proof (request_line_match data) as Hm.
  destruct (regex_match false request_line_re data) as [c|], (line_match data) as [[[method target] version]|]; try done.
  destruct Hm as (<- & <- & ->). done.
Qed.

(** A line of the usual form. *)
Lemma line_match_text method target x y :
  Forall (fun c => alnum_char c = true) method -> Forall (fun c => target_char c = true) target -> target <> [] ->
  isdigit x = true -> isdigit y = true ->
  line_match (method ++ 32 :: target ++ str " HTTP/" ++ [x; 46; y] ++ CR) = Some (method, target, [x; 46; y]).
Proof.
  intros Hm Ht Hne Hx Hy. unfold line_match. rewrite span_app by done. rewrite span_app by done.
  change (str " HTTP/" ++ [x; 46; y] ++ CR) with (32 :: 72 :: 84 :: 84 :: 80 :: 47 :: x :: 46 :: y :: CR).
  destruct target; [done|]. cbn [protocol_version]. rewrite Hx, Hy. done.
Qed.

(** What a line that is accepted is made of. *)
Lemma line_match_inv data method target version : line_match data = Some (method, target, version) ->
  Forall (fun c => alnum_char c = true) method /\ Forall (fun c => target_char c = true) target /\ target <> [] /\
  exists x y, version = [x; 46; y] /\ isdigit x = true /\ isdigit y = true.
Proof.
  unfold line_match. destruct (span_spec alnum_char data) as (_ & Hm & _). destruct span as [m rest]. cbn [fst snd] in *.
  destruct rest as [|c rest]; [done|]. destruct (decide (c = 32)) as [->|]; [|by repeat case_match].
  destruct (span_spec target_char rest) as (_ & Ht & _). destruct (span target_char rest) as [t rest']. cbn [fst snd] in *.
  destruct t as [|t0 t]; [done|]. destruct rest' as [|c rest']; [done|].
  destruct (decide (c = 32)) as [->|]; [|by repeat case_match].
  destruct (protocol_version rest') as [[[x y] tail]|] eqn:E; [|done]. destruct (forallb isspace tail); [|done].
  apply protocol_version_text in E as (_ & Hx & Hy). intros [= <- <- <-]. split_and!; [done..|]. eauto.
Qed.

(** ** Header lines *)
Definition header_re : re :=
  RSeq RBol (RSeq (RGroup 1 (RStar (RCls true [(58, 58); (46, 46)]))) (RSeq (RChr 58) (RSeq (RStar (RCls false [(32, 32)]))
    (RSeq (RGroup 2 (RStar (RCls true [(10, 10); (13, 13)]))) (RSeq (RStar (RCls false space_items)) REol))))).

Definition name_char : Z -> bool := class_match false true [(58, 58); (46, 46)].
Definition value_char : Z -> bool := class_match false true [(10, 10); (13, 13)].

(** A header as its sender means it. *)
Definition good_header (h : list Z * list Z) : Prop :=
  Forall (fun c => name_char c = true /\ c <> 10) h.1 /\ Forall (fun c => value_char c = true) h.2 /\
  stops (fun c => c =? 32) h.2.

Definition header_text (h : list Z * list Z) : list Z := h.1 ++ str ": " ++ h.2.

Lemma header_match name value : good_header (name, value) ->
  regex_match false (pattern "^([^:.]*): *(.*)\s*$") (header_text (name, value) ++ CR) = Some [(2%nat, value); (1%nat, name)].
Proof.
  intros (Hn & Hv & Hs). cbn [fst snd] in *. change (pattern _) with header_re. unfold header_text, header_re, regex_match.
  cbn [fst snd]. rewrite <- !app_assoc. change (str ": " ++ value ++ CR) with (58 :: 32 :: value ++ CR).
  rewrite run_seq, run_bol, run_seq, run_group by done. apply run_star_first. fold name_char.
  rewrite span_app; [|by eapply Forall_impl; [exact Hn|]; intros c []|done]. cbn [snd]. rewrite take_before.
  rewrite run_seq, run_chr, Z.eqb_refl, run_seq. apply run_star_first. cbn [span].
  change (class_match false false [(32, 32)] 32) with true. cbv iota.
  assert (Hsp : stops (class_match false false [(32, 32)]) (value ++ CR)).
  { destruct value as [|c v]; [done|]. cbn [app stops] in *. by rewrite class_chr. }
  pose proof (span_app _ [] _ ltac:(constructor) Hsp) as E. cbn [app] in E. rewrite E. cbn [snd].
  rewrite run_seq, run_group. apply run_star_first. fold value_char. rewrite span_app by done. cbn [snd].
  rewrite take_before, run_spaces_end. done.
Qed.

Definition header_block (headers : list (list Z * list Z)) : list Z :=
  concat ((fun h => header_text h ++ CRLF) <$> headers) ++ CRLF.

Lemma good_header_line name value : good_header (name, value) ->
  Forall (fun c => c <> 10) (header_text (name, value) ++ CR) /\ header_text (name, value) ++ CR <> CR.
Proof.
  intros (Hn & Hv & _). unfold header_text. cbn [fst snd] in *. split.
  - rewrite !Forall_app. repeat split; [|by repeat constructor| |by repeat constructor].
    + eapply Forall_impl; [exact Hn|]. by intros c [].
    + eapply Forall_impl; [exact Hv|]. intros c Hc ->. discriminate Hc.
  - destruct name as [|n name]; [done|]. cbn [app]. intros [= -> E]. by destruct name.
Qed.

Lemma parse_headers_block headers m fuel rest :
  Forall good_header headers -> (length headers < fuel)%nat ->
  parse_headers fuel (header_block headers ++ rest) m = (inr (mm_insert_range headers m), rest).
Proof.
  intros Hh. revert m fuel. induction Hh as [|[name value] headers Hgood _ IH]; intros m fuel Hf;
    (destruct fuel as [|fuel]; [lia|]); cbn [parse_headers].
  - change (header_block [] ++ rest) with (CR ++ 10 :: rest). by rewrite getline_line by by repeat constructor.
  - assert (header_block ((name, value) :: headers) ++ rest = (header_text (name, value) ++ CR) ++ 10 :: header_block headers ++ rest) as ->.
    { unfold header_block. rewrite fmap_cons. cbn [concat]. change CRLF with (CR ++ [10]). by rewrite <- !app_assoc. }
    destruct (good_header_line _ _ Hgood) as [Hlf Hcr]. rewrite getline_line by done.
    unfold bytes_eqb. rewrite bool_decide_false by done. rewrite header_match by done. cbn [group Nat.eqb].
    cbn [length] in Hf. apply IH. lia.
Qed.

(** A line that is no header: its name does not end in a colon. *)
Definition bad_header (line : list Z) : Prop :=
  Forall (fun c => c <> 10) line /\ line <> CR /\ stops (fun c => c =? 58) (span name_char line).2.

Lemma header_no_match line : bad_header line -> regex_match false (pattern "^([^:.]*): *(.*)\s*$") line = None.
Proof.
  intros (_ & _ & Hs). change (pattern _) with header_re. unfold regex_match, header_re.
  rewrite run_seq, run_bol, run_seq, run_group by done. rewrite run_star_det; fold name_char.
  - destruct (span name_char line).2 as [|c rest]; [done|]. cbn [stops] in Hs. by rewrite run_seq, run_chr, Hs.
  - intros c v Hc. rewrite run_seq, run_chr. destruct (Z.eqb_spec c 58) as [->|]; [discriminate Hc|done].
Qed.

Definition header_lines (headers : list (list Z * list Z)) : list Z := concat ((fun h => header_text h ++ CRLF) <$> headers).

(** Good headers, then a line that is none. *)
Lemma parse_headers_bad headers line m fuel rest :
  Forall good_header headers -> bad_header line -> (length headers < fuel)%nat ->
  exists rest', parse_headers fuel (header_lines headers ++ line ++ 10 :: rest) m = (inl (RuntimeError malformed_header), rest').
Proof.
  intros Hh Hbad. revert m fuel. induction Hh as [|[name value] headers Hgood _ IH]; intros m fuel Hf;
    (destruct fuel as [|fuel]; [cbn in Hf; lia|]); cbn [parse_headers].
  - destruct Hbad as (Hlf & Hcr & Hs). change (header_lines [] ++ ?l) with l. rewrite getline_line by done. unfold bytes_eqb.
    rewrite bool_decide_false by done. rewrite header_no_match by done. by eexists.
  - assert (header_lines ((name, value) :: headers) ++ line ++ 10 :: rest =
      (header_text (name, value) ++ CR) ++ 10 :: header_lines headers ++ line ++ 10 :: rest) as ->.
    { unfold header_lines. rewrite fmap_cons. cbn [concat]. change CRLF with (CR ++ [10]). by rewrite <- !app_assoc. }
    destruct (good_header_line _ _ Hgood) as [Hlf Hcr]. rewrite getline_line by done.
    unfold bytes_eqb. rewrite bool_decide_false by done. rewrite header_match by done. cbn [length] in Hf. apply IH. lia.
Qed.

Lemma header_lines_length headers : (length headers <= length (header_lines headers))%nat.
Proof.
  unfold header_lines. induction headers as [|h headers IH]; [done|]. rewrite fmap_cons. cbn [concat length].
  rewrite !length_app. cbn [length CRLF]. lia.
Qed.

(** ** Whole requests *)
Definition request_text (method target : list Z) (headers : list (list Z * list Z)) : list Z :=
  method ++ 32 :: target ++ str " HTTP/1.1" ++ CRLF ++ header_block headers.

Lemma parse_request_headers_block headers rest : Forall good_header headers ->
  parse_request_headers (header_block headers ++ rest) = (inr (mm_insert_range headers []), rest).
Proof.
  intros Hh. apply parse_headers_block; [done|]. unfold header_block. fold (header_lines headers). rewrite !length_app.
  pose proof (header_lines_length headers). cbn. lia.
Qed.

Lemma target_no_lf l : Forall (fun c => target_char c = true) l -> Forall (fun c => c <> 10) l.
Proof. intros Hl. eapply Forall_impl; [exact Hl|]. intros c Hc ->. discriminate Hc. Qed.

Lemma request_line_getline method target rest :
  Forall (fun c => alnum_char c = true) method -> Forall (fun c => target_char c = true) target ->
  getline (method ++ 32 :: target ++ str " HTTP/1.1" ++ CRLF ++ rest) =
  Some (method ++ 32 :: target ++ str " HTTP/" ++ [49; 46; 49] ++ CR, rest).
Proof.
  intros Hm Ht. rewrite <- (getline_line (method ++ 32 :: target ++ str " HTTP/" ++ [49; 46; 49] ++ CR)).
  - f_equal. rewrite <- !app_assoc. cbn [app]. rewrite <- !app_assoc. done.
  - rewrite Forall_app, Forall_cons, Forall_app. split_and!; [|done|by apply target_no_lf|by repeat constructor].
    eapply Forall_impl; [exact Hm|]. intros c Hc ->. discriminate Hc.
Qed.

(** The request a sender meant is read back. *)
Lemma read_request_target method target path parameters headers rest r :
  Forall (fun c => alnum_char c = true) method -> target_says target path parameters -> Forall good_header headers ->
  read_request (request_text method target headers ++ rest) r =
  Ret (inr (mkRequest [] r.(m_port) version_1_1 r.(m_host) (decode path) method r.(m_protocol) r.(m_fragment_uri)
         (mm_insert_range headers []) r.(m_path_parameters) parameters), rest).
Proof.
  intros Hm (Ht & Hne & Hv & Hpath & Hq) Hh.
  unfold read_request, request_text. rewrite <- !app_assoc. cbn [app]. rewrite <- !app_assoc.
  pose proof (parse_request_line_spec (method ++ 32 :: target ++ str " HTTP/1.1" ++ CRLF ++ header_block headers ++ rest)) as Hl.
  rewrite request_line_getline in Hl by done. cbn [default id] in Hl. rewrite line_match_text in Hl by done. rewrite Hl. cbn [l_path l_version l_method].
  unfold parse, new_Uri. rewrite Hv, parse_request_headers_block, Hq, Hpath by done. done.
Qed.

(** ** Every stream is read *)
Lemma version_reads x y : isdigit x = true -> isdigit y = true -> exists d, stod [x; 46; y] = Ret d.
Proof.
  intros Hx%isdigit_true Hy%isdigit_true.
  pose proof (forallb_seqZ (fun x => forallb (fun y => match stod [x; 46; y] with Ret _ => true | _ => false end) (seqZ 48 10))
    48 10 ltac:(vm_compute; reflexivity) x ltac:(lia)) as H. cbv beta in H.
  pose proof (forallb_seqZ _ 48 10 H y ltac:(lia)) as Hv. cbv beta in Hv.
  destruct (stod _); [eauto|done..].
Qed.

Lemma insert_parameters_total query m : exists m', insert_parameters query m = Ret m'.
Proof.
  revert m. induction query as [|q query IH]; intros m; cbn [insert_parameters]; [eauto|].
  unfold query_parameter. destruct (span _ q) as [name rest]. destruct (decode_parameter_total name) as [n ->]. cbn [bind].
  destruct rest as [|c value]; cbn [bind]; [apply IH|]. destruct (decode_parameter_total value) as [v ->]. cbn [bind]. apply IH.
Qed.

(** The outcome of [read_request], by what is wrong first. *)
Lemma read_request_cases stream r :
  let '(data, rest) := default ([], []) (getline stream) in
  match line_match data with
  | None => read_request stream r = Ret (inl (RuntimeError malformed_line), rest)
  | Some (method, target, _) =>
      if valid_target target then
        match parse_request_headers rest with
        | (inl e, rest) => read_request stream r = Ret (inl e, rest)
        | (inr headers, rest) =>
            exists version parameters,
              get_query_parameters (mkUri (request_uri target) false) = Ret parameters /\
              read_request stream r =
              Ret (inr (mkRequest [] r.(m_port) version r.(m_host) (decode (get_path (mkUri (request_uri target) false))) method
                     r.(m_protocol) r.(m_fragment_uri) headers r.(m_path_parameters) parameters), rest)
        end
      else read_request stream r = Ret (inl (OtherException (str "Argument is not a valid URI: " ++ request_uri target)), rest)
  end.
Proof.
  pose proof (parse_request_line_spec stream) as Hl. unfold read_request.
  destruct (default ([], []) (getline stream)) as [data rest].
  destruct (line_match data) as [[[method target] version]|] eqn:E; rewrite Hl; [|done].
  apply line_match_inv in E as (_ & Ht & _ & x & y & -> & Hx & Hy). cbn [l_path l_version l_method].
  unfold parse, new_Uri. rewrite is_valid_request by done. destruct (valid_target target); [|done].
  destruct (parse_request_headers rest) as [[e|headers] rest']; [done|].
  destruct (insert_parameters_total (split (get_query (mkUri (request_uri target) false)) 38) []) as [ps Hps].
  destruct (version_reads x y Hx Hy) as [v Hv]. exists v, ps. unfold get_query_parameters. rewrite Hps. split; [done|].
  cbn [bind]. by rewrite Hv.
Qed.
