(* ===== verification/HttpResponse.v ===== *)
(** * restbed: settings and responses (settings.cpp, response.cpp,
      SessionImpl::transmit, http.cpp, detail/http_impl.cpp)

    The members of [SettingsImpl] and [ResponseImpl], the headers [transmit]
    puts together, the bytes of requests and responses, and how restbed's
    client reads a response. *)
From S2P Require Import Prelude Decimal Types Doubles Regex Multimap HttpString Uri HttpRequest.
From Stdlib Require Import SpecFloat.

(** ** Settings *)
Record SettingsImpl := mkSettings {
  st_port : Z;
  st_root : list Z;
  st_ipc_path : list Z;
  st_reuse_address : bool;
  st_worker_limit : Z;
  st_connection_limit : Z;
  st_case_insensitive_uris : bool;
  st_keep_alive : bool;
  st_default_headers : list (list Z * list Z);
  st_connection_timeout : Z;
  st_status_messages : list (Z * list Z) }.

Definition default_status_messages : list (Z * list Z) :=
  (fun '(code, message) => (code, str message)) <$>
  [(100, "Continue"); (101, "Switching Protocols"); (102, "Processing"); (200, "OK"); (201, "Created"); (202, "Accepted");
   (203, "Non-Authoritative Information"); (204, "No Content"); (205, "Reset Content"); (206, "Partial Content");
   (207, "Multi-Status"); (208, "Already Reported"); (226, "IM Used"); (300, "Multiple Choices");
   (301, "Moved Permanently"); (302, "Found"); (303, "See Other"); (304, "Not Modified"); (305, "Use Proxy");
   (306, "Reserved"); (307, "Temporary Redirect"); (308, "Permanent Redirect"); (400, "Bad Request");
   (401, "Unauthorized"); (402, "Payment Required"); (403, "Forbidden"); (404, "Not Found");
   (405, "Method Not Allowed"); (406, "Not Acceptable"); (407, "Proxy Authentication Required");
   (408, "Request Timeout"); (409, "Conflict"); (410, "Gone"); (411, "Length Required"); (412, "Precondition Failed");
   (413, "Request Entity Too Large"); (414, "Request URI Too Long"); (415, "Unsupported Media Type");
   (416, "Requested Range Not Satisfiable"); (417, "Expectation Failed"); (422, "Unprocessable Entity");
   (423, "Locked"); (424, "Failed Dependency"); (426, "Upgrade Required"); (428, "Precondition Required");
   (429, "Too Many Requests"); (431, "Request Header Fields Too Large"); (500, "Internal Server Error");
   (501, "Not Implemented"); (502, "Bad Gateway"); (503, "Service Unavailable"); (504, "Gateway Timeout");
   (505, "HTTP Version Not Supported"); (506, "Variant Also Negotiates"); (507, "Insufficient Storage");
   (508, "Loop Detected"); (510, "Not Extended"); (511, "Network Authentication Required")]%string.

Definition new_Settings : SettingsImpl :=
  mkSettings 80 (str "/") (str "/tmp/restbed.sock") true 0 128 true true [] 5000 default_status_messages.

Definition set_port (value : Z) (s : SettingsImpl) : SettingsImpl :=
  mkSettings value s.(st_root) s.(st_ipc_path) s.(st_reuse_address) s.(st_worker_limit) s.(st_connection_limit)
    s.(st_case_insensitive_uris) s.(st_keep_alive) s.(st_default_headers) s.(st_connection_timeout) s.(st_status_messages).
Definition set_root (value : list Z) (s : SettingsImpl) : SettingsImpl :=
  mkSettings s.(st_port) value s.(st_ipc_path) s.(st_reuse_address) s.(st_worker_limit) s.(st_connection_limit)
    s.(st_case_insensitive_uris) s.(st_keep_alive) s.(st_default_headers) s.(st_connection_timeout) s.(st_status_messages).
Definition set_ipc_path (value : list Z) (s : SettingsImpl) : SettingsImpl :=
  mkSettings s.(st_port) s.(st_root) value s.(st_reuse_address) s.(st_worker_limit) s.(st_connection_limit)
    s.(st_case_insensitive_uris) s.(st_keep_alive) s.(st_default_headers) s.(st_connection_timeout) s.(st_status_messages).
Definition set_worker_limit (value : Z) (s : SettingsImpl) : SettingsImpl :=
  mkSettings s.(st_port) s.(st_root) s.(st_ipc_path) s.(st_reuse_address) value s.(st_connection_limit)
    s.(st_case_insensitive_uris) s.(st_keep_alive) s.(st_default_headers) s.(st_connection_timeout) s.(st_status_messages).
Definition set_case_insensitive_uris (value : bool) (s : SettingsImpl) : SettingsImpl :=
  mkSettings s.(st_port) s.(st_root) s.(st_ipc_path) s.(st_reuse_address) s.(st_worker_limit) s.(st_connection_limit)
    value s.(st_keep_alive) s.(st_default_headers) s.(st_connection_timeout) s.(st_status_messages).
Definition set_keep_alive (value : bool) (s : SettingsImpl) : SettingsImpl :=
  mkSettings s.(st_port) s.(st_root) s.(st_ipc_path) s.(st_reuse_address) s.(st_worker_limit) s.(st_connection_limit)
    s.(st_case_insensitive_uris) value s.(st_default_headers) s.(st_connection_timeout) s.(st_status_messages).
Definition set_default_header (name value : list Z) (s : SettingsImpl) : SettingsImpl :=
  mkSettings s.(st_port) s.(st_root) s.(st_ipc_path) s.(st_reuse_address) s.(st_worker_limit) s.(st_connection_limit)
    s.(st_case_insensitive_uris) s.(st_keep_alive) (mm_insert name value s.(st_default_headers)) s.(st_connection_timeout)
    s.(st_status_messages).
(** From seconds to the milliseconds that are kept. *)
Definition set_connection_timeout (seconds : Z) (s : SettingsImpl) : SettingsImpl :=
  mkSettings s.(st_port) s.(st_root) s.(st_ipc_path) s.(st_reuse_address) s.(st_worker_limit) s.(st_connection_limit)
    s.(st_case_insensitive_uris) s.(st_keep_alive) s.(st_default_headers) (1000 * seconds) s.(st_status_messages).

Definition get_status_message (s : SettingsImpl) (code : Z) : list Z :=
  match List.find (fun p => p.1 =? code) s.(st_status_messages) with
  | Some (_, message) => message
  | None => str "No Appropriate Status Message Found"
  end.

(** ** ResponseImpl *)
Record ResponseImpl := mkResponseImpl {
  r_body : list Z;
  r_version : double;
  r_status_code : Z;
  r_protocol : list Z;
  r_status_message : list Z;
  r_headers : list (list Z * list Z) }.

Definition new_Response : ResponseImpl := mkResponseImpl [] version_1_1 0 (str "HTTP") [] [].

(** The response of [Session::close] and [Session::yield]: an initialiser
    list of headers is a multimap. *)
Definition response_of (status : Z) (body : list Z) (headers : list (list Z * list Z)) : ResponseImpl :=
  mkResponseImpl body version_1_1 status (str "HTTP") [] (mm_insert_range headers []).

(** [transmit]: the payload that is written, with the headers of the settings,
    the resource, the session and the response in this order. *)
Definition transmit (settings : SettingsImpl) (resource_headers session_headers : list (list Z * list Z))
    (response : ResponseImpl) : ResponseImpl :=
  let hdrs := settings.(st_default_headers) in
  let hdrs := mm_insert_range resource_headers hdrs in
  let hdrs := mm_insert_range session_headers hdrs in
  let hdrs := mm_insert_range response.(r_headers) hdrs in
  let message := match response.(r_status_message) with
                 | [] => get_status_message settings response.(r_status_code)
                 | message => message
                 end in
  mkResponseImpl response.(r_body) response.(r_version) response.(r_status_code) response.(r_protocol) message hdrs.

(** ** Bytes *)

(** [%.1f]: the value rounded to tenths. *)
Definition format_fixed1 (d : double) : list Z :=
  match d with
  | S754_zero neg => (if neg then [45] else []) ++ str "0.0"
  | S754_infinity neg => (if neg then [45] else []) ++ str "inf"
  | S754_nan => str "nan"
  | S754_finite neg m e =>
      let n := if 0 <=? e then 10 * Z.pos m * 2 ^ e else half_even (10 * Z.pos m) (2 ^ (- e)) in
      (if neg then [45] else []) ++ dec (n / 10) ++ 46 :: dec (n mod 10)
  end.

(** The lines of the headers, [join] with a closing line break. *)
Definition headers_text (headers : list (list Z * list Z)) : list Z :=
  match headers with [] => [] | _ => join headers (str ": ") CRLF ++ CRLF end.

(** [Http::to_bytes] of a response; the formatted strings hold no NUL. *)
Definition response_to_bytes (r : ResponseImpl) : list Z :=
  r.(r_protocol) ++ str "/" ++ format_fixed1 r.(r_version) ++ str " " ++ put_long r.(r_status_code) ++ str " " ++
  r.(r_status_message) ++ CRLF ++ headers_text r.(r_headers) ++ CRLF ++ r.(r_body).

(** [HttpImpl::to_bytes] of a request. *)
Definition request_path (r : RequestImpl) : list Z :=
  let query := concat ((fun p => encode_parameter p.1 ++ str "=" ++ encode_parameter p.2 ++ str "&") <$> r.(m_query_parameters)) in
  let path := r.(m_path) ++ match r.(m_query_parameters) with [] => [] | _ => str "?" ++ removelast query end in
  match r.(m_fragment_uri) with
  | Some uri => match get_fragment uri with [] => path | fragment => path ++ str "#" ++ fragment end
  | None => path
  end.

Definition request_to_bytes (r : RequestImpl) : list Z :=
  r.(m_method) ++ str " " ++ request_path r ++ str " HTTP/" ++ format_fixed1 r.(m_version) ++ CRLF ++
  headers_text r.(m_headers) ++ CRLF ++ r.(m_body).

Example status_line_1_1 : format_fixed1 version_1_1 = str "1.1".
Proof. reflexivity. Qed.

(** ** The client's side *)
Definition create_error_response (protocol : list Z) (version : double) (message : list Z) : ResponseImpl :=
  mkResponseImpl message version 0 protocol (str "Error")
    (mm_insert_range [(str "Content-Type", str "text/plain; utf-8"); (str "Content-Length", dec (sizeZ message))] []).

(** [stoi] of an optional minus and digits. *)
Definition stoi (s : list Z) : outcome Z :=
  let v := match s with 45 :: ds => - dec_value ds | _ => dec_value s end in
  if (- 2 ^ 31 <=? v) && (v <? 2 ^ 31) then Ret v else Throw StdOutOfRange.

(** [read_status_handler] from [getline] on; [inl] is the message of the error
    response. *)
Definition read_status_handler (stream : list Z) : outcome ((list Z + ResponseImpl) * list Z) :=
  let '(status_line, stream) := default ([], []) (getline stream) in
  match regex_match false (pattern "^([a-zA-Z]+)\/(\d*\.?\d*) (-?\d+) (.*)\r$") status_line with
  | None => Ret (inl (str "HTTP response status line malformed: '" ++ status_line ++ str "'"), stream)
  | Some matches =>
      let* version := stod (group 2 matches) in
      let* code := stoi (group 3 matches) in
      Ret (inr (mkResponseImpl [] version code (group 1 matches) (group 4 matches) []), stream)
  end.

(** [read_headers_handler] on the lines that have arrived. *)
Fixpoint read_headers (fuel : nat) (stream : list Z) (headers : list (list Z * list Z))
  : (list Z + list (list Z * list Z)) * list Z :=
  match fuel with
  | O => (inr headers, stream)
  | S fuel =>
      match getline stream with
      | None => (inr headers, stream)
      | Some (header, rest) =>
          if bytes_eqb header CR then (inr headers, rest)
          else
            match regex_match false (pattern "^([^:.]*): *(.*)\s*$") header with
            | None => (inl (str "Malformed HTTP response header: '" ++ header ++ str "'"), rest)
            | Some matches => read_headers fuel rest (mm_insert (group 1 matches) (group 2 matches) headers)
            end
      end
  end.

(** Both handlers on a stream that holds the whole head: the response without
    its body, and what is left of the stream. *)
Definition read_response (stream : list Z) : outcome ((list Z + ResponseImpl) * list Z) :=
  let* (response, stream) := read_status_handler stream in
  match response with
  | inl message => Ret (inl message, stream)
  | inr r =>
      match read_headers (length stream) stream [] with
      | (inl message, stream) => Ret (inl message, stream)
      | (inr headers, stream) =>
          Ret (inr (mkResponseImpl r.(r_body) r.(r_version) r.(r_status_code) r.(r_protocol) r.(r_status_message) headers), stream)
      end
  end.

(** ** The lines of the headers *)
Lemma strip_last_end set a c b : c ∉ set -> Forall (fun x => x ∈ set) b -> strip_last_of set (a ++ [c] ++ b) = a ++ [c].
Proof.
  intros Hc Hb. unfold strip_last_of. rewrite !rev_app_distr. cbn [rev app]. rewrite <- app_assoc. cbn [app].
  rewrite span_app; [|apply Forall_rev; by eapply Forall_impl; [exact Hb|]; intros x Hx; apply bool_decide_eq_true|].
  - cbn [snd rev]. by rewrite rev_involutive.
  - cbn [stops]. by apply bool_decide_eq_false.
Qed.

(** A header ends in a character that is kept. *)
Lemma header_text_last h : good_header h -> exists t c, header_text h = t ++ [c] /\ c ∉ CRLF.
Proof.
  intros (_ & Hv & _). unfold header_text. destruct h as [name value]. cbn [fst snd] in *.
  destruct (exists_last (l := str ": " ++ value)) as (t & c & E); [done|]. exists (name ++ t), c.
  rewrite E, app_assoc. split; [done|]. intros Hc. unfold CRLF in Hc.
  assert (Hall : Forall (fun x => value_char x = true) (str ": " ++ value)) by (repeat constructor; done).
  rewrite E, Forall_app in Hall. destruct Hall as [_ Hlast]. rewrite Forall_singleton in Hlast.
  apply elem_of_cons in Hc as [->|Hc%list_elem_of_singleton].
  - discriminate Hlast.
  - subst c. discriminate Hlast.
Qed.

Lemma headers_text_block headers : Forall good_header headers -> headers_text headers ++ CRLF = header_block headers.
Proof.
  intros Hh. unfold headers_text, header_block, join. destruct headers as [|h hs] eqn:E; [done|]. rewrite <- E in *.
  assert (Hne : headers <> []) by by subst. clear E h hs.
  destruct (exists_last Hne) as (init & h & ->). apply Forall_app in Hh as [_ Hh]. rewrite Forall_singleton in Hh.
  destruct (header_text_last h Hh) as (t & c & Ht & Hc).
  assert (Hc' : forall l, concat ((fun '(k, v) => k ++ str ": " ++ v ++ CRLF) <$> l) = concat ((fun h => header_text h ++ CRLF) <$> l)).
  { induction l as [|[k v] l IH]; [done|]. rewrite !fmap_cons. cbn [concat]. rewrite IH. unfold header_text. cbn [fst snd].
    by rewrite <- !app_assoc. }
  rewrite Hc', fmap_app, concat_app. cbn [fmap list_fmap concat]. rewrite app_nil_r, Ht, <- !app_assoc.
  set (a := concat _). destruct (a ++ t ++ [c] ++ CRLF) eqn:E; [by destruct a, t|]. rewrite <- E.
  rewrite (app_assoc a t), strip_last_end; [|done|unfold CRLF; repeat constructor; set_solver]. by rewrite <- !app_assoc.
Qed.

(** ** Reading back a response *)
Definition status_line_re : re :=
  RSeq RBol (RSeq (RGroup 1 (RPlus (RCls false [(97, 122); (65, 90)]))) (RSeq (RChr 47)
    (RSeq (RGroup 2 (RSeq (RStar (RCls false digit_items)) (RSeq (ROpt (RChr 46)) (RStar (RCls false digit_items)))))
    (RSeq (RChr 32) (RSeq (RGroup 3 (RSeq (ROpt (RChr 45)) (RPlus (RCls false digit_items)))) (RSeq (RChr 32)
    (RSeq (RGroup 4 (RStar (RCls true [(10, 10); (13, 13)]))) (RSeq (RChr 13) REol)))))))).

Definition letter_char : Z -> bool := class_match false false [(97, 122); (65, 90)].
Definition digit_char : Z -> bool := class_match false false digit_items.

Lemma digit_char_isdigit c : digit_char c = isdigit c.
Proof. unfold digit_char, class_match, in_items, digit_items, isdigit. cbn. by rewrite !orb_false_r. Qed.

Lemma digits_digit_char l : is_digits l -> Forall (fun c => digit_char c = true) l.
Proof. intros Hl. eapply Forall_impl; [exact Hl|]. intros c Hc. cbv beta. rewrite digit_char_isdigit. by apply isdigit_true. Qed.

Lemma status_line_match protocol code message :
  Forall (fun c => letter_char c = true) protocol -> protocol <> [] -> is_digits code -> code <> [] ->
  Forall (fun c => value_char c = true) message ->
  regex_match false status_line_re (protocol ++ str "/1.1 " ++ code ++ 32 :: message ++ CR) =
  Some [(4%nat, message); (3%nat, code); (2%nat, str "1.1"); (1%nat, protocol)].
Proof.
  intros Hp Hpne Hc Hcne Hm. unfold regex_match, status_line_re.
  change (str "/1.1 " ++ ?l) with (47 :: str "1.1" ++ 32 :: l).
  rewrite run_seq, run_bol, run_seq, run_group by done.
  apply run_plus_first; fold letter_char; rewrite span_app by done; [done|]. cbn [snd]. rewrite take_before.
  rewrite run_seq, run_chr, Z.eqb_refl, run_seq, run_group, run_seq. set (rest := 32 :: code ++ _).
  apply run_star_first. change ((span _ (str "1.1" ++ rest)).2) with (46 :: 49 :: rest). rewrite run_seq, run_opt, run_chr, Z.eqb_refl.
  erewrite run_star_first; [reflexivity|]. change ((span _ (49 :: rest)).2) with rest. rewrite take_before. unfold rest.
  rewrite run_seq, run_chr, Z.eqb_refl, run_seq, run_group, run_seq, run_opt.
  assert (Hminus : forall A l c (k : continuation A), run false l (RChr 45) (code ++ 32 :: message ++ CR) c k = None).
  { intros. rewrite run_chr. destruct code as [|x code]; [done|]. apply Forall_cons in Hc as [Hx _]. cbn [app].
    by replace (x =? 45) with false by lia. }
  rewrite Hminus. apply run_plus_first; fold digit_char; rewrite span_app by (done || by apply digits_digit_char); [done|].
  cbn [snd]. rewrite take_before, run_seq, run_chr, Z.eqb_refl, run_seq, run_group. apply run_star_first. fold value_char.
  rewrite span_app by done. cbn [snd]. rewrite take_before. done.
Qed.

Lemma stoi_dec n : 0 <= n < 2 ^ 31 -> stoi (dec n) = Ret n.
Proof.
  intros Hn. unfold stoi. assert (Hv : dec_value (dec n) = n) by (apply dec_value_dec; lia).
  assert (Hd : is_digits (dec n)) by (apply dec_digits; lia). destruct (dec n) as [|c l] eqn:E.
  - rewrite Hv. by replace ((- 2 ^ 31 <=? n) && (n <? 2 ^ 31)) with true by lia.
  - apply Forall_cons in Hd as [Hc _]. assert ((match c with 45 => - dec_value l | _ => dec_value (c :: l) end) = n) as ->.
    { rewrite Hv. repeat (case_match; try done); lia. }
    by replace ((- 2 ^ 31 <=? n) && (n <? 2 ^ 31)) with true by lia.
Qed.

Lemma read_headers_agrees fuel stream m headers rest :
  parse_headers fuel stream m = (inr headers, rest) -> read_headers fuel stream m = (inr headers, rest).
Proof.
  revert stream m. induction fuel as [|fuel IH]; intros stream m; [by intros [= -> ->]|]. cbn [parse_headers read_headers].
  destruct (getline stream) as [[data rest']|]; [|by intros [= -> ->]]. destruct (bytes_eqb data CR); [by intros [= -> ->]|].
  destruct (regex_match _ _ data); [apply IH|done].
Qed.

(** A response as the service builds it. *)
Definition good_response (r : ResponseImpl) : Prop :=
  Forall (fun c => letter_char c = true) r.(r_protocol) /\ r.(r_protocol) <> [] /\ r.(r_version) = version_1_1 /\
  0 <= r.(r_status_code) < 2 ^ 31 /\ Forall (fun c => value_char c = true) r.(r_status_message) /\
  Forall good_header r.(r_headers) /\ mm_sorted r.(r_headers).

(** C27. What [Http::to_bytes] writes for a response, restbed's client reads
    back: protocol, version, status, message and every header in its order; the
    body and whatever follows stay in the stream. *)
Theorem response_roundtrip r rest : good_response r ->
  read_response (response_to_bytes r ++ rest) =
  Ret (inr (mkResponseImpl [] r.(r_version) r.(r_status_code) r.(r_protocol) r.(r_status_message) r.(r_headers)),
       r.(r_body) ++ rest).
Proof.
  intros (Hp & Hpne & Hv & Hc & Hm & Hh & Hs). unfold read_response, read_status_handler, response_to_bytes.
  rewrite Hv, status_line_1_1. unfold put_long. replace (r.(r_status_code) <? 0) with false by lia.
  assert (Hd : is_digits (dec r.(r_status_code))) by (apply dec_digits; lia).
  assert (Hdne : dec r.(r_status_code) <> []) by (pose proof (dec_head r.(r_status_code) ltac:(lia)) as H; by destruct dec).
  set (line := r.(r_protocol) ++ str "/1.1 " ++ dec r.(r_status_code) ++ 32 :: r.(r_status_message) ++ CR).
  set (block := header_block r.(r_headers) ++ r.(r_body) ++ rest).
  assert (Hline : Forall (fun c => c <> 10) line).
  { unfold line. rewrite !Forall_app, Forall_cons, Forall_app. split_and!; try by repeat constructor.
    - eapply Forall_impl; [exact Hp|]. intros c Hx ->. discriminate Hx.
    - eapply Forall_impl; [exact Hd|]. intros c Hx. cbn in *. lia.
    - eapply Forall_impl; [exact Hm|]. intros c Hx ->. discriminate Hx. }
  assert (Htext : (r.(r_protocol) ++ str "/" ++ str "1.1" ++ str " " ++ dec r.(r_status_code) ++ str " " ++
    r.(r_status_message) ++ CRLF ++ headers_text r.(r_headers) ++ CRLF ++ r.(r_body)) ++ rest = line ++ 10 :: block).
  { unfold line, block. rewrite <- headers_text_block by done. rewrite <- !app_assoc. cbn [app str]. rewrite <- !app_assoc. done. }
  rewrite Htext, getline_line by done. cbn [default id]. change (pattern _) with status_line_re.
  unfold line at 1. rewrite status_line_match by done. cbn [group Nat.eqb].
  change (stod (str "1.1")) with (Ret version_1_1). cbn [bind]. rewrite stoi_dec by done. cbn [bind].
  pose proof (parse_request_headers_block r.(r_headers) (r.(r_body) ++ rest) Hh) as Hhd. apply read_headers_agrees in Hhd.
  fold block in Hhd. rewrite Hhd, mm_insert_range_id by done. done.
Qed.

(** ** Reading back a request *)
Lemma query_join ps : ps <> [] ->
  removelast (concat ((fun p => encode_parameter p.1 ++ str "=" ++ encode_parameter p.2 ++ str "&") <$> ps)) = query_text ps.
Proof.
  unfold query_text. induction ps as [|p ps IH]; [done|]. intros _. rewrite !fmap_cons. cbn [concat].
  assert (Hp : encode_parameter p.1 ++ str "=" ++ encode_parameter p.2 ++ str "&" = encoded_parameter p ++ [38]).
  { unfold encoded_parameter. rewrite <- app_assoc. done. }
  rewrite Hp. destruct ps as [|q ps].
  - cbn [fmap list_fmap concat intercalate]. by rewrite app_nil_r, removelast_last.
  - rewrite removelast_app by (rewrite fmap_cons; cbn [concat]; by destruct (encode_parameter q.1)).
    rewrite IH by done. rewrite <- app_assoc. done.
Qed.

(** A request restbed's client can send unharmed: the path is not encoded by
    [to_bytes], so it has no percent sign. *)
Definition good_request (r : RequestImpl) : Prop :=
  Forall (fun c => alnum_char c = true) r.(m_method) /\ good_path r.(m_path) /\ decode r.(m_path) = r.(m_path) /\
  r.(m_version) = version_1_1 /\ r.(m_fragment_uri) = None /\ Forall byte_pair r.(m_query_parameters) /\
  mm_sorted r.(m_query_parameters) /\ Forall good_header r.(m_headers) /\ mm_sorted r.(m_headers).

Lemma request_bytes_text r : good_request r ->
  request_to_bytes r = request_text r.(m_method) (request_target r.(m_path) r.(m_query_parameters)) r.(m_headers) ++ r.(m_body).
Proof.
  intros (_ & _ & _ & Hv & Hf & _ & _ & Hh & _). unfold request_to_bytes, request_text, request_path, request_target.
  rewrite Hv, status_line_1_1, Hf, <- headers_text_block by done.
  assert (Hq : match r.(m_query_parameters) with [] => [] | _ => str "?" ++ removelast (concat ((fun p =>
      encode_parameter p.1 ++ str "=" ++ encode_parameter p.2 ++ str "&") <$> r.(m_query_parameters))) end =
    match r.(m_query_parameters) with [] => [] | _ => 63 :: query_text r.(m_query_parameters) end).
  { destruct r.(m_query_parameters) as [|p ps] eqn:E; [done|]. by rewrite query_join. }
  rewrite Hq. rewrite <- !app_assoc. cbn [app str]. rewrite <- !app_assoc. done.
Qed.


Lemma response_roundtrip_witness :
  let r := mkResponseImpl (str "{}") version_1_1 200 (str "HTTP") (str "OK")
             [(str "Connection", str "keep-alive"); (str "Content-Length", str "2")] in
  read_response (response_to_bytes r ++ str "HTTP") =
  Ret (inr (mkResponseImpl [] r.(r_version) r.(r_status_code) r.(r_protocol) r.(r_status_message) r.(r_headers)),
       r.(r_body) ++ str "HTTP").
Proof.
  apply (response_roundtrip (mkResponseImpl (str "{}") version_1_1 200 (str "HTTP") (str "OK")
             [(str "Connection", str "keep-alive"); (str "Content-Length", str "2")]) (str "HTTP")).
  repeat split; try done; repeat constructor; try discriminate.
Defined.

