(* ===== verification/HttpSession.v ===== *)
(** * restbed: sessions (session.cpp, detail/session_impl.cpp,
      detail/ipc_socket_impl.cpp)

    A session is one connection: its request, the stream buffer with what has
    been read and not consumed, and the state of the socket.  Reading from the
    socket is asio's: [Transport] names the two reads the library uses with
    what asio documents of them.  A handler is a function on the session, the
    connection and the state of the program; it ends in an [exchange], the
    bytes that are written and whether the connection is kept.

    Writes complete without an error here; the queue of pending writes is in
    SocketWrites.v.  The error handlers are the default ones: the program sets
    none. *)
From S2P Require Import Prelude Decimal Types Doubles Multimap HttpString HttpRequest HttpResponse.

Definition occurs (d s : list Z) : Prop := exists a b, s = a ++ d ++ b.

(** asio's reads into a stream buffer: [async_read_until] with a delimiter and
    [async_read] of at least [n] bytes.  The result says whether they ended
    without an error; [unread] is what the peer sends until it closes. *)
Class Transport (W : Type) := {
  read_until : list Z -> list Z -> W -> bool * list Z * W;
  read_at_least : Z -> list Z -> W -> bool * list Z * W;
  unread : W -> list Z;
  read_until_law : forall delimiter buffer w, let '(ok, buffer', w') := read_until delimiter buffer w in
    buffer' ++ unread w' = buffer ++ unread w /\
    (ok = true -> occurs delimiter buffer') /\ (occurs delimiter (buffer ++ unread w) -> ok = true);
  read_at_least_law : forall n buffer w, let '(ok, buffer', w') := read_at_least n buffer w in
    buffer' ++ unread w' = buffer ++ unread w /\
    (ok = true -> sizeZ buffer + n <= sizeZ buffer') /\ (n <= sizeZ (unread w) -> ok = true) }.

(** ** A transport: the chunks in which the bytes arrive *)
Fixpoint occursb (d s : list Z) : bool :=
  bytes_eqb (take (length d) s) d || match s with [] => false | _ :: s => occursb d s end.

Lemma occursb_spec d s : occursb d s = true <-> occurs d s.
Proof.
  unfold occurs. induction s as [|c s IH]; cbn [occursb]; unfold bytes_eqb; rewrite orb_true_iff, bool_decide_eq_true.
  - split; [intros [Hd|]; [|done]|].
    + exists [], []. rewrite take_nil in Hd. by subst d.
    + intros (a & b & Hs). destruct a, d; try done. by left.
  - rewrite IH. split.
    + intros [Hd|(a & b & ->)]; [|by exists (c :: a), b]. exists [], (drop (length d) (c :: s)).
      pose proof (take_drop (length d) (c :: s)) as E. by rewrite Hd in E.
    + intros ([|x a] & b & Hs).
      * left. rewrite Hs, app_nil_l. by rewrite take_app_length.
      * right. injection Hs as -> ->. by exists a, b.
Qed.

Fixpoint chunks_until (d buffer : list Z) (chunks : list (list Z)) : bool * list Z * list (list Z) :=
  if occursb d buffer then (true, buffer, chunks)
  else match chunks with [] => (false, buffer, []) | c :: chunks => chunks_until d (buffer ++ c) chunks end.

Fixpoint chunks_at_least (n : Z) (buffer : list Z) (chunks : list (list Z)) : bool * list Z * list (list Z) :=
  if n <=? 0 then (true, buffer, chunks)
  else match chunks with [] => (false, buffer, []) | c :: chunks => chunks_at_least (n - sizeZ c) (buffer ++ c) chunks end.

#[export] Instance Chunks : Transport (list (list Z)).
Proof.
  refine {| read_until := chunks_until; read_at_least := chunks_at_least; unread := @concat Z |}.
  - intros d buffer w. revert buffer. induction w as [|c w IH]; intros buffer; cbn [chunks_until];
      (destruct (occursb d buffer) eqn:E; [apply occursb_spec in E|]).
    + done.
    + cbn [concat]. rewrite app_nil_r. split_and!; [done..|]. rewrite <- occursb_spec. congruence.
    + done.
    + specialize (IH (buffer ++ c)). destruct chunks_until as [[ok b] w']. cbn [concat]. by rewrite app_assoc.
  - intros n buffer w. revert n buffer. induction w as [|c w IH]; intros n buffer; cbn [chunks_at_least];
      destruct (Z.leb_spec n 0).
    + split_and!; [done|lia|done].
    + split_and!; [done|done|]. cbn. unfold sizeZ. cbn. lia.
    + split_and!; [done|lia|done].
    + specialize (IH (n - sizeZ c) (buffer ++ c)). destruct chunks_at_least as [[ok b] w']. cbn [concat].
      rewrite <- !app_assoc in IH. destruct IH as (Heq & Hok & Hall). split_and!; [done| |].
      * intros Ho. specialize (Hok Ho). rewrite sizeZ_app in Hok. lia.
      * intros Hn. apply Hall. rewrite sizeZ_app in Hn. lia.
Defined.

(** ** SessionImpl *)
Record SessionImpl := mkSession {
  m_request : RequestImpl;
  m_resource_headers : list (list Z * list Z);
  m_session_headers : list (list Z * list Z);
  m_buffer : list Z;
  m_is_open : bool;
  m_error_handler_invoked : bool }.

Definition new_session : SessionImpl := mkSession new_Request [] [] [] true false.

Inductive exchange := Answered (bytes : list Z) (keep_alive : bool) | Unanswered.

Definition CRLFCRLF : list Z := CRLF ++ CRLF.

Section Session.
Context {W A : Type} `{Transport W}.

Record Context := mkContext { session : SessionImpl; net : W; app : A }.

Definition reply := outcome (exchange * Context).
Definition handler := Context -> reply.

(** Functional updates of the session. *)
Definition with_session (f : SessionImpl -> SessionImpl) (c : Context) : Context := mkContext (f c.(session)) c.(net) c.(app).
Definition with_app (a : A) (c : Context) : Context := mkContext c.(session) c.(net) a.

Definition set_open (b : bool) (s : SessionImpl) : SessionImpl :=
  mkSession s.(m_request) s.(m_resource_headers) s.(m_session_headers) s.(m_buffer) b s.(m_error_handler_invoked).
Definition set_buffer (b : list Z) (s : SessionImpl) : SessionImpl :=
  mkSession s.(m_request) s.(m_resource_headers) s.(m_session_headers) b s.(m_is_open) s.(m_error_handler_invoked).
Definition set_request (r : RequestImpl) (s : SessionImpl) : SessionImpl :=
  mkSession r s.(m_resource_headers) s.(m_session_headers) s.(m_buffer) s.(m_is_open) s.(m_error_handler_invoked).
Definition set_resource (headers : list (list Z * list Z)) (s : SessionImpl) : SessionImpl :=
  mkSession s.(m_request) headers s.(m_session_headers) s.(m_buffer) s.(m_is_open) s.(m_error_handler_invoked).
Definition set_invoked (s : SessionImpl) : SessionImpl :=
  mkSession s.(m_request) s.(m_resource_headers) s.(m_session_headers) s.(m_buffer) s.(m_is_open) true.

Section WithSettings.
Variable settings : SettingsImpl.

Definition payload (s : SessionImpl) (response : ResponseImpl) : ResponseImpl :=
  transmit settings s.(m_resource_headers) s.(m_session_headers) response.

(** The end of [close] on an open session: the payload is written, then the
    socket is closed. *)
Definition close_open (response : ResponseImpl) : handler := fun c =>
  Ret (Answered (response_to_bytes (payload c.(session) response)) false, with_session (set_open false) c).

(** [default_error_handler] *)
Definition default_error_handler (status : Z) (what : list Z) : handler := fun c =>
  if c.(session).(m_is_open) then
    close_open (response_of status what
      [(str "Content-Type", str "text/plain"); (str "Content-Length", dec (sizeZ what))]) c
  else Ret (Unanswered, c).

(** [SessionImpl::get_error_handler] applied: only the first time. *)
Definition session_error (status : Z) (what : list Z) : handler := fun c =>
  if c.(session).(m_error_handler_invoked) then Ret (Unanswered, c)
  else default_error_handler status what (with_session set_invoked c).

(** [Session::close(status, body, headers)] *)
Definition close (status : Z) (body : list Z) (headers : list (list Z * list Z)) : handler := fun c =>
  if negb c.(session).(m_is_open) then session_error 500 (str "Close failed: session already closed.") c
  else close_open (response_of status body headers) c.

(** [Session::yield(status, body, headers)] without a callback: the next
    request is read from the connection. *)
Definition yield (status : Z) (body : list Z) (headers : list (list Z * list Z)) : handler := fun c =>
  if negb c.(session).(m_is_open) then session_error 500 (str "Yield failed: session already closed.") c
  else Ret (Answered (response_to_bytes (payload c.(session) (response_of status body headers))) true, c).

(** The text [what()] of an exception of the standard library, and the message
    of an error of asio. *)
Variable what : cpp_exception -> list Z.
Variable error_message : W -> list Z.

(** [fetch_body]: [length] bytes of the buffer become the body; the catch
    clauses for what the callback throws. *)
Definition fetch_body (length : Z) (callback : list Z -> handler) : handler := fun c =>
  let buffer := c.(session).(m_buffer) in
  if sizeZ buffer <? length then Undefined OutOfBounds
  else
    let data := take (Z.to_nat length) buffer in
    let c := with_session (fun s => set_request (with_body (s.(m_request).(m_body) ++ data) s.(m_request))
                                      (set_buffer (drop (Z.to_nat length) buffer) s)) c in
    match callback data c with
    | Throw e => session_error 500 (what e) c
    | r => r
    end.

(** [Session::fetch(length, callback)]; [length] and the difference are
    [size_t]. *)
Definition fetch (length : Z) (callback : list Z -> handler) : handler := fun c =>
  if negb c.(session).(m_is_open) then session_error 500 (str "Fetch failed: session already closed.") c
  else if sizeZ c.(session).(m_buffer) <? length then
    let '(ok, buffer, w) := read_at_least (length - sizeZ c.(session).(m_buffer)) c.(session).(m_buffer) c.(net) in
    let c := mkContext (set_buffer buffer c.(session)) w c.(app) in
    if ok then fetch_body length callback c
    else session_error 500 (str "Fetch failed: " ++ error_message w) (with_session (set_open false) c)
  else fetch_body length callback c.
End WithSettings.
End Session.
Arguments Context : clear implicits.
Arguments reply : clear implicits.
Arguments handler : clear implicits.

(** ** Facts *)
Section Facts.
Context {W A : Type} `{Transport W}.
Implicit Types c : Context W A.

(** What is still to be consumed of the connection. *)
Definition stream (c : Context W A) : list Z := c.(session).(m_buffer) ++ unread c.(net).

Lemma occurs_app d s s' : occurs d s -> occurs d (s ++ s').
Proof. intros (a & b & ->). exists a, (b ++ s'). by rewrite <- !app_assoc. Qed.

(** Fetching gives the next bytes of the stream, however they arrive. *)
Lemma fetch_gives settings what error_message length callback c body rest :
  c.(session).(m_is_open) = true -> stream c = body ++ rest -> sizeZ body = length ->
  exists c', fetch settings what error_message length callback c =
    match callback body c' with Throw e => session_error settings 500 (what e) c' | r => r end /\
    stream c' = rest /\ c'.(app) = c.(app) /\ c'.(session).(m_is_open) = true /\
    c'.(session).(m_resource_headers) = c.(session).(m_resource_headers) /\
    c'.(session).(m_session_headers) = c.(session).(m_session_headers).
Proof.
  intros Hopen Hs Hlen. unfold fetch. rewrite Hopen. cbn [negb].
  assert (Hbody : forall c, stream c = body ++ rest -> length <= sizeZ c.(session).(m_buffer) ->
    c.(session).(m_buffer) = body ++ drop (Z.to_nat length) c.(session).(m_buffer) /\
    drop (Z.to_nat length) c.(session).(m_buffer) ++ unread c.(net) = rest).
  { intros c0 Hs0 Hl. unfold stream in Hs0. set (buffer := c0.(session).(m_buffer)) in *. subst length. unfold sizeZ in *.
    rewrite Nat2Z.id. rewrite <- (take_drop (List.length body) buffer), <- app_assoc in Hs0.
    apply app_inj_1 in Hs0 as [Ht Hd]; [|rewrite length_take; lia].
    split; [|done]. rewrite <- Ht at 1. by rewrite take_drop. }
  assert (Hfetch : forall c0, stream c0 = body ++ rest -> length <= sizeZ c0.(session).(m_buffer) ->
    c0.(app) = c.(app) -> c0.(session).(m_is_open) = true ->
    c0.(session).(m_resource_headers) = c.(session).(m_resource_headers) ->
    c0.(session).(m_session_headers) = c.(session).(m_session_headers) ->
    exists c', fetch_body settings what length callback c0 =
      match callback body c' with Throw e => session_error settings 500 (what e) c' | r => r end /\
      stream c' = rest /\ c'.(app) = c.(app) /\ c'.(session).(m_is_open) = true /\
      c'.(session).(m_resource_headers) = c.(session).(m_resource_headers) /\
      c'.(session).(m_session_headers) = c.(session).(m_session_headers)).
  { intros c0 Hs0 Hl Ha Ho Hr Hh. destruct (Hbody c0 Hs0 Hl) as [Hb Hd]. unfold fetch_body.
    replace (sizeZ c0.(session).(m_buffer) <? length) with false by lia.
    assert (take (Z.to_nat length) c0.(session).(m_buffer) = body) as ->.
    { rewrite Hb. subst length. unfold sizeZ. rewrite Nat2Z.id. by rewrite take_app_length. }
    eexists. split; [reflexivity|]. done. }
  destruct (Z.ltb_spec (sizeZ c.(session).(m_buffer)) length) as [Hlt|Hge]; [|by apply Hfetch].
  pose proof (read_at_least_law (length - sizeZ c.(session).(m_buffer)) c.(session).(m_buffer) c.(net)) as Hlaw.
  destruct read_at_least as [[ok buffer] w]. destruct Hlaw as (Heq & Hok & Hall).
  assert (ok = true) as ->.
  { apply Hall. unfold stream in Hs. apply (f_equal sizeZ) in Hs. rewrite !sizeZ_app in Hs. unfold sizeZ in *. lia. }
  apply Hfetch; [|cbn; specialize (Hok eq_refl); lia|done..]. unfold stream in *. cbn. by rewrite Heq.
Qed.
End Facts.
