(* ===== verification/SocketWrites.v ===== *)
(** * restbed: the pending writes of a socket (detail/ipc_socket_impl.cpp)

    [IPCSocketImpl] keeps a queue of writes: [write_helper] appends one and
    starts it when it is alone, and the handler of [async_write] starts the
    next.  A write that ends short of its buffer is tried again with the rest,
    at most [MAX_WRITE_RETRIES] times.  The strand runs these functions one at
    a time; the timer that closes the socket and the callbacks, which may close
    it, are steps of their own.  [sent] is ghost state: the bytes the kernel has
    taken. *)
From S2P Require Import Prelude Types.

Definition MAX_WRITE_RETRIES : Z := 5.

Inductive write_error := NoError | OperationAborted | OtherError.

Section Writes.
(** What names the callback of a write. *)
Context {C : Type}.

(** An entry of [m_pending_writes]. *)
Record PendingWrite := mkPendingWrite { wbuffer : list Z; wretries : Z; wcallback : C }.

Record IPCSocketImpl := mkSocket {
  so_is_open : bool;
  m_pending_writes : list PendingWrite;
  writing : bool;  (** an [async_write] is under way *)
  sent : list Z }.

Definition new_socket : IPCSocketImpl := mkSocket true [] false [].

(** [write()] *)
Definition write (s : IPCSocketImpl) : IPCSocketImpl :=
  if s.(so_is_open) then mkSocket true s.(m_pending_writes) true s.(sent)
  else mkSocket false [] s.(writing) s.(sent).

Definition write_helper (data : list Z) (callback : C) (s : IPCSocketImpl) : IPCSocketImpl :=
  let s := mkSocket s.(so_is_open) (s.(m_pending_writes) ++ [mkPendingWrite data 0 callback]) s.(writing) s.(sent) in
  if sizeZ s.(m_pending_writes) =? 1 then write s else s.

Definition close_socket (s : IPCSocketImpl) : IPCSocketImpl :=
  mkSocket false s.(m_pending_writes) s.(writing) s.(sent).

Definition is_aborted (error : write_error) : bool := match error with OperationAborted => true | _ => false end.

Definition tries_again (error : write_error) (length : Z) (w : PendingWrite) : bool :=
  (length <? sizeZ w.(wbuffer)) && (w.(wretries) <? MAX_WRITE_RETRIES) && negb (is_aborted error).

(** The handler of [async_write], which reports [error] and [length]: the
    callback that is called, if any, and the socket.  [closes] says whether the
    callback closes the socket. *)
Definition write_handler (error : write_error) (length : Z) (closes : bool) (s : IPCSocketImpl)
  : outcome (option C * IPCSocketImpl) :=
  match s.(m_pending_writes) with
  | [] => Undefined OutOfBounds
  | w :: rest =>
      let pending :=
        if tries_again error length w
        then mkPendingWrite (drop (Z.to_nat length) w.(wbuffer)) (u8 (w.(wretries) + 1)) w.(wcallback) :: rest
        else rest in
      let called := if is_aborted error then None else Some w.(wcallback) in
      let s := mkSocket (s.(so_is_open) && negb (closes && negb (is_aborted error))) pending false
                 (s.(sent) ++ take (Z.to_nat length) w.(wbuffer)) in
      Ret (called, match pending with [] => s | _ => write s end)
  end.

(** ** Runs

    asio reports a length up to that of the buffer, and the whole length when
    there is no error. *)
Definition reported (error : write_error) (length : Z) (buffer : list Z) : Prop :=
  0 <= length <= sizeZ buffer /\ (error = NoError -> length = sizeZ buffer).

(** What becomes of the front entry. *)
Inductive result := Finished | Retried | GivenUp | Dropped.

Inductive label := Handed (data : list Z) | Handled (r : result) (called : option C) | Closed.

(** [GivenUp]: taken off with bytes left while the socket stays open. *)
Definition write_result (error : write_error) (length : Z) (w : PendingWrite) (open : bool) : result :=
  if length <? sizeZ w.(wbuffer) then
    if open then if tries_again error length w then Retried else GivenUp else Dropped
  else Finished.

Inductive step : IPCSocketImpl -> label -> IPCSocketImpl -> Prop :=
  | step_write s data callback : step s (Handed data) (write_helper data callback s)
  | step_handler s s' w rest error length closes called :
      s.(writing) = true -> s.(m_pending_writes) = w :: rest -> reported error length w.(wbuffer) ->
      write_handler error length closes s = Ret (called, s') ->
      step s (Handled (write_result error length w s'.(so_is_open)) called) s'
  | step_close s : step s Closed (close_socket s).

Inductive run : IPCSocketImpl -> list label -> IPCSocketImpl -> Prop :=
  | run_nil s : run s [] s
  | run_snoc s ls s' l s'' : run s ls s' -> step s' l s'' -> run s (ls ++ [l]) s''.

Definition handed (ls : list label) : list Z :=
  concat ((fun l => match l with Handed data => data | _ => [] end) <$> ls).

(** ** The invariant *)
Definition remaining (s : IPCSocketImpl) : list Z := concat (wbuffer <$> s.(m_pending_writes)).

(** A write is under way exactly when the queue is not empty, and only the
    front entry has been retried. *)
Definition writes_wf (s : IPCSocketImpl) : Prop :=
  (s.(writing) = true <-> s.(m_pending_writes) <> []) /\
  Forall (fun w => 0 <= w.(wretries) <= MAX_WRITE_RETRIES) s.(m_pending_writes) /\
  Forall (fun w => w.(wretries) = 0) (drop 1 s.(m_pending_writes)).

Lemma new_socket_wf : writes_wf new_socket.
Proof. repeat split; try done; constructor. Qed.

Lemma write_helper_wf data callback s : writes_wf s -> writes_wf (write_helper data callback s).
Proof.
  intros (Hw & Hr & Hz). unfold write_helper. cbn [m_pending_writes].
  destruct (m_pending_writes s) as [|w rest] eqn:E; cbn [app].
  - change (sizeZ [_] =? 1) with true. cbv iota. unfold write. cbn [so_is_open].
    destruct (so_is_open s); unfold writes_wf; cbn [m_pending_writes writing drop].
    + split_and!; [done|repeat constructor; cbn; unfold MAX_WRITE_RETRIES; lia|constructor].
    + split_and!; [tauto|constructor..].
  - set (more := w :: rest ++ _). assert (Hmore : (sizeZ more =? 1) = false).
    { apply Z.eqb_neq. unfold more, sizeZ. cbn [length]. rewrite length_app. cbn [length]. lia. }
    rewrite Hmore. unfold more.
    unfold writes_wf. cbn [m_pending_writes writing drop]. split_and!; [|apply (Forall_app _ (w :: rest)); split|].
    + split; [done|]. intros _. apply Hw. done.
    + done.
    + repeat constructor; cbn; unfold MAX_WRITE_RETRIES; lia.
    + apply Forall_app. split; [done|by repeat constructor].
Qed.

Lemma write_handler_wf error length closes s called s' :
  writes_wf s -> write_handler error length closes s = Ret (called, s') -> writes_wf s'.
Proof.
  intros (Hw & Hr & Hz). unfold write_handler. destruct (m_pending_writes s) as [|w rest] eqn:E; [done|].
  apply Forall_cons in Hr as [Hrw Hr]. cbn [drop] in Hz. intros [= <- <-].
  assert (Hrest : Forall (fun w => w.(wretries) = 0) (drop 1 rest)) by (destruct rest; [constructor|]; by apply Forall_cons in Hz as [_ Hz]).
  unfold tries_again. destruct (Z.ltb_spec w.(wretries) MAX_WRITE_RETRIES) as [Hlt|_]; rewrite ?andb_false_r; cbn [andb].
  1: destruct ((length <? sizeZ w.(wbuffer)) && true && negb (is_aborted error)).
  - unfold write. cbn [so_is_open]. destruct (_ && _); unfold writes_wf; cbn [m_pending_writes writing drop].
    + split_and!; [done| |done]. constructor; [|done]. cbn. unfold MAX_WRITE_RETRIES, u8 in *. rewrite Z.mod_small; lia.
    + split_and!; [done|constructor..].
  - destruct rest; unfold write; cbn [so_is_open]; [|destruct (_ && _)]; unfold writes_wf; cbn [m_pending_writes writing drop] in *;
      split_and!; done || constructor.
  - destruct rest; unfold write; cbn [so_is_open]; [|destruct (_ && _)]; unfold writes_wf; cbn [m_pending_writes writing drop] in *;
      split_and!; done || constructor.
Qed.

Lemma run_wf ls s : run new_socket ls s -> writes_wf s.
Proof.
  remember new_socket as s0. induction 1 as [|s ls s1 l s2 _ IH Hstep]; [subst; apply new_socket_wf|]. specialize (IH Heqs0).
  destruct Hstep; [by apply write_helper_wf|by eapply write_handler_wf|done].
Qed.

(** What was handed over is sent or remains; a closed socket that has emptied
    its queue has sent a prefix. *)
Definition in_order (s : IPCSocketImpl) (h : list Z) : Prop :=
  s.(sent) ++ remaining s = h /\ (s.(so_is_open) = true \/ s.(writing) = true) \/
  s.(so_is_open) = false /\ s.(m_pending_writes) = [] /\ exists rest, h = s.(sent) ++ rest.

Lemma in_order_prefix s h : in_order s h -> exists rest, h = s.(sent) ++ rest.
Proof. intros [[<- _]|(_ & _ & Hp)]; [by eexists|done]. Qed.

Lemma in_order_write s h : s.(sent) ++ remaining s = h -> in_order (write s) h.
Proof.
  intros <-. unfold write, in_order. destruct (so_is_open s) eqn:E; cbn [so_is_open m_pending_writes sent writing].
  - left. split; [done|by left].
  - right. split_and!; [done..|by eexists].
Qed.

Lemma in_order_helper data callback s h : writes_wf s -> in_order s h -> in_order (write_helper data callback s) (h ++ data).
Proof.
  intros (Hw & _ & _) Hin. unfold write_helper. cbn [m_pending_writes].
  assert (Hrem : forall open wr, sent s ++ remaining (mkSocket open (m_pending_writes s ++ [mkPendingWrite data 0 callback]) wr (sent s)) =
    (sent s ++ remaining s) ++ data).
  { intros. unfold remaining. cbn [m_pending_writes]. rewrite fmap_app, concat_app. cbn. by rewrite app_nil_r, app_assoc. }
  destruct Hin as [[<- Ho]|(Hc & He & rest & ->)].
  - destruct (_ =? 1); [apply in_order_write; apply Hrem|]. left. cbn [sent so_is_open writing]. rewrite Hrem. done.
  - rewrite He, Hc. cbn [app]. change (sizeZ [_] =? 1) with true. cbv iota. right. unfold write. cbn.
    split_and!; [done..|]. exists (rest ++ data). by rewrite app_assoc.
Qed.

Lemma in_order_handler error length closes s w rest called s' h :
  s.(writing) = true -> s.(m_pending_writes) = w :: rest -> reported error length w.(wbuffer) ->
  write_handler error length closes s = Ret (called, s') ->
  write_result error length w s'.(so_is_open) <> GivenUp -> in_order s h -> in_order s' h.
Proof.
  intros Hwr Hp [Hl _] Hrun Hres Hin. assert (Heq : sent s ++ remaining s = h).
  { destruct Hin as [[? _]|(_ & He & _)]; [done|congruence]. }
  clear Hin. subst h. unfold write_handler in Hrun. rewrite Hp in Hrun. injection Hrun as _ <-.
  set (pending := if tries_again _ _ _ then _ else _) in *. unfold remaining. rewrite Hp, fmap_cons. cbn [concat].
  set (open := so_is_open s && _) in *. set (s1 := mkSocket open pending false _) in *.
  rewrite <- (take_drop (Z.to_nat length) (wbuffer w)) at 1. rewrite <- app_assoc, app_assoc.
  change (sent s ++ take (Z.to_nat length) (wbuffer w)) with (sent s1).
  assert (Hopen : so_is_open match pending with [] => s1 | _ => write s1 end = open).
  { destruct pending; [done|]. unfold write. cbn. by destruct open. }
  rewrite Hopen in Hres. unfold write_result in Hres.
  destruct (tries_again error length w) eqn:Ht.
  - unfold pending in *. apply in_order_write. done.
  - assert (Hkept : open = true -> drop (Z.to_nat length) (wbuffer w) = []).
    { intros ->. destruct (Z.ltb_spec length (sizeZ (wbuffer w))); [done|]. apply drop_ge. unfold sizeZ in *. lia. }
    unfold pending in *. destruct rest as [|w2 rest].
    + destruct open eqn:Eo; [left|right].
      * rewrite Hkept by done. split; [done|by left].
      * split_and!; [done..|by eexists].
    + destruct open eqn:Eo.
      * rewrite Hkept by done. apply in_order_write. done.
      * right. unfold write, s1. cbn. split_and!; [done..|by eexists].
Qed.

(** C26. The bytes of a connection leave in order.  Whatever is handed over,
    retried, timed out or closed, at most one write is under way (exactly when
    the queue is not empty), and unless a write is given up while the socket
    stays open, what the kernel has taken is a prefix of what was handed over,
    in order and without a gap or repetition; on an open socket the rest is
    exactly what the queue holds. *)
Theorem writes_in_order ls s : run new_socket ls s ->
  (s.(writing) = true <-> s.(m_pending_writes) <> []) /\
  ((forall called, Handled GivenUp called ∉ ls) ->
   (exists rest, handed ls = s.(sent) ++ rest) /\
   (s.(so_is_open) = true -> handed ls = s.(sent) ++ remaining s)).
Proof.
  intros Hrun. split; [by apply (run_wf _ _ Hrun)|]. intros Hno.
  assert (Hin : in_order s (handed ls)).
  { remember new_socket as s0. induction Hrun as [|s ls s1 l s2 Hrun IH Hstep]; [subst; left; split; [done|by left]|].
    assert (Hin : in_order s1 (handed ls)) by (apply IH; [done|]; intros called Hc; apply (Hno called); set_solver).
    assert (Hh : handed (ls ++ [l]) = handed ls ++ match l with Handed data => data | _ => [] end).
    { unfold handed. rewrite fmap_app, concat_app. cbn. by rewrite app_nil_r. }
    subst s. pose proof (run_wf _ _ Hrun) as Hwf. rewrite Hh. destruct Hstep as [s1 data callback|s1 s2 w rest error len closes called Hwr Hp Hrep Hs|s1].
    - by apply in_order_helper.
    - rewrite app_nil_r. eapply in_order_handler; try done. intros E. apply (Hno called). rewrite E. set_solver.
    - rewrite app_nil_r. destruct Hin as [[Heq Ho]|(Hc & He & Hpre)]; [|by right].
      destruct (m_pending_writes s1) as [|w l] eqn:E.
      + right. cbn. split_and!; [done..|]. exists (remaining s1). by rewrite Heq.
      + left. split; [done|]. right. cbn. apply Hwf. by rewrite E. }
  split; [by apply in_order_prefix|]. intros Ho. by destruct Hin as [[<- _]|(Hc & _)]; [|congruence].
Qed.

(** *** Every write ends *)
Definition attempts_left (s : IPCSocketImpl) : Z :=
  foldr (fun w n => MAX_WRITE_RETRIES + 1 - w.(wretries) + n) 0 s.(m_pending_writes).

(** A write is tried at most six times: every call of the write handler
    uses up one of the attempts that are left to the entries of the queue,
    which is empty when none is left. *)
Theorem writes_end ls s error length closes called s' :
  run new_socket ls s -> write_handler error length closes s = Ret (called, s') ->
  0 <= attempts_left s' < attempts_left s /\ (attempts_left s' = 0 <-> s'.(m_pending_writes) = []).
Proof.
  intros Hrun%run_wf Hs. pose proof (write_handler_wf _ _ _ _ _ _ Hrun Hs) as (_ & Hr' & _).
  destruct Hrun as (_ & Hr & _). assert (Hpos : forall l : list PendingWrite, Forall (fun w => 0 <= w.(wretries) <= MAX_WRITE_RETRIES) l ->
    0 <= foldr (fun w n => MAX_WRITE_RETRIES + 1 - w.(wretries) + n) 0 l /\
    (foldr (fun w n => MAX_WRITE_RETRIES + 1 - w.(wretries) + n) 0 l = 0 <-> l = [])).
  { induction 1 as [|w l Hw _ [IH _]]; [done|]. cbn. split; [lia|]. split; [lia|done]. }
  destruct (Hpos _ Hr') as [H0 H1]. split; [|done]. split; [done|]. clear Hr' H0 H1. unfold write_handler in Hs.
  unfold attempts_left. destruct (m_pending_writes s) as [|w rest]; [done|]. injection Hs as _ <-. apply Forall_cons in Hr as [Hw Hr].
  destruct (Hpos _ Hr) as [H0 _]. cbn [foldr]. destruct (tries_again error length w) eqn:Ht.
  - assert (Hlt : wretries w < MAX_WRITE_RETRIES) by (unfold tries_again in Ht; lia). clear Ht.
    unfold write. cbn [so_is_open]. destruct (_ && _); cbn [m_pending_writes foldr wretries]; [|lia].
    unfold u8. rewrite Z.mod_small; unfold MAX_WRITE_RETRIES in *; lia.
  - destruct rest as [|w2 rest]; [cbn [m_pending_writes foldr]; lia|]. unfold write. cbn [so_is_open].
    destruct (_ && _); cbn [m_pending_writes foldr] in *; lia.
Qed.
End Writes.

(** ** Samples: a write that fails after one byte and is tried again. *)
Definition sample_run : list (label (C := nat)) :=
  [Handed (str "abc"); Handed (str "de"); Handled Retried (Some 1%nat); Handled Finished (Some 1%nat)].

Definition sample_socket : IPCSocketImpl (C := nat) :=
  mkSocket true [mkPendingWrite (str "de") 0 2%nat] true (str "abc").

Definition first_try : IPCSocketImpl (C := nat) :=
  mkSocket true [mkPendingWrite (str "abc") 0 1%nat; mkPendingWrite (str "de") 0 2%nat] true [].
Definition second_try : IPCSocketImpl (C := nat) :=
  mkSocket true [mkPendingWrite (str "bc") 1 1%nat; mkPendingWrite (str "de") 0 2%nat] true (str "a").

Lemma sample_retry : step first_try (Handled Retried (Some 1%nat)) second_try.
Proof.
  apply (step_handler first_try second_try (mkPendingWrite (str "abc") 0 1%nat) [mkPendingWrite (str "de") 0 2%nat] OtherError 1 false);
    [reflexivity | reflexivity | by repeat split | reflexivity].
Qed.

Lemma sample_end : step second_try (Handled Finished (Some 1%nat)) sample_socket.
Proof.
  apply (step_handler second_try sample_socket (mkPendingWrite (str "bc") 1 1%nat) [mkPendingWrite (str "de") 0 2%nat] NoError 2 false);
    [reflexivity | reflexivity | by repeat split | reflexivity].
Qed.

Lemma sample_socket_runs : run new_socket sample_run sample_socket.
Proof.
  apply (run_snoc new_socket [Handed (str "abc"); Handed (str "de"); Handled Retried (Some 1%nat)] second_try); [|apply sample_end].
  apply (run_snoc new_socket [Handed (str "abc"); Handed (str "de")] first_try); [|apply sample_retry].
  apply (run_snoc new_socket [Handed (str "abc")] (mkSocket true [mkPendingWrite (str "abc") 0 1%nat] true []));
    [|exact (step_write _ (str "de") 2%nat)].
  apply (run_snoc new_socket [] new_socket); [constructor | exact (step_write new_socket (str "abc") 1%nat)].
Qed.

Lemma writes_in_order_witness :
  (sample_socket.(writing) = true <-> sample_socket.(m_pending_writes) <> []) /\
  (exists rest, str "abcde" = sample_socket.(sent) ++ rest) /\ str "abcde" = sample_socket.(sent) ++ remaining sample_socket.
Proof.
  destruct (writes_in_order sample_run sample_socket sample_socket_runs) as [Hw Hrest]. split; [exact Hw|].
  destruct Hrest as [Hp Hr]; [intros called Hc; repeat (apply elem_of_cons in Hc as [Hc|Hc]; [discriminate Hc|]); by apply elem_of_nil in Hc|].
  exact (conj Hp (Hr eq_refl)).
Defined.

Lemma writes_end_witness :
  exists s', write_handler OtherError 0 false sample_socket = Ret (Some 2%nat, s') /\
    0 <= attempts_left s' < attempts_left sample_socket /\ (attempts_left s' = 0 <-> s'.(m_pending_writes) = []).
Proof.
  eexists. split; [reflexivity|]. apply (writes_end sample_run sample_socket OtherError 0 false (Some 2%nat)).
  - apply sample_socket_runs.
  - reflexivity.
Defined.
