(* ===== verification/HttpService.v ===== *)
(** * restbed: resources, routing and dispatch (resource.cpp, rule.cpp,
      service.cpp, detail/service_impl.cpp, detail/rule_engine_impl.hpp)

    [publish] builds the maps of a service; [parse_request] reads a request
    from the buffer of a session and hands it to [router], which chooses the
    resource by the folders of the path and the handler by the method.  The
    session manager is the default one, whose [create], [load] and [save] only
    call back. *)
From S2P Require Import Prelude Decimal Types Doubles Regex Multimap HttpString Uri HttpRequest HttpResponse HttpSession.

(** ** The rule engine *)
Section RuleEngine.
Variables S R : Type.

Record Rule := mkRule { priority : Z; condition : S -> bool; action : S -> (S -> R) -> R }.

(** The index of the source is the position in the list. *)
Fixpoint rule_engine (session : S) (rules : list Rule) (callback : S -> R) : R :=
  match rules with
  | [] => callback session
  | rule :: rules =>
      if rule.(condition) session then rule.(action) session (fun session => rule_engine session rules callback)
      else rule_engine session rules callback
  end.
End RuleEngine.
Arguments mkRule {S R}.
Arguments priority {S R}.
Arguments condition {S R}.
Arguments action {S R}.
Arguments rule_engine {S R}.

(** ** Paths *)

(** [inl] is the message of the exception for a malformed declaration. *)
Fixpoint sanitise_folders (sanitised_path : list Z) (folders : list (list Z)) : list Z + list Z :=
  match folders with
  | [] => inr sanitised_path
  | folder :: folders =>
      match head folder, last folder with
      | Some 123, Some 125 =>
          match regex_match false (pattern "^\{[a-zA-Z0-9_\-]+: ?(.*)\}$") folder with
          | None => inl (str "Resource path parameter declaration is malformed '" ++ folder ++ str "'.")
          | Some matches => sanitise_folders (sanitised_path ++ 47 :: group 1 matches) folders
          end
      | _, _ => sanitise_folders (sanitised_path ++ 47 :: folder) folders
      end
  end.

Definition sanitise_path (path : list Z) : list Z + list Z :=
  if bytes_eqb path (str "/") then inr path
  else
    match sanitise_folders [] (split path 47) with
    | inr sanitised_path => inr (sanitised_path ++ match last path with Some 47 => [47] | _ => [] end)
    | inl message => inl message
    end.

(** The loop over the folders: [None] when a folder of the route is no regular
    expression. *)
Fixpoint match_folders (case_insensitive : bool) (path_folders route_folders : list (list Z)) : option bool :=
  match path_folders, route_folders with
  | p :: path_folders, r :: route_folders =>
      match compile r with
      | None => None
      | Some expression =>
          if regex_match case_insensitive expression p is Some _ then
            match path_folders with [] => Some true | _ => match_folders case_insensitive path_folders route_folders end
          else Some false
      end
  | _, _ => Some false
  end.

Definition resource_router (settings : SettingsImpl) (path route : list Z) : option bool :=
  let path_folders := split path 47 in
  let route_folders := split (settings.(st_root) ++ str "/" ++ route) 47 in
  match path_folders, route_folders with
  | [], [] => Some true
  | _, _ =>
      if (List.length path_folders =? List.length route_folders)%nat
      then match_folders settings.(st_case_insensitive_uris) path_folders route_folders
      else Some false
  end.

(** [find_if] over the routes. *)
Fixpoint find_route {B} (settings : SettingsImpl) (path : list Z) (routes : list (list Z * B)) : option (option (list Z * B)) :=
  match routes with
  | [] => Some None
  | (route, resource) :: routes =>
      match resource_router settings path route with
      | None => None
      | Some true => Some (Some (route, resource))
      | Some false => find_route settings path routes
      end
  end.

(** [insert] of a map: an entry that is there stays. *)
Definition map_insert (k v : list Z) (m : list (list Z * list Z)) : list (list Z * list Z) :=
  match map_get k m with Some _ => m | None => mm_insert k v m end.

Fixpoint path_parameters (folders declarations : list (list Z)) (m : list (list Z * list Z)) : list (list Z * list Z) :=
  match folders, declarations with
  | folder :: folders, declaration :: declarations =>
      let m :=
        match head declaration, last declaration with
        | Some 123, Some 125 =>
            let name := match regex_match false (pattern "^\{([a-zA-Z0-9_\-]+): ?.*\}$") declaration with
                        | Some matches => group 1 matches | None => [] end in
            map_insert name folder m
        | _, _ => m
        end in
      path_parameters folders declarations m
  | _, _ => m
  end.

Definition extract_path_parameters (settings : SettingsImpl) (declared : list Z) (request : RequestImpl) : RequestImpl :=
  with_path_parameters
    (path_parameters (split request.(m_path) 47) (split (settings.(st_root) ++ str "/" ++ declared) 47) []) request.

Section Service.
Context {W A : Type} `{Transport W}.

(** ** ResourceImpl *)
Record ResourceImpl := mkResource {
  m_paths : list (list Z);
  m_methods : list (list Z);
  m_rules : list (Rule (Context W A) (reply W A));
  m_default_headers : list (list Z * list Z);
  m_failed_filter_handler : option (handler W A);
  m_resource_authentication : option (Context W A -> handler W A -> reply W A);
  m_method_handlers : list (list Z * (list (list Z * list Z) * handler W A)) }.

Definition new_Resource : ResourceImpl := mkResource [] [] [] [] None None [].

(** [insert] of a set. *)
Definition set_insert (k : list Z) (s : list (list Z)) : list (list Z) :=
  if decide (k ∈ s) then s else fst <$> mm_insert k tt ((fun k => (k, tt)) <$> s).

Definition set_path (value : list Z) (r : ResourceImpl) : ResourceImpl :=
  mkResource [value] r.(m_methods) r.(m_rules) r.(m_default_headers) r.(m_failed_filter_handler)
    r.(m_resource_authentication) r.(m_method_handlers).

Fixpoint insert_rule (rule : Rule (Context W A) (reply W A)) (rules : list (Rule (Context W A) (reply W A))) : list (Rule (Context W A) (reply W A)) :=
  match rules with
  | [] => [rule]
  | r :: rules' => if rule.(priority) <? r.(priority) then rule :: rules else r :: insert_rule rule rules'
  end.

(** [stable_sort] by priority. *)
Definition sort_rules (rules : list (Rule (Context W A) (reply W A))) : list (Rule (Context W A) (reply W A)) :=
  fold_left (fun sorted rule => insert_rule rule sorted) rules [].

Definition add_resource_rule (rule : Rule (Context W A) (reply W A)) (r : ResourceImpl) : ResourceImpl :=
  mkResource r.(m_paths) r.(m_methods) (sort_rules (r.(m_rules) ++ [rule])) r.(m_default_headers)
    r.(m_failed_filter_handler) r.(m_resource_authentication) r.(m_method_handlers).

Definition set_method_handler_filtered (method : list Z) (filters : list (list Z * list Z)) (callback : handler W A)
    (r : ResourceImpl) : outcome ResourceImpl :=
  match method with
  | [] => Throw InvalidArgument
  | _ => Ret (mkResource r.(m_paths) (set_insert method r.(m_methods)) r.(m_rules) r.(m_default_headers)
                r.(m_failed_filter_handler) r.(m_resource_authentication)
                (mm_insert method (filters, callback) r.(m_method_handlers)))
  end.

Definition set_method_handler (method : list Z) (callback : handler W A) (r : ResourceImpl) : outcome ResourceImpl :=
  set_method_handler_filtered method [] callback r.

(** ** ServiceImpl *)
Record ServiceImpl := mkServiceImpl {
  sv_is_up : bool;
  sv_rules : list (Rule (Context W A) (reply W A));
  sv_resource_paths : list (list Z * list Z);
  sv_resource_routes : list (list Z * ResourceImpl);
  sv_supported_methods : list (list Z);
  sv_not_found : option (handler W A);
  sv_method_not_allowed : option (handler W A);
  sv_method_not_implemented : option (handler W A);
  sv_failed_filter_validation : option (handler W A);
  sv_authentication : option (Context W A -> handler W A -> reply W A) }.

Definition new_Service : ServiceImpl := mkServiceImpl false [] [] [] [] None None None None None.

Definition has_unique_paths (s : ServiceImpl) (paths : list (list Z)) : bool :=
  match paths with
  | [] => false
  | _ => forallb (fun path => bool_decide (map_get path s.(sv_resource_routes) = None)) paths
  end.

Definition with_routes (up : bool) (paths : list (list Z * list Z)) (routes : list (list Z * ResourceImpl))
    (methods : list (list Z)) (s : ServiceImpl) : ServiceImpl :=
  mkServiceImpl up s.(sv_rules) paths routes methods s.(sv_not_found) s.(sv_method_not_allowed)
    s.(sv_method_not_implemented) s.(sv_failed_filter_validation) s.(sv_authentication).

Fixpoint publish_paths (paths : list (list Z)) (resource : ResourceImpl) (s : ServiceImpl) : list Z + ServiceImpl :=
  match paths with
  | [] => inr s
  | path :: paths =>
      match sanitise_path path with
      | inl message => inl message
      | inr sanitised_path =>
          publish_paths paths resource
            (with_routes s.(sv_is_up) (map_set sanitised_path path s.(sv_resource_paths))
               (map_set sanitised_path resource s.(sv_resource_routes)) s.(sv_supported_methods) s)
      end
  end.

(** [inl] is what [publish] throws. *)
Definition publish (resource : ResourceImpl) (s : ServiceImpl) : http_exception + ServiceImpl :=
  if s.(sv_is_up) then inl (RuntimeError (str "Runtime modifications of the service are prohibited."))
  else if negb (has_unique_paths s resource.(m_paths)) then
    inl (OtherException (str "Resource would pollute namespace. Please ensure all published resources have unique paths."))
  else
    match publish_paths resource.(m_paths) resource s with
    | inl message => inl (RuntimeError message)
    | inr s =>
        inr (with_routes s.(sv_is_up) s.(sv_resource_paths) s.(sv_resource_routes)
               (fold_left (fun set method => set_insert method set) resource.(m_methods) s.(sv_supported_methods)) s)
    end.

(** [suppress]: the routes are erased by the paths of the resource. *)
Definition suppress (resource : ResourceImpl) (s : ServiceImpl) : http_exception + ServiceImpl :=
  if s.(sv_is_up) then inl (RuntimeError (str "Runtime modifications of the service are prohibited."))
  else inr (with_routes s.(sv_is_up) s.(sv_resource_paths)
              (fold_left (fun routes path => mm_erase path routes) resource.(m_paths) s.(sv_resource_routes))
              s.(sv_supported_methods) s).

(** The part of [start] before the sockets are opened. *)
Definition start (s : ServiceImpl) : ServiceImpl :=
  mkServiceImpl true (sort_rules s.(sv_rules)) s.(sv_resource_paths) s.(sv_resource_routes) s.(sv_supported_methods)
    s.(sv_not_found) s.(sv_method_not_allowed) s.(sv_method_not_implemented) s.(sv_failed_filter_validation) s.(sv_authentication).

(** ** Dispatch *)
Section Dispatch.
Variable settings : SettingsImpl.
Variable service : ServiceImpl.
Variable what : cpp_exception -> list Z.
Variable error_message : W -> list Z.
(** [what()] of a [regex_error]. *)
Variable regex_what : list Z.

Definition not_found : handler W A :=
  default (fun c => close settings 404 [] [] c) service.(sv_not_found).
Definition method_not_allowed : handler W A :=
  default (fun c => close settings 405 [] [] c) service.(sv_method_not_allowed).
Definition method_not_implemented : handler W A :=
  default (fun c => close settings 501 [] [] c) service.(sv_method_not_implemented).
Definition failed_filter_validation : handler W A :=
  default (fun c => close settings 400 [] [(str "Connection", str "close")] c) service.(sv_failed_filter_validation).

(** The filters of one method handler on the headers of the request: [None]
    when a filter is no regular expression. *)
Fixpoint filters_pass (filters : list (list Z * list Z)) (request : RequestImpl) : option bool :=
  match filters with
  | [] => Some true
  | (name, filter) :: filters =>
      match get_parameters name request.(m_headers) with
      | [] => filters_pass filters request
      | headers =>
          match compile filter with
          | None => None
          | Some expression =>
              match filters_pass filters request with
              | Some rest => Some (forallb (fun h => if regex_match false expression h.2 is Some _ then true else false) headers && rest)
              | None => None
              end
          end
      end
  end.

(** The first handler of the method whose filters pass; the flag says whether
    a filter failed. *)
Fixpoint first_passing (handlers : list (list (list Z * list Z) * handler W A)) (request : RequestImpl) (failed : bool)
  : option (option (handler W A) * bool) :=
  match handlers with
  | [] => Some (None, failed)
  | (filters, callback) :: handlers =>
      match filters_pass filters request with
      | None => None
      | Some true => Some (Some callback, failed)
      | Some false => first_passing handlers request true
      end
  end.

Definition find_method_handler (resource : ResourceImpl) (request : RequestImpl) : option (option (handler W A)) :=
  match first_passing (mm_equal_range request.(m_method) resource.(m_method_handlers)) request false with
  | None => None
  | Some (Some callback, _) => Some (Some callback)
  | Some (None, true) => Some (Some (default failed_filter_validation resource.(m_failed_filter_handler)))
  | Some (None, false) => Some None
  end.

(** The [catch] clauses of [parse_request]: the rest of the head is discarded
    and the error handler is called with the status. *)
Definition discard (c : Context W A) : Context W A :=
  with_session (fun s => set_buffer (discard_request s.(m_buffer)) s) c.

Definition catch (e : http_exception) : handler W A := fun c =>
  match e with
  | StatusCode code => default_error_handler settings code (get_status_message settings code) (discard c)
  | RegexError w => default_error_handler settings 500 w (discard c)
  | RuntimeError w => default_error_handler settings 400 w (discard c)
  | OtherException w => default_error_handler settings 500 w (discard c)
  end.

(** The last callback of [router]: the handler of the method. *)
Definition call_method (resource : ResourceImpl) : handler W A := fun c =>
  if negb c.(session).(m_is_open) then Ret (Unanswered, c)
  else
    let request := c.(session).(m_request) in
    match find_method_handler resource request with
    | None => catch (RegexError regex_what) c
    | Some (Some method_handler) => method_handler c
    | Some None =>
        if decide (request.(m_method) ∈ service.(sv_supported_methods)) then method_not_allowed c
        else method_not_implemented c
    end.

(** The callback of the service's rules. *)
Definition route_request : handler W A := fun c =>
  match find_route settings c.(session).(m_request).(m_path) service.(sv_resource_routes) with
  | None => catch (RegexError regex_what) c
  | Some None => not_found c
  | Some (Some (path, resource)) =>
      let declared := default [] (map_get path service.(sv_resource_paths)) in
      let c := with_session (fun s =>
                 set_request (extract_path_parameters settings declared s.(m_request))
                   (set_resource resource.(m_default_headers) s)) c in
      let callback := fun c => rule_engine c resource.(m_rules) (call_method resource) in
      match resource.(m_resource_authentication) with
      | Some authentication => authentication c callback
      | None => callback c
      end
  end.

Definition router : handler W A := fun c =>
  if negb c.(session).(m_is_open) then Ret (Unanswered, c) else rule_engine c service.(sv_rules) route_request.

Definition authenticate : handler W A := fun c =>
  match service.(sv_authentication) with
  | Some authentication => authentication c router
  | None => router c
  end.

(** [parse_request] after a read that ended with [ok]. *)
Definition parse_request (ok : bool) : handler W A := fun c =>
  if negb ok then default_error_handler settings 400 (error_message c.(net)) (discard c)
  else
    let* (request, rest) := read_request c.(session).(m_buffer) c.(session).(m_request) in
    let c := with_session (set_buffer rest) c in
    match request with
    | inl e => catch e c
    | inr request =>
        let c := with_session (set_request request) c in
        match authenticate c with
        | Throw e => catch (OtherException (what e)) c
        | r => r
        end
    end.

(** One round of a connection: the head of a request is read, then parsed. *)
Definition serve_request : handler W A := fun c =>
  let '(ok, buffer, w) := read_until CRLFCRLF c.(session).(m_buffer) c.(net) in
  let s := set_buffer buffer c.(session) in
  parse_request ok (mkContext (if ok then s else set_open false s) w c.(app)).

(** The rounds of a connection, with what was written in each, until it is
    closed or [fuel] rounds are over. *)
Fixpoint serve (fuel : nat) (c : Context W A) : outcome (list exchange * Context W A) :=
  match fuel with
  | O => Ret ([], c)
  | S fuel =>
      let* (e, c) := serve_request c in
      match e with
      | Answered _ true => let* (es, c) := serve fuel c in Ret (e :: es, c)
      | _ => Ret ([e], c)
      end
  end.
End Dispatch.
End Service.
Arguments ResourceImpl : clear implicits.
Arguments ServiceImpl : clear implicits.

(** ** Routes of one plain folder *)
Definition plain_name (name : list Z) : Prop :=
  compile name = Some (literal name) /\ Forall not_upper name /\ name <> [] /\ ~ In 47 name.

(** A path leads to such a route when it has one folder, equal up to case. *)
Definition leads_to (path name : list Z) : Prop :=
  exists folder, split path 47 = [folder] /\ lowercase folder = name.

#[export] Instance leads_to_dec path name : Decision (leads_to path name).
Proof.
  unfold leads_to. destruct (split path 47) as [|f [|g fs]].
  - right. by intros (? & ? & _).
  - destruct (decide (lowercase f = name)); [left; by exists f|]. right. by intros (? & [= <-] & ?).
  - right. by intros (? & ? & _).
Defined.

Lemma resource_router_plain settings path name :
  settings.(st_root) = str "/" -> settings.(st_case_insensitive_uris) = true -> plain_name name ->
  resource_router settings path (47 :: name) = Some (bool_decide (leads_to path name)).
Proof.
  intros Hroot Hcase (Hc & Hu & Hne & Hsl). unfold resource_router. rewrite Hroot, Hcase.
  change (str "/" ++ str "/" ++ 47 :: name) with ([] ++ 47 :: [] ++ 47 :: [] ++ 47 :: name).
  rewrite !split_cons by (intros []). rewrite (split_last name) by done. assert (token name = [name]) as -> by by destruct name.
  cbn [token]. rewrite !app_nil_l.
  destruct (split path 47) as [|f [|g fs]] eqn:E; cbn [List.length Nat.eqb].
  - rewrite bool_decide_false; [done|]. intros (f & Hf & _). congruence.
  - cbn [match_folders]. rewrite Hc. pose proof (match_literal name f Hu) as Hm.
    assert (Hl : leads_to path name <-> lowercase f = name).
    { unfold leads_to. rewrite E. split; [by intros (? & [= <-] & ?) | by exists f]. }
    rewrite (bool_decide_ext _ _ Hl). unfold lowercase. by destruct (regex_match true (literal name) f); rewrite <- Hm.
  - rewrite bool_decide_false; [done|]. intros (f' & Hf & _). congruence.
Qed.

(** ** Publishing a path twice *)

(** Paths are compared as they are declared with the keys of the map, which
    are sanitised: of two resources on one path without parameters the second
    is refused, but one on a path with a parameter replaces the first without a
    word, and [suppress] leaves it in place. *)
Lemma duplicate_paths {W A : Type} (plain1 plain2 with1 with2 : ResourceImpl W A) :
  m_paths plain1 = [str "/payments"] -> m_paths plain2 = [str "/payments"] ->
  m_paths with1 = [str "/{id: [0-9]+}"] -> m_paths with2 = [str "/{id: [0-9]+}"] ->
  (exists s1 e, publish plain1 new_Service = inr s1 /\ publish plain2 s1 = inl e) /\
  (exists s1 s2 s3, publish with1 new_Service = inr s1 /\ publish with2 s1 = inr s2 /\
     sv_resource_routes s2 = [(str "/[0-9]+", with2)] /\ suppress with2 s2 = inr s3 /\ sv_resource_routes s3 = sv_resource_routes s2).
Proof.
  intros H1 H2 H3 H4. unfold publish, suppress. cbn [sv_is_up new_Service with_routes]. rewrite H1, H2, H3, H4.
  split; [eexists _, _; by repeat split | eexists _, _, _; by repeat split].
Qed.
