(* ===== verification/Endpoint.v ===== *)
(** * main: the routes and their handlers over HTTP (main.cpp)

    The handlers of the four resources as [main] publishes them: they take the
    request's parameters from the session, run the operations of the other
    files on the state of the program and answer through the session.  [App] is
    that state: the server with its queues and buckets, the serialiser's
    string buffer and the profiler. *)
From S2P Require Import Prelude Decimal Types Doubles Calendar WorkerQueue Processed Routing Payload Processing Service PostHandler.
From S2P Require Import StringBuffer SummaryHandler Profiler.
From S2P Require Import Regex Multimap HttpString Uri HttpRequest HttpResponse HttpSession HttpService.

Record App := mkApp { server : Server; buffer : Stack; profiler : Profiler }.

Section Program.
Context {W : Type} `{Transport W}.
Variable settings : SettingsImpl.
Variable what : cpp_exception -> list Z.
Variable error_message : W -> list Z.
Variable regex_what : list Z.
(** As in SummaryHandler.v, and the text of [get_local_time] and the
    iteration order of the profiler's map. *)
Variable getenv : list Z -> option (list Z).
Variable easy_get : list Z -> option (bool * Z * list (list Z)).
Variable local_time : list Z.
Variable feature_order : list (list Z).

Definition no_content : list (list Z * list Z) := [(str "Content-Length", str "0")].

(** [post_payment_handler]: [length] is the [int] converted to [size_t]; the
    callback is the operation of Service.v. *)
Definition post_payment_endpoint : handler W App := fun c =>
  let length := u64 (get_header_int c.(session).(m_request) (str "Content-Length") 0) in
  fetch settings what error_message length (fun body c =>
    let* (_, srv) := post_payment_handler body c.(app).(server) in
    yield settings 202 [] no_content (with_app (mkApp srv c.(app).(buffer) c.(app).(profiler)) c)) c.

(** [payments_summary_handler] *)
Definition payments_summary_endpoint : handler W App := fun c =>
  let request := c.(session).(m_request) in
  let* (sb, r) := payments_summary_handler getenv (get_query_parameter request) easy_get
                    c.(app).(server).(service).(processed) c.(app).(buffer) in
  close settings r.(status) r.(body) r.(headers) (with_app (mkApp c.(app).(server) sb c.(app).(profiler)) c).

(** [profiler_handler] *)
Definition profiler_endpoint : handler W App := fun c =>
  let* (text, p) := get_profiler_result local_time feature_order c.(app).(profiler) in
  close settings 200 text
    [(str "Content-Type", str "text/plain"); (str "Content-Length", dec (sizeZ text)); (str "Connection", str "close")]
    (with_app (mkApp c.(app).(server) c.(app).(buffer) p) c).

(** [purger_handler] *)
Definition purger_endpoint : handler W App := yield settings 200 [] no_content.

(** ** main *)
Definition resource_of (path method : list Z) (callback : handler W App) : ResourceImpl W App :=
  match set_method_handler method callback (set_path path new_Resource) with
  | Ret r => r
  | _ => new_Resource
  end.

Definition payments : ResourceImpl W App := resource_of (str "/payments") (str "POST") post_payment_endpoint.
Definition summary : ResourceImpl W App := resource_of (str "/payments-summary") (str "GET") payments_summary_endpoint.
Definition profiler_resource : ResourceImpl W App := resource_of (str "/profiler") (str "GET") profiler_endpoint.
Definition purger : ResourceImpl W App := resource_of (str "/purge-payments") (str "POST") purger_endpoint.

(** The four calls of [publish] and [start]. *)
Definition publish_all (rs : list (ResourceImpl W App)) : http_exception + ServiceImpl W App :=
  fold_left (fun s r => match s with inr s => publish r s | inl e => inl e end) rs (inr new_Service).

Definition rest_service : ServiceImpl W App :=
  match publish_all [payments; summary; profiler_resource; purger] with
  | inr s => start s
  | inl _ => new_Service
  end.
End Program.

(** The settings of [main]; [concurrency] and [socket] come from the
    environment. *)
Definition main_settings (socket : list Z) (concurrency : Z) : SettingsImpl :=
  set_connection_timeout 360 (set_default_header (str "Connection") (str "keep-alive") (set_keep_alive true
    (set_worker_limit concurrency (set_ipc_path socket (set_port 8080 new_Settings))))).

(** ** Dispatch *)
Inductive route := Payments | Summary | ProfilerRoute | Purge.

Definition route_name (r : route) : list Z :=
  match r with
  | Payments => str "payments" | Summary => str "payments-summary"
  | ProfilerRoute => str "profiler" | Purge => str "purge-payments"
  end.

Definition route_method (r : route) : list Z :=
  match r with Payments | Purge => str "POST" | Summary | ProfilerRoute => str "GET" end.

(** The route a path leads to. *)
Definition route_of (path : list Z) : option route :=
  List.find (fun r => bool_decide (leads_to path (route_name r))) [Payments; Summary; ProfilerRoute; Purge].

Lemma route_name_plain r : plain_name (route_name r).
Proof.
  unfold plain_name. split_and!; [by destruct r| |by destruct r|].
  - assert (Hr : forallb (fun c => negb ((65 <=? c) && (c <=? 90))) (route_name r) = true) by by destruct r.
    rewrite forallb_forall in Hr. apply List.Forall_forall. intros c Hc%Hr. unfold not_upper. lia.
  - destruct r; vm_compute; intuition discriminate.
Qed.

Section Dispatch.
Context {W : Type} `{Transport W}.
Variable settings : SettingsImpl.
Variable what : cpp_exception -> list Z.
Variable error_message : W -> list Z.
Variable regex_what : list Z.
Variable getenv : list Z -> option (list Z).
Variable easy_get : list Z -> option (bool * Z * list (list Z)).
Variable local_time : list Z.
Variable feature_order : list (list Z).

Let the_service := rest_service settings what error_message getenv easy_get local_time feature_order.

Definition endpoint (r : route) : handler W App :=
  match r with
  | Payments => post_payment_endpoint settings what error_message
  | Summary => payments_summary_endpoint settings getenv easy_get
  | ProfilerRoute => profiler_endpoint settings local_time feature_order
  | Purge => purger_endpoint settings
  end.

Definition resource (r : route) : ResourceImpl W App :=
  match r with
  | Payments => payments settings what error_message
  | Summary => summary settings getenv easy_get
  | ProfilerRoute => profiler_resource settings local_time feature_order
  | Purge => purger settings
  end.

Lemma rest_service_routes :
  sv_resource_routes the_service = (fun r => (47 :: route_name r, resource r)) <$> [Payments; Summary; ProfilerRoute; Purge] /\
  sv_supported_methods the_service = [str "GET"; str "POST"].
Proof. split; reflexivity. Qed.

Lemma resource_handlers r request :
  find_method_handler settings the_service (resource r) request =
  Some (if decide (request.(m_method) = route_method r) then Some (endpoint r) else None).
Proof.
  unfold find_method_handler.
  assert (Hh : mm_equal_range request.(m_method) (m_method_handlers (resource r)) =
    if decide (request.(m_method) = route_method r) then [([], endpoint r)] else []).
  { assert (Hm : m_method_handlers (resource r) = [(route_method r, ([], endpoint r))]) by by destruct r.
    rewrite Hm. unfold mm_equal_range. rewrite filter_cons, filter_nil. cbn [fst].
    repeat case_decide; congruence || done. }
  rewrite Hh. by case_decide.
Qed.

(** Where the request of a session goes. *)
Definition with_route (r : route) (c : Context W App) : Context W App :=
  with_session (fun s => set_request (with_path_parameters [] s.(m_request)) (set_resource [] s)) c.

Definition dispatched (c : Context W App) : reply W App :=
  match route_of c.(session).(m_request).(m_path) with
  | None => close_open settings (response_of 404 [] []) c
  | Some r =>
      let c := with_route r c in
      if decide (c.(session).(m_request).(m_method) = route_method r) then endpoint r c
      else if decide (c.(session).(m_request).(m_method) ∈ [str "GET"; str "POST"])
      then close_open settings (response_of 405 [] []) c
      else close_open settings (response_of 501 [] []) c
  end.

Lemma find_route_table path (l : list route) :
  settings.(st_root) = str "/" -> settings.(st_case_insensitive_uris) = true ->
  find_route settings path ((fun r => (47 :: route_name r, resource r)) <$> l) =
  Some ((fun r => (47 :: route_name r, resource r)) <$> List.find (fun r => bool_decide (leads_to path (route_name r))) l).
Proof.
  intros Hroot Hcase. induction l as [|r l IH]; [done|]. rewrite fmap_cons. cbn [find_route List.find].
  rewrite resource_router_plain by (done || apply route_name_plain). by case_bool_decide.
Qed.

Lemma no_path_parameters r request : settings.(st_root) = str "/" -> leads_to request.(m_path) (route_name r) ->
  extract_path_parameters settings (default [] (map_get (47 :: route_name r) (sv_resource_paths the_service))) request =
  with_path_parameters [] request.
Proof.
  intros Hroot (folder & Hf & _). unfold extract_path_parameters. rewrite Hroot, Hf.
  assert (Hd : split (str "/" ++ str "/" ++ default [] (map_get (47 :: route_name r) (sv_resource_paths the_service))) 47 = [route_name r])
    by by destruct r.
  rewrite Hd. cbn [path_parameters]. by destruct r.
Qed.

(** C15. The routes of the program.  A request goes by the folders of its path,
    their case aside: [/payments], [/payments-summary], [/profiler] and
    [/purge-payments] reach their handler with their method, are answered 405
    with the other of GET and POST and 501 with any other method; every other
    path is answered 404.  No rule, filter or authentication is on the way. *)
Theorem dispatch_table c : settings.(st_root) = str "/" -> settings.(st_case_insensitive_uris) = true ->
  c.(session).(m_is_open) = true ->
  authenticate settings the_service regex_what c = dispatched c.
Proof.
  intros Hroot Hcase Hopen. destruct rest_service_routes as [Hroutes Hmethods].
  unfold authenticate, router, route_request. change (sv_authentication the_service) with (@None (Context W App -> handler W App -> reply W App)).
  rewrite Hopen. change (sv_rules the_service) with (@nil (Rule (Context W App) (reply W App))). cbn [negb rule_engine].
  fold the_service in Hroutes, Hmethods. rewrite Hroutes, find_route_table by done. unfold dispatched, route_of.
  destruct (List.find _ _) as [r|] eqn:E; cbn [fmap option_fmap option_map].
  - apply find_some in E as [_ Hr%bool_decide_eq_true].
    assert (m_resource_authentication (resource r) = None) as -> by by destruct r.
    assert (m_rules (resource r) = []) as -> by by destruct r. cbn [rule_engine].
    assert (m_default_headers (resource r) = []) as -> by by destruct r.
    assert (with_session (fun s => set_request (extract_path_parameters settings
      (default [] (map_get (47 :: route_name r) (sv_resource_paths the_service))) (m_request s)) (set_resource [] s)) c = with_route r c) as ->.
    { unfold with_route, with_session. f_equal. by rewrite no_path_parameters. }
    unfold call_method. assert (m_is_open (session (with_route r c)) = true) as Hop by done. rewrite Hop. cbn [negb].
    rewrite resource_handlers. fold the_service in Hmethods. rewrite Hmethods.
    case_decide; [done|]. unfold method_not_allowed, method_not_implemented.
    assert (sv_method_not_allowed the_service = None) as -> by done.
    assert (sv_method_not_implemented the_service = None) as -> by done.
    cbn [default]. unfold close. by rewrite Hop.
  - unfold not_found. assert (sv_not_found the_service = None) as -> by done. cbn [default]. unfold close. by rewrite Hopen.
Qed.
End Dispatch.

Definition sample_dispatch (method path : list Z) : Context (list (list Z)) App :=
  mkContext (set_request (mkRequest [] 80 version_1_1 [] path method (str "HTTP") None [] [] []) new_session) []
    (mkApp (new_server sample_service) new_StringBuffer no_profiler).

Lemma dispatch_table_witness :
  authenticate (main_settings (str "/tmp/s") 4) (rest_service (main_settings (str "/tmp/s") 4) (fun _ => []) (fun _ => [])
      (fun _ => None) (fun _ => None) [] []) [] (sample_dispatch (str "PUT") (str "//Payments/")) =
    dispatched (main_settings (str "/tmp/s") 4) (fun _ => []) (fun _ => []) (fun _ => None) (fun _ => None) [] [] (sample_dispatch (str "PUT") (str "//Payments/")) /\
  route_of (str "//Payments/") = Some Payments /\ route_of (str "/payments/1") = None.
Proof.
  split; [|split; vm_compute; reflexivity].
  apply (dispatch_table (main_settings (str "/tmp/s") 4) (fun _ => []) (fun _ => []) [] (fun _ => None) (fun _ => None) [] []
    (sample_dispatch (str "PUT") (str "//Payments/"))); reflexivity.
Defined.
