(* ===== verification/Connections.v ===== *)
(** * A connection to the program

    What a peer that speaks HTTP gets from the program: requests are framed by
    their heads and their [Content-Length], dispatched to the handlers of
    Endpoint.v and answered on the same connection.  The theorems are about
    [serve], however the bytes arrive. *)
From S2P Require Import Prelude Decimal Types Doubles Calendar WorkerQueue Processed Routing Payload Processing Service PostHandler.
From S2P Require Import System StringBuffer SummaryHandler Profiler.
From S2P Require Import Regex Multimap HttpString Uri HttpRequest HttpResponse HttpSession HttpService Endpoint.

(** ** Where a head ends *)

Definition lf_text (lines : list (list Z)) : list Z := concat ((fun l => l ++ [10]) <$> lines).

(** Lines that are no empty line are read with the head: the first of them is
    at the start of the stream. *)
Lemma lines_end lines s a b :
  Forall (fun l => Forall (fun c => c <> 10) l) lines -> Forall (fun l => l <> CR) (drop 1 lines) ->
  lf_text lines ++ s = a ++ CRLFCRLF ++ b ->
  (length (lf_text lines) <= length a + 2)%nat.
Proof.
  unfold lf_text. intros Hlf. revert a. induction Hlf as [|line lines Hline Hlf IH]; intros a Hcr Heq; [cbn; lia|].
  rewrite fmap_cons in *. cbn [concat drop] in *. set (following := concat _) in *. rewrite <- !app_assoc in Heq. rewrite !length_app. cbn [length].
  assert (Hat : forall i, (line ++ [10] ++ following ++ s) !! i = (a ++ CRLFCRLF ++ b) !! i) by (intros i; by rewrite Heq).
  assert (Hfirst : (length line <= length a + 1)%nat).
  { destruct (decide (length line <= length a + 1)%nat); [done|]. exfalso. specialize (Hat (length a + 1)%nat).
    rewrite lookup_app_l in Hat by lia. rewrite lookup_app_r in Hat by lia.
    replace (length a + 1 - length a)%nat with 1%nat in Hat by lia. rewrite Forall_lookup in Hline. by apply (Hline _ _ Hat). }
  assert (Hnot : length line <> length a).
  { intros E. specialize (Hat (length a)). rewrite !(lookup_app_r line), !(lookup_app_r a) in Hat by lia.
    rewrite Nat.sub_diag, E, Nat.sub_diag in Hat. discriminate Hat. }
  destruct (decide (length line = length a + 1)%nat) as [E|].
  - destruct Hlf as [|line2 lines Hline2 Hlf]; [cbn; lia|]. exfalso. apply Forall_cons in Hcr as [Hcr _]. apply Hcr.
    change (CRLFCRLF ++ b) with ([13; 10] ++ [13; 10] ++ b) in Heq. rewrite (app_assoc a), (app_assoc line) in Heq.
    apply app_inj_1 in Heq as [_ Heq]; [|rewrite !length_app; cbn; lia]. unfold following in Heq.
    rewrite fmap_cons in Heq. cbn [concat] in Heq. rewrite <- !app_assoc in Heq. clear - Heq Hline2.
    destruct line2 as [|x [|y l]]; [discriminate Heq|by injection Heq as -> |]. injection Heq as _ -> _.
    apply Forall_cons in Hline2 as [_ [H2 _]%Forall_cons]. done.
  - rewrite <- (take_drop (length line + 1) a), <- !app_assoc in Heq. rewrite (app_assoc line) in Heq.
    apply app_inj_1 in Heq as [_ Heq]; [|rewrite length_take, length_app; cbn; lia].
    assert (Hcr' : Forall (fun l => l <> CR) (drop 1 lines)) by (destruct lines; [constructor|]; by apply Forall_cons in Hcr as [_ Hcr]).
    specialize (IH _ Hcr' Heq). rewrite length_drop in IH. fold following in IH. lia.
Qed.

Definition full_line (line : list Z) : Prop := Forall (fun c => c <> 10) line /\ line <> [].

Definition lines_text (lines : list (list Z)) : list Z := concat ((fun l => l ++ CRLF) <$> lines).

Lemma lines_text_lf lines : lines_text lines = lf_text ((fun l => l ++ CR) <$> lines).
Proof.
  unfold lines_text, lf_text. rewrite <- list_fmap_compose. f_equal. apply list_fmap_ext. intros i l _. unfold compose. by rewrite <- app_assoc.
Qed.

Lemma full_line_lf lines : Forall full_line lines ->
  Forall (fun l => Forall (fun c => c <> 10) l) ((fun l => l ++ CR) <$> lines) /\ Forall (fun l => l <> CR) ((fun l => l ++ CR) <$> lines).
Proof.
  intros Hl. rewrite !Forall_fmap. split; (eapply Forall_impl; [exact Hl|]); intros l [Hlf Hne]; cbn.
  - apply Forall_app. split; [done|by repeat constructor].
  - destruct l as [|c l]; [done|]. intros [= _ Hl']. by destruct l.
Qed.

Lemma Forall_drop1 {A} (P : A -> Prop) l : Forall P l -> Forall P (drop 1 l).
Proof. by destruct 1. Qed.

(** The first empty line ends the text of a head. *)
Lemma head_ends lines s a b : Forall full_line lines -> lines_text lines ++ CRLF ++ s = a ++ CRLFCRLF ++ b ->
  (length (lines_text lines ++ CRLF) <= length a + 4)%nat.
Proof.
  intros [Hlf Hcr]%full_line_lf Heq. rewrite lines_text_lf in *. rewrite length_app. change (length CRLF) with 2%nat.
  pose proof (lines_end _ (CRLF ++ s) a b Hlf (Forall_drop1 _ _ Hcr) Heq). lia.
Qed.

Lemma request_text_lines method target headers :
  request_text method target headers =
  lines_text ((method ++ 32 :: target ++ str " HTTP/1.1") :: (header_text <$> headers)) ++ CRLF.
Proof.
  unfold request_text, lines_text, header_block. rewrite fmap_cons. cbn [concat]. rewrite <- list_fmap_compose.
  rewrite <- ?app_assoc. cbn [List.app]. rewrite <- ?app_assoc. reflexivity.
Qed.

Lemma request_text_full method target headers :
  Forall (fun c => alnum_char c = true) method -> Forall (fun c => target_char c = true) target -> Forall good_header headers ->
  Forall full_line ((method ++ 32 :: target ++ str " HTTP/1.1") :: (header_text <$> headers)).
Proof.
  intros Hm Ht Hh. constructor.
  - split; [|by destruct method]. rewrite Forall_app, Forall_cons, Forall_app. split_and!; [|done|by apply target_no_lf|by repeat constructor].
    eapply Forall_impl; [exact Hm|]. intros c Hc ->. discriminate Hc.
  - apply Forall_fmap. eapply Forall_impl; [exact Hh|]. intros [n v] Hg. pose proof (good_header_line n v Hg) as [Hlf _].
    apply Forall_app in Hlf as [Hlf _]. split; [done|]. by destruct n.
Qed.

(** ** The length a head declares *)
Definition length_header (h : list Z * list Z) : bool := bytes_eqb (lowercase (str "Content-Length")) (lowercase h.1).

Lemma mm_insert_range_perm {A} (l m : list (list Z * A)) : Permutation (mm_insert_range l m) (l ++ m).
Proof.
  unfold mm_insert_range. revert m. induction l as [|[k v] l IH]; intros m; [done|]. cbn [fold_left List.app].
  rewrite IH, mm_insert_perm. symmetry. apply Permutation_middle.
Qed.

Lemma filter_perm (f : list Z * list Z -> bool) l l' : Permutation l l' -> Permutation (List.filter f l) (List.filter f l').
Proof.
  induction 1 as [|x l l' _ IH|x y l|l l' l'' _ IH _ IH']; cbn [List.filter].
  - done.
  - destruct (f x); [by constructor|done].
  - destruct (f x), (f y); done || constructor.
  - by rewrite IH.
Qed.

(** The length the handler takes from the headers. *)
Definition declared_length (headers : list (list Z * list Z)) : Z :=
  u64 (parse_parameter (first_parameter (str "Content-Length") [] (mm_insert_range headers [])) 0).

Lemma declared_length_filter headers hs : List.filter length_header headers = hs -> (length hs <= 1)%nat ->
  declared_length headers = u64 (parse_parameter match hs with h :: _ => h.2 | [] => [] end 0).
Proof.
  intros Hf Hl. unfold declared_length, first_parameter, get_parameters.
  change (match str "Content-Length" with [] => _ | _ => ?x end) with x.
  change (fun p => bytes_eqb (lowercase (str "Content-Length")) (lowercase p.1)) with length_header.
  assert (Hp : Permutation (List.filter length_header (mm_insert_range headers [])) hs).
  { rewrite <- Hf. apply filter_perm. by rewrite mm_insert_range_perm, app_nil_r. }
  destruct hs as [|[n v] [|]]; [| |cbn in Hl; lia].
  - symmetry in Hp. apply Permutation_nil in Hp. by rewrite Hp.
  - apply Permutation_singleton_r in Hp. by rewrite Hp.
Qed.

Lemma digits_stream_int (neg : bool) n : 0 <= n ->
  let v := if neg then - n else n in
  stream_int ((if neg then [45] else []) ++ dec n) = if (- 2 ^ 31 <=? v) && (v <? 2 ^ 31) then Some v else None.
Proof.
  intros Hn v. unfold stream_int. pose proof (dec_digits n Hn) as Hd. pose proof (dec_value_dec n Hn) as Hv.
  pose proof (dec_head n Hn) as Hhd.
  assert (Hspan : span isdigit (dec n) = (dec n, [])).
  { rewrite <- (app_nil_r (dec n)) at 1. apply span_app; [|done]. eapply Forall_impl; [exact Hd|].
    intros c Hc. by apply isdigit_true. }
  destruct neg; cbn [List.app].
  - cbn [span]. change (isspace 45) with false. cbv iota. rewrite Hspan. cbn [fst]. destruct (dec n); [done|]. by rewrite Hv.
  - destruct (dec n) as [|c l] eqn:E; [done|]. apply Forall_cons in Hd as [Hc _].
    assert (isspace c = false) as Hs by (unfold isspace; lia).
    assert (span isspace (c :: l) = ([], c :: l)) as -> by (cbn [span]; by rewrite Hs).
    assert (Hsign : match c :: l with 45 :: s => (true, s) | 43 :: s => (false, s) | _ => (false, c :: l) end = (false, c :: l)).
    { repeat (case_match; try done); lia. }
    rewrite Hsign, Hspan. cbn [fst]. by rewrite Hv.
Qed.

(** [Content-Length] is read as an [int]: without the header, or when its
    value does not fit, the declared length is 0; a negative value becomes a
    length near [2 ^ 64]. *)
Lemma declared_length_cases headers :
  (List.filter length_header headers = [] -> declared_length headers = 0) /\
  (forall name n, List.filter length_header headers = [(name, dec n)] -> 0 <= n ->
     declared_length headers = if n <? 2 ^ 31 then n else 0) /\
  (forall name n, List.filter length_header headers = [(name, str "-" ++ dec n)] -> 0 < n <= 2 ^ 31 ->
     declared_length headers = 2 ^ 64 - n).
Proof.
  split_and!.
  - intros Hf. by rewrite (declared_length_filter _ _ Hf) by (cbn; lia).
  - intros name n Hf Hn. rewrite (declared_length_filter _ _ Hf) by (cbn; lia). cbn [snd].
    pose proof (digits_stream_int false n Hn) as Hd. cbv zeta in Hd. unfold parse_parameter. cbn [List.app] in Hd. rewrite Hd.
    destruct (Z.ltb_spec n (2 ^ 31)).
    + replace (- 2 ^ 31 <=? n) with true by lia. cbn [andb default id]. by rewrite u64_small by lia.
    + by rewrite andb_false_r.
  - intros name n Hf Hn. rewrite (declared_length_filter _ _ Hf) by (cbn; lia). cbn [snd].
    pose proof (digits_stream_int true n ltac:(lia)) as Hd. cbv zeta in Hd. unfold parse_parameter. change (str "-") with [45]. rewrite Hd.
    replace ((- 2 ^ 31 <=? - n) && (- n <? 2 ^ 31)) with true by lia. cbn [default id].
    unfold u64. rewrite <- (Z.mod_add (- n) 1) by lia. rewrite Z.mod_small; lia.
Qed.

(** ** One request of a connection *)
Section Connection.
Context {W : Type} `{Transport W}.
Variable settings : SettingsImpl.
Variable service : ServiceImpl W App.
Variable what : cpp_exception -> list Z.
Variable error_message : W -> list Z.
Variable regex_what : list Z.

(** The request that reaches the handlers of [service]. *)
Lemma serve_request_text c method target path parameters headers rest :
  c.(session).(m_is_open) = true ->
  Forall (fun c => alnum_char c = true) method -> target_says target path parameters -> Forall good_header headers ->
  stream c = request_text method target headers ++ rest ->
  exists c', stream c' = rest /\ c'.(app) = c.(app) /\ c'.(session).(m_is_open) = true /\
    c'.(session).(m_session_headers) = c.(session).(m_session_headers) /\
    c'.(session).(m_resource_headers) = c.(session).(m_resource_headers) /\
    c'.(session).(m_request).(m_method) = method /\ c'.(session).(m_request).(m_path) = decode path /\
    c'.(session).(m_request).(m_query_parameters) = parameters /\
    c'.(session).(m_request).(m_headers) = mm_insert_range headers [] /\
    serve_request settings service what error_message regex_what c =
    match authenticate settings service regex_what c' with
    | Throw e => catch settings (OtherException (what e)) c'
    | r => r
    end.
Proof.
  intros Hopen Hm Ht Hh Hs. unfold serve_request.
  pose proof (read_until_law CRLFCRLF c.(session).(m_buffer) c.(net)) as Hlaw. fold (stream c) in Hlaw.
  destruct read_until as [[ok buffer] w]. destruct Hlaw as (Heq & Hok & Hall). rewrite Hs in *.
  pose proof (request_text_full method target headers Hm ltac:(by apply Ht) Hh) as Hfull. rewrite request_text_lines in *.
  set (lines := _ :: (header_text <$> headers)) in *.
  assert (ok = true) as ->.
  { apply Hall. unfold occurs. destruct (exists_last (l := lines)) as (init & line & ->); [done|].
    exists (lines_text init ++ line), rest. unfold lines_text. rewrite fmap_app, concat_app. cbn [fmap list_fmap concat].
    rewrite <- !app_assoc. done. }
  destruct (Hok eq_refl) as (a & b & Hb).
  assert (Hx : lines_text lines ++ CRLF ++ rest = a ++ CRLFCRLF ++ b ++ unread w).
  { rewrite Hb in Heq. rewrite <- !app_assoc in Heq. done. }
  pose proof (head_ends lines rest a (b ++ unread w) Hfull Hx) as Hend.
  assert (exists more, buffer = (lines_text lines ++ CRLF) ++ more /\ more ++ unread w = rest) as (more & -> & Hmore).
  { rewrite <- (take_drop (length (lines_text lines ++ CRLF)) buffer), <- app_assoc in Heq.
    apply app_inj_1 in Heq as [Hx1 Hx2].
    - eexists. split; [|exact Hx2]. rewrite <- Hx1 at 1. by rewrite take_drop.
    - rewrite length_take, Hb, !length_app. rewrite length_app in Hend. change (length CRLFCRLF) with 4%nat. lia. }
  unfold lines in *. rewrite <- request_text_lines in *. unfold parse_request. cbn [negb].
  set (r := c.(session).(m_request)).
  exists (mkContext (set_request (mkRequest [] r.(m_port) version_1_1 r.(m_host) (decode path) method r.(m_protocol)
    r.(m_fragment_uri) (mm_insert_range headers []) r.(m_path_parameters) parameters) (set_buffer more c.(session))) w c.(app)).
  do 9 (split; [done|]). cbn [session m_buffer set_buffer m_request]. by rewrite (read_request_target _ _ _ _ _ _ _ Hm Ht Hh).
Qed.
End Connection.

(** ** The program *)
Section Program.
Context {W : Type} `{Transport W}.
Variable socket : list Z.
Variable concurrency : Z.
Variable what : cpp_exception -> list Z.
Variable error_message : W -> list Z.
Variable regex_what : list Z.
Variable getenv : list Z -> option (list Z).
Variable easy_get : list Z -> option (bool * Z * list (list Z)).
Variable local_time : list Z.
Variable feature_order : list (list Z).

Let settings := main_settings socket concurrency.
Let program := rest_service settings what error_message getenv easy_get local_time feature_order.

Definition serve_once : handler W App := serve_request settings program what error_message regex_what.
Definition serve_many : nat -> Context W App -> outcome (list exchange * Context W App) :=
  serve settings program what error_message regex_what.

(** A connection between two requests. *)
Definition ready (c : Context W App) : Prop :=
  c.(session).(m_is_open) = true /\ c.(session).(m_session_headers) = [] /\ c.(session).(m_resource_headers) = [].

(** A request that is read is dispatched. *)
Lemma serve_once_dispatched c method target path parameters headers rest :
  ready c ->
  Forall (fun c => alnum_char c = true) method -> target_says target path parameters -> Forall good_header headers ->
  stream c = request_text method target headers ++ rest ->
  exists c', stream c' = rest /\ c'.(app) = c.(app) /\ ready c' /\
    c'.(session).(m_request).(m_method) = method /\ c'.(session).(m_request).(m_path) = decode path /\
    c'.(session).(m_request).(m_query_parameters) = parameters /\
    c'.(session).(m_request).(m_headers) = mm_insert_range headers [] /\
    serve_once c =
    match dispatched settings what error_message getenv easy_get local_time feature_order c' with
    | Throw e => catch settings (OtherException (what e)) c'
    | r => r
    end.
Proof.
  intros (Hopen & Hsh & Hrh) Hm Ht Hh Hs.
  destruct (serve_request_text settings program what error_message regex_what c method target path parameters headers rest
    Hopen Hm Ht Hh Hs) as (c' & Hs' & Ha & Ho & Hsh' & Hrh' & Hm' & Hp & Hq & Hh' & Hrun).
  exists c'. do 7 (split; [try done; unfold ready; by rewrite Hsh', Hrh'|]). unfold serve_once. rewrite Hrun.
  unfold program. by rewrite dispatch_table.
Qed.

(** *** Answers *)

(** The bytes of an answer with a body. *)
Definition text_answer (status : Z) (content_type text : list Z) : list Z :=
  str "HTTP/1.1 " ++ dec status ++ str " " ++ get_status_message settings status ++ CRLF ++ str "Connection: keep-alive" ++ CRLF ++
  str "Content-Length: " ++ dec (sizeZ text) ++ CRLF ++ str "Content-Type: " ++ content_type ++ CRLFCRLF ++ text.

Lemma dec_value_char n : 0 <= n ->
  Forall (fun c => value_char c = true) (dec n) /\ stops (fun c => c =? 32) (dec n).
Proof.
  intros Hn. pose proof (dec_digits n Hn) as Hd. split.
  - eapply Forall_impl; [exact Hd|]. intros c Hc. unfold value_char, class_match, in_items. cbn in *.
    by replace ((10 <=? c) && (c <=? 10) || ((13 <=? c) && (c <=? 13) || false) || false) with false by lia.
  - destruct (dec n) as [|c l]; [done|]. apply Forall_cons in Hd as [Hc _]. cbn in *. lia.
Qed.

Lemma text_answer_bytes status content_type text :
  0 <= status -> Forall (fun c => value_char c = true) content_type -> stops (fun c => c =? 32) content_type ->
  response_to_bytes (transmit settings [] [] (response_of status text
    [(str "Content-Type", content_type); (str "Content-Length", dec (sizeZ text))])) = text_answer status content_type text.
Proof.
  intros Hstatus Hct Hst. destruct (dec_value_char (sizeZ text)) as [Hv Hvst]; [unfold sizeZ; lia|].
  unfold response_to_bytes, transmit. cbn [r_headers r_body r_version r_status_code r_protocol r_status_message response_of].
  change (mm_insert_range (mm_insert_range _ []) _) with
    [(str "Connection", str "keep-alive"); (str "Content-Length", dec (sizeZ text)); (str "Content-Type", content_type)].
  set (hs := [_; _; _]). assert (Hh : Forall good_header hs).
  { unfold hs. repeat constructor; try done; cbn [fst snd]. }
  unfold put_long. replace (status <? 0) with false by lia.
  rewrite status_line_1_1, (app_assoc (headers_text hs)), headers_text_block by done.
  unfold header_block, hs, header_text, text_answer, CRLFCRLF. cbn [fmap list_fmap concat fst snd].
  rewrite <- ?app_assoc. reflexivity.
Qed.

(** *** Heads that are no request *)

(** Lines that are no empty line are in the buffer when the head is read. *)
Lemma head_read (c : Context W App) lines rest :
  Forall (fun l => Forall (fun c => c <> 10) l) lines -> Forall (fun l => l <> CR) (drop 1 lines) ->
  stream c = lf_text lines ++ rest -> occurs CRLFCRLF (stream c) ->
  exists more w, read_until CRLFCRLF c.(session).(m_buffer) c.(net) = (true, lf_text lines ++ more, w) /\ more ++ unread w = rest.
Proof.
  intros Hlf Hcr Hs Hocc. pose proof (read_until_law CRLFCRLF c.(session).(m_buffer) c.(net)) as Hlaw. fold (stream c) in Hlaw.
  destruct read_until as [[ok buffer] w]. destruct Hlaw as (Heq & Hok & Hall). rewrite (Hall Hocc) in *.
  destruct (Hok eq_refl) as (a & b & Hb). rewrite Hs in Heq.
  assert (Hx : lf_text lines ++ rest = a ++ CRLFCRLF ++ b ++ unread w) by (rewrite <- Heq, Hb, <- !app_assoc; done).
  pose proof (lines_end lines rest a (b ++ unread w) Hlf Hcr Hx) as Hend.
  rewrite <- (take_drop (length (lf_text lines)) buffer), <- app_assoc in Heq.
  apply app_inj_1 in Heq as [Hx1 Hx2].
  - exists (drop (length (lf_text lines)) buffer), w. split; [|done]. by rewrite <- Hx1, take_drop at 1.
  - rewrite length_take, Hb, !length_app. change (length CRLFCRLF) with 4%nat. lia.
Qed.

(** The answer to a head that is refused. *)
Definition refused (c : Context W App) (status : Z) (text : list Z) : Prop :=
  exists c', serve_once c = Ret (Answered (text_answer status (str "text/plain") text) false, c') /\
    c'.(session).(m_is_open) = false /\ c'.(app) = c.(app).

Lemma refused_by c lines rest status text :
  ready c -> Forall (fun l => Forall (fun c => c <> 10) l) lines -> Forall (fun l => l <> CR) (drop 1 lines) ->
  stream c = lf_text lines ++ rest -> occurs CRLFCRLF (stream c) -> 0 <= status ->
  (forall more r, exists e rest', read_request (lf_text lines ++ more) r = Ret (inl e, rest') /\
     (e = RuntimeError text /\ status = 400 \/ e = OtherException text /\ status = 500)) ->
  refused c status text.
Proof.
  intros (Hopen & Hsh & Hrh) Hlf Hcr Hs Hocc Hst Hread.
  destruct (head_read c lines rest Hlf Hcr Hs Hocc) as (more & w & Hu & _).
  unfold refused, serve_once, serve_request. rewrite Hu. unfold parse_request. cbn [negb session m_buffer set_buffer m_request].
  destruct (Hread more c.(session).(m_request)) as (e & rest' & -> & He). cbn [bind].
  set (c1 := mkContext _ w (app c)).
  assert (Hgoal : catch settings e (with_session (set_buffer rest') c1) =
    default_error_handler settings status text (discard (with_session (set_buffer rest') c1))).
  { by destruct He as [[-> ->]|[-> ->]]. }
  rewrite Hgoal. unfold default_error_handler, discard. set (c2 := with_session _ _).
  assert (m_is_open (session c2) = true) as -> by done. unfold close_open, payload.
  assert (m_session_headers (session c2) = []) as -> by done. assert (m_resource_headers (session c2) = []) as -> by done.
  eexists. split; [do 2 f_equal; f_equal; apply text_answer_bytes; [done|by repeat constructor|done]|]. done.
Qed.

(** C21. Heads that are refused.  [data] is the first line of what a peer
    sends.  A line that is no request line is answered 400; a request line
    whose target is no URI is answered 500; so is, with 400, a first header
    line whose name does not end in a colon.  The answer carries the reason as
    text, the connection is closed and the state of the program is what it
    was. *)
Theorem bad_heads_refused c data rest :
  ready c -> Forall (fun c => c <> 10) data -> stream c = data ++ 10 :: rest -> occurs CRLFCRLF (stream c) ->
  (line_match data = None -> refused c 400 malformed_line) /\
  (forall method target version, line_match data = Some (method, target, version) ->
     (valid_target target = false -> refused c 500 (str "Argument is not a valid URI: http://localhost" ++ target)) /\
     (valid_target target = true -> forall headers line rest', Forall good_header headers -> bad_header line ->
        rest = header_lines headers ++ line ++ 10 :: rest' -> refused c 400 malformed_header)).
Proof.
  intros Hready Hdata Hs Hocc.
  assert (Hfirst : forall more, getline (lf_text [data] ++ more) = Some (data, more)).
  { intros more. unfold lf_text. cbn [fmap list_fmap concat]. rewrite app_nil_r, <- app_assoc. by apply getline_line. }
  assert (Hs1 : stream c = lf_text [data] ++ rest).
  { rewrite Hs. unfold lf_text. cbn [fmap list_fmap concat]. by rewrite app_nil_r, <- app_assoc. }
  split; [|intros method target version Hm; split].
  - intros Hm. apply (refused_by c [data] rest); try done; [by repeat constructor|]. intros more r.
    pose proof (read_request_cases (lf_text [data] ++ more) r) as Hc. rewrite Hfirst in Hc. cbn [default id] in Hc. rewrite Hm in Hc.
    eauto 6.
  - intros Hv. apply (refused_by c [data] rest); try done; [by repeat constructor|]. intros more r.
    pose proof (read_request_cases (lf_text [data] ++ more) r) as Hc. rewrite Hfirst in Hc. cbn [default id] in Hc. rewrite Hm, Hv in Hc.
    eauto 6.
  - intros Hv headers line rest' Hh Hbad ->. set (lines := (fun l => l ++ CR) <$> (header_text <$> headers)).
    assert (Hlines : header_lines headers = lf_text lines).
    { unfold lines, header_lines. rewrite <- lines_text_lf. unfold lines_text. by rewrite <- list_fmap_compose. }
    assert (Hall : Forall full_line (header_text <$> headers)).
    { apply Forall_fmap. eapply Forall_impl; [exact Hh|]. intros [n v] Hg. pose proof (good_header_line n v Hg) as [Hl _].
      apply Forall_app in Hl as [Hl _]. split; [done|]. by destruct n. }
    destruct (full_line_lf _ Hall) as [Hl1 Hl2]. fold lines in Hl1, Hl2. destruct Hbad as (Hb1 & Hb2 & Hb3) eqn:Eb. clear Eb.
    assert (Htext : forall more, lf_text (data :: lines ++ [line]) ++ more = lf_text [data] ++ header_lines headers ++ line ++ 10 :: more).
    { intros more. rewrite Hlines. unfold lf_text. rewrite fmap_cons, fmap_app. cbn [fmap list_fmap concat].
      rewrite concat_app. cbn [concat]. rewrite !app_nil_r, <- !app_assoc. done. }
    apply (refused_by c (data :: lines ++ [line]) rest'); try done.
    + constructor; [done|]. apply Forall_app. split; [done|]. by repeat constructor.
    + cbn [drop]. apply Forall_app. split; [done|]. by repeat constructor.
    + by rewrite Htext.
    + intros more r. rewrite Htext. pose proof (read_request_cases (lf_text [data] ++ header_lines headers ++ line ++ 10 :: more) r) as Hc.
      rewrite Hfirst in Hc. cbn [default id] in Hc. rewrite Hm, Hv in Hc. unfold parse_request_headers in Hc.
      destruct (parse_headers_bad headers line [] (length (header_lines headers ++ line ++ 10 :: more)) more Hh) as [rest2 Hbad2]; [done| |].
      { pose proof (header_lines_length headers). rewrite !length_app. cbn [length]. lia. }
      rewrite Hbad2 in Hc. eauto 6.
Qed.

(** *** POST /payments *)

Definition post_text (p : list (list Z * list Z) * list Z) : list Z :=
  request_text (str "POST") (str "/payments") p.1 ++ p.2.

Definition good_post (p : list (list Z * list Z) * list Z) : Prop :=
  Forall good_header p.1 /\ declared_length p.1 = sizeZ p.2.

Definition accepted_answer : list Z :=
  str "HTTP/1.1 202 Accepted" ++ CRLF ++ str "Connection: keep-alive" ++ CRLF ++ str "Content-Length: 0" ++ CRLFCRLF.

Definition with_server (srv : Server) (a : App) : App := mkApp srv a.(buffer) a.(profiler).

Lemma payments_path : good_path (str "/payments").
Proof. split; [by repeat constructor | by eexists]. Qed.

Lemma post_request_text : Forall (fun c => alnum_char c = true) (str "POST").
Proof. by repeat constructor. Qed.

Lemma payment_posted c p rest r srv :
  ready c -> good_post p -> stream c = post_text p ++ rest ->
  post_payment_handler p.2 c.(app).(server) = Ret (r, srv) ->
  exists c', serve_once c = Ret (Answered accepted_answer true, c') /\ stream c' = rest /\ ready c' /\
    c'.(app) = with_server srv c.(app).
Proof.
  intros Hready [Hh Hlen] Hs Hpost. unfold post_text in Hs. rewrite <- app_assoc in Hs.
  destruct (serve_once_dispatched c (str "POST") (str "/payments") (str "/payments") [] p.1 (p.2 ++ rest) Hready
    post_request_text (target_path _ payments_path) Hh Hs) as (c1 & Hs1 & Ha1 & Hr1 & Hm1 & Hp1 & _ & Hh1 & Hrun).
  rewrite Hrun. unfold dispatched. rewrite Hp1. change (route_of (decode (str "/payments"))) with (Some Payments).
  cbv zeta. change (m_method _) with (c1.(session).(m_request).(m_method)). rewrite Hm1, decide_True by done.
  cbn [endpoint]. unfold post_payment_endpoint.
  assert (Hlength : u64 (get_header_int (m_request (session (with_route Payments c1))) (str "Content-Length") 0) = sizeZ p.2).
  { rewrite <- Hlen. unfold declared_length, get_header_int, get_header.
    change (m_headers (m_request (session (with_route Payments c1)))) with (m_headers (m_request (session c1))). by rewrite Hh1. }
  rewrite Hlength. destruct Hr1 as (Hopen1 & Hsh1 & _).
  match goal with |- context [fetch _ _ _ _ ?callback _] =>
    destruct (fetch_gives settings what error_message (sizeZ p.2) callback (with_route Payments c1) p.2 rest Hopen1 Hs1 eq_refl)
      as (c2 & Hfetch & Hs2 & Ha2 & Ho2 & Hrh2 & Hsh2) end.
  rewrite Hfetch.
  change ((with_route Payments c1).(app)) with c1.(app) in Ha2. rewrite Ha2, Ha1, Hpost. cbn [bind].
  unfold yield. change (m_is_open (session (with_app _ c2))) with (m_is_open (session c2)). rewrite Ho2. cbn [negb].
  set (c3 := with_app _ c2). exists c3. assert (Hsh3 : m_session_headers (session c3) = []) by (rewrite <- Hsh1; exact Hsh2).
  split; [|split_and!; [exact Hs2 | by repeat split | done]].
  do 3 f_equal. unfold payload. rewrite Hsh3. change (m_resource_headers (session c3)) with (m_resource_headers (session c2)).
  by rewrite Hrh2.
Qed.

Lemma payments_served posts c rest srv :
  ready c -> Forall good_post posts -> stream c = concat (post_text <$> posts) ++ rest ->
  post_all (snd <$> posts) c.(app).(server) = Ret srv ->
  exists c', serve_many (length posts) c = Ret (replicate (length posts) (Answered accepted_answer true), c') /\
    stream c' = rest /\ ready c' /\ c'.(app) = with_server srv c.(app).
Proof.
  intros Hready Hposts. revert c Hready. induction Hposts as [|p posts Hp _ IH]; intros c Hready Hs Hall.
  - injection Hall as <-. exists c. split_and!; [done..|]. by destruct (app c).
  - rewrite fmap_cons in Hs, Hall. cbn [concat post_all] in Hs, Hall. rewrite <- app_assoc in Hs.
    destruct (post_payment_handler p.2 (server (app c))) as [[r srv1]| |] eqn:Hpost; [|done..]. cbn [bind] in Hall.
    destruct (payment_posted c p _ r srv1 Hready Hp Hs Hpost) as (c1 & Hrun & Hs1 & Hr1 & Ha1).
    destruct (IH c1 Hr1 Hs1) as (c2 & Hrun2 & Hs2 & Hr2 & Ha2); [by rewrite Ha1|].
    exists c2. split_and!; [|done|done|by rewrite Ha2, Ha1].
    unfold serve_many in *. cbn [length serve]. unfold serve_once in Hrun. rewrite Hrun. cbn [bind]. by rewrite Hrun2.
Qed.

(** C2. The payments on a connection.  A peer may send any number of POST
    requests at once; each body is as long as its head declares and fits the 70
    bytes of a payment, and the queues have room for all.  However the bytes are cut into pieces, every request is answered [202 Accepted] in its
    turn, worker queue [j] gets, behind what it held, exactly the bodies that
    are its by round robin in the order they were sent, and what follows the
    requests is left for the next one: no byte of a body is taken for a head
    or the other way round. *)
Theorem payments_framed posts rs c rest :
  let srv := c.(app).(server) in
  let k := srv.(queue_size) in
  ready c -> Forall good_post posts -> stream c = concat (post_text <$> posts) ++ rest ->
  0 < k -> sizeZ srv.(service).(queues) = k ->
  0 <= srv.(queue_index) -> srv.(queue_index) + Z.of_nat (length posts) < 2 ^ 64 ->
  Forall (space_for (length posts)) srv.(service).(queues) ->
  Forall2 (fun p r => make_raw p.2 = Ret r) posts rs ->
  exists c', serve_many (length posts) c = Ret (replicate (length posts) (Answered accepted_answer true), c') /\
    stream c' = rest /\ ready c' /\
    forall j q, srv.(service).(queues) !! j = Some q ->
      exists q', c'.(app).(server).(service).(queues) !! j = Some q' /\
        pending q' = pending q ++ dealt k srv.(queue_index) (Z.of_nat j) rs.
Proof.
  intros srv k Hready Hposts Hs Hk Hsize Hidx Hmax Hspace Hraw.
  destruct (post_all_spec (snd <$> posts) srv rs) as (srv' & Hall & Hq); rewrite ?length_fmap; [done..|by apply Forall2_fmap_l|].
  destruct (payments_served posts c rest srv' Hready Hposts Hs Hall) as (c' & Hrun & Hs' & Hr' & Ha').
  exists c'. split_and!; [done..|]. by rewrite Ha'.
Qed.

(** A queue with space takes a payment, and room is left in the others. *)
Lemma post_accepted body srv n :
  (length body <= 70)%nat -> 0 < srv.(queue_size) -> sizeZ srv.(service).(queues) = srv.(queue_size) ->
  Forall (space_for (S n)) srv.(service).(queues) ->
  System.room srv /\
  exists r srv', post_payment_handler body srv = Ret (r, srv') /\ raw_string r = Ret body /\
    srv'.(queue_size) = srv.(queue_size) /\ sizeZ srv'.(service).(queues) = srv.(queue_size) /\
    Forall (space_for n) srv'.(service).(queues).
Proof.
  intros Hlen Hk Hsize Hspace. split.
  { eapply Forall_impl; [exact Hspace|]. intros q (_ & Hc & Ht). split; lia. }
  destruct (lookup_lt_is_Some_2 srv.(service).(queues) (Z.to_nat (srv.(queue_index) mod srv.(queue_size)))) as [q Hq].
  { pose proof (Z.mod_pos_bound srv.(queue_index) srv.(queue_size) Hk). unfold sizeZ in *. lia. }
  pose proof (Forall_lookup_1 _ _ _ _ Hspace Hq) as Hsq.
  destruct (make_raw_fits body Hlen) as (r & Hmake & Hraw & _). unfold post_payment_handler. rewrite Hmake. cbn [bind].
  replace (queue_size srv =? 0) with false by lia. rewrite (service_enqueue_at _ _ _ q Hq) by apply Hsq. cbn [bind].
  eexists r, _. split; [reflexivity|]. cbn [queue_size service queues with_queue].
  split_and!; [done|done|by unfold sizeZ in *; rewrite length_insert|].
  apply Forall_insert; [|by apply (space_push n q)]. eapply Forall_impl; [exact Hspace|]. intros q0 Hq0. by apply (space_push n q0 raw_empty).
Qed.

(** C3. A connection refines the system of System.v.  Each POST request that is
    answered on a connection, with a body of at most 70 bytes and room in the
    queues, is one [Accepted] step of the transition system, with the payment that reads back as the body; so what holds of every run of
    the system, that no payment is lost, holds of the payments that arrive as
    bytes. *)
Theorem connection_refines_system {V : Type} `{World V} posts c rest st0 tr (v : V) :
  ready c -> Forall good_post posts -> stream c = concat (post_text <$> posts) ++ rest ->
  Forall (fun p => (length p.2 <= 70)%nat) posts ->
  0 < c.(app).(server).(queue_size) -> sizeZ c.(app).(server).(service).(queues) = c.(app).(server).(queue_size) ->
  Forall (space_for (length posts)) c.(app).(server).(service).(queues) ->
  System.run st0 tr (c.(app).(server), v) ->
  exists c' rs, serve_many (length posts) c = Ret (replicate (length posts) (Answered accepted_answer true), c') /\
    stream c' = rest /\ ready c' /\ Forall2 (fun p r => raw_string r = Ret p.2) posts rs /\
    System.run st0 (tr ++ (Accepted <$> rs)) (c'.(app).(server), v).
Proof.
  intros Hready Hposts. revert c tr Hready. induction Hposts as [|p posts Hp _ IH]; intros c tr Hready Hs Hlen Hk Hsize Hspace Hrun.
  - exists c, []. by rewrite app_nil_r.
  - apply Forall_cons in Hlen as [Hlen1 Hlen]. rewrite fmap_cons in Hs. cbn [concat] in Hs. rewrite <- app_assoc in Hs.
    destruct (post_accepted p.2 (server (app c)) (length posts) Hlen1 Hk Hsize Hspace) as (Hroom & r & srv1 & Hpost & Hraw & Hk1 & Hsize1 & Hspace1).
    destruct (payment_posted c p _ r srv1 Hready Hp Hs Hpost) as (c1 & Hserve & Hs1 & Hr1 & Ha1).
    destruct (IH c1 (tr ++ [Accepted r]) Hr1 Hs1 Hlen) as (c2 & rs & Hserve2 & Hs2 & Hr2 & Hraws & Hrun2).
    1-4: rewrite Ha1; cbn [server with_server]; rewrite ?Hk1; done || idtac.
    { eapply System.run_snoc; [exact Hrun|exact Hroom|]. by eapply step_post. }
    exists c2, (r :: rs). rewrite <- app_assoc in Hrun2. split_and!; [|done|done|by constructor|done].
    unfold serve_many in *. cbn [length serve]. unfold serve_once in Hserve. rewrite Hserve. cbn [bind]. by rewrite Hserve2.
Qed.

(** C22. A payment whose length is not declared.  When a POST request has no
    [Content-Length], or one of more than [2 ^ 31 - 1], it is answered [202
    Accepted] before its body is read: the queue gets an empty payment and the
    body stays on the connection, where the next request is looked for.  The
    worker that takes the empty payment calls [pop_back] on an empty string,
    which is undefined. *)
Theorem unsized_payment c headers body q :
  let srv := c.(app).(server) in
  let i := Z.to_nat (srv.(queue_index) mod srv.(queue_size)) in
  ready c -> Forall good_header headers ->
  List.filter length_header headers = [] \/
    (exists name n, List.filter length_header headers = [(name, dec n)] /\ 2 ^ 31 <= n) ->
  stream c = request_text (str "POST") (str "/payments") headers ++ body ->
  0 < srv.(queue_size) -> srv.(service).(queues) !! i = Some q -> queue_wf q ->
  (exists c', serve_once c = Ret (Answered accepted_answer true, c') /\ stream c' = body /\ ready c' /\
     c'.(app).(server).(service).(queues) = <[i := put q raw_empty]> srv.(service).(queues)) /\
  (forall V (world : World V) worker t pool s (v : V), s.(threads) !! worker = Some t ->
     process worker raw_empty pool s v = Undefined PopBackOnEmpty).
Proof.
  intros srv i Hready Hh Hlen Hs Hsize Hq Hwf. split.
  - assert (Hgood : good_post (headers, [])).
    { split; [done|]. destruct (declared_length_cases headers) as (Hnone & Hone & _). cbn [fst snd].
      destruct Hlen as [Hf|(name & n & Hf & Hn)]; [by apply Hnone|]. rewrite (Hone name n Hf) by lia.
      by replace (n <? 2 ^ 31) with false by lia. }
    edestruct (payment_posted c (headers, []) body raw_empty) as (c' & Hrun & Hs' & Hr' & Ha'); [done|done| | |].
    + unfold post_text. by rewrite <- app_assoc.
    + unfold post_payment_handler. cbn [snd]. change (make_raw ([] : list Z)) with (Ret raw_empty). cbn [bind].
      fold srv. replace (queue_size srv =? 0) with false by lia. fold i.
      rewrite (service_enqueue_at i raw_empty _ q Hq Hwf). reflexivity.
    + exists c'. split_and!; [done..|]. by rewrite Ha'.
  - intros V world worker t pool s v Ht. by eapply process_raw_empty.
Qed.

(** *** GET /payments-summary *)
Lemma summary_path : good_path (str "/payments-summary").
Proof. split; [by repeat constructor | by eexists]. Qed.

Lemma get_request_text : Forall (fun c => alnum_char c = true) (str "GET").
Proof. by repeat constructor. Qed.

(** The query parameters as the handler takes them. *)
Definition query_of (parameters : list (list Z * list Z)) (name default_value : list Z) : list Z :=
  first_parameter name default_value parameters.

Lemma summary_answered c target parameters headers rest res :
  ready c -> target_says target (str "/payments-summary") parameters -> Forall good_header headers ->
  stream c = request_text (str "GET") target headers ++ rest ->
  handler_totals getenv (query_of parameters) easy_get c.(app).(server).(service).(processed) = Ret res ->
  pair_wf res -> stack_wf c.(app).(buffer) ->
  exists c' sb, serve_once c = Ret (Answered (text_answer 200 (str "application/json") (summary_text res)) false, c') /\
    c'.(session).(m_is_open) = false /\ stack_wf sb /\ c'.(app) = mkApp c.(app).(server) sb c.(app).(profiler).
Proof.
  intros Hready Ht Hh Hs Htotals Hwf Hsb.
  destruct (serve_once_dispatched c (str "GET") target (str "/payments-summary") parameters headers rest Hready
    get_request_text Ht Hh Hs) as (c1 & _ & Ha1 & (Hopen1 & Hsh1 & _) & Hm1 & Hp1 & Hq1 & _ & Hrun).
  rewrite Hrun. unfold dispatched. rewrite Hp1. change (route_of (decode (str "/payments-summary"))) with (Some Summary).
  cbv zeta. change (m_method _) with (c1.(session).(m_request).(m_method)). rewrite Hm1, decide_True by done.
  cbn [endpoint]. unfold payments_summary_endpoint, payments_summary_handler.
  change (app (with_route Summary c1)) with (app c1). rewrite Ha1.
  assert (get_query_parameter (m_request (session (with_route Summary c1))) = query_of parameters) as ->.
  { unfold query_of. rewrite <- Hq1. reflexivity. }
  rewrite Htotals. cbn [bind]. destruct (summary_reply_text res (buffer (app c)) Hwf Hsb) as (sb & Hsb' & ->). cbn [bind].
  unfold close. set (c2 := with_app _ _). assert (Hsh2 : m_session_headers (session c2) = []) by done.
  assert (m_is_open (session c2) = true) as -> by done. cbn [negb]. unfold close_open, payload. rewrite Hsh2.
  eexists _, sb. split; [do 2 f_equal; f_equal; by apply text_answer_bytes; [|repeat constructor|]|]. done.
Qed.

(** C13. GET /payments-summary.  A request for the window [from], [to], the
    parameters encoded as restbed's client does and sent in any pieces, with
    any good headers, is answered [200 OK] with the JSON text of the totals of
    exactly these two values, when their sums are finite ([pair_wf]); the length
    in the head is the length of the text, and the connection is closed. *)
Theorem summary_request_answered c from to headers rest res :
  let parameters := [(str "from", from); (str "to", to)] in
  ready c -> Forall is_byte from -> Forall is_byte to -> Forall good_header headers ->
  stream c = request_text (str "GET") (request_target (str "/payments-summary") parameters) headers ++ rest ->
  handler_totals getenv (query_of parameters) easy_get c.(app).(server).(service).(processed) = Ret res ->
  pair_wf res -> stack_wf c.(app).(buffer) ->
  exists c' sb, serve_once c = Ret (Answered (text_answer 200 (str "application/json") (summary_text res)) false, c') /\
    c'.(session).(m_is_open) = false /\ stack_wf sb /\ c'.(app) = mkApp c.(app).(server) sb c.(app).(profiler).
Proof.
  intros parameters Hready Hf Hto Hh Hs Htotals Hwf Hsb.
  assert (Hb : Forall byte_pair parameters).
  { repeat constructor; try done; cbn [fst snd]; repeat constructor; unfold is_byte; lia. }
  eapply summary_answered; [done|exact (request_target_uri _ _ summary_path Hb)|done..].
Qed.

(** Text that is its own encoding. *)
Definition plain_value (value : list Z) : Prop := Forall (fun c => plain_char c = true /\ c <> 37) value.

Lemma plain_decodes value : plain_value value -> decode value = value.
Proof. induction 1 as [|c value [_ Hc] _ IH]; [done|]. by rewrite decode_cons, IH. Qed.

Lemma query_parameter_plain name value : plain_value name -> plain_value value ->
  query_parameter (name ++ 61 :: value) = Ret (name, value).
Proof.
  assert (Hplus : forall l, plain_value l -> decode_parameter l = Ret l).
  { intros l Hl. unfold decode_parameter. rewrite replace_plus. cbn [bind]. f_equal. rewrite plus_absent; [by apply plain_decodes|].
    eapply Forall_impl; [exact Hl|]. intros c [Hc _] ->. discriminate Hc. }
  intros Hn Hv. unfold query_parameter. rewrite span_app; [by rewrite !Hplus| |done].
  eapply Forall_impl; [exact Hn|]. intros c [Hc _]. unfold plain_char in Hc. cbn in *. lia.
Qed.

Lemma plain_piece name value : plain_value name -> plain_value value ->
  Forall (fun c => path_char c = true) (name ++ 61 :: value) /\ ~ In 38 (name ++ 61 :: value) /\ name ++ 61 :: value <> [].
Proof.
  intros Hn Hv.
  assert (Hpath : forall l, plain_value l -> Forall (fun c => path_char c = true) l /\ ~ In 38 l).
  { intros l Hl. split.
    - eapply Forall_impl; [exact Hl|]. intros c [Hc _]. unfold plain_char in Hc. by destruct (path_char c).
    - apply (plain_not 38 38); [|done|done]. eapply Forall_impl; [exact Hl|]. by intros c [Hc _]. }
  destruct (Hpath _ Hn) as [Hn1 Hn2], (Hpath _ Hv) as [Hv1 Hv2]. split_and!; [by rewrite Forall_app, Forall_cons| |by destruct name].
  rewrite in_app_iff. cbn [In]. intros [|[|]]; done.
Qed.

(** The target of [summary_url]. *)
Definition internal_target (from to : list Z) : list Z :=
  str "/payments-summary?from=" ++ from ++ str "&to=" ++ to ++ str "&internal=true".

Lemma internal_target_says from to : plain_value from -> plain_value to ->
  target_says (internal_target from to) (str "/payments-summary")
    [(str "from", from); (str "internal", str "true"); (str "to", to)].
Proof.
  intros Hf Ht.
  assert (Hk : plain_value (str "from") /\ plain_value (str "to") /\ plain_value (str "internal") /\ plain_value (str "true"))
    by (split_and!; repeat constructor; discriminate).
  destruct Hk as (Hk1 & Hk2 & Hk3 & Hk4).
  set (pieces := [str "from" ++ 61 :: from; str "to" ++ 61 :: to; str "internal" ++ 61 :: str "true"]).
  assert (internal_target from to = str "/payments-summary" ++ 63 :: intercalate 38 pieces) as ->.
  { unfold internal_target, pieces. cbn [intercalate]. rewrite <- ?app_assoc. cbn [List.app]. rewrite <- ?app_assoc. reflexivity. }
  apply target_pieces; [apply summary_path| |done|].
  - repeat (constructor; [by apply plain_piece|]). constructor.
  - unfold pieces. cbn [insert_parameters]. by rewrite !query_parameter_plain.
Qed.

(** C14. The request one instance sends to the other.  [summary_url] is the
    other's address and this target, nothing encoded.  For a window of plain
    characters the instance that gets it reads back the same window and
    [internal=true], so that it answers with the totals of its own payments and
    asks no third instance: the answer does not depend on [getenv] or libcurl. *)
Theorem internal_request_answered c other from to headers rest res :
  ready c -> plain_value from -> plain_value to -> Forall good_header headers ->
  stream c = request_text (str "GET") (internal_target from to) headers ++ rest ->
  query c.(app).(server).(service).(processed) from to = Ret res ->
  pair_wf res -> stack_wf c.(app).(buffer) ->
  summary_url other from to = other ++ internal_target from to /\
  exists c' sb, serve_once c = Ret (Answered (text_answer 200 (str "application/json") (summary_text res)) false, c') /\ stack_wf sb /\
    c'.(app) = mkApp c.(app).(server) sb c.(app).(profiler).
Proof.
  intros Hready Hf Ht Hh Hs Hq Hwf Hsb. split; [reflexivity|].
  destruct (summary_answered c _ _ headers rest res Hready (internal_target_says from to Hf Ht) Hh Hs) as (c' & sb & Hrun & _ & Hsb' & Ha);
    [|done|done|by exists c', sb].
  unfold handler_totals. change (query_of _ (str "from") []) with from. change (query_of _ (str "to") []) with to.
  rewrite Hq. reflexivity.
Qed.
End Program.

(** ** Samples *)
Definition sample_headers (body : list Z) : list (list Z * list Z) :=
  [(str "Host", str "localhost"); (str "content-length", dec (sizeZ body))].

Definition sample_posts : list (list (list Z * list Z) * list Z) :=
  (fun body => (sample_headers body, body)) <$> sample_bodies.

(** The bytes in two pieces, cut inside the first head. *)
Definition sample_connection (a : App) (bytes : list Z) : Context (list (list Z)) App :=
  mkContext new_session [take 50 bytes; drop 50 bytes] a.

Definition sample_app : App := mkApp (new_server sample_service) new_StringBuffer no_profiler.

Lemma sample_stream a bytes : stream (sample_connection a bytes) = bytes.
Proof. unfold stream, sample_connection. cbn. by rewrite app_nil_r, take_drop. Qed.

Lemma sample_ready a bytes : ready (sample_connection a bytes).
Proof. done. Qed.

Lemma payments_framed_witness :
  exists c', serve_many (str "/tmp/s") 4 (fun _ => []) (fun _ => []) [] (fun _ => None) (fun _ => None) [] [] 3
      (sample_connection sample_app (concat (post_text <$> sample_posts) ++ str "GET")) =
      Ret (replicate 3 (Answered accepted_answer true), c') /\
    stream c' = str "GET" /\ ready c' /\
    forall j q, sample_service.(queues) !! j = Some q ->
      exists q', c'.(app).(server).(service).(queues) !! j = Some q' /\
        pending q' = pending q ++ dealt 2 0 (Z.of_nat j) sample_raws.
Proof.
  apply (payments_framed (str "/tmp/s") 4 (fun _ => []) (fun _ => []) [] (fun _ => None) (fun _ => None) [] []
    sample_posts sample_raws (sample_connection sample_app (concat (post_text <$> sample_posts) ++ str "GET")) (str "GET")).
  - apply sample_ready.
  - repeat constructor; vm_compute; try reflexivity; discriminate.
  - apply sample_stream.
  - reflexivity.
  - reflexivity.
  - discriminate.
  - reflexivity.
  - repeat constructor; vm_compute; intuition congruence.
  - repeat constructor.
Defined.

Lemma connection_refines_system_witness :
  exists c' rs, serve_many (str "/tmp/s") 4 (fun _ => []) (fun _ => []) [] (fun _ => None) (fun _ => None) [] [] 3
      (sample_connection sample_app (concat (post_text <$> sample_posts) ++ [])) =
      Ret (replicate 3 (Answered accepted_answer true), c') /\
    stream c' = [] /\ ready c' /\ Forall2 (fun p r => raw_string r = Ret p.2) sample_posts rs /\
    System.run demo0 ([] ++ (Accepted <$> rs)) (c'.(app).(server), demo_world).
Proof.
  apply (connection_refines_system (str "/tmp/s") 4 (fun _ => []) (fun _ => []) [] (fun _ => None) (fun _ => None) [] []
    sample_posts (sample_connection sample_app (concat (post_text <$> sample_posts) ++ [])) [] demo0 [] demo_world).
  - apply sample_ready.
  - repeat constructor; vm_compute; try reflexivity; discriminate.
  - apply sample_stream.
  - repeat constructor; vm_compute; lia.
  - reflexivity.
  - reflexivity.
  - repeat constructor; vm_compute; intuition congruence.
  - apply System.run_nil.
Defined.

Lemma unsized_payment_witness :
  (exists c', serve_once (str "/tmp/s") 4 (fun _ => []) (fun _ => []) [] (fun _ => None) (fun _ => None) [] []
      (sample_connection sample_app (request_text (str "POST") (str "/payments") [(str "Host", str "localhost")] ++ payment_body (str "a") (str "1"))) =
      Ret (Answered accepted_answer true, c') /\
    stream c' = payment_body (str "a") (str "1") /\ ready c' /\
    c'.(app).(server).(service).(queues) = <[0%nat := put (new_queue 4) raw_empty]> sample_service.(queues)) /\
  (forall V (world : World V) worker t pool s (v : V), s.(threads) !! worker = Some t ->
     process worker raw_empty pool s v = Undefined PopBackOnEmpty).
Proof.
  apply (unsized_payment (str "/tmp/s") 4 (fun _ => []) (fun _ => []) [] (fun _ => None) (fun _ => None) [] []
    (sample_connection sample_app (request_text (str "POST") (str "/payments") [(str "Host", str "localhost")] ++ payment_body (str "a") (str "1")))
    [(str "Host", str "localhost")] (payment_body (str "a") (str "1")) (new_queue 4)).
  - apply sample_ready.
  - repeat constructor; discriminate.
  - left. reflexivity.
  - apply sample_stream.
  - reflexivity.
  - reflexivity.
  - apply new_queue_wf. lia.
Defined.

Definition totals_app : App :=
  mkApp (new_server (with_processed sample_processed sample_service)) new_StringBuffer no_profiler.

Lemma summary_request_answered_witness :
  exists c' sb, serve_once (str "/tmp/s") 4 (fun _ => []) (fun _ => []) [] (fun _ => None) (fun _ => None) [] []
      (sample_connection totals_app (request_text (str "GET") (request_target (str "/payments-summary")
        [(str "from", sample_from); (str "to", sample_to)]) [(str "Host", str "localhost")] ++ [])) =
      Ret (Answered (text_answer (str "/tmp/s") 4 200 (str "application/json") (summary_text sample_totals)) false, c') /\
    c'.(session).(m_is_open) = false /\ stack_wf sb /\ c'.(app) = mkApp totals_app.(server) sb no_profiler.
Proof.
  apply (summary_request_answered (str "/tmp/s") 4 (fun _ => []) (fun _ => []) [] (fun _ => None) (fun _ => None) [] []
    (sample_connection totals_app (request_text (str "GET") (request_target (str "/payments-summary")
        [(str "from", sample_from); (str "to", sample_to)]) [(str "Host", str "localhost")] ++ []))
    sample_from sample_to [(str "Host", str "localhost")] [] sample_totals).
  - apply sample_ready.
  - vm_compute. repeat constructor; discriminate.
  - vm_compute. repeat constructor; discriminate.
  - repeat constructor; discriminate.
  - apply sample_stream.
  - vm_compute. reflexivity.
  - exact (proj1 sample_totals_wf).
  - exact new_StringBuffer_wf.
Defined.

Lemma internal_request_answered_witness :
  summary_url sample_url sample_from sample_to = sample_url ++ internal_target sample_from sample_to /\
  exists c' sb, serve_once (str "/tmp/s") 4 (fun _ => []) (fun _ => []) [] sample_getenv (fun _ => None) [] []
      (sample_connection totals_app (request_text (str "GET") (internal_target sample_from sample_to) [(str "Host", str "other")] ++ [])) =
      Ret (Answered (text_answer (str "/tmp/s") 4 200 (str "application/json") (summary_text sample_totals)) false, c') /\
    stack_wf sb /\ c'.(app) = mkApp totals_app.(server) sb no_profiler.
Proof.
  apply (internal_request_answered (str "/tmp/s") 4 (fun _ => []) (fun _ => []) [] sample_getenv (fun _ => None) [] []
    (sample_connection totals_app (request_text (str "GET") (internal_target sample_from sample_to) [(str "Host", str "other")] ++ [])) sample_url
    sample_from sample_to [(str "Host", str "other")] [] sample_totals).
  - apply sample_ready.
  - repeat constructor; discriminate.
  - repeat constructor; discriminate.
  - repeat constructor; discriminate.
  - apply sample_stream.
  - vm_compute. reflexivity.
  - exact (proj1 sample_totals_wf).
  - exact new_StringBuffer_wf.
Defined.

Lemma bad_heads_refused_witness :
  let c := sample_connection sample_app (str "GET /[ HTTP/1.1" ++ CRLFCRLF) in
  refused (str "/tmp/s") 4 (fun _ => []) (fun _ => []) [] (fun _ => None) (fun _ => None) [] [] c 400 malformed_line.
Proof.
  apply (bad_heads_refused (str "/tmp/s") 4 (fun _ => []) (fun _ => []) [] (fun _ => None) (fun _ => None) [] []
    (sample_connection sample_app (str "GET /[ HTTP/1.1" ++ CRLFCRLF)) (str "GET /[ HTTP/1.1" ++ CR) CRLF).
  - apply sample_ready.
  - repeat constructor; discriminate.
  - apply sample_stream.
  - rewrite sample_stream. by eexists _, [].
  - vm_compute. reflexivity.
Defined.
