(* ===== verification/EndToEnd.v ===== *)
(** * From posted payments to the reported totals

    The parts composed: payments arrive on a connection (Connections.v), are
    dealt to the queues (PostHandler.v), taken by the workers or handed to the
    fallback pool and forwarded (Service.v, Processing.v), booked (Processed.v), and a summary asked for on another
    connection reports them (SummaryHandler.v). *)
From S2P Require Import Prelude Decimal Types Doubles DoubleValid Calendar WorkerQueue Processed Routing Payload Processing Service PostHandler.
From S2P Require Import System StringBuffer ReaderRoundtrip SummaryHandler Profiler Drain Config.
From S2P Require Import Regex Multimap HttpString Uri HttpRequest HttpResponse HttpSession HttpService Endpoint Connections.
From Stdlib Require Import SpecFloat.

(** ** What is booked *)
Definition body_says (body : list Z) (a : double) : Prop := exists id num,
  body = payment_body id num /\ Forall (fun x => x <> 34) id /\
  Forall (fun x => existsb (Z.eqb x) (str ",}") = false) num /\ stod num = Ret a.

Lemma body_payment_says r body a : raw_string r = Ret body -> body_says body a -> payment_says r a.
Proof. intros Hr (id & num & -> & H). by exists id, num. Qed.

(** [e] books the payment [r] inside the window, for the default processor when
    the fallback is disabled. *)
Definition booked_as (enabled : bool) (from_ms to_ms : Z) (r : RawPayment) (e : entry) : Prop :=
  payment_says r e.(e_amount) /\ (enabled = false -> e.(e_fallback) = false) /\ from_ms < 1000 * e.(e_sec) <= to_ms.

Lemma payment_says_double r a : payment_says r a -> is_double a.
Proof. intros (id & num & _ & _ & _ & Ha). by eapply stod_valid. Qed.

(** ** Workers and the fallback pool *)

(** A turn of a worker, or of the [k]-th thread of the pool (of nobody, when
    there are not so many). *)
Inductive turn := Worker (i : nat) | Pool (k : nat).

Section Workers.
Context {W : Type} `{World W}.

(** The service runs and the queues hold [rss]. *)
Record staffed (s : Service) (rss : list (list RawPayment)) (log : list entry) : Prop := {
  st_on : s.(running) = true;
  st_routing : routing_wf s.(routing);
  st_queues : Forall2 (fun q rs => queue_wf q /\ pending q = rs) s.(queues) rss;
  st_threads : forall i, (i < length s.(queues))%nat ->
    exists t, s.(threads) !! i = Some t /\ handles_valid t /\ cache_ok t.(cache);
  st_pool : Forall (fun p => p.1 < length s.(queues))%nat s.(spawned);
  st_log : represents s.(processed) log }.

Definition service_step (t : turn) (s : Service) (w : W) : outcome (iteration * Service * W * list event) :=
  match t with
  | Worker i => worker_iteration i s w
  | Pool k => if (k <? length s.(spawned))%nat then pool_run k s w else Ret (Idle, s, w, [])
  end.

Fixpoint service_run (schedule : list turn) (s : Service) (w : W) : outcome (Service * W) :=
  match schedule with
  | [] => Ret (s, w)
  | t :: schedule => let* (_, s, w, _) := service_step t s w in service_run schedule s w
  end.

Lemma service_run_app schedule schedule' s w :
  service_run (schedule ++ schedule') s w = let* (s, w) := service_run schedule s w in service_run schedule' s w.
Proof.
  revert s w. induction schedule as [|t schedule IH]; intros s w; [done|]. cbn [List.app service_run].
  destruct (service_step t s w) as [[[[? ?] ?] ?]| |]; cbn [bind]; [apply IH|done..].
Qed.

Definition is_turn_of (i : nat) (t : turn) : bool := match t with Worker j => (i =? j)%nat | Pool _ => false end.
Definition turns (i : nat) (schedule : list turn) : nat := length (List.filter (is_turn_of i) schedule).
Definition valid_turn (n : nat) (t : turn) : Prop := match t with Worker i => (i < n)%nat | Pool _ => True end.

(** What a turn does to the queues. *)
Definition turn_queues (t : turn) (rss : list (list RawPayment)) : list (list RawPayment) :=
  match t with Worker i => alter (drop 1) i rss | Pool _ => rss end.

Definition in_service (rss : list (list RawPayment)) (s : Service) : list RawPayment := concat rss ++ s.(spawned).*2.

Definition says_something (r : RawPayment) : Prop := exists a, payment_says r a.

(** One attempt that the processors accept keeps the service staffed. *)
Lemma staffed_process pool i r a s rss log (w : W) Up from_ms to_ms :
  staffed s rss log -> (i < length s.(queues))%nat -> payment_says r a ->
  always_up Up s.(processed).(processed_start) -> Up w -> (forall w, Up w -> from_ms < 1000 * u64 (time_now w) <= to_ms) ->
  exists v s' w' es e, process i r pool s w = Ret (v, s', w', es) /\ Up w' /\
    s'.(processed).(processed_start) = s.(processed).(processed_start) /\
    s'.(routing).(fallback_enabled) = s.(routing).(fallback_enabled) /\ s'.(spawned) = s.(spawned) /\
    staffed s' rss (log ++ [e]) /\ booked_as s.(routing).(fallback_enabled) from_ms to_ms r e.
Proof.
  intros [Hon Hr Hqs Hth Hpool Hlog] Hi Ha Hup Hw Hwin. destruct (Hth i Hi) as (t & Ht & Hv & Hc).
  destruct (process_exact pool i r a s log w Up t Ht Hv Hc Hr Hlog Ha Hup Hw)
    as (s' & w' & es & t' & Hrun & Hqs' & Hon' & Hsp & Hth' & Hv' & Hc' & Hr' & Hen' & Hlog' & Hup' & Hst).
  do 5 eexists. split; [exact Hrun|]. do 4 (split; [done|]). split.
  - split; rewrite ?Hqs', ?Hsp, ?Hon'; try done. intros j Hj. rewrite Hth'. destruct (decide (i = j)) as [<-|Hne].
    + exists t'. split; [|done]. apply list_lookup_insert_eq. by eapply lookup_lt_Some.
    + rewrite list_lookup_insert_ne by done. by apply Hth.
  - split; [exact Ha|]. split; [|by apply Hwin]. cbn [e_fallback]. by intros ->.
Qed.

(** A turn of worker [i]: its first payment is booked or handed to the pool. *)
Lemma staffed_worker i rs s rss log (w : W) Up from_ms to_ms :
  staffed s rss log -> rss !! i = Some rs -> Forall says_something rs ->
  always_up Up s.(processed).(processed_start) -> Up w -> (forall w, Up w -> from_ms < 1000 * u64 (time_now w) <= to_ms) ->
  exists it s' w' es booked log', worker_iteration i s w = Ret (it, s', w', es) /\ Up w' /\
    s'.(processed).(processed_start) = s.(processed).(processed_start) /\
    s'.(routing).(fallback_enabled) = s.(routing).(fallback_enabled) /\
    staffed s' (<[i := drop 1 rs]> rss) (log ++ log') /\
    Forall2 (booked_as s.(routing).(fallback_enabled) from_ms to_ms) booked log' /\
    booked ++ s'.(spawned).*2 ≡ₚ take 1 rs ++ s.(spawned).*2.
Proof.
  intros Hs Hi Hgood Hup Hw Hwin. pose proof Hs as [Hon Hr Hqs Hth Hpool Hlog].
  destruct (Forall2_lookup_r _ _ _ _ _ Hqs Hi) as (q & Hq & Hwf & Hp).
  unfold worker_iteration. rewrite Hq, Hon. destruct rs as [|r rs].
  { rewrite fetch_next_empty by (right; apply pending_nil in Hp; [lia|done]). cbn [bind].
    do 4 eexists. exists [], []. split; [reflexivity|]. cbn [drop take List.app]. rewrite app_nil_r, list_insert_id by done. by split_and!. }
  assert (Hlt : q.(head) < q.(tail)).
  { pose proof (wf_head q Hwf). enough (q.(head) <> q.(tail)) by lia. intros He. apply pending_nil in He; [|done]. congruence. }
  destruct (pending_cons q Hwf Hlt) as (r0 & Hslot & Hcons). rewrite Hp in Hcons. injection Hcons as <- Hrest.
  rewrite (fetch_next_head q r) by done. cbn [bind]. set (q' := mkWorkerQueue _ _ _) in *. cbv zeta.
  set (s1 := with_queue i q' s). assert (Hwf' : queue_wf q').
  { destruct Hwf. split; unfold capacityZ in *; cbn [queue head tail q'] in *; lia. }
  assert (Hlen : length (queues s1) = length (queues s)) by apply length_insert.
  assert (Hil : (i < length (queues s))%nat) by (by eapply lookup_lt_Some).
  assert (Hs1 : staffed s1 (<[i := rs]> rss) log).
  { split; try done; rewrite ?Hlen; [|done|done]. apply Forall2_insert; [done|]. by split. }
  cbn [drop take]. rewrite drop_0. destruct (_ && _ && _).
  - do 4 eexists. exists [], []. split; [reflexivity|]. rewrite app_nil_r. do 3 (split; [done|]). split; [|split; [constructor|]].
    + destruct Hs1 as [Hon1 Hr1 Hqs1 Hth1 Hpool1 Hlog1]. split; try done. cbn [spawned with_pool]. apply Forall_app.
      split; [exact Hpool1|]. constructor; [|constructor]. cbn [fst queues with_pool]. lia.
    + cbn [spawned with_pool List.app]. rewrite fmap_app. cbn [fmap list_fmap snd]. apply Permutation_app_comm.
  - apply Forall_cons in Hgood as [(a & Ha) _].
    destruct (staffed_process false i r a s1 _ log w Up from_ms to_ms Hs1) as (v & s' & w' & es & e & Hrun & Hup' & Hst & Hen & Hsp & Hs' & He);
      [lia|done..|].
    rewrite Hrun. cbn [bind]. do 4 eexists. exists [r], [e]. split; [reflexivity|]. do 4 (split; [done|]).
    split; [constructor; [exact He|constructor]|]. by rewrite Hsp.
Qed.

(** A turn of the pool: the payment of that thread is booked. *)
Lemma staffed_pool k s rss log (w : W) Up from_ms to_ms :
  staffed s rss log -> Forall says_something s.(spawned).*2 ->
  always_up Up s.(processed).(processed_start) -> Up w -> (forall w, Up w -> from_ms < 1000 * u64 (time_now w) <= to_ms) ->
  exists it s' w' es booked log', service_step (Pool k) s w = Ret (it, s', w', es) /\ Up w' /\
    s'.(processed).(processed_start) = s.(processed).(processed_start) /\
    s'.(routing).(fallback_enabled) = s.(routing).(fallback_enabled) /\
    staffed s' rss (log ++ log') /\ Forall2 (booked_as s.(routing).(fallback_enabled) from_ms to_ms) booked log' /\
    booked ++ s'.(spawned).*2 ≡ₚ s.(spawned).*2 /\ s'.(spawned) = delete k s.(spawned).
Proof.
  intros Hs Hgood Hup Hw Hwin. cbn [service_step]. destruct (Nat.ltb_spec k (length (spawned s))) as [Hk|Hk].
  2: { do 4 eexists. exists [], []. split; [reflexivity|]. rewrite delete_take_drop, take_ge, drop_ge, !app_nil_r by lia. by split_and!. }
  destruct (lookup_lt_is_Some_2 _ _ Hk) as [[i r] Hir]. unfold pool_run. rewrite Hir.
  pose proof Hs as [Hon Hr Hqs Hth Hpool Hlog]. pose proof (Forall_lookup_1 _ _ _ _ Hpool Hir) as Hi. cbn [fst] in Hi.
  set (s1 := with_pool _ _ (delete k (spawned s)) s).
  assert (Hperm : r :: (delete k (spawned s)).*2 ≡ₚ (spawned s).*2).
  { change (r :: (delete k (spawned s)).*2) with (((i, r) :: delete k (spawned s)).*2). apply fmap_Permutation.
    symmetry. by apply delete_Permutation. }
  assert (Hs1 : staffed s1 rss log).
  { split; try done. cbn [spawned s1 with_pool]. by apply Forall_delete. }
  rewrite <- Hperm in Hgood. apply Forall_cons in Hgood as [(a & Ha) _].
  destruct (staffed_process true i r a s1 _ log w Up from_ms to_ms Hs1 Hi Ha Hup Hw Hwin)
    as (v & s' & w' & es & e & Hrun & Hup' & Hst & Hen & Hsp & Hs' & He).
  rewrite Hrun. cbn [bind]. do 4 eexists. exists [r], [e]. split; [reflexivity|]. do 4 (split; [done|]).
  split; [constructor; [exact He|constructor]|]. rewrite Hsp. by split.
Qed.

Lemma turns_cons i t schedule : turns i (t :: schedule) = ((if is_turn_of i t then 1 else 0) + turns i schedule)%nat.
Proof. unfold turns. cbn [List.filter]. by destruct (is_turn_of i t). Qed.

Lemma concat_drop_perm (rss : list (list RawPayment)) i rs : rss !! i = Some rs ->
  take 1 rs ++ concat (<[i := drop 1 rs]> rss) ≡ₚ concat rss.
Proof.
  intros Hrs. rewrite <- (take_drop_middle rss i rs Hrs) at 2. rewrite insert_take_drop by (by eapply lookup_lt_Some).
  rewrite !concat_app. cbn [concat]. rewrite <- (take_drop 1 rs) at 3. rewrite <- !app_assoc, !(app_assoc (take 1 rs)).
  rewrite (Permutation_app_comm (take 1 rs) (concat (take i rss))). by rewrite <- !app_assoc.
Qed.

(** Any turn books something, and keeps what is in the service otherwise. *)
Lemma staffed_turn t s rss log (w : W) Up from_ms to_ms :
  staffed s rss log -> valid_turn (length rss) t -> Forall says_something (in_service rss s) ->
  always_up Up s.(processed).(processed_start) -> Up w -> (forall w, Up w -> from_ms < 1000 * u64 (time_now w) <= to_ms) ->
  exists it s' w' es booked log', service_step t s w = Ret (it, s', w', es) /\ Up w' /\
    s'.(processed).(processed_start) = s.(processed).(processed_start) /\
    s'.(routing).(fallback_enabled) = s.(routing).(fallback_enabled) /\
    staffed s' (turn_queues t rss) (log ++ log') /\
    Forall2 (booked_as s.(routing).(fallback_enabled) from_ms to_ms) booked log' /\
    booked ++ in_service (turn_queues t rss) s' ≡ₚ in_service rss s /\
    (forall k, t = Pool k -> s'.(spawned) = delete k s.(spawned)).
Proof.
  intros Hs Ht Hgood Hup Hw Hwin. unfold in_service in *. apply Forall_app in Hgood as [Hgood Hpool]. destruct t as [i|k].
  - destruct (lookup_lt_is_Some_2 rss i Ht) as [rs Hrs].
    assert (Hgrs : Forall says_something rs) by (apply Forall_concat in Hgood; exact (Forall_lookup_1 _ _ _ _ Hgood Hrs)).
    destruct (staffed_worker i rs s rss log w Up from_ms to_ms Hs Hrs Hgrs Hup Hw Hwin)
      as (it & s' & w' & es & bk & l & Hrun & Hup' & Hst & Hen & Hs' & Hb & Hperm).
    assert (Hq : turn_queues (Worker i) rss = <[i := drop 1 rs]> rss).
    { cbn [turn_queues]. apply list_eq. intros j. destruct (decide (i = j)) as [<-|Hne].
      - by rewrite list_lookup_alter_eq, Hrs, list_lookup_insert_eq.
      - by rewrite list_lookup_alter_ne, list_lookup_insert_ne. }
    exists it, s', w', es, bk, l. rewrite Hq. split; [exact Hrun|]. do 5 (split; [done|]). split; [|done].
    rewrite (Permutation_app_comm (concat (<[i:=_]> rss))), app_assoc, Hperm, <- (concat_drop_perm rss i rs Hrs).
    rewrite <- !app_assoc. apply Permutation_app_head, Permutation_app_comm.
  - destruct (staffed_pool k s rss log w Up from_ms to_ms Hs Hpool Hup Hw Hwin)
      as (it & s' & w' & es & bk & l & Hrun & Hup' & Hst & Hen & Hs' & Hb & Hperm & Hdel).
    exists it, s', w', es, bk, l. cbn [turn_queues]. split; [exact Hrun|]. do 5 (split; [done|]). split; [|by intros ? [= <-]].
    rewrite (Permutation_app_comm (concat rss)), app_assoc, Hperm. apply Permutation_app_comm.
Qed.

Lemma turn_queues_length t rss : length (turn_queues t rss) = length rss.
Proof. destruct t; [apply length_alter|done]. Qed.

Lemma service_run_books schedule s rss log (w : W) Up from_ms to_ms :
  staffed s rss log -> Forall (valid_turn (length rss)) schedule -> Forall says_something (in_service rss s) ->
  always_up Up s.(processed).(processed_start) -> Up w -> (forall w, Up w -> from_ms < 1000 * u64 (time_now w) <= to_ms) ->
  exists s' w' rss' booked log', service_run schedule s w = Ret (s', w') /\ Up w' /\ staffed s' rss' (log ++ log') /\
    s'.(processed).(processed_start) = s.(processed).(processed_start) /\
    s'.(routing).(fallback_enabled) = s.(routing).(fallback_enabled) /\
    Forall2 (booked_as s.(routing).(fallback_enabled) from_ms to_ms) booked log' /\
    booked ++ in_service rss' s' ≡ₚ in_service rss s /\
    (forall i l, rss !! i = Some l -> rss' !! i = Some (drop (turns i schedule) l)) /\ length rss' = length rss /\
    (forall n, schedule = replicate n (Pool 0) -> s'.(spawned) = drop n s.(spawned)).
Proof.
  intros Hs Hsch Hgood Hup Hw Hwin. revert s rss log w Hs Hsch Hgood Hup Hw.
  induction schedule as [|t schedule IH]; intros s rss log w Hs Hsch Hgood Hup Hw.
  - exists s, w, rss, [], []. rewrite app_nil_r. split_and!; try done. intros [|n]; [by rewrite drop_0|discriminate].
  - apply Forall_cons in Hsch as [Ht Hsch].
    destruct (staffed_turn t s rss log w Up from_ms to_ms Hs Ht Hgood Hup Hw Hwin)
      as (it & s1 & w1 & es & b1 & l1 & Hrun & Hw1 & Hst & Hen & Hs1 & Hb1 & Hperm1 & Hpool1).
    destruct (IH s1 (turn_queues t rss) (log ++ l1) w1 Hs1)
      as (s' & w' & rss' & b2 & l2 & Hrun2 & Hw2 & Hs' & Hst' & Hen' & Hb2 & Hperm2 & Hdrop & Hlen & Hpool2).
    + by rewrite turn_queues_length.
    + rewrite <- Hperm1 in Hgood. by apply Forall_app in Hgood as [_ Hgood].
    + by rewrite Hst.
    + done.
    + exists s', w', rss', (b1 ++ b2), (l1 ++ l2). cbn [service_run]. rewrite Hrun. cbn [bind].
      rewrite app_assoc, Hst', Hst, Hen', Hen. rewrite Hen in Hb2.
      split_and!; [done|done|done|done|done|by apply Forall2_app| | |by rewrite Hlen, turn_queues_length|].
      * by rewrite <- app_assoc, Hperm2.
      * intros i l Hi. rewrite turns_cons. destruct t as [j|k]; cbn [is_turn_of turn_queues] in *; [|by apply Hdrop].
        destruct (Nat.eqb_spec i j) as [->|Hne].
        -- rewrite (Hdrop j (drop 1 l)) by (by rewrite list_lookup_alter_eq, Hi). by rewrite drop_drop.
        -- apply Hdrop. by rewrite list_lookup_alter_ne.
      * intros [|n]; [discriminate|]. cbn [replicate]. intros [= -> Hn]. rewrite (Hpool2 n Hn), (Hpool1 0%nat eq_refl).
        destruct (spawned s); [by destruct n|done].
Qed.
End Workers.

(** ** The requests fill the queues *)
Section Posting.
Context {W : Type} `{World W}.

Lemma post_staffed body srv rss log n :
  staffed srv.(service) rss log -> (length body <= 70)%nat ->
  0 < srv.(queue_size) -> sizeZ srv.(service).(queues) = srv.(queue_size) ->
  Forall (space_for (S n)) srv.(service).(queues) ->
  exists r srv' rss', post_payment_handler body srv = Ret (r, srv') /\ raw_string r = Ret body /\
    staffed srv'.(service) rss' log /\ concat rss' ≡ₚ r :: concat rss /\ length rss' = length rss /\
    Forall (space_for n) srv'.(service).(queues) /\
    srv'.(queue_size) = srv.(queue_size) /\ sizeZ srv'.(service).(queues) = srv.(queue_size) /\
    srv'.(service).(processed) = srv.(service).(processed) /\
    srv'.(service).(routing) = srv.(service).(routing) /\ srv'.(service).(spawned) = srv.(service).(spawned).
Proof.
  intros [Hon Hr Hqs Hth Hpool Hlog] Hlen Hk Hsize Hspace.
  set (i := Z.to_nat (srv.(queue_index) mod srv.(queue_size))).
  destruct (lookup_lt_is_Some_2 srv.(service).(queues) i) as [q Hq].
  { pose proof (Z.mod_pos_bound srv.(queue_index) srv.(queue_size) Hk). unfold i, sizeZ in *. lia. }
  pose proof (Forall_lookup_1 _ _ _ _ Hspace Hq) as Hsq.
  destruct (Forall2_lookup_l _ _ _ _ _ Hqs Hq) as (rs & Hrs & Hwf & Hp).
  destruct (make_raw_fits body Hlen) as (r & Hmake & Hraw & _). unfold post_payment_handler. rewrite Hmake. cbn [bind].
  replace (queue_size srv =? 0) with false by lia. fold i. rewrite (service_enqueue_at i _ _ q Hq) by done. cbn [bind].
  eexists r, _, (<[i := rs ++ [r]]> rss). split; [reflexivity|]. cbn [queue_size service queues with_queue processed].
  split_and!; try done.
  - split; try done.
    + apply Forall2_insert; [done|]. split; [apply queue_wf_put|rewrite pending_put, Hp]; try done; destruct Hsq as (_ & ? & ?); split; lia.
    + cbn. rewrite length_insert. exact Hth.
    + cbn. rewrite length_insert. exact Hpool.
  - rewrite <- (take_drop_middle rss i rs Hrs) at 2. rewrite insert_take_drop by (by eapply lookup_lt_Some).
    rewrite !concat_app. cbn [concat]. rewrite <- !app_assoc. cbn [app]. rewrite !(app_assoc _ rs).
    symmetry. apply Permutation_middle.
  - by rewrite length_insert.
  - apply Forall_insert; [|by apply (space_push n q)]. eapply Forall_impl; [exact Hspace|]. intros q0 Hq0. by apply (space_push n q0 raw_empty).
  - unfold sizeZ in *. by rewrite length_insert.
Qed.

Lemma posts_staffed bodies : forall srv rss log,
  staffed srv.(service) rss log -> Forall (fun body => length body <= 70)%nat bodies ->
  0 < srv.(queue_size) -> sizeZ srv.(service).(queues) = srv.(queue_size) ->
  Forall (space_for (length bodies)) srv.(service).(queues) ->
  exists rs srv' rss', post_all bodies srv = Ret srv' /\ Forall2 (fun body r => raw_string r = Ret body) bodies rs /\
    staffed srv'.(service) rss' log /\ concat rss' ≡ₚ rs ++ concat rss /\ length rss' = length rss /\
    srv'.(service).(processed) = srv.(service).(processed) /\
    srv'.(service).(routing) = srv.(service).(routing) /\ srv'.(service).(spawned) = srv.(service).(spawned).
Proof.
  induction bodies as [|b bodies IH]; intros srv rss log Hs Hlen Hk Hsize Hspace.
  - exists [], srv, rss. by split_and!.
  - apply Forall_cons in Hlen as [Hb Hlen].
    destruct (post_staffed b srv rss log (length bodies) Hs Hb Hk Hsize Hspace)
      as (r & srv1 & rss1 & Hpost & Hraw & Hs1 & Hperm & Hl1 & Hspace1 & Hk1 & Hsize1 & Hproc1 & Hrt1 & Hsp1).
    destruct (IH srv1 rss1 log Hs1 Hlen) as (rs & srv' & rss' & Hall & Hraws & Hs' & Hperm' & Hl' & Hproc' & Hrt' & Hsp');
      [by rewrite Hk1|by rewrite Hk1|done|].
    exists (r :: rs), srv', rss'. cbn [post_all]. rewrite Hpost. cbn [bind].
    split_and!; [done|by constructor|done| |by rewrite Hl'|by rewrite Hproc'|by rewrite Hrt'|by rewrite Hsp'].
    rewrite Hperm', Hperm. symmetry. apply Permutation_middle.
Qed.
End Posting.

(** ** The window of a summary *)
Definition double_amounts (log : list entry) : Prop := Forall (fun e => is_double e.(e_amount)) log.

Lemma bucket_valid k log sec : double_amounts log -> is_double (bucket k log sec).(totalAmount).
Proof.
  intros Hlog. unfold bucket. assert (Hh : double_amounts (hits k sec sec log)).
  { unfold double_amounts, hits in *. rewrite Forall_forall in *. intros e He. apply Hlog.
    apply list_elem_of_In in He. apply filter_In in He as [He _]. by apply list_elem_of_In. }
  assert (H0 : is_double summary_zero.(totalAmount)) by done. revert H0. generalize summary_zero.
  induction Hh as [|e l He _ IH]; intros s Hs; cbn [fold_left]; [done|]. apply IH. by apply dadd_valid.
Qed.

Lemma window_valid k log lo hi : double_amounts log -> is_double (window_summary k log lo hi summary_zero).(totalAmount).
Proof.
  intros Hlog. unfold window_summary. assert (H0 : is_double summary_zero.(totalAmount)) by done. revert H0.
  generalize summary_zero as acc. induction (seqZ lo (hi - lo + 1)) as [|x l IH]; intros acc Hacc; cbn [fmap list_fmap fold_left]; [done|].
  apply IH, dadd_valid; [done|]. by apply bucket_valid.
Qed.

(** What a summary says of a log that lies in its window: per processor the
    number of its payments and the sum of its buckets. *)
Definition log_totals (start from_ms to_ms : Z) (log : list entry) (fallback : bool) : Types.Summary :=
  mkSummary (Z.of_nat (length (List.filter (fun e => Bool.eqb e.(e_fallback) fallback) log)))
    (totalAmount (window_summary fallback log (Z.max start (from_ms / 1000 + 1))
       (Z.min (to_ms / 1000) (start + PROCESSED_CAPACITY - 1)) summary_zero)).

Definition log_summary (start from_ms to_ms : Z) (log : list entry) : SummaryPair :=
  mkSummaryPair (log_totals start from_ms to_ms log false) (log_totals start from_ms to_ms log true).

Lemma log_counts start from_ms to_ms log :
  (log_totals start from_ms to_ms log false).(totalRequests) + (log_totals start from_ms to_ms log true).(totalRequests) =
  Z.of_nat (length log).
Proof.
  cbn [totalRequests log_totals]. induction log as [|e log IH]; [done|]. cbn [List.filter length].
  destruct (e_fallback e); cbn [Bool.eqb length]; lia.
Qed.

Lemma summary_eta (s : Types.Summary) : mkSummary s.(totalRequests) s.(totalAmount) = s.
Proof. by destruct s. Qed.

Lemma booked_window enabled from_ms to_ms start rs log fallback :
  Forall2 (booked_as enabled from_ms to_ms) rs log -> Forall (fun e => start <= e.(e_sec) < start + PROCESSED_CAPACITY) log ->
  Z.of_nat (length log) < 2 ^ 64 ->
  window_summary fallback log (Z.max start (from_ms / 1000 + 1)) (Z.min (to_ms / 1000) (start + PROCESSED_CAPACITY - 1)) summary_zero =
    log_totals start from_ms to_ms log fallback /\
  is_double (log_totals start from_ms to_ms log fallback).(totalAmount).
Proof.
  intros Hb Hrange Hlen.
  assert (Hin : forall e, e ∈ log -> exists r, booked_as enabled from_ms to_ms r e).
  { intros e (i & He)%list_elem_of_lookup_1. destruct (Forall2_lookup_r _ _ _ _ _ Hb He) as (r & _ & Hr). by exists r. }
  split.
  - rewrite <- (summary_eta (window_summary _ _ _ _ _)). unfold log_totals. f_equal.
    rewrite window_count, hits_counted by done. unfold counted. rewrite u64_small.
    + do 2 f_equal. apply List.filter_ext_in. intros e He%list_elem_of_In. destruct (Hin e He) as (r & _ & _ & Hw).
      destruct (Bool.eqb (e_fallback e) fallback); cbn [andb]; lia.
    + pose proof (List.filter_length_le (fun e => Bool.eqb (e_fallback e) fallback && (from_ms <? 1000 * e_sec e) && (1000 * e_sec e <=? to_ms)) log).
      lia.
  - apply window_valid, Forall_forall. intros e He. destruct (Hin e He) as (r & Hs & _). by eapply payment_says_double.
Qed.

(** ** The whole way *)
(** The amount of a payment as a function. *)
Definition amount_said (r : RawPayment) : double :=
  match (let* body := raw_string r in
         let* (payload, _, _) := create_processor_payload 1 new_cache body in
         extract_amount payload) with
  | Ret a => a
  | _ => dzero
  end.

Lemma payment_says_amount r a : payment_says r a -> amount_said r = a.
Proof.
  intros (id & num & Hr & Hid & Hnum & Ha).
  destruct (payload_extracts 1 new_cache id num) as (payload & c & Hp & _ & _ & Hx); [by intros ?|done|done|done|].
  unfold amount_said. rewrite Hr. cbn [bind]. rewrite Hp. cbn [bind]. by rewrite Hx, Ha.
Qed.

Lemma says_amounts rs amounts : Forall2 payment_says rs amounts -> amounts = amount_said <$> rs.
Proof. induction 1 as [|r a rs amounts Hr _ IH]; [done|]. by rewrite fmap_cons, <- IH, (payment_says_amount r a). Qed.

Lemma booked_amounts enabled from_ms to_ms rs log : Forall2 (booked_as enabled from_ms to_ms) rs log -> e_amount <$> log = amount_said <$> rs.
Proof. intros Hb. apply says_amounts, Forall2_fmap_r. eapply Forall2_impl; [exact Hb|]. by intros r e [? _]. Qed.

(** The sums of a summary are finite, so that they can be printed. *)
Definition finite_pair (res : SummaryPair) : Prop :=
  is_finite res.(Types.def).(totalAmount) = true /\ is_finite res.(Types.fb).(totalAmount) = true.

(** The payments of a day: good posts with readable amounts on the connection
    [c] to a service that starts empty with room for them; the workers and the
    threads of the pool take turns in any order, each worker at least as many as
    there are payments, and the pool as many at the end; the processors answer and
    the clock stays in the window. *)
Record good_day {V : Type} `{Transport V} {W : Type} `{World W} (posts : list (list (list Z * list Z) * list Z)) (amounts : list double)
    (c : Context V App) (rest : list Z) (schedule : list turn) (w : W) (Up : W -> Prop) (from_ms to_ms : Z) : Prop := {
  gd_ready : ready c;
  gd_posts : Forall good_post posts;
  gd_stream : stream c = concat (post_text <$> posts) ++ rest;
  gd_amounts : Forall2 (fun p a => (length p.2 <= 70)%nat /\ body_says p.2 a) posts amounts;
  gd_workers : 0 < c.(app).(server).(queue_size);
  gd_queues : sizeZ c.(app).(server).(service).(queues) = c.(app).(server).(queue_size);
  gd_space : Forall (space_for (length posts)) c.(app).(server).(service).(queues);
  gd_staffed : staffed c.(app).(server).(service) (replicate (Z.to_nat c.(app).(server).(queue_size)) []) [];
  gd_pool : c.(app).(server).(service).(spawned) = [];
  gd_schedule : Forall (valid_turn (Z.to_nat c.(app).(server).(queue_size))) schedule;
  gd_turns : exists workers, schedule = workers ++ replicate (length posts) (Pool 0) /\
    forall i, Z.of_nat i < c.(app).(server).(queue_size) -> (length posts <= turns i workers)%nat;
  gd_up : always_up Up c.(app).(server).(service).(processed).(processed_start);
  gd_world : Up w;
  gd_window : forall w, Up w -> from_ms < 1000 * u64 (time_now w) <= to_ms;
  gd_from : 0 <= from_ms;
  gd_to : to_ms < 2 ^ 62;
  gd_buffer : stack_wf c.(app).(buffer) }.

Section Day.
Context {V : Type} `{Transport V} {W : Type} `{World W}.
Variable socket : list Z.
Variable concurrency : Z.
Variable what : cpp_exception -> list Z.
Variable error_message : V -> list Z.
Variable regex_what : list Z.
Variable getenv : list Z -> option (list Z).
Variable easy_get : list Z -> option (bool * Z * list (list Z)).
Variable local_time : list Z.
Variable feature_order : list (list Z).

Let many := serve_many socket concurrency what error_message regex_what getenv easy_get local_time feature_order.
Let once := serve_once socket concurrency what error_message regex_what getenv easy_get local_time feature_order.

(** [n] requests on the connection [c], then turns of the workers and the pool. *)
Definition work (n : nat) (c : Context V App) (schedule : list turn) (w : W) : outcome (list exchange * App) :=
  let* (answers, c) := many n c in
  let a := c.(app) in
  let* (s, _) := service_run schedule a.(server).(service) w in
  Ret (answers, mkApp (mkServer s a.(server).(queue_index) a.(server).(queue_size)) a.(buffer) a.(profiler)).

(** The same, and one request on a second connection. *)
Definition day (n : nat) (c : Context V App) (schedule : list turn) (w : W) (session2 : SessionImpl) (net2 : V)
  : outcome (list exchange * exchange) :=
  let* (answers, a) := work n c schedule w in
  let* (answer, _) := once (mkContext session2 net2 a) in
  Ret (answers, answer).

Lemma drained_empty (rss rss' : list (list RawPayment)) schedule n :
  (forall i l, rss !! i = Some l -> rss' !! i = Some (drop (turns i schedule) l)) -> length rss' = length rss ->
  (forall i, (i < length rss)%nat -> (n <= turns i schedule)%nat) -> (length (concat rss) <= n)%nat -> concat rss' = [].
Proof.
  intros Hdrop Hlen Hturns Hn. assert (Hall : Forall (fun l => l = []) rss').
  { apply Forall_lookup_2. intros i l Hl. assert (Hi : (i < length rss)%nat) by (rewrite <- Hlen; by eapply lookup_lt_Some).
    destruct (lookup_lt_is_Some_2 rss i Hi) as [l0 Hl0]. rewrite (Hdrop i l0 Hl0) in Hl. injection Hl as <-.
    apply drop_ge. specialize (Hturns i Hi). rewrite <- (take_drop_middle rss i l0 Hl0) in Hn.
    rewrite concat_app, length_app in Hn. cbn [concat] in Hn. rewrite length_app in Hn. lia. }
  clear - Hall. induction Hall as [|l rss0 -> _ IH]; [done|]. exact IH.
Qed.

(** The amounts of the posted bodies, as the payments say them. *)
Lemma posts_say (posts : list (list (list Z * list Z) * list Z)) amounts rs :
  Forall2 (fun p a => (length p.2 <= 70)%nat /\ body_says p.2 a) posts amounts ->
  Forall2 (fun body r => raw_string r = Ret body) (snd <$> posts) rs -> Forall2 payment_says rs amounts.
Proof.
  intros Hbodies Hraws. apply Forall2_fmap_l in Hraws. revert rs Hraws.
  induction Hbodies as [|p a posts amounts [_ Hpa] _ IH]; intros rs Hraws; inversion Hraws as [|? r ? rs' Hr Hrs]; subst; constructor.
  - by eapply body_payment_says.
  - by apply IH.
Qed.

(** The posts are accepted and everything they say is booked. *)
Lemma work_books posts amounts (c : Context V App) rest schedule (w : W) Up from to :
  let s := c.(app).(server).(service) in
  let start := s.(processed).(processed_start) in
  let from_ms := parse_timestamp_ms from in let to_ms := parse_timestamp_ms to in
  good_day posts amounts c rest schedule w Up from_ms to_ms ->
  exists log a, work (length posts) c schedule w = Ret (replicate (length posts) (Answered accepted_answer true), a) /\
    e_amount <$> log ≡ₚ amounts /\ a.(buffer) = c.(app).(buffer) /\
    (s.(routing).(fallback_enabled) = false -> Forall (fun e => e.(e_fallback) = false) log) /\
    query a.(server).(service).(processed) from to = Ret (log_summary start from_ms to_ms log) /\
    (finite_pair (log_summary start from_ms to_ms log) -> pair_wf (log_summary start from_ms to_ms log)) /\
    is_double (log_totals start from_ms to_ms log false).(totalAmount) /\
    is_double (log_totals start from_ms to_ms log true).(totalAmount) /\ length log = length posts.
Proof.
  intros s start from_ms to_ms [Hready Hposts Hs Hbodies Hk Hsize Hspace Hstaff Hpool Hsch (workers & -> & Hturns) Hup Hw Hwin Hfrom Hto Hbuf].
  set (srv := c.(app).(server)) in *.
  assert (Hlens : Forall (fun body => length body <= 70)%nat (snd <$> posts)).
  { apply Forall_fmap. eapply Forall2_Forall_l; [exact Hbodies|]. apply Forall_forall. by intros a _ p [? _]. }
  destruct (posts_staffed (snd <$> posts) srv _ [] Hstaff Hlens Hk Hsize)
    as (rs & srv' & rss' & Hall & Hraws & Hstaff' & Hperm & Hlen' & Hproc & Hrt & Hsp); [by rewrite length_fmap|].
  destruct (payments_served socket concurrency what error_message regex_what getenv easy_get local_time feature_order
    posts c rest srv' Hready Hposts Hs Hall) as (c' & Hrun & _ & _ & Happ).
  assert (Hcat : forall n, concat (replicate n ([] : list RawPayment)) = []) by (by induction n).
  rewrite Hcat, app_nil_r in Hperm. rewrite length_replicate in Hlen'. rewrite Hpool in Hsp.
  pose proof (posts_say _ _ _ Hbodies Hraws) as Hsays.
  assert (Hin : in_service rss' srv'.(service) ≡ₚ rs) by (unfold in_service; by rewrite Hsp, app_nil_r).
  assert (Hgood : Forall says_something (in_service rss' srv'.(service))).
  { rewrite Hin. eapply Forall2_Forall_l; [exact Hsays|]. apply Forall_forall. intros a _ r Hr. by exists a. }
  apply Forall_app in Hsch as [Hsch1 Hsch2]. rewrite <- Hlen' in Hsch1, Hsch2.
  destruct (service_run_books workers srv'.(service) rss' [] w Up from_ms to_ms Hstaff' Hsch1 Hgood)
    as (s1 & w1 & rss1 & b1 & log1 & Hrun1 & Hw1 & Hs1 & Hst1 & Hen1 & Hb1 & Hperm1 & Hdrop1 & Hlen1 & _);
    [by rewrite Hproc|done|done|].
  assert (Hrs : length rs = length posts) by (rewrite <- (Forall2_length _ _ _ Hraws); by rewrite length_fmap).
  assert (Hempty : concat rss1 = []).
  { apply (drained_empty rss' rss1 workers (length posts) Hdrop1 Hlen1); [|by rewrite Hperm, Hrs].
    rewrite Hlen'. intros i Hi. apply Hturns. lia. }
  destruct (service_run_books (replicate (length posts) (Pool 0)) s1 rss1 log1 w1 Up from_ms to_ms Hs1)
    as (s2 & w2 & rss2 & b2 & log2 & Hrun2 & Hw2 & Hs2 & Hst2 & Hen2 & Hb2 & Hperm2 & Hdrop2 & Hlen2 & Hpool2);
    [by rewrite Hlen1| |by rewrite Hst1, Hproc|done|done|].
  { rewrite <- Hperm1 in Hgood. by apply Forall_app in Hgood as [_ Hgood]. }
  assert (Hlast : in_service rss2 s2 = []).
  { unfold in_service. specialize (Hpool2 _ eq_refl). rewrite Hpool2, drop_ge.
    - rewrite (drained_empty rss1 rss2 (replicate (length posts) (Pool 0)) 0 Hdrop2 Hlen2); [done|lia|by rewrite Hempty].
    - apply Permutation_length in Hperm1. rewrite (Permutation_length Hin) in Hperm1. unfold in_service in Hperm1.
      rewrite !length_app, length_fmap, Hrs in Hperm1. lia. }
  rewrite Hlast, app_nil_r in Hperm2. cbn [List.app] in Hs2.
  set (log := log1 ++ log2) in *. rewrite Hen1 in Hb2.
  pose proof (Forall2_app Hb1 Hb2) as Hb. fold log in Hb.
  assert (Hbs : b1 ++ b2 ≡ₚ rs) by (by rewrite Hperm2, Hperm1).
  assert (Hn : length log = length posts) by (rewrite <- (Forall2_length _ _ _ Hb), Hbs; exact Hrs).
  assert (Hmax : Z.of_nat (length log) < 2 ^ 64).
  { rewrite Hn. destruct (queues (service srv)) as [|q qs]; [unfold sizeZ in Hsize; cbn in Hsize; lia|].
    apply Forall_cons in Hspace as [(Hwf & _ & Ht) _]. pose proof (wf_head q Hwf). lia. }
  pose proof (st_log _ _ _ Hs2) as Hrep. rewrite Hst1, Hproc in Hst2. change (processed_start (processed s2) = start) in Hst2.
  pose proof (rep_range _ _ Hrep) as Hrange. rewrite Hst2 in Hrange.
  destruct (booked_window _ from_ms to_ms start _ log false Hb Hrange Hmax) as (Hdef & Hvalid1).
  destruct (booked_window _ from_ms to_ms start _ log true Hb Hrange Hmax) as (Hfb & Hvalid2).
  destruct (Hup w Hw) as (_ & Htime & _). specialize (Hwin w Hw).
  assert (Hge : start <= to_ms / 1000 /\ 0 <= from_ms <= to_ms).
  { change (start <= u64 (time_now w) < start + PROCESSED_CAPACITY) in Htime. lia_div. }
  pose proof (log_counts start from_ms to_ms log) as Hcounts.
  assert (Hc0 : 0 <= totalRequests (log_totals start from_ms to_ms log false) /\ 0 <= totalRequests (log_totals start from_ms to_ms log true))
    by (cbn [totalRequests log_totals]; lia).
  assert (Hc1 : totalRequests (log_totals start from_ms to_ms log false) < 2 ^ 64 /\ totalRequests (log_totals start from_ms to_ms log true) < 2 ^ 64)
    by lia.
  exists log. eexists. split; [|split; [|split; [|split; [|split; [|split; [|split; [|split]]]]]]].
  - unfold work, many. rewrite Hrun. cbn [bind]. rewrite Happ. cbn [server with_server]. rewrite service_run_app, Hrun1.
    cbn [bind]. rewrite Hrun2. reflexivity.
  - rewrite (booked_amounts _ _ _ _ _ Hb), (says_amounts _ _ Hsays). by apply fmap_Permutation.
  - done.
  - intros Hdis. rewrite Hrt in Hb. apply Forall_forall. intros e (i & He)%list_elem_of_lookup_1.
    destruct (Forall2_lookup_r _ _ _ _ _ Hb He) as (r & _ & _ & Hl & _). by apply Hl.
  - cbn [server service]. unfold query. fold from_ms to_ms.
    rewrite (query_ms_spec _ log) by (rewrite ?Hst2; done || apply Hge). rewrite Hst2, Hdef, Hfb. reflexivity.
  - intros [Hf1 Hf2]. destruct Hc0, Hc1. split; (split; [by split|by split]).
  - exact Hvalid1.
  - exact Hvalid2.
  - exact Hn.
Qed.

Lemma window_bytes from to : Forall is_byte from -> Forall is_byte to ->
  Forall byte_pair [(str "from", from); (str "to", to)].
Proof. intros Hf Ht. repeat constructor; try done; cbn [fst snd]; repeat constructor; unfold is_byte; lia. Qed.

End Day.

(** ** The constructed service *)

(** The constructor establishes what [good_day] asks of the service: with at
    least one worker and libcurl's handles created, whatever the fallback
    settings, the service is staffed, empty, and has room for up to 100000
    payments in every queue. *)
Lemma constructed_service getenv curl_init base now m :
  0 <= base < 2 ^ 50 -> 0 < env_int getenv (str "WORKER_COUNT") 1 ->
  (forall i p, curl_init i p = true) -> Z.of_nat m <= QUEUE_CAPACITY ->
  exists s, PaymentService getenv curl_init base now = Ret s /\
    let srv := new_server s in
    0 < srv.(queue_size) /\ sizeZ s.(queues) = srv.(queue_size) /\ Forall (space_for m) s.(queues) /\
    staffed s (replicate (Z.to_nat srv.(queue_size)) []) [] /\ s.(spawned) = [].
Proof.
  intros Hb Hn Hcurl Hm. unfold PaymentService. set (n := env_int getenv (str "WORKER_COUNT") 1) in *.
  replace (n <? 0) with false by lia. eexists. split; [reflexivity|]. cbv zeta. unfold new_server, queue_count.
  cbn [queue_size queues]. assert (Hsz : sizeZ (replicate (Z.to_nat n) (new_queue (Z.to_nat QUEUE_CAPACITY))) = n).
  { unfold sizeZ. rewrite length_replicate. lia. }
  assert (Hq : queue_wf (new_queue (Z.to_nat QUEUE_CAPACITY))) by (apply new_queue_wf; unfold QUEUE_CAPACITY; lia).
  rewrite Hsz. split_and!; [done|done| | |done].
  - apply Forall_replicate. split; [done|]. unfold QUEUE_CAPACITY in *. cbn [head tail new_queue]. split; [|lia].
    unfold capacityZ, sizeZ, new_queue. cbn [queue]. rewrite length_replicate. lia.
  - split; cbn [running routing queues threads processed spawned]; [done|by left| | |by constructor|by apply new_processed_represents].
    + clear Hsz. induction (Z.to_nat n) as [|k IH]; [constructor|].
      cbn [replicate]. constructor; [|exact IH]. split; [done|]. by apply pending_nil.
    + intros i Hi. rewrite length_replicate in Hi. exists (new_thread getenv curl_init i).
      rewrite list_lookup_fmap, lookup_seq_lt by lia. split; [done|]. split; [|by intros ?].
      unfold handles_valid, new_thread. cbn. by rewrite !Hcurl.
Qed.

(** ** Two instances *)

(** What libcurl does with the other instance: the text of its answer arrives
    in pieces. *)
Definition delivers {V} socket concurrency (easy_get : list Z -> option (bool * Z * list (list Z))) (url : list Z)
    (answer : outcome (exchange * Context V App)) : Prop :=
  forall text c, answer = Ret (Answered (text_answer socket concurrency 200 (str "application/json") text) false, c) ->
    exists pieces, concat pieces = text /\ Forall (fun piece => sizeZ piece < 2 ^ 64) pieces /\
      easy_get (c_str url) = Some (true, 200, pieces).

(** The counts of two logs add. *)
Lemma pair_sum_counts startA startB from_ms to_ms logA logB :
  Z.of_nat (length logA + length logB) < 2 ^ 64 ->
  let res := pair_sum (log_summary startA from_ms to_ms logA) (log_summary startB from_ms to_ms logB) in
  res.(Types.def).(totalRequests) + res.(Types.fb).(totalRequests) = Z.of_nat (length logA + length logB).
Proof.
  intros Hlen res. pose proof (log_counts startA from_ms to_ms logA) as HA. pose proof (log_counts startB from_ms to_ms logB) as HB.
  unfold res. cbn [pair_sum log_summary add_totals log_totals totalRequests Types.def Types.fb] in *. rewrite !u64_small by lia. lia.
Qed.

Lemma plain_bytes value : plain_value value -> Forall is_byte value.
Proof.
  intros Hv. eapply Forall_impl; [exact Hv|]. intros c [Hc _]. unfold is_byte. unfold plain_char in Hc.
  apply andb_true_iff in Hc as [[[Hc _]%andb_true_iff _]%andb_true_iff _].
  unfold path_char, class_match, in_items, path_items in Hc. cbn [existsb fst snd andb orb xorb] in Hc. lia.
Qed.

Section Deployment.
Context {V : Type} `{Transport V} {W : Type} `{World W}.
Variables socketA socketB : list Z.
Variables concurrencyA concurrencyB : Z.
Variable what : cpp_exception -> list Z.
Variable error_message : V -> list Z.
Variable regex_what : list Z.
Variables getenvA getenvB : list Z -> option (list Z).
Variables easy_getA easy_getB : list Z -> option (bool * Z * list (list Z)).
Variable local_time : list Z.
Variable feature_order : list (list Z).

Let workB := work socketB concurrencyB what error_message regex_what getenvB easy_getB local_time feature_order.
Let onceB := serve_once socketB concurrencyB what error_message regex_what getenvB easy_getB local_time feature_order.
Let dayA := day socketA concurrencyA what error_message regex_what getenvA easy_getA local_time feature_order.

(** An instance answers the internal request with its own totals. *)
Lemma internal_answer (a : App) session net from to headers rest res :
  ready (mkContext session net a) -> plain_value from -> plain_value to -> Forall good_header headers ->
  stream (mkContext session net a) = request_text (str "GET") (internal_target from to) headers ++ rest ->
  query a.(server).(service).(processed) from to = Ret res -> pair_wf res -> stack_wf a.(buffer) ->
  exists c, onceB (mkContext session net a) =
    Ret (Answered (text_answer socketB concurrencyB 200 (str "application/json") (summary_text res)) false, c).
Proof.
  intros Hready Hf Ht Hh Hs Hq Hwf Hsb.
  destruct (summary_answered socketB concurrencyB what error_message regex_what getenvB easy_getB local_time feature_order
    _ _ _ headers rest res Hready (internal_target_says from to Hf Ht) Hh Hs) as (c & sb & Hrun & _); [|done|done|by exists c].
  unfold handler_totals. change (query_of _ (str "from") []) with from. change (query_of _ (str "to") []) with to.
  change (bytes_eqb _ (str "true")) with true. cbv iota. cbn [app]. by rewrite Hq.
Qed.

End Deployment.

(** ** An instance: two workers, a pool, three payments *)
Definition lone_routing : Routing := new_routing url_d url_f (double_of_Z 3) 1000 true.

Definition lone_service : Service :=
  mkService lone_routing [new_queue 4; new_queue 4] (new_processed 1751371500) [sample_thread; sample_thread] true false 0 0 100 [].

Definition lone_app : App := mkApp (new_server lone_service) new_StringBuffer no_profiler.

Definition lone_summary : list Z :=
  request_text (str "GET") (request_target (str "/payments-summary") [(str "from", sample_from); (str "to", sample_to)])
    [(str "Host", str "localhost")] ++ [].

Definition lone_schedule : list turn :=
  ([Worker 0; Worker 1; Pool 1; Worker 0; Worker 1; Pool 0; Worker 0; Worker 1] ++ replicate 3 (Pool 0))%nat.

#[local] Instance answering : World Z := {|
  time_now := fun w => w; clock_ns := fun _ => 5_000_000_000; curl_easy_perform := fun w _ => (w, mkPerform true 200 dzero) |}.

Lemma lone_staffed : staffed lone_service (replicate 2 []) [].
Proof.
  split; [reflexivity|left; vm_compute; auto| | |constructor|apply (new_processed_represents 1751371500); lia].
  - repeat constructor; try (apply new_queue_wf; lia).
  - intros i Hi. exists sample_thread. split; [|split; [by split|by intros ?]].
    cbn in Hi. destruct i as [|[|]]; [done|done|lia].
Qed.

Lemma lone_day : good_day sample_posts (double_of_Z <$> [1; 2; 3]) (sample_connection lone_app (concat (post_text <$> sample_posts) ++ [])) []
  lone_schedule 1751371506 (fun w => w = 1751371506) (parse_timestamp_ms sample_from) (parse_timestamp_ms sample_to).
Proof.
  split.
  - apply sample_ready.
  - repeat constructor; vm_compute; try reflexivity; discriminate.
  - apply sample_stream.
  - constructor; [split; [vm_compute; lia|]|constructor; [split; [vm_compute; lia|]|constructor; [split; [vm_compute; lia|]|constructor]]].
    + exists (str "a"), (str "1"). split; [reflexivity|]. split; [by_decide|]. split; [by_decide|vm_compute; reflexivity].
    + exists (str "b"), (str "2"). split; [reflexivity|]. split; [by_decide|]. split; [by_decide|vm_compute; reflexivity].
    + exists (str "c"), (str "3"). split; [reflexivity|]. split; [by_decide|]. split; [by_decide|vm_compute; reflexivity].
  - reflexivity.
  - reflexivity.
  - repeat constructor; vm_compute; intuition congruence.
  - exact lone_staffed.
  - reflexivity.
  - unfold lone_schedule. cbn [List.app replicate]. repeat constructor.
  - eexists. split; [reflexivity|].
    intros i Hi. change (Z.of_nat i < 2) in Hi. destruct i as [|[|]]; [vm_compute; lia|vm_compute; lia|lia].
  - intros w ->. split; [discriminate|]. split; [vm_compute; split; congruence|].
    intros h. exists 1751371506, (mkPerform true 200 dzero). split; [reflexivity|]. split; reflexivity.
  - reflexivity.
  - intros w ->. vm_compute. split; [reflexivity|discriminate].
  - vm_compute. discriminate.
  - reflexivity.
  - exact new_StringBuffer_wf.
Qed.

Definition lone_window (log : list entry) : SummaryPair :=
  log_summary 1751371500 (parse_timestamp_ms sample_from) (parse_timestamp_ms sample_to) log.


(** The text of an answer is determined by its bytes. *)
Lemma text_answer_text socket concurrency status content_type t t' :
  text_answer socket concurrency status content_type t = text_answer socket concurrency status content_type t' -> t = t'.
Proof.
  set (P := (str "HTTP/1.1 " ++ dec status ++ str " " ++ get_status_message (main_settings socket concurrency) status ++ CRLF ++
    str "Connection: keep-alive" ++ CRLF ++ str "Content-Length: ")%list).
  assert (Hx : forall t, text_answer socket concurrency status content_type t =
    P ++ dec (sizeZ t) ++ CRLF ++ (str "Content-Type: " ++ content_type ++ CRLFCRLF) ++ t).
  { intros u. unfold text_answer, P. by rewrite <- !app_assoc. }
  rewrite !Hx. clear Hx. intros Heq%app_inv_head.
  assert (Hspan : forall u s : list Z, span isdigit (dec (sizeZ u) ++ CRLF ++ s) = (dec (sizeZ u), CRLF ++ s)).
  { intros u s. apply span_app; [|done]. eapply Forall_impl; [apply dec_digits; unfold sizeZ; lia|]. intros c Hc. by apply isdigit_true. }
  pose proof (f_equal (span isdigit) Heq) as Hs. rewrite !Hspan in Hs. injection Hs as _ Hs.
  by apply app_inv_head in Hs.
Qed.

(** What the lone instance has booked after its day: the pool's first payment
    went to the fallback processor. *)
Definition lone_pair : SummaryPair :=
  mkSummaryPair (mkSummary 2 (double_of_Z 5)) (mkSummary 1 (double_of_Z 1)).

Lemma lone_totals answers a :
  work (str "/tmp/b") 4 (fun _ => []) (fun _ => []) [] (fun _ => None) (fun _ => None) [] [] 3
    (sample_connection lone_app (concat (post_text <$> sample_posts) ++ [])) lone_schedule 1751371506 = Ret (answers, a) ->
  query a.(server).(service).(processed) sample_from sample_to = Ret lone_pair /\ a.(buffer) = new_StringBuffer.
Proof.
  assert (Hc : match work (str "/tmp/b") 4 (fun _ => []) (fun _ => []) [] (fun _ => None) (fun _ => None) [] [] 3
      (sample_connection lone_app (concat (post_text <$> sample_posts) ++ [])) lone_schedule 1751371506 with
    | Ret (_, a) => query a.(server).(service).(processed) sample_from sample_to = Ret lone_pair /\
                    a.(buffer) = new_StringBuffer
    | _ => True end) by (vm_compute; split; reflexivity).
  intros Hw. by rewrite Hw in Hc.
Qed.

(** libcurl gives instance A the text of instance B. *)
Definition lone_easy_get (_ : list Z) : option (bool * Z * list (list Z)) :=
  Some (true, 200, [summary_text lone_pair]).

Definition lone_internal : list Z :=
  request_text (str "GET") (internal_target sample_from sample_to) [(str "Host", str "other")] ++ [].

Lemma lone_pair_wf : pair_wf lone_pair.
Proof. split; (split; [done|split; reflexivity]). Qed.

Lemma answered_bytes {C} b b' k k' (c c' : C) : Ret (Answered b k, c) = Ret (Answered b' k', c') -> b = b'.
Proof. by intros [= -> _ _]. Qed.

Lemma lone_delivers answers a :
  work (str "/tmp/b") 4 (fun _ => []) (fun _ => []) [] (fun _ => None) (fun _ => None) [] [] 3
    (sample_connection lone_app (concat (post_text <$> sample_posts) ++ [])) lone_schedule 1751371506 = Ret (answers, a) ->
  delivers (str "/tmp/b") 4 lone_easy_get (summary_url sample_url sample_from sample_to)
    (serve_once (str "/tmp/b") 4 (fun _ => []) (fun _ => []) [] (fun _ => None) (fun _ => None) [] []
      (mkContext new_session [lone_internal] a)).
Proof.
  intros (Hq & Hsb)%lone_totals text c Hrun.
  destruct (internal_answer (V := list (list Z)) (str "/tmp/b") 4 (fun _ => []) (fun _ => []) [] (fun _ => None) (fun _ => None) [] []
    a new_session [lone_internal] sample_from sample_to [(str "Host", str "other")] [] lone_pair) as (c' & Hc').
  - split; [reflexivity|split; reflexivity].
  - repeat constructor; discriminate.
  - repeat constructor; discriminate.
  - repeat constructor; discriminate.
  - unfold stream, unread. cbn [session net Chunks]. vm_compute. reflexivity.
  - exact Hq.
  - exact lone_pair_wf.
  - rewrite Hsb. exact new_StringBuffer_wf.
  - rewrite Hc' in Hrun. apply answered_bytes, text_answer_text in Hrun as <-.
    exists [summary_text lone_pair]. split; [apply app_nil_r|]. split; [|reflexivity].
    constructor; [vm_compute; reflexivity|constructor].
Qed.

